(* ===== verification/_CoqProject ===== *)
-Q . S2P
Prelude.v
Float.v
Sysinfo.v
ByteOrder.v
EncDec.v
Derive.v
Timestamp.v
Types.v
MergeOperation.v
Table.v
Rocks.v
CoreTables.v
KvStore.v
KvStoreLaws.v
Commit.v
RollbackBuffer.v
Bitcoin.v
Context.v
AddressIndexers.v
RunesTables.v
Runes.v
Charms.v
Derived.v
Indexers.v
Stage.v
Instances.v
StageLaws.v
RuneNames.v
Chain.v
UtxoSet.v
UtxoLaws.v
UtxoBlock.v
BlockTotal.v
RunesLaws.v
AddressLaws.v
AddressTable.v
CacheFlow.v
ChainUtxos.v
History.v
Persist.v
Durable.v
Restart.v
Peer.v
PeerLaws.v
Connection.v
Pull.v
PullLaws.v
PullChain.v
Pipeline.v
Text.v
Open.v
Reports.v
Serve.v
Routes.v
Server.v
ServeLaws.v
Served.v
Reorg.v
Api.v
RouteLaws.v
AddressAnswers.v
ReorgAnswers.v
NextBlock.v
Process.v
Service.v
Race.v
