(* ===== verification/Prelude.v ===== *)
(** * Maestro Symphony: a verification library

    Maestro Symphony (src/) follows a Bitcoin node, keeps indexes of the chain
    in RocksDB and answers HTTP requests from them.  One stage pulls blocks
    from the node and sends chain events; a second stage indexes the events
    and commits one batch per block, with what is needed to undo it; the HTTP
    server reads the committed data at the timestamp of the confirmed tip or
    of the mempool snapshot on top of it.

    ** The parts and their models

    - Shared: [Prelude] (results and errors of Rust code, machine integers
      with their wrap-around, loops that may fail, lists); [ByteOrder] and
      [EncDec] (src/src/storage/encdec: the codecs, the ranges of a prefix);
      [Derive] (src/macros: the derive macros as functions from a declaration
      to the code they generate, and what that code does) and [Derived] (the
      declarations of the stored types, whose codecs the components write in
      closed form); [Types] (points, transaction outputs, errors); [Float] and
      [Sysinfo] (the floating-point budgets of the configuration and what is
      read of the machine).
    - Storage (src/src/storage): [Timestamp] (timestamp.rs), [MergeOperation]
      (merge_operation.rs), [Table] (table.rs), [KvStore] (kv_store.rs: tasks
      that buffer writes, commits, readers), [CoreTables] (the tables every
      deployment has), [Open] (opening the database with its options and
      memory budget, the refresh of a secondary, the statistics).  [Rocks] is
      the interface of RocksDB and what its documentation promises.
      [Reports] has what is logged: the statistics at their ticks
      (stats_logger.rs), the cache hits and the times of a block.
    - Index stage (src/src/sync/stages/index): [RollbackBuffer]
      (rollback/buffer.rs), [Context] (worker/context.rs and the UTXO cache),
      [AddressIndexers], [RunesTables], [Runes], [Charms] (indexers/custom),
      [Indexers] (the registry, and the class [IndexerOk] an indexer
      fulfils), [Stage] (worker/stage.rs: start, bootstrap, schedule and
      execute of the worker), [Chain] (the points offered to a peer).
    - Pull stage (src/src/sync/stages/pull): [Peer] (peer.rs: framing, the
      tasks of a connection as interleaved steps, the client side),
      [Connection] (peer.rs: how a connection is made, the egress, the ends of
      the tasks) and [Pull] (stage.rs: the turns behind the tip and on it, the
      cursor, the events).
    - [Pipeline] (src/src/sync/pipeline.rs) puts both stages on one store;
      [Service] sets them in motion, with the queue between them, at their own
      pace and through restarts of the process.
    - HTTP server (src/src/serve): [Text] (the text functions of utils.rs and
      what they use of Rust's strings), [Serve] (mod.rs, reader_wrapper.rs,
      error.rs, types.rs: the reader of a request, the tip, the dump),
      [Routes] (every handler under routes/), [Server] (mod.rs and the router
      functions: the route tables, the dispatch, the layer before a request)
      and [Api] (openapi.rs and the utoipa attributes).
    - [Process] (src/src/main.rs, src/src/shutdown.rs): the configuration, the
      commands, and the tasks of the run mode as turns on one state.
    - [Bitcoin], [Instances]: the interface of the bitcoin crate, and small
      models of all interfaces on which examples are evaluated.

    A mutable Rust object is a record passed through the calls; [&mut self] is
    the record in the result.  A function that may fail gives a [Res]: [Ok],
    an error, or a panic.  Machine integers are [N] with the wrap-around of a
    release build written out; hash maps are [gmap]; bytes are lists of
    [Byte.byte]; what the code iterates in an unspecified order is iterated in
    an order that is a parameter ([HashOrder]).

    ** The theorems

    - Commits ([KvStoreLaws], [Commit]): the reads of a task see the store
      with the buffered writes on top; a commit makes exactly these durable,
      records the original values of what it changes, keeps the window of
      undo records and leaves what earlier readers see.
    - Rollbacks ([StageLaws], [History]): what an event buffers is typed by
      its keys, so that its commit succeeds; undoing blocks restores the data
      before them; a worker does what an ideal one does that keeps a copy of
      its data after every block; the stored chain follows the events.
    - Restarts ([Persist], [Durable], [Restart]): the persisted undo records
      are those of the buffer in memory through every event; a process that is
      started again on data that was all kept resumes where the last one
      stopped, and through any number of restarts, which may lose the newest
      commits, the stored chain is the one that the events whose commits were
      kept describe.
    - The chain ([Chain], [RollbackBuffer]): guards of the next block,
      the locator of a peer and its termination, the bounds and the
      persistence of the rollback buffer.
    - Unspent outputs ([UtxoSet], [UtxoLaws], [UtxoBlock], [BlockTotal]): the
      abstract set, the simulation of it by cache, table and in-block
      chaining, and the progress of the worker on valid blocks.
    - Indexers ([AddressLaws], [RunesLaws], [RuneNames]): listings and counters
      follow the transactions; what a runestone moves is conserved but for what
      is burned, mints stay within terms, names are etched once.  [AddressTable] keeps the table of outputs by address and
      the set of unspent outputs in agreement through a block, whatever other
      indexers run: an indexer writes only under its own keys ([IndexerOwn]).
    - The index of a chain that changes ([ChainUtxos], [CacheFlow], [Reorg]):
      through blocks, rollbacks, mempool snapshots and restarts the store
      holds the unspent outputs of the chain; the cache, which rollbacks leave
      alone, may keep outputs of undone blocks but nothing that contradicts a
      block that stays.  Each block is assumed to be valid on its chain,
      which the node checks and this program does not.
    - From blocks to answers ([AddressAnswers], [Served], [ReorgAnswers]):
      once a block is indexed, a request for the outputs of an address is
      answered with exactly the unspent outputs that pay it.  What is served
      is the chain as of the last block that was indexed ([served_chain]):
      neither a mempool snapshot nor a rollback changes an answer, so that
      undone data is served until the next block comes.  [NextBlock] shows that
      the next valid block is always indexed and then served.
    - The node ([PeerLaws], [Connection], [PullLaws], [PullChain],
      [Pipeline]): frames are relayed in order through every interleaving and
      whatever fails, a failed handshake hangs, blocks match what was
      requested, the events sent apply to the announced chain, a fetch makes
      progress, and both stages stay in step.  [Service] composes all of it:
      from an empty store, through bootstraps, turns, events worked through in
      between and restarts, the store holds the chain the processed events
      describe and the queue leads from there to the chain of the node, as
      long as no turn is taken while a rollback of stored blocks waits;
      [Race] shows that otherwise a block that is not announced any more may
      be offered to the node, and then the index stage panics.
    - Answers ([ServeLaws], [RouteLaws]): a request works on the committed
      snapshot it asked for; the listings and sums of an address agree with
      the tables and with each other; every documented request but one reaches
      its handler and is answered as documented unless the handler panics
      ([Api]).
    - The process ([Open], [Process]): the memory budget is split exactly; the
      run mode stops for a reason, and stops when its server ends.
    - Codecs and keys ([EncDec], [Derive], [Derived], [ByteOrder],
      [Timestamp], [MergeOperation], [Table]): round trips, of generated
      codecs too, key order, ranges, timestamps that grow, the merge
      operators.

    ** Bounds and fuel

    The loop over the locator's heights has fuel [intersect_fuel] = 72: the
    step doubles, so 64 rounds exhaust a 64-bit height, and
    [Chain.intersect_heights_terminates] proves that 72 suffice.  The loop of
    the ingress runs on the answers that its sends get, one for each message
    (taken, receiver gone, or none while it waits), and as many as its stream
    has bytes are enough ([PeerLaws.ingress_terminates]); the loop that estimates the tip takes
    one round for each message of headers the node will send and one more; the
    trimming of text takes the length of the text.

    ** Crashes

    Both writes of the index, a commit and a rollback, turn the write-ahead
    log off, and a signal exits the process at once.  A process that starts
    again therefore finds the database as one of the commits since it was last
    opened has left it ([Rocks.found_after], [Restart.lived]): RocksDB flushes
    in the order of the writes, so what is lost are the newest commits, and a
    batch is not split.  An event that failed is part of this as far as the
    store goes: what it has committed is the undo of a mempool snapshot or
    nothing, and the next process may find it.  The point below which history
    may be collapsed ([db_low], full_history_ts_low) may survive commits that
    are lost; where an answer depends on it the theorem says so
    ([Served.confirmed_readable]), and the next commit restores it.  The
    readings of clock and memory are arguments ([Stage.Clock],
    [Context.MemoryReading]).

    ** What is not modelled

    RocksDB, the bitcoin, ordinals and charms crates, mini_moka, gasket, the
    RPC client, axum's router, tokio's interval, the config crate and the
    machine (its clock, memory and shutdown signals) are not part of the
    repository: they are parameters, with laws where the theorems need
    documented behaviour ([RocksDBOk], [MokaCacheOk], [ConsensusOk],
    [IndexMapOk], [HashOrderOk], [AxumOk]), each with a model in [Instances]
    or beside its examples.  The state in memory left
    behind by an event that failed is not modelled: the runtime may retry the
    stage in the same process, and here a failed event is followed by a new
    process.  The axum and tokio runtimes, the extraction of query
    parameters and the rendering of JSON, the parsing of the command line and
    of the configuration's sources, the installation of signal handlers,
    metrics and most texts of the log are left out.  Capacity reservations are
    not modelled, except the one of a message of headers, whose size the peer
    chooses.  What the derive macros read is a declaration as syn parses it,
    without attributes or type parameters, and what they generate is a term of
    a small language with a meaning of its own, not tokens: that rustc takes
    those tokens the same way is assumed. *)
From Stdlib Require Export NArith Strings.Byte Lia.
From stdpp Require Export prelude gmap strings sorting.

#[global] Set Default Goal Selector "!".

#[global] Obligation Tactic := idtac.

Create HintDb symphony discriminated.

(** ** Machine integers

    An unsigned Rust integer is an [N]; its width is written out where it
    matters.  The names below are kept opaque to instance resolution, so that
    the codec of a [u16] is never confused with the codec of a [u64]. *)
Declare Scope symphony_scope.
Delimit Scope symphony_scope with sym.

Definition u8 : Type := byte.
Definition u16 : Type := N.
Definition u32 : Type := N.
Definition u64 : Type := N.
Definition u128 : Type := N.
Definition usize : Type := N.

(** [[u8; n]]: a byte array; the length is part of the validity predicate. *)
Definition u8arr (n : nat) : Type := list byte.

#[global] Typeclasses Opaque u16 u32 u64 u128 usize u8arr.

Bind Scope N_scope with u16 u32 u64 u128 usize.

Definition MAX (w : N) : N := (2 ^ w - 1)%N.
Abbreviation u16_MAX := (MAX 16).
Abbreviation u32_MAX := (MAX 32).
Abbreviation u64_MAX := (MAX 64).
Abbreviation u128_MAX := (MAX 128).

(** [x] is representable on [w] bits. *)
Definition fits (w x : N) : Prop := (x < 2 ^ w)%N.

Definition wrapping_add (w a b : N) : N := ((a + b) mod 2 ^ w)%N.
Definition wrapping_sub (w a b : N) : N := ((a + 2 ^ w - b) mod 2 ^ w)%N.
Definition saturating_add (w a b : N) : N := N.min (a + b) (MAX w).
Definition saturating_sub (a b : N) : N := (a - b)%N.
Definition checked_add (w a b : N) : option N :=
  if (a + b <? 2 ^ w)%N then Some (a + b)%N else None.
Definition checked_sub (a b : N) : option N :=
  if (b <=? a)%N then Some (a - b)%N else None.

#[export] Instance fits_dec w x : Decision (fits w x).
Proof. unfold fits. apply _. Defined.

Lemma pow2_pos w : (0 < 2 ^ w)%N.
Proof. apply N.neq_0_lt_0, N.pow_nonzero. lia. Qed.

Lemma fits_0 w : fits w 0.
Proof. apply pow2_pos. Qed.

Lemma saturating_add_fits w a b : fits w (saturating_add w a b).
Proof. unfold fits, saturating_add, MAX. pose proof (pow2_pos w). lia. Qed.

Lemma saturating_sub_fits w a b : fits w a → fits w (saturating_sub a b).
Proof. unfold fits, saturating_sub. lia. Qed.

Lemma saturating_add_exact w a b : fits w (a + b)%N → saturating_add w a b = (a + b)%N.
Proof. unfold fits, saturating_add, MAX. lia. Qed.

Lemma wrapping_add_exact w a b : fits w (a + b)%N → wrapping_add w a b = (a + b)%N.
Proof. intros H. unfold wrapping_add. by apply N.mod_small. Qed.

Lemma checked_add_exact w a b : fits w (a + b) → checked_add w a b = Some (a + b)%N.
Proof. intros Hf. unfold checked_add. by rewrite (proj2 (N.ltb_lt _ _) Hf). Qed.

Lemma wrapping_sub_exact w a b : (b <= a)%N → fits w a → wrapping_sub w a b = (a - b)%N.
Proof.
  intros Hle Hf. unfold wrapping_sub, fits in *. replace (a + 2 ^ w - b)%N with ((a - b) + 1 * 2 ^ w)%N by lia.
  rewrite N.Div0.mod_add. apply N.mod_small. lia.
Qed.

Lemma wrapping_add_fits w a b : fits w (wrapping_add w a b).
Proof. apply N.mod_lt, N.pow_nonzero. lia. Qed.

Lemma fits_le w x y : (x <= y)%N → fits w y → fits w x.
Proof. unfold fits. lia. Qed.

Lemma fits_mono w1 w2 x : (w1 <= w2)%N → fits w1 x → fits w2 x.
Proof.
  unfold fits. intros Hw Hx. pose proof (N.pow_le_mono_r 2 w1 w2). lia.
Qed.

(** ** Fallible code

    [Ok] and [Err] are the two sides of a Rust [Result]; [Panic] is an
    [unwrap], [expect], [assert!] or [panic!] that fires. *)
Inductive Res (E A : Type) : Type :=
| Ok (a : A)
| Err (e : E)
| Panic (why : string).
Arguments Ok {E A} a.
Arguments Err {E A} e.
Arguments Panic {E A} why.

(** The operator [?]: goes on with the value, or leaves with the failure. *)
Definition rbind {E A B} (r : Res E A) (f : A → Res E B) : Res E B :=
  match r with
  | Ok a => f a
  | Err e => Err e
  | Panic why => Panic why
  end.

Notation "x ← y ; z" := (rbind y (λ x : _, z))
  (at level 20, y at level 100, z at level 200, only parsing) : symphony_scope.
Notation "' x ← y ; z" := (rbind y (λ x : _, z))
  (at level 20, x pattern, y at level 100, z at level 200, only parsing) : symphony_scope.
#[global] Open Scope symphony_scope.

Definition rmap {E A B} (f : A → B) (r : Res E A) : Res E B := x ← r; Ok (f x).

(** [Result::map_err], the conversion the operator [?] applies. *)
Definition map_err {E F A} (f : E → F) (r : Res E A) : Res F A :=
  match r with
  | Ok a => Ok a
  | Err e => Err (f e)
  | Panic why => Panic why
  end.

(** [Option::ok_or] and [Option::expect]. *)
Definition ok_or {E A} (o : option A) (e : E) : Res E A :=
  match o with Some a => Ok a | None => Err e end.
Definition expect {E A} (o : option A) (why : string) : Res E A :=
  match o with Some a => Ok a | None => Panic why end.

(** [assert!]. *)
Definition assert {E} (b : bool) (why : string) : Res E unit :=
  if b then Ok tt else Panic why.

Definition is_ok {E A} (r : Res E A) : bool :=
  match r with Ok _ => true | _ => false end.

Definition unwrap_or {E A} (a : A) (r : Res E A) : A :=
  match r with Ok a => a | _ => a end.

Lemma is_ok_unwrap {E A} (a : A) (r : Res E A) : is_ok r = true → r = Ok (unwrap_or a r).
Proof. by destruct r. Qed.

(** A loop that threads a state and leaves at the first failure. *)
Fixpoint for_each {E A S} (l : list A) (s : S) (body : S → A → Res E S) : Res E S :=
  match l with
  | [] => Ok s
  | x :: l => s ← body s x; for_each l s body
  end.

(** [Iterator::filter_map]. *)
Fixpoint filter_map {A B} (f : A → option B) (l : list A) : list B :=
  match l with
  | [] => []
  | x :: l => match f x with Some y => y :: filter_map f l | None => filter_map f l end
  end.

Lemma elem_of_filter_map {A B} (f : A → option B) l y :
  y ∈ filter_map f l ↔ ∃ x, x ∈ l ∧ f x = Some y.
Proof.
  induction l as [|x l IH]; simpl.
  - split; [by intros ?%not_elem_of_nil|intros (x & Hx & _); by apply not_elem_of_nil in Hx].
  - destruct (f x) as [z|] eqn:Hz.
    + rewrite elem_of_cons, IH. setoid_rewrite elem_of_cons. split.
      * intros [->|(x' & Hx' & Hf)]; eauto.
      * intros (x' & [->|Hx'] & Hf); [left; congruence|eauto].
    + rewrite IH. setoid_rewrite elem_of_cons. split.
      * intros (x' & Hx' & Hf). eauto.
      * intros (x' & [->|Hx'] & Hf); [congruence|eauto].
Qed.

Lemma filter_ext_in {A} (P Q : A → Prop) `{∀ x, Decision (P x), ∀ x, Decision (Q x)} (l : list A) :
  (∀ x, x ∈ l → P x ↔ Q x) → filter P l = filter Q l.
Proof.
  induction l as [|x l IH]; intros Heq; [done|]. rewrite !filter_cons.
  rewrite (decide_ext _ (Q x)) by (apply Heq; by left). rewrite IH; [done|]. intros y Hy. apply Heq. by right.
Qed.

Lemma filter_all {A} (P : A → Prop) `{∀ x, Decision (P x)} (l : list A) :
  (∀ x, x ∈ l → P x) → filter P l = l.
Proof.
  induction l as [|x l IH]; intros Hall; [done|]. rewrite filter_cons_True by (apply Hall; by left).
  f_equal. apply IH. intros y Hy. apply Hall. by right.
Qed.

Section Res.
Context {E : Type}.

Lemma res_bind_ok {A B} (r : Res E A) (f : A → Res E B) b :
  rbind r f = Ok b ↔ ∃ a, r = Ok a ∧ f a = Ok b.
Proof. destruct r as [a|e|w]; simpl; (split; [intros Hf|intros (x & Hx & Hf)]; [by eauto || done|by simplify_eq]). Qed.

Lemma rbind_ok {A B} (r : Res E A) (f : A → Res E B) a s : r = Ok a → f a = s → rbind r f = s.
Proof. by intros -> <-. Qed.

Lemma for_each_app {A S} (l1 l2 : list A) (s : S) (body : S → A → Res E S) :
  for_each (l1 ++ l2) s body = (s' ← for_each l1 s body; for_each l2 s' body).
Proof. revert s. induction l1 as [|x l1 IH]; intros s; [done|]. simpl. destruct (body s x); simpl; auto. Qed.

Lemma for_each_ext {A S} (f g : S → A → Res E S) l s :
  (∀ s x, f s x = g s x) → for_each l s f = for_each l s g.
Proof.
  intros Hfg. revert s. induction l as [|x l IH]; intros s; [done|]. cbn [for_each]. rewrite Hfg.
  destruct (g s x); cbn [rbind]; auto.
Qed.

(** A loop that pushes what it gets of each element, or of some. *)
Definition collect {A B} (l : list A) (get : A → Res E B) : Res E (list B) :=
  for_each l [] (λ out x, y ← get x; Ok (out ++ [y])).

Lemma for_each_collect {A B S} (get : A → Res E B) (f : S → B → S) (l : list A) (s : S) :
  for_each l s (λ s x, y ← get x; Ok (f s y)) = (ys ← collect l get; Ok (foldl f s ys)).
Proof.
  unfold collect. assert (∀ out s0, for_each l (foldl f s0 out) (λ s x, y ← get x; Ok (f s y)) =
    (ys ← for_each l out (λ out x, y ← get x; Ok (out ++ [y])); Ok (foldl f s0 ys))) as Hgen.
  { induction l as [|x l IH]; intros out s0; [done|]. cbn [for_each]. destruct (get x) as [y| |]; cbn [rbind]; [|done..].
    rewrite <-IH, foldl_app. done. }
  apply (Hgen [] s).
Qed.

Lemma foldl_push {A B} (P : A → Prop) `{∀ x, Decision (P x)} (f : A → B) (l : list A) (out : list B) :
  foldl (λ out x, if decide (P x) then out ++ [f x] else out) out l = out ++ (f <$> filter P l).
Proof.
  revert out. induction l as [|x l IH]; intros out; [by rewrite app_nil_r|]. cbn [foldl]. rewrite IH, filter_cons.
  destruct (decide (P x)); [|done]. by rewrite <-app_assoc.
Qed.

Lemma foldl_push_all {A B} (f : A → B) (l : list A) (out : list B) :
  foldl (λ out x, out ++ [f x]) out l = out ++ (f <$> l).
Proof.
  revert out. induction l as [|x l IH]; intros out; [by rewrite app_nil_r|]. cbn [foldl]. by rewrite IH, <-app_assoc.
Qed.

(** The invariant rule of [for_each]. *)
Lemma for_each_ind {A S} (P : list A → S → Prop) (body : S → A → Res E S) :
  (∀ x l s s', P (x :: l) s → body s x = Ok s' → P l s') →
  ∀ l s s', P l s → for_each l s body = Ok s' → P [] s'.
Proof.
  intros Hstep. induction l as [|x l IH]; intros s s' HP Hf; simpl in Hf; [by simplify_eq|].
  apply res_bind_ok in Hf as (s1 & Hs1 & Hf). eauto.
Qed.

(** The same, for a loop that never fails. *)
Lemma for_each_total {A S} (P : list A → S → Prop) (body : S → A → Res E S) :
  (∀ x l s, P (x :: l) s → ∃ s', body s x = Ok s' ∧ P l s') →
  ∀ l s, P l s → ∃ s', for_each l s body = Ok s' ∧ P [] s'.
Proof.
  intros Hstep. induction l as [|x l IH]; intros s HP; [by exists s|].
  destruct (Hstep x l s HP) as (s1 & Hs1 & HP1). destruct (IH s1 HP1) as (s' & Hs' & HP').
  exists s'. cbn [for_each]. by rewrite Hs1.
Qed.

Lemma for_each_inv {A S} (P : S → Prop) (body : S → A → Res E S) l s s' :
  (∀ x s1 s2, x ∈ l → P s1 → body s1 x = Ok s2 → P s2) →
  P s → for_each l s body = Ok s' → P s'.
Proof.
  revert s. induction l as [|x l IH]; intros s Hstep HP Hf; simpl in Hf; [by simplify_eq|].
  apply res_bind_ok in Hf as (s1 & Hs1 & Hf).
  eapply IH; [| |done]; [|eapply Hstep; [left|..]; eauto].
  intros y s2 s3 Hy. apply Hstep. by right.
Qed.
End Res.

(** Opens every successful bind of a hypothesis. *)
Ltac inv_bind :=
  repeat match goal with
  | H : rbind _ _ = Ok _ |- _ => apply res_bind_ok in H as (? & ? & ?)
  | H : rmap _ ?r = Ok _ |- _ => destruct r eqn:?; simpl in H; simplify_eq
  | H : map_err _ ?r = Ok _ |- _ => destruct r eqn:?; simpl in H; simplify_eq
  | H : ok_or ?r _ = Ok _ |- _ => destruct r eqn:?; simpl in H; simplify_eq
  | H : expect ?r _ = Ok _ |- _ => destruct r eqn:?; simpl in H; simplify_eq
  | H : assert ?b _ = Ok _ |- _ => destruct b eqn:?; simpl in H; simplify_eq
  | p : _ * _ |- _ => destruct p; simpl in *
  end.

(** ** Standard collections with an unspecified iteration order

    A [HashMap] is a [gmap] and a [HashSet] a [gset]; the order in which Rust
    iterates over them is a parameter, of which only the contents are known. *)
Class HashOrder : Type := {
  hm_iter : ∀ {K V : Type} `{Countable K}, gmap K V → list (K * V);
  hs_iter : ∀ {K : Type} `{Countable K}, gset K → list K;
}.

Class HashOrderOk `{HashOrder} : Prop := {
  hm_iter_perm : ∀ {K V : Type} `{Countable K} (m : gmap K V), hm_iter m ≡ₚ map_to_list m;
  hs_iter_perm : ∀ {K : Type} `{Countable K} (s : gset K), hs_iter s ≡ₚ elements s;
}.

(** The order used when a closed example is evaluated. *)
Definition sorted_hash_order : HashOrder := {|
  hm_iter := λ K V _ _ m, map_to_list m;
  hs_iter := λ K _ _ s, elements s;
|}.

Lemma sorted_hash_order_ok : @HashOrderOk sorted_hash_order.
Proof. split; done. Qed.

(** ** Bytes *)
#[export] Instance byte_eq_dec : EqDecision byte := Byte.byte_eq_dec.
#[export] Program Instance byte_countable : Countable byte :=
  inj_countable Byte.to_N Byte.of_N _.
Next Obligation. intros b. apply Byte.of_to_N. Qed.

#[export] Instance u8arr_eq_dec n : EqDecision (u8arr n) := list_eq_dec.
#[export] Instance u8arr_countable n : Countable (u8arr n) := list_countable.
#[export] Instance u64_eq_dec : EqDecision u64 := N.eq_dec.
#[export] Instance u32_eq_dec : EqDecision u32 := N.eq_dec.
#[export] Instance u16_eq_dec : EqDecision u16 := N.eq_dec.
#[export] Instance u128_eq_dec : EqDecision u128 := N.eq_dec.
#[export] Instance u64_countable : Countable u64 := N_countable.
#[export] Instance u32_countable : Countable u32 := N_countable.
#[export] Instance u128_countable : Countable u128 := N_countable.

Definition byte_val (b : byte) : N := Byte.to_N b.

(** A truncating cast [as u8]. *)
Definition byte_of (n : N) : byte :=
  match Byte.of_N (n mod 256) with Some b => b | None => x00 end.

Lemma byte_val_bound b : (byte_val b < 256)%N.
Proof. pose proof (Byte.to_N_bounded b). unfold byte_val. lia. Qed.

Lemma byte_of_val b : byte_of (byte_val b) = b.
Proof.
  unfold byte_of. rewrite N.mod_small by apply byte_val_bound.
  unfold byte_val. by rewrite Byte.of_to_N.
Qed.

Lemma byte_val_of n : byte_val (byte_of n) = (n mod 256)%N.
Proof.
  unfold byte_of. destruct (Byte.of_N (n mod 256)) as [b|] eqn:Hb.
  - by apply Byte.to_of_N in Hb.
  - apply Byte.of_N_None_iff in Hb. pose proof (N.mod_lt n 256). lia.
Qed.

Lemma byte_val_inj a b : byte_val a = byte_val b → a = b.
Proof. intros H. by rewrite <-(byte_of_val a), H, byte_of_val. Qed.

(** The big-endian value of a byte string, and the [n] low bytes of a number. *)
Definition be_val (l : list byte) : N :=
  foldl (λ acc b, acc * 256 + byte_val b)%N 0%N l.

Fixpoint le_bytes (n : nat) (x : N) : list byte :=
  match n with
  | O => []
  | S n => byte_of x :: le_bytes n (x / 256)
  end.
Definition be_bytes (n : nat) (x : N) : list byte := reverse (le_bytes n x).

Fixpoint le_val (l : list byte) : N :=
  match l with
  | [] => 0
  | b :: l => byte_val b + 256 * le_val l
  end%N.

Lemma length_le_bytes n x : length (le_bytes n x) = n.
Proof. revert x. induction n; simpl; auto. Qed.

Lemma length_be_bytes n x : length (be_bytes n x) = n.
Proof. unfold be_bytes. by rewrite length_reverse, length_le_bytes. Qed.

Lemma pow256_S n : (256 ^ N.of_nat (S n) = 256 * 256 ^ N.of_nat n)%N.
Proof. by rewrite Nat2N.inj_succ, N.pow_succ_r'. Qed.

Lemma pow256_pos n : (0 < 256 ^ n)%N.
Proof. apply N.neq_0_lt_0, N.pow_nonzero. lia. Qed.

Lemma le_val_bytes n x : le_val (le_bytes n x) = (x mod 256 ^ N.of_nat n)%N.
Proof.
  revert x. induction n as [|n IH]; intros x; simpl; [by rewrite N.mod_1_r|].
  rewrite byte_val_of, IH, pow256_S.
  rewrite N.Div0.mod_mul_r by lia. lia.
Qed.

Lemma le_bytes_val l : le_bytes (length l) (le_val l) = l.
Proof.
  induction l as [|b l IH]; simpl; [done|].
  assert ((byte_val b + 256 * le_val l) / 256 = le_val l)%N as ->.
  { rewrite N.mul_comm, N.div_add by lia. rewrite N.div_small; [lia|apply byte_val_bound]. }
  rewrite IH. f_equal. apply byte_val_inj. rewrite byte_val_of.
  rewrite N.mul_comm, N.Div0.mod_add. apply N.mod_small, byte_val_bound.
Qed.

Lemma le_val_bound l : (le_val l < 256 ^ N.of_nat (length l))%N.
Proof.
  rewrite <-(le_bytes_val l) at 1. rewrite le_val_bytes.
  apply N.mod_lt, N.pow_nonzero. lia.
Qed.

Lemma be_val_app l1 l2 : be_val (l1 ++ l2) = (be_val l1 * 256 ^ N.of_nat (length l2) + be_val l2)%N.
Proof.
  unfold be_val. rewrite foldl_app. generalize (foldl (λ acc b, acc * 256 + byte_val b)%N 0%N l1).
  induction l2 as [|b l2 IH] using rev_ind; intros a; [change (256 ^ N.of_nat (length (@nil byte)))%N with 1%N; simpl; lia|].
  rewrite !foldl_snoc, IH, length_app. simpl length.
  rewrite Nat.add_1_r, pow256_S. ring.
Qed.

Lemma be_val_reverse l : be_val (reverse l) = le_val l.
Proof.
  induction l as [|b l IH]; [done|].
  rewrite reverse_cons, be_val_app, IH. change (be_val [b]) with (byte_val b).
  change (256 ^ N.of_nat (length [b]))%N with 256%N. simpl le_val. lia.
Qed.

Lemma be_val_bound l : (be_val l < 256 ^ N.of_nat (length l))%N.
Proof. rewrite <-(reverse_involutive l), be_val_reverse, length_reverse. apply le_val_bound. Qed.

Lemma be_val_bytes n x : be_val (be_bytes n x) = (x mod 256 ^ N.of_nat n)%N.
Proof. unfold be_bytes. by rewrite be_val_reverse, le_val_bytes. Qed.

Lemma be_bytes_val l : be_bytes (length l) (be_val l) = l.
Proof.
  unfold be_bytes. rewrite <-(reverse_involutive l) at 2.
  rewrite be_val_reverse, <-(length_reverse l), le_bytes_val. apply reverse_involutive.
Qed.

Lemma be_val_zeros n l : be_val (replicate n x00 ++ l) = be_val l.
Proof.
  rewrite be_val_app. enough (be_val (replicate n x00) = 0%N) as -> by lia.
  induction n as [|n IH]; [done|]. rewrite replicate_S_end, be_val_app, IH. done.
Qed.

Lemma be_val_cons b l : be_val (b :: l) = (byte_val b * 256 ^ N.of_nat (length l) + be_val l)%N.
Proof. change (b :: l) with ([b] ++ l). by rewrite be_val_app. Qed.

#[global] Arguments be_bytes : simpl never.
#[global] Arguments byte_of : simpl never.
#[global] Arguments byte_val : simpl never.
#[global] Arguments N.pow : simpl never.

(** ** Association lists with unique keys *)
Section Alist.
Context {K V : Type} `{EqDecision K}.

Fixpoint alist_get (k : K) (l : list (K * V)) : option V :=
  match l with
  | [] => None
  | (k', v) :: l => if decide (k = k') then Some v else alist_get k l
  end.

(** Replaces the value in place, or appends a new entry. *)
Fixpoint alist_insert (k : K) (v : V) (l : list (K * V)) : list (K * V) :=
  match l with
  | [] => [(k, v)]
  | (k', v') :: l => if decide (k = k') then (k', v) :: l else (k', v') :: alist_insert k v l
  end.

Lemma alist_insert_fresh k v l : k ∉ l.*1 → alist_insert k v l = l ++ [(k, v)].
Proof.
  induction l as [|[k' v'] l IH]; intros Hk; [done|]. csimpl in *.
  apply not_elem_of_cons in Hk as [Hne Hk].
  rewrite decide_False by done. by rewrite IH.
Qed.

Lemma alist_insert_keys k v l : k ∈ l.*1 → (alist_insert k v l).*1 = l.*1.
Proof.
  induction l as [|[k' v'] l IH]; intros Hk; csimpl in *; [by apply not_elem_of_nil in Hk|].
  case_decide; [done|]. csimpl. rewrite IH; [done|].
  by apply elem_of_cons in Hk as [|].
Qed.

Lemma alist_insert_nodup k v l : NoDup l.*1 → NoDup (alist_insert k v l).*1.
Proof.
  intros Hl. destruct (decide (k ∈ l.*1)) as [Hk|Hk].
  - by rewrite alist_insert_keys.
  - rewrite alist_insert_fresh by done. rewrite fmap_app. csimpl.
    apply NoDup_app. split_and!; [done| |apply NoDup_singleton].
    intros x Hx ->%list_elem_of_singleton. done.
Qed.

Lemma alist_get_insert k k' v l :
  alist_get k (alist_insert k' v l) = if decide (k = k') then Some v else alist_get k l.
Proof.
  induction l as [|[k1 v1] l IH]; simpl; [done|].
  repeat (case_decide; simplify_eq/=; try done).
Qed.

Lemma alist_get_None k l : alist_get k l = None ↔ k ∉ l.*1.
Proof.
  induction l as [|[k' v'] l IH]; csimpl; [set_solver|].
  rewrite not_elem_of_cons. case_decide; [naive_solver|]. rewrite IH. naive_solver.
Qed.

Lemma alist_get_Some k v l : NoDup l.*1 → alist_get k l = Some v ↔ (k, v) ∈ l.
Proof.
  induction l as [|[k' v'] l IH]; simpl; [set_solver|]. intros Hnd.
  apply NoDup_cons in Hnd as [Hk' Hnd]. specialize (IH Hnd).
  case_decide as Hk; subst.
  - split; [intros; simplify_eq; left|].
    intros [|Hin]%elem_of_cons; [by simplify_eq|].
    destruct Hk'. apply list_elem_of_fmap. by exists (k', v).
  - rewrite IH, elem_of_cons. naive_solver.
Qed.
End Alist.

(** Looking a key up in any iteration over a map is looking it up in the map. *)
Lemma hm_iter_nodup `{HashOrderOk} {K V} `{Countable K} (m : gmap K V) : NoDup (hm_iter m).*1.
Proof. rewrite hm_iter_perm. apply NoDup_fst_map_to_list. Qed.

Lemma elem_of_hm_iter `{HashOrderOk} {K V} `{Countable K} (m : gmap K V) k v :
  (k, v) ∈ hm_iter m ↔ m !! k = Some v.
Proof. rewrite hm_iter_perm. apply elem_of_map_to_list. Qed.

Lemma alist_get_hm_iter `{HashOrderOk} {K V} `{Countable K} (m : gmap K V) k :
  alist_get k (hm_iter m) = m !! k.
Proof.
  apply option_eq. intros v.
  rewrite alist_get_Some by apply hm_iter_nodup. apply elem_of_hm_iter.
Qed.

Lemma elem_of_hs_iter `{HashOrderOk} {K} `{Countable K} (s : gset K) k : k ∈ hs_iter s ↔ k ∈ s.
Proof. rewrite hs_iter_perm. apply elem_of_elements. Qed.
