(* ===== verification/Float.v ===== *)
(** * Floating-point numbers

    Rust's [f64] as the configuration and the memory checks use it: IEEE 754
    binary64 with rounding to nearest, ties to even.  A finite number is a
    sign, a mantissa below 2^53 and an exponent; [f64_round] rounds the exact
    result of an operation. *)
From S2P Require Import Prelude.

Inductive f64 : Type :=
| F64 (negative : bool) (mantissa : N) (exponent : Z)
| F64Inf (negative : bool)
| F64NaN.

(** [m / 2^k], to the nearest integer. *)
Definition shift_round (m k : N) : N :=
  let q := N.shiftr m k in
  let r := (m mod 2 ^ k)%N in
  match (2 * r ?= 2 ^ k)%N with
  | Lt => q
  | Eq => if N.even q then q else (q + 1)%N
  | Gt => (q + 1)%N
  end.

(** The number nearest to [m * 2^e]; the least exponent is -1074, and a number
    of magnitude 2^1024 or more is infinite. *)
Definition f64_round (negative : bool) (m : N) (e : Z) : f64 :=
  let k := Z.to_N (Z.max (Z.of_N (N.size m) - 53) (-1074 - e)) in
  let m' := if (k =? 0)%N then m else shift_round m k in
  let e' := (e + Z.of_N k)%Z in
  if (1024 <? Z.of_N (N.size m') + e')%Z then F64Inf negative else F64 negative m' e'.

Definition f64_mul (x y : f64) : f64 :=
  match x, y with
  | F64 s1 m1 e1, F64 s2 m2 e2 => f64_round (xorb s1 s2) (m1 * m2) (e1 + e2)
  | F64 s1 m _, F64Inf s2 | F64Inf s1, F64 s2 m _ => if (m =? 0)%N then F64NaN else F64Inf (xorb s1 s2)
  | F64Inf s1, F64Inf s2 => F64Inf (xorb s1 s2)
  | F64NaN, _ | _, F64NaN => F64NaN
  end.

(** The quotient has more bits than a mantissa, the last of which says whether
    the division left a remainder. *)
Definition f64_div (x y : f64) : f64 :=
  match x, y with
  | F64 s1 m1 e1, F64 s2 m2 e2 =>
      if (m2 =? 0)%N then (if (m1 =? 0)%N then F64NaN else F64Inf (xorb s1 s2))
      else
        let k := (N.size m2 + 55)%N in
        let n := N.shiftl m1 k in
        let sticky := if (n mod m2 =? 0)%N then 0%N else 1%N in
        f64_round (xorb s1 s2) (2 * (n / m2) + sticky) (e1 - e2 - Z.of_N k - 1)
  | F64 s1 _ _, F64Inf s2 => F64 (xorb s1 s2) 0 0
  | F64Inf s1, F64 s2 _ _ => F64Inf (xorb s1 s2)
  | F64Inf _, F64Inf _ | F64NaN, _ | _, F64NaN => F64NaN
  end.

(** [m * 2^e] over a common exponent. *)
Definition f64_scaled (negative : bool) (m : N) (e least : Z) : Z :=
  let v := Z.shiftl (Z.of_N m) (e - least) in if negative then Z.opp v else v.

(** [x >= y]. *)
Definition f64_geb (x y : f64) : bool :=
  match x, y with
  | F64 s1 m1 e1, F64 s2 m2 e2 =>
      let least := Z.min e1 e2 in (f64_scaled s2 m2 e2 least <=? f64_scaled s1 m1 e1 least)%Z
  | F64NaN, _ | _, F64NaN => false
  | F64Inf s, F64Inf s' => negb s || s'
  | F64Inf s, _ => negb s
  | _, F64Inf s => s
  end.

(** [x as f64] and [x as u64]: the cast to an integer drops the fraction and
    saturates. *)
Definition f64_of_u64 (x : u64) : f64 := f64_round false x 0.
Definition f64_as_u64 (x : f64) : u64 :=
  match x with
  | F64 true _ _ | F64Inf true | F64NaN => 0%N
  | F64 false m e => N.min (Z.to_N (Z.shiftl (Z.of_N m) e)) (MAX 64)
  | F64Inf false => MAX 64
  end.

(** Literals of the code: 0.25, the nearest number to 0.4, 90, 100, 1024. *)
Definition f64_0_25 : f64 := F64 false 1 (-2).
Definition f64_0_4 : f64 := F64 false 7205759403792794 (-54).
Definition f64_90 : f64 := F64 false 90 0.
Definition f64_100 : f64 := F64 false 100 0.
Definition f64_1024 : f64 := F64 false 1 10.

(** [(gb * 1024.0 * 1024.0 * 1024.0) as u64]. *)
Definition gb_as_bytes (gb : f64) : u64 :=
  f64_as_u64 (f64_mul (f64_mul (f64_mul gb f64_1024) f64_1024) f64_1024).

(** ** Laws *)
Lemma f64_round_small negative m e :
  (N.size m <= 53)%N → (-1074 <= e)%Z → (e <= 900)%Z → f64_round negative m e = F64 negative m e.
Proof.
  intros Hm He He'. unfold f64_round. cbv zeta.
  replace (Z.to_N (Z.max (Z.of_N (N.size m) - 53) (-1074 - e))) with 0%N by lia.
  cbn [N.eqb]. rewrite Z.add_0_r. rewrite (proj2 (Z.ltb_ge _ _)) by lia. done.
Qed.

Lemma size_small m w : (m < 2 ^ w)%N → (N.size m <= w)%N.
Proof.
  intros Hm. destruct (N.eq_dec m 0%N) as [->|Hne]; [simpl; lia|]. rewrite N.size_log2 by done.
  apply N.log2_lt_pow2 in Hm; lia.
Qed.

(** A quarter of a number that a mantissa can hold. *)
Lemma f64_quarter n : (n < 2 ^ 53)%N → f64_as_u64 (f64_mul (f64_of_u64 n) f64_0_25) = (n / 4)%N.
Proof.
  intros Hn. pose proof (size_small _ _ Hn) as Hs. unfold f64_of_u64, f64_0_25.
  rewrite f64_round_small by lia. cbn [f64_mul xorb]. rewrite N.mul_1_r, f64_round_small by lia.
  cbn [f64_as_u64]. rewrite Z.shiftl_div_pow2 by lia. change (2 ^ (- (0 + -2)))%Z with (Z.of_N 4).
  rewrite <-N2Z.inj_div, N2Z.id. apply N.min_l. unfold MAX.
  assert (n / 4 <= n)%N by (apply N.Div0.div_le_upper_bound; lia). lia.
Qed.
