(* ===== verification/Sysinfo.v ===== *)
(** * The machine the process runs on

    What the code asks of the [sysinfo] crate, and the memory budgets it
    derives from it when the configuration gives none: the UTXO cache
    (src/src/sync/stages/index/worker/mod.rs) and RocksDB
    (src/src/storage/mod.rs). *)
From S2P Require Import Prelude Float.

(** A reading of the machine: the limit of the control group, if there is one,
    the memory of the host and the number of its processors. *)
Record SystemInfo : Type := MkSystemInfo {
  cgroup_total_memory : option u64;
  host_total_memory : u64;
  cpu_count : N;
}.

(** [system.cgroup_limits().map(|x| x.total_memory).unwrap_or_else(..)]. *)
Definition total_memory (system : SystemInfo) : u64 :=
  default (host_total_memory system) (cgroup_total_memory system).

Definition get_default_cache_size (system : SystemInfo) : u64 :=
  f64_as_u64 (f64_mul (f64_of_u64 (total_memory system)) f64_0_4).

(** ** The storage section of the configuration *)
Record StorageConfig : Type := MkStorageConfig { rocksdb_memory_budget : option f64 }.

Definition rocksdb_memory_budget_bytes (config : StorageConfig) : option u64 :=
  gb_as_bytes <$> rocksdb_memory_budget config.

Definition default_rocksdb_memory_budget (system : SystemInfo) : u64 :=
  f64_as_u64 (f64_mul (f64_of_u64 (total_memory system)) f64_0_25).

(** A quarter of the memory, for every machine with less than 8 PiB. *)
Lemma default_budget_quarter system :
  (total_memory system < 2 ^ 53)%N → default_rocksdb_memory_budget system = (total_memory system / 4)%N.
Proof. apply f64_quarter. Qed.
