(* ===== verification/ByteOrder.v ===== *)
(** * The order of keys

    RocksDB orders keys as byte strings; [lex_cmp] is the [Ord] instance of
    [[u8]].  The file holds its order laws, the comparison of big-endian
    numbers, and [prefix_key_range] of src/src/storage/encdec/mod.rs with the
    theorem that its range holds exactly the keys that extend the prefix. *)
From S2P Require Import Prelude.

Fixpoint lex_cmp (a b : list byte) : comparison :=
  match a, b with
  | [], [] => Eq
  | [], _ :: _ => Lt
  | _ :: _, [] => Gt
  | x :: a, y :: b =>
      match (byte_val x ?= byte_val y)%N with
      | Eq => lex_cmp a b
      | c => c
      end
  end.

Definition lex_lt (a b : list byte) : Prop := lex_cmp a b = Lt.
Definition lex_le (a b : list byte) : Prop := lex_cmp a b ≠ Gt.

#[export] Instance lex_lt_dec : RelDecision lex_lt.
Proof. intros a b. unfold lex_lt. destruct (lex_cmp a b); (by left) || (by right). Defined.
#[export] Instance lex_le_dec : RelDecision lex_le.
Proof. intros a b. unfold lex_le. destruct (lex_cmp a b); (by left) || (right; naive_solver). Defined.

Section Order.
Lemma lex_cmp_refl a : lex_cmp a a = Eq.
Proof. induction a as [|x a IH]; simpl; [done|]. by rewrite N.compare_refl. Qed.

Lemma lex_cmp_eq a b : lex_cmp a b = Eq ↔ a = b.
Proof.
  split; [|intros ->; apply lex_cmp_refl].
  revert b. induction a as [|x a IH]; intros [|y b]; simpl; try done.
  destruct (N.compare_spec (byte_val x) (byte_val y)) as [Hxy| |]; try done.
  intros Hab. by rewrite (byte_val_inj _ _ Hxy), (IH b).
Qed.

Lemma lex_cmp_antisym a b : lex_cmp b a = CompOpp (lex_cmp a b).
Proof.
  revert b. induction a as [|x a IH]; intros [|y b]; simpl; try done.
  rewrite (N.compare_antisym (byte_val x) (byte_val y)).
  by destruct (byte_val x ?= byte_val y)%N; simpl.
Qed.

Lemma lex_lt_cons x a y b :
  lex_lt (x :: a) (y :: b) ↔ (byte_val x < byte_val y)%N ∨ (x = y ∧ lex_lt a b).
Proof.
  unfold lex_lt. simpl.
  destruct (N.compare_spec (byte_val x) (byte_val y)) as [Hxy|Hxy|Hxy].
  - apply byte_val_inj in Hxy as ->. split; [by right|]. intros [?|[_ ?]]; [lia|done].
  - split; [by left|done].
  - split; [done|]. intros [?|[-> _]]; lia.
Qed.

Lemma lex_lt_nil_r a : ¬ lex_lt a [].
Proof. by destruct a. Qed.

Lemma lex_lt_trans a b c : lex_lt a b → lex_lt b c → lex_lt a c.
Proof.
  revert b c. induction a as [|x a IH]; intros [|y b] [|z c]; try done.
  rewrite !lex_lt_cons. intros [?|[-> ?]] [?|[-> ?]]; [left; lia|by left|by left|].
  right. eauto.
Qed.

Lemma lex_lt_irrefl a : ¬ lex_lt a a.
Proof. unfold lex_lt. by rewrite lex_cmp_refl. Qed.

Lemma lex_le_lt_or_eq a b : lex_le a b ↔ lex_lt a b ∨ a = b.
Proof.
  unfold lex_le, lex_lt. rewrite <-lex_cmp_eq.
  destruct (lex_cmp a b); naive_solver.
Qed.

Lemma lex_le_refl a : lex_le a a.
Proof. apply lex_le_lt_or_eq. by right. Qed.

Lemma lex_le_not_lt a b : lex_le a b ↔ ¬ lex_lt b a.
Proof. unfold lex_le, lex_lt. rewrite (lex_cmp_antisym a b). destruct (lex_cmp a b); naive_solver. Qed.

Lemma lex_le_trans a b c : lex_le a b → lex_le b c → lex_le a c.
Proof.
  rewrite !lex_le_lt_or_eq. intros [?| ->] [?| ->]; [left|by left|by left|by right].
  by eapply lex_lt_trans.
Qed.

Lemma lex_le_lt_trans a b c : lex_le a b → lex_lt b c → lex_lt a c.
Proof. rewrite lex_le_lt_or_eq. intros [?| ->] ?; [by eapply lex_lt_trans|done]. Qed.

Lemma lex_lt_le_trans a b c : lex_lt a b → lex_le b c → lex_lt a c.
Proof. rewrite lex_le_lt_or_eq. intros ? [?| <-]; [by eapply lex_lt_trans|done]. Qed.

Lemma lex_lt_total a b : lex_lt a b ∨ a = b ∨ lex_lt b a.
Proof.
  unfold lex_lt. rewrite (lex_cmp_antisym a b), <-lex_cmp_eq. destruct (lex_cmp a b); naive_solver.
Qed.

(** A shared prefix does not count. *)
Lemma lex_cmp_app p a b : lex_cmp (p ++ a) (p ++ b) = lex_cmp a b.
Proof. induction p as [|x p IH]; simpl; [done|]. by rewrite N.compare_refl. Qed.

Lemma lex_lt_app p a b : lex_lt (p ++ a) (p ++ b) ↔ lex_lt a b.
Proof. unfold lex_lt. by rewrite lex_cmp_app. Qed.

Lemma lex_le_app p a b : lex_le (p ++ a) (p ++ b) ↔ lex_le a b.
Proof. unfold lex_le. by rewrite lex_cmp_app. Qed.

Lemma lex_le_prefix a b : lex_le a (a ++ b).
Proof. rewrite <-(app_nil_r a) at 1. rewrite lex_le_app. by destruct b. Qed.

(** Strings of one length that differ stay in order whatever follows them. *)
Lemma lex_lt_extend a b r s : length a = length b → lex_lt a b → lex_lt (a ++ r) (b ++ s).
Proof.
  revert b. induction a as [|x a IH]; intros [|y b] Hlen Hlt; try done.
  simpl. rewrite lex_lt_cons in *. destruct Hlt as [?|[-> ?]]; [by left|right; auto].
Qed.

(** On strings of one length the order is that of the big-endian numbers. *)
Lemma lex_cmp_be_val a b : length a = length b → lex_cmp a b = (be_val a ?= be_val b)%N.
Proof.
  revert b. induction a as [|x a IH]; intros [|y b] Hlen; try done.
  simpl in Hlen. injection Hlen as Hlen. simpl lex_cmp. rewrite !be_val_cons, <-Hlen.
  pose proof (be_val_bound a) as Ha. pose proof (be_val_bound b) as Hb. rewrite <-Hlen in Hb.
  destruct (N.compare_spec (byte_val x) (byte_val y)) as [->|Hxy|Hxy].
  - rewrite (IH b Hlen). symmetry.
    destruct (N.compare_spec (be_val a) (be_val b)) as [->|?|?].
    + apply N.compare_refl.
    + apply N.compare_lt_iff. lia.
    + apply N.compare_gt_iff. lia.
  - symmetry. apply N.compare_lt_iff. nia.
  - symmetry. apply N.compare_gt_iff. nia.
Qed.
End Order.

#[export] Hint Resolve lex_le_refl lex_le_prefix : symphony.

(** ** [prefix_key_range] *)
Definition Range : Type := list byte * list byte.

(** [for i in (0..end.len()).rev()]: the first byte from the end that is not
    255 is incremented and what follows it is cut. *)
Fixpoint prefix_end_loop (i : nat) (end_ : list byte) : option (list byte) :=
  match i with
  | O => None
  | S i =>
      match end_ !! i with
      | Some b =>
          if decide (b = xff) then prefix_end_loop i end_
          else Some (take (i + 1) (<[i := byte_of (byte_val b + 1)]> end_))
      | None => prefix_end_loop i end_
      end
  end.

Definition prefix_key_range (prefix : list byte) : Range :=
  (prefix, default [] (prefix_end_loop (length prefix) prefix)).

(** A range as RocksDB reads it: the lower bound included, the upper one not. *)
Definition in_range (r : Range) (key : list byte) : Prop :=
  lex_le r.1 key ∧ lex_lt key r.2.

#[export] Instance in_range_dec r key : Decision (in_range r key).
Proof. unfold in_range. apply _. Defined.

Lemma prefix_end_loop_app i p q :
  i ≤ length p → prefix_end_loop i (p ++ q) = prefix_end_loop i p.
Proof.
  induction i as [|i IH]; intros Hi; [done|]. simpl.
  rewrite lookup_app_l, IH by lia. destruct (p !! i); [|done].
  rewrite insert_app_l by lia. rewrite take_app_le; [done|]. rewrite length_insert. lia.
Qed.

(** What the loop finds: the prefix up to its last byte below 255. *)
Lemma prefix_end_loop_spec prefix :
  match prefix_end_loop (length prefix) prefix with
  | Some e => ∃ p b n, prefix = p ++ b :: replicate n xff ∧ b ≠ xff ∧
                       e = p ++ [byte_of (byte_val b + 1)]
  | None => prefix = replicate (length prefix) xff
  end.
Proof.
  induction prefix as [|b prefix IH] using rev_ind; [done|].
  rewrite length_app, Nat.add_1_r. simpl.
  rewrite lookup_app_r, Nat.sub_diag by lia. simpl.
  case_decide as Hb; [subst b|].
  - rewrite prefix_end_loop_app by lia.
    destruct (prefix_end_loop (length prefix) prefix) as [e|].
    + destruct IH as (p & b & n & -> & Hb & ->). exists p, b, (S n).
      rewrite replicate_S_end. split_and!; [|done|done]. by rewrite <-app_assoc.
    + rewrite IH at 1. by rewrite <-replicate_S_end.
  - exists prefix, b, 0. split_and!; [done|done|].
    rewrite insert_app_r_alt, Nat.sub_diag by lia. simpl.
    rewrite take_ge; [done|]. rewrite length_app. simpl. lia.
Qed.

Lemma byte_succ b : b ≠ xff → byte_val (byte_of (byte_val b + 1)) = (byte_val b + 1)%N.
Proof.
  intros Hb. rewrite byte_val_of. apply N.mod_small.
  pose proof (byte_val_bound b). destruct (decide (byte_val b = 255)%N) as [Heq|]; [|lia].
  destruct Hb. apply byte_val_inj. by rewrite Heq.
Qed.

(** Nothing but an extension of [255 .. 255] is above [255 .. 255]. *)
Lemma lex_le_ff n key : lex_le (replicate n xff) key ↔ replicate n xff `prefix_of` key.
Proof.
  split; [|intros [k ->]; apply lex_le_prefix].
  revert key. induction n as [|n IH]; intros key; [intros _; apply prefix_nil|].
  destruct key as [|x key]; [done|].
  unfold lex_le. cbn [replicate lex_cmp]. change (byte_val xff) with 255%N.
  destruct (N.compare_spec 255 (byte_val x)) as [Hx|Hx|Hx]; [|pose proof (byte_val_bound x); lia|by intros []].
  intros Hle. replace x with xff by (by apply byte_val_inj).
  apply prefix_cons, IH, Hle.
Qed.

(** Between a string and the same string with its last byte incremented. *)
Lemma lex_between p b q key :
  b ≠ xff →
  lex_le (p ++ b :: q) key → lex_lt key (p ++ [byte_of (byte_val b + 1)]) →
  ∃ r, key = p ++ b :: r ∧ lex_le q r.
Proof.
  intros Hb. revert key. induction p as [|x p IH]; intros [|y key] Hle Hlt; try done.
  - exists key. rewrite app_nil_l in *. apply lex_lt_cons in Hlt. rewrite byte_succ in Hlt by done.
    rewrite lex_le_lt_or_eq in Hle. rewrite lex_lt_cons in Hle.
    destruct Hlt as [Hlt|[_ Hlt]]; [|by apply lex_lt_nil_r in Hlt].
    destruct Hle as [[?|[-> ?]]|?]; [lia| |simplify_eq]; (split; [done|]).
    + apply lex_le_lt_or_eq. by left.
    + apply lex_le_refl.
  - simpl in *. apply lex_lt_cons in Hlt. rewrite lex_le_lt_or_eq in Hle. rewrite lex_lt_cons in Hle.
    assert (x = y ∧ lex_le (p ++ b :: q) key) as [-> Hle'].
    { destruct Hle as [[Hxy|[-> ?]]|?]; simplify_eq.
      - destruct Hlt as [?|[-> ?]]; lia.
      - split; [done|]. apply lex_le_lt_or_eq. by left.
      - split; [done|apply lex_le_refl]. }
    destruct Hlt as [?|[_ Hlt]]; [lia|].
    destruct (IH key Hle' Hlt) as (r & -> & ?). by exists r.
Qed.

(** The range of a prefix holds the keys that extend it, and no other key. *)
Lemma prefix_key_range_iff prefix key :
  ¬ Forall (λ b, b = xff) prefix →
  in_range (prefix_key_range prefix) key ↔ prefix `prefix_of` key.
Proof.
  intros Hff. unfold in_range, prefix_key_range. simpl.
  pose proof (prefix_end_loop_spec prefix) as Hspec.
  destruct (prefix_end_loop (length prefix) prefix) as [e|]; simpl.
  - destruct Hspec as (p & b & n & -> & Hb & ->). split.
    + intros [Hle Hlt]. destruct (lex_between _ _ _ _ Hb Hle Hlt) as (r & -> & Hr).
      apply prefix_app, prefix_cons, lex_le_ff, Hr.
    + intros [r ->]. split; [apply lex_le_prefix|].
      rewrite <-app_assoc, lex_lt_app. simpl. apply lex_lt_cons. left.
      rewrite byte_succ by done. lia.
  - destruct Hff. rewrite Hspec. by apply Forall_replicate.
Qed.

(** The upper bound of the range of such a prefix is never the empty string. *)
Lemma prefix_key_range_bounded prefix :
  ¬ Forall (λ b, b = xff) prefix → (prefix_key_range prefix).2 ≠ [].
Proof.
  intros Hff. unfold prefix_key_range. simpl.
  pose proof (prefix_end_loop_spec prefix) as Hspec.
  destruct (prefix_end_loop (length prefix) prefix) as [e|]; simpl.
  - destruct Hspec as (p & b & n & _ & _ & ->). by destruct p.
  - destruct Hff. rewrite Hspec. by apply Forall_replicate.
Qed.

(** ** Sorting by a byte string *)
Section SortBy.
Context {A : Type} (f : A → list byte).

Definition lex_le_by (x y : A) : Prop := lex_le (f x) (f y).

#[export] Instance lex_le_by_dec : RelDecision lex_le_by.
Proof. intros x y. unfold lex_le_by. apply _. Defined.
#[export] Instance lex_le_by_total : Total lex_le_by.
Proof.
  intros x y. unfold lex_le_by. rewrite !lex_le_lt_or_eq.
  destruct (lex_lt_total (f x) (f y)) as [?|[?|?]]; [left; left|left; right|right; left]; done.
Qed.
#[export] Instance lex_le_by_trans : Transitive lex_le_by.
Proof. intros x y z. apply lex_le_trans. Qed.

Lemma sorted_lt_by l : StronglySorted lex_le_by l → NoDup (f <$> l) → StronglySorted lex_lt (f <$> l).
Proof.
  induction l as [|x l IH]; intros Hs Hnd; csimpl in *; [constructor|].
  apply NoDup_cons in Hnd as [Hx Hnd]. apply StronglySorted_inv in Hs as [Hs Hall].
  constructor; [by apply IH|]. apply Forall_fmap, Forall_forall. intros y Hy.
  rewrite Forall_forall in Hall. specialize (Hall y Hy).
  apply lex_le_lt_or_eq in Hall as [?|Heq]; [done|].
  destruct Hx. rewrite Heq. by apply list_elem_of_fmap_2.
Qed.
End SortBy.

Lemma lex_sorted_nodup l : StronglySorted lex_lt l → NoDup l.
Proof.
  induction 1 as [|x l Hs IH Hall]; constructor; [|done].
  intros Hx. rewrite Forall_forall in Hall. by apply Hall, lex_lt_irrefl in Hx.
Qed.

(** A strictly sorted list of entries is determined by its elements. *)
Lemma lex_sorted_unique {B} (l1 l2 : list (list byte * B)) :
  StronglySorted lex_lt l1.*1 → StronglySorted lex_lt l2.*1 → (∀ x, x ∈ l1 ↔ x ∈ l2) → l1 = l2.
Proof.
  intros H1 H2 Hel. set (R := λ p q : list byte * B, lex_lt p.1 q.1).
  assert (∀ l, StronglySorted lex_lt l.*1 → StronglySorted R l) as Hconv.
  { intros l. induction l as [|x l IH]; csimpl; intros Hs; [constructor|].
    apply StronglySorted_inv in Hs as [Hs Hall]. constructor; [auto|].
    by rewrite Forall_fmap in Hall. }
  apply (StronglySorted_unique_strong R); [|by apply Hconv..|].
  - intros p q _ _ Hpq Hqp. by destruct (lex_lt_irrefl p.1 (lex_lt_trans _ _ _ Hpq Hqp)).
  - apply NoDup_Permutation; [by apply (NoDup_fmap_1 fst), lex_sorted_nodup..|done].
Qed.
