(* ===== verification/EncDec.v ===== *)
(** * Encoding and decoding

    The traits [Encode] and [Decode] of src/src/storage/encdec/ and what the
    derive macros of src/macros/src/lib.rs generate for structs and enums.
    [Codec] is the contract between the two traits: decoding what was encoded
    gives the value back and leaves the bytes that follow. *)
From S2P Require Import Prelude ByteOrder.

(** ** Errors and the traits *)
Inductive DecodingError : Type :=
| MalformedInput (msg : string) (bytes : list byte)
| InvalidUtf8
| VarUIntCasting (value : u128)
| InvalidEnumKind (bytes : list byte).

Definition malformed_input (msg : string) (bytes : list byte) : DecodingError :=
  MalformedInput msg bytes.

Abbreviation DecodingResult A := (Res DecodingError (A * list byte)%type).

Class Encode (A : Type) : Type := encode : A → list byte.
Class Decode (A : Type) : Type := decode : list byte → DecodingResult A.

#[global] Hint Mode Encode ! : typeclass_instances.
#[global] Hint Mode Decode ! : typeclass_instances.

Definition decode_all {A} `{Decode A} (bytes : list byte) : Res DecodingError A :=
  rmap fst (decode bytes).

Class Codec (A : Type) `{Encode A, Decode A} : Type := {
  valid : A → Prop;
  decode_encode : ∀ (a : A) (rest : list byte), valid a → decode (encode a ++ rest) = Ok (a, rest);
}.

#[global] Hint Mode Codec ! - - : typeclass_instances.

(** ** [EncodeBuilder] *)
Record EncodeBuilder : Type := { output : list byte }.
Definition builder_new : EncodeBuilder := {| output := [] |}.
Definition append {T} `{Encode T} (data : T) (b : EncodeBuilder) : EncodeBuilder :=
  {| output := output b ++ encode data |}.
Definition build (b : EncodeBuilder) : list byte := output b.

(** ** Instances for the primitive types *)
#[export] Instance u8arr_encode n : Encode (u8arr n) := λ a, a.

#[export] Instance u8arr_decode n : Decode (u8arr n) := λ bytes,
  if decide (n ≤ length bytes) then Ok (take n bytes, drop n bytes)
  else Err (malformed_input "array insufficient bytes" bytes).

#[export] Instance u8_encode : Encode u8 := λ b, [b].

#[export] Instance u8_decode : Decode u8 := λ bytes,
  match bytes with
  | b :: rest => Ok (b, rest)
  | [] => Err (malformed_input "u8 insufficient bytes" bytes)
  end.

#[export] Instance u16_encode : Encode u16 := λ x, be_bytes 2 x.

#[export] Instance u16_decode : Decode u16 := λ bytes,
  '(b, rest) ← (decode bytes : DecodingResult (u8arr 2));
  Ok (be_val b, rest).

(** [VarUInt]: a length byte, then the big-endian bytes without leading zeros. *)
Record VarUInt : Type := MkVarUInt { varuint_val : u128 }.

(** [for idx in 0..16]: stops at the first byte that is not zero. *)
Fixpoint varuint_encode_loop (bend : list byte) : list byte :=
  match bend with
  | [] => [x00]
  | b :: rest =>
      if decide (b = x00) then varuint_encode_loop rest
      else byte_of (N.of_nat (length bend)) :: bend
  end.

#[export] Instance varuint_encode : Encode VarUInt := λ v,
  varuint_encode_loop (be_bytes 16 (varuint_val v)).

#[export] Instance varuint_decode : Decode VarUInt := λ bytes,
  match bytes with
  | [] => Err (malformed_input "varuint insufficient bytes" bytes)
  | b :: tail =>
      let len := N.to_nat (byte_val b) in
      if decide (16 < len) then Err (malformed_input "varuint len exceeds maximum" bytes)
      else if decide (len ≤ length tail) then
        Ok (MkVarUInt (be_val (replicate (16 - len) x00 ++ take len tail)), drop len tail)
      else Err (malformed_input "varuint insufficient bytes" bytes)
  end.

(** [impl_try_from_varuint!] and [impl_varuint_decode!] at a type of [w] bits. *)
Definition try_from_varuint (w : N) (v : VarUInt) : Res DecodingError N :=
  if (varuint_val v <? 2 ^ w)%N then Ok (varuint_val v)
  else Err (VarUIntCasting (varuint_val v)).

Definition uint_decode (w : N) (bytes : list byte) : DecodingResult N :=
  '(varuint, rem) ← decode bytes;
  casted ← try_from_varuint w varuint;
  Ok (casted, rem).

(** [impl_varuint_encode!]. *)
Definition uint_encode (x : N) : list byte := encode (MkVarUInt x).

#[export] Instance usize_encode : Encode usize := uint_encode.
#[export] Instance u32_encode : Encode u32 := uint_encode.
#[export] Instance u64_encode : Encode u64 := uint_encode.
#[export] Instance u128_encode : Encode u128 := uint_encode.

#[export] Instance usize_decode : Decode usize := uint_decode 64.
#[export] Instance u32_decode : Decode u32 := uint_decode 32.
#[export] Instance u64_decode : Decode u64 := uint_decode 64.
#[export] Instance u128_decode : Decode u128 := uint_decode 128.

#[export] Instance unit_encode : Encode unit := λ _, [].
#[export] Instance unit_decode : Decode unit := λ bytes, Ok (tt, bytes).

#[export] Instance bool_encode : Encode bool := λ b, [if b then x01 else x00].

#[export] Instance bool_decode : Decode bool := λ bytes,
  '(byte, rem) ← (decode bytes : DecodingResult u8);
  match byte with
  | x00 => Ok (false, rem)
  | x01 => Ok (true, rem)
  | _ => Err (malformed_input "invalid bool byte" bytes)
  end.

(** ** Instances for containers *)
Definition concat_encode {A} `{Encode A} (l : list A) : list byte := l ≫= encode.

#[export] Instance vec_encode {A} `{Encode A} : Encode (list A) := λ l,
  encode (N.of_nat (length l) : usize) ++ concat_encode l.

(** [for _ in 0..len]: decodes [n] items one after the other. *)
Fixpoint decode_items {A} `{Decode A} (n : nat) (bytes : list byte) : DecodingResult (list A) :=
  match n with
  | O => Ok ([], bytes)
  | S n =>
      '(item, rest) ← decode bytes;
      '(items, rest) ← decode_items n rest;
      Ok (item :: items, rest)
  end.

#[export] Instance vec_decode {A} `{Decode A} : Decode (list A) := λ bytes,
  '(len, bytes) ← (decode bytes : DecodingResult usize);
  decode_items (N.to_nat len) bytes.

#[export] Instance option_encode {A} `{Encode A} : Encode (option A) := λ o,
  encode (bool_decide (is_Some o)) ++ match o with Some a => encode a | None => [] end.

#[export] Instance option_decode {A} `{Decode A} : Decode (option A) := λ bytes,
  '(presence, bytes) ← (decode bytes : DecodingResult bool);
  if presence : bool then
    '(value, bytes) ← decode bytes;
    Ok (Some value, bytes)
  else Ok (None, bytes).

#[export] Instance pair_encode {A B} `{Encode A, Encode B} : Encode (A * B) := λ p,
  encode p.1 ++ encode p.2.

#[export] Instance pair_decode {A B} `{Decode A, Decode B} : Decode (A * B) := λ bytes,
  '(first, bytes) ← decode bytes;
  '(second, bytes) ← decode bytes;
  Ok ((first, second), bytes).

(** ** [IndexMap]

    The crate [indexmap] is not part of the repository.  [IndexMap] lists the
    operations the code calls, [IndexMapOk] what its documentation says of
    them: the map is its sequence of entries, one per key, in insertion order;
    inserting a key that is present replaces its value in place. *)
Class IndexMap (K V M : Type) : Type := {
  im_new : M;
  im_insert : K → V → M → M;
  im_get : K → M → option V;
  im_iter : M → list (K * V);
}.
#[global] Hint Mode IndexMap - - ! : typeclass_instances.
Arguments im_new {K V M _}.
Arguments im_insert {K V M _} k v m.
Arguments im_get {K V M _} k m.
Arguments im_iter {K V M _} m.

Class IndexMapOk (K V M : Type) `{EqDecision K} `{!IndexMap K V M} : Prop := {
  im_iter_new : im_iter (im_new : M) = [] :> list (K * V);
  im_iter_insert (k : K) (v : V) (m : M) : im_iter (im_insert k v m) = alist_insert k v (im_iter m);
  im_get_iter (k : K) (m : M) : im_get k m = (alist_get k (im_iter m) : option V);
  im_nodup (m : M) : NoDup (im_iter m : list (K * V)).*1;
  im_iter_inj (m1 m2 : M) : (im_iter m1 : list (K * V)) = im_iter m2 → m1 = m2;
}.

Section IndexMapCodec.
Context {K V M : Type} `{Encode K, Decode K, Encode V, Decode V, !IndexMap K V M}.

Definition indexmap_encode (m : M) : list byte :=
  encode (N.of_nat (length (im_iter m)) : usize) ++ (im_iter m ≫= λ '(k, v), encode k ++ encode v).

(** [for _ in 0..len]: decodes a key, then a value, and inserts them. *)
Fixpoint indexmap_decode_loop (n : nat) (map : M) (bytes : list byte) : DecodingResult M :=
  match n with
  | O => Ok (map, bytes)
  | S n =>
      '(key, rest) ← decode bytes;
      '(value, rest) ← decode rest;
      indexmap_decode_loop n (im_insert key value map) rest
  end.

Definition indexmap_decode (bytes : list byte) : DecodingResult M :=
  '(len, bytes) ← (decode bytes : DecodingResult usize);
  indexmap_decode_loop (N.to_nat len) im_new bytes.
End IndexMapCodec.

(** ** The derive macros

    [#[derive(Encode)]] on a struct appends its fields to a builder.
    [#[derive(Decode)]] decodes the fields in order and applies the
    constructor: [decode_struct c] starts with the constructor and
    [decode_field] adds a field.  On an enum the variant's position is the
    first byte and the fields follow. *)
Definition decode_struct {A} (constructor : A) : list byte → DecodingResult A :=
  λ bytes, Ok (constructor, bytes).

Definition decode_field {A B} `{Decode A}
    (fields : list byte → DecodingResult (A → B)) : list byte → DecodingResult B := λ bytes,
  '(f, bytes) ← fields bytes;
  '(x, rest) ← decode bytes;
  Ok (f x, rest).

Definition encode_variant (variant_index : nat) (fields : list byte) : list byte :=
  byte_of (N.of_nat variant_index) :: fields.

Definition decode_enum {A} (variants : list (list byte → DecodingResult A))
    (bytes : list byte) : DecodingResult A :=
  match bytes with
  | [] => Err (MalformedInput "enum insufficient bytes" bytes)
  | kind :: bytes =>
      match variants !! N.to_nat (byte_val kind) with
      | Some variant => variant bytes
      | None => Err (InvalidEnumKind bytes)
      end
  end.

(** * Laws *)

(** ** [VarUInt] *)
Section VarUInt.
(** The encoding is the length of the significant bytes, then those bytes. *)
Lemma varuint_encode_loop_spec l :
  ∃ n d, l = replicate n x00 ++ d ∧
    varuint_encode_loop l = byte_of (N.of_nat (length d)) :: d ∧
    match d with [] => True | b :: _ => b ≠ x00 end.
Proof.
  induction l as [|b l IH]; [by exists 0, []|]. simpl. case_decide as Hb.
  - subst b. destruct IH as (n & d & -> & Henc & Hd). by exists (S n), d.
  - by exists 0, (b :: l).
Qed.

Lemma byte_val_length (d : list byte) :
  length d ≤ 16 → byte_val (byte_of (N.of_nat (length d))) = N.of_nat (length d).
Proof. intros Hd. rewrite byte_val_of. apply N.mod_small. lia. Qed.

(** The same facts about the encoding of a number. *)
Lemma varuint_encode_spec x :
  fits 128 x →
  ∃ d, encode (MkVarUInt x) = byte_of (N.of_nat (length d)) :: d ∧
    length d ≤ 16 ∧ be_val d = x ∧ match d with [] => True | b :: _ => b ≠ x00 end.
Proof.
  intros Hx. change (encode (MkVarUInt x)) with (varuint_encode_loop (be_bytes 16 x)).
  destruct (varuint_encode_loop_spec (be_bytes 16 x)) as (n & d & Hl & -> & Hd).
  exists d. split_and!; [done| | |done].
  - rewrite <-(length_be_bytes 16 x), Hl, length_app. lia.
  - rewrite <-(be_val_zeros n), <-Hl, be_val_bytes. apply N.mod_small, Hx.
Qed.

Lemma varuint_decode_cons d rest :
  length d ≤ 16 →
  decode (byte_of (N.of_nat (length d)) :: d ++ rest) = Ok (MkVarUInt (be_val d), rest).
Proof.
  intros Hd. unfold decode, varuint_decode. rewrite byte_val_length, Nat2N.id by done.
  rewrite decide_False by lia. rewrite decide_True by (rewrite length_app; lia).
  by rewrite take_app_length, drop_app_length, be_val_zeros.
Qed.

Lemma varuint_decode_encode x rest :
  fits 128 x → decode (encode (MkVarUInt x) ++ rest) = Ok (MkVarUInt x, rest).
Proof.
  intros Hx. destruct (varuint_encode_spec x Hx) as (d & -> & Hd & <- & _).
  by apply varuint_decode_cons.
Qed.

(** Significant bytes without a leading zero: more of them is a larger number. *)
Lemma be_val_lower b d : b ≠ x00 → (256 ^ N.of_nat (length d) <= be_val (b :: d))%N.
Proof.
  intros Hb. rewrite be_val_cons.
  assert (byte_val b ≠ 0%N) by (intros H0; apply Hb, byte_val_inj, H0).
  pose proof (pow256_pos (N.of_nat (length d))). nia.
Qed.

Lemma be_val_length_mono d1 d2 :
  match d2 with [] => True | b :: _ => b ≠ x00 end →
  length d1 < length d2 → (be_val d1 < be_val d2)%N.
Proof.
  intros Hd2 Hlen. destruct d2 as [|b d2]; [simpl in Hlen; lia|].
  apply N.lt_le_trans with (256 ^ N.of_nat (length d1))%N; [apply be_val_bound|].
  etrans; [|by apply be_val_lower]. apply N.pow_le_mono_r; simpl in Hlen; lia.
Qed.

(** Smaller numbers have smaller encodings, whatever follows them. *)
Lemma varuint_encode_lt x y r s :
  fits 128 y → (x < y)%N → lex_lt (encode (MkVarUInt x) ++ r) (encode (MkVarUInt y) ++ s).
Proof.
  intros Hy Hxy.
  destruct (varuint_encode_spec x) as (d1 & -> & Hd1 & <- & Hn1); [unfold fits in *; lia|].
  destruct (varuint_encode_spec y Hy) as (d2 & -> & Hd2 & <- & Hn2).
  simpl. apply lex_lt_cons. rewrite !byte_val_length by done.
  destruct (Nat.lt_trichotomy (length d1) (length d2)) as [Hlt|[Heq|Hlt]].
  - left. lia.
  - right. rewrite Heq. split; [done|]. apply lex_lt_extend; [done|].
    unfold lex_lt. rewrite lex_cmp_be_val by done. by apply N.compare_lt_iff.
  - exfalso. apply (be_val_length_mono d2 d1) in Hlt; [lia|done].
Qed.
End VarUInt.

(** ** Unsigned integers of [w ≤ 128] bits *)
Section UInt.
Context (w : N) (Hw : (w <= 128)%N).

Lemma uint_decode_encode x rest : fits w x → uint_decode w (uint_encode x ++ rest) = Ok (x, rest).
Proof.
  intros Hx. unfold uint_decode, uint_encode.
  rewrite varuint_decode_encode by by eapply fits_mono. simpl. unfold try_from_varuint. simpl.
  unfold fits in Hx. apply N.ltb_lt in Hx. by rewrite Hx.
Qed.

Lemma uint_encode_lt x y r s :
  fits w y → (x < y)%N → lex_lt (uint_encode x ++ r) (uint_encode y ++ s).
Proof. intros Hy. apply varuint_encode_lt. by eapply fits_mono. Qed.

Lemma uint_encode_lt_iff x y : fits w x → fits w y → lex_lt (uint_encode x) (uint_encode y) ↔ (x < y)%N.
Proof.
  intros Hx Hy. split.
  - intros Hlt. destruct (N.lt_trichotomy x y) as [?|[->|Hyx]]; [done| |].
    + by apply lex_lt_irrefl in Hlt.
    + apply (uint_encode_lt y x [] []) in Hyx; [|done]. rewrite !app_nil_r in Hyx.
      destruct (lex_lt_irrefl (uint_encode x)). by eapply lex_lt_trans.
  - intros Hlt. rewrite <-(app_nil_r (uint_encode x)), <-(app_nil_r (uint_encode y)).
    by apply uint_encode_lt.
Qed.
End UInt.

(** ** The codec instances *)
Section Instances.
Lemma u8arr_decode_encode n (a : u8arr n) rest :
  length a = n → decode (encode a ++ rest) = Ok (a, rest).
Proof.
  intros Ha. unfold decode, u8arr_decode, encode, u8arr_encode.
  rewrite decide_True by (rewrite length_app; lia).
  by rewrite take_app_length', drop_app_length'.
Qed.

Lemma u8_decode_encode (b : u8) rest : decode (encode b ++ rest) = Ok (b, rest).
Proof. done. Qed.

Lemma u16_decode_encode (x : u16) rest : fits 16 x → decode (encode x ++ rest) = Ok (x, rest).
Proof.
  intros Hx. unfold decode, u16_decode.
  change (encode x) with (encode (be_bytes 2 x : u8arr 2)).
  rewrite u8arr_decode_encode by apply length_be_bytes. simpl.
  rewrite be_val_bytes. by rewrite N.mod_small.
Qed.

Lemma bool_decode_encode (b : bool) rest : decode (encode b ++ rest) = Ok (b, rest).
Proof. by destruct b. Qed.

Lemma decode_items_encode {A} `{Codec A} (l : list A) rest :
  Forall valid l → decode_items (length l) (concat_encode l ++ rest) = Ok (l, rest).
Proof.
  induction 1 as [|a l Ha Hl IH]; [done|].
  simpl. unfold concat_encode in *. simpl. rewrite <-app_assoc.
  rewrite decode_encode by done. simpl. by rewrite IH.
Qed.
End Instances.

#[export] Instance u8arr_codec n : Codec (u8arr n) := {|
  valid := λ a, length a = n;
  decode_encode := u8arr_decode_encode n;
|}.
#[export] Instance u8_codec : Codec u8 := {|
  valid := λ _, True;
  decode_encode := λ b rest _, u8_decode_encode b rest;
|}.
#[export] Instance u16_codec : Codec u16 := {| valid := fits 16; decode_encode := u16_decode_encode |}.
#[export] Program Instance usize_codec : Codec usize := {| valid := fits 64 |}.
Next Obligation. intros a rest Ha. by apply uint_decode_encode. Qed.
#[export] Program Instance u32_codec : Codec u32 := {| valid := fits 32 |}.
Next Obligation. intros a rest Ha. by apply uint_decode_encode. Qed.
#[export] Program Instance u64_codec : Codec u64 := {| valid := fits 64 |}.
Next Obligation. intros a rest Ha. by apply uint_decode_encode. Qed.
#[export] Program Instance u128_codec : Codec u128 := {| valid := fits 128 |}.
Next Obligation. intros a rest Ha. by apply uint_decode_encode. Qed.
#[export] Program Instance unit_codec : Codec unit := {| valid := λ _, True |}.
Next Obligation. by intros []. Qed.
#[export] Instance bool_codec : Codec bool := {|
  valid := λ _, True;
  decode_encode := λ b rest _, bool_decode_encode b rest;
|}.

#[export] Program Instance vec_codec {A} `{Codec A} : Codec (list A) := {|
  valid := λ l, fits 64 (N.of_nat (length l)) ∧ Forall valid l;
|}.
Next Obligation.
  intros A ??? l rest [Hlen Hl]. unfold encode, vec_encode, decode, vec_decode.
  rewrite <-app_assoc.
  rewrite (decode_encode (Codec := usize_codec) (N.of_nat (length l) : usize)) by done.
  simpl. rewrite Nat2N.id. by apply decode_items_encode.
Qed.

#[export] Program Instance option_codec {A} `{Codec A} : Codec (option A) := {|
  valid := λ o, match o with Some a => valid a | None => True end;
|}.
Next Obligation.
  intros A ??? [a|] rest Ha; [|done]. unfold encode, option_encode, decode, option_decode.
  simpl. by rewrite decode_encode.
Qed.

#[export] Program Instance pair_codec {A B} `{Codec A, Codec B} : Codec (A * B) := {|
  valid := λ p, valid p.1 ∧ valid p.2;
|}.
Next Obligation.
  intros A B ?????? [a b] rest [Ha Hb]. simpl in *.
  unfold encode, pair_encode, decode, pair_decode. simpl. rewrite <-app_assoc.
  rewrite decode_encode by done. simpl. by rewrite decode_encode.
Qed.

(** Encodings are prefix free: what follows a valid value is determined. *)
Section Codec.
Context {A : Type} `{Codec A}.

Lemma encode_app_inj (a b : A) r s :
  valid a → valid b → encode a ++ r = encode b ++ s → a = b ∧ r = s.
Proof.
  intros Ha Hb Heq. pose proof (decode_encode a r Ha) as Hdec.
  rewrite Heq, decode_encode in Hdec by done. by injection Hdec.
Qed.

Lemma encode_inj (a b : A) : valid a → valid b → encode a = encode b → a = b.
Proof. intros Ha Hb Heq. apply (encode_app_inj a b [] []); rewrite ?app_nil_r; done. Qed.

Lemma decode_all_encode (a : A) : valid a → decode_all (encode a) = Ok a.
Proof.
  intros Ha. unfold decode_all. rewrite <-(app_nil_r (encode a)).
  by rewrite decode_encode.
Qed.

(** One field of a derived struct. *)
Lemma decode_field_encode {B} (fields : list byte → DecodingResult (A → B)) bytes f (x : A) rest :
  fields bytes = Ok (f, encode x ++ rest) → valid x → decode_field fields bytes = Ok (f x, rest).
Proof. intros Hf Hx. unfold decode_field. rewrite Hf. simpl. by rewrite decode_encode. Qed.
End Codec.

(** One variant of a derived enum. *)
Lemma decode_enum_variant {A} (variants : list (list byte → DecodingResult A)) i v fields rest :
  variants !! i = Some v → i < 256 →
  decode_enum variants (encode_variant i fields ++ rest) = v (fields ++ rest).
Proof.
  intros Hi Hlt. simpl. rewrite byte_val_of, N.mod_small by lia. by rewrite Nat2N.id, Hi.
Qed.

(** A position that no variant has. *)
Lemma decode_enum_unknown {A} (variants : list (list byte → DecodingResult A)) kind rest :
  length variants ≤ N.to_nat (byte_val kind) →
  decode_enum variants (kind :: rest) = Err (InvalidEnumKind rest).
Proof. intros Hlen. simpl. by rewrite lookup_ge_None_2. Qed.

(** Round trip of a derived struct: the fields one after the other. *)
Ltac unfold_codec :=
  unfold decode at 1, encode at 1;
  match goal with |- ?d (?e _ ++ _) = _ =>
    let d := get_head d in let e := get_head e in unfold d, e
  end;
  unfold build, append, builder_new.

Ltac solve_struct_codec :=
  match goal with |- ∀ a rest, _ => intros a rest Hvalid; destruct a; simpl in Hvalid end;
  unfold_codec; cbn [output]; rewrite <-?app_assoc;
  destruct_and?; repeat (eapply decode_field_encode; [|first [assumption | by simpl; split_and?]]); reflexivity.

Section IndexMapLaws.
Context {K V M : Type} `{EqDecision K, Codec K, Codec V} `{!IndexMap K V M, !IndexMapOk K V M}.

Definition indexmap_valid (m : M) : Prop :=
  fits 64 (N.of_nat (length (im_iter m))) ∧
  Forall (λ kv : K * V, valid kv.1 ∧ valid kv.2) (im_iter m).

Lemma indexmap_decode_loop_encode (l : list (K * V)) (m : M) rest :
  Forall (λ kv : K * V, valid kv.1 ∧ valid kv.2) l →
  indexmap_decode_loop (K:=K) (V:=V) (length l) m
    ((l ≫= λ '(k, v), encode k ++ encode v) ++ rest) =
  Ok (foldl (λ m kv, im_insert kv.1 kv.2 m) m l, rest).
Proof.
  intros Hl. revert m. induction Hl as [|[k v] l [Hk Hv] Hl IH]; intros m; [done|].
  simpl in *. rewrite <-!app_assoc, decode_encode by done. simpl.
  rewrite decode_encode by done. simpl. apply IH.
Qed.

Lemma im_iter_foldl_insert (l : list (K * V)) (m : M) :
  NoDup (im_iter m ++ l).*1 →
  im_iter (foldl (λ m kv, im_insert kv.1 kv.2 m) m l) = im_iter m ++ l.
Proof.
  revert m. induction l as [|[k v] l IH]; intros m Hnd; [by rewrite app_nil_r|].
  simpl. assert (k ∉ (im_iter m).*1) as Hk.
  { rewrite fmap_app in Hnd. apply NoDup_app in Hnd as (_ & Hdis & _).
    intros Hin. destruct (Hdis k Hin). csimpl. left. }
  rewrite IH; rewrite im_iter_insert, alist_insert_fresh by done.
  - by rewrite <-app_assoc.
  - by rewrite <-app_assoc.
Qed.

Lemma indexmap_decode_encode (m : M) rest :
  indexmap_valid m → indexmap_decode (indexmap_encode m ++ rest) = Ok (m, rest).
Proof.
  intros [Hlen Hl]. unfold indexmap_decode, indexmap_encode. rewrite <-app_assoc.
  rewrite (decode_encode (Codec := usize_codec) (N.of_nat (length (im_iter m)) : usize)) by done.
  simpl. rewrite Nat2N.id, indexmap_decode_loop_encode by done. do 2 f_equal.
  apply im_iter_inj. rewrite im_iter_foldl_insert; rewrite im_iter_new; [done|].
  apply im_nodup.
Qed.
End IndexMapLaws.

(** The association list is an implementation of the interface. *)
Record ListMap (K V : Type) `{EqDecision K} : Type := MkListMap {
  entries : list (K * V);
  entries_nodup : bool_decide (NoDup entries.*1);
}.
Arguments MkListMap {K V _} _ _.
Arguments entries {K V _} _.
Arguments entries_nodup {K V _} _.

Section ListMap.
Context {K V : Type} `{EqDecision K}.

Lemma listmap_insert_nodup (k : K) (v : V) (m : ListMap K V) :
  bool_decide (NoDup (alist_insert k v (entries m)).*1).
Proof. destruct m as [l Hl]. apply bool_decide_pack, alist_insert_nodup, (bool_decide_unpack _ Hl). Qed.

Definition listmap_new : ListMap K V := MkListMap [] (bool_decide_pack _ (NoDup_nil_2 (A:=K))).
Definition listmap_insert (k : K) (v : V) (m : ListMap K V) : ListMap K V :=
  MkListMap (alist_insert k v (entries m)) (listmap_insert_nodup k v m).

#[export] Instance listmap_indexmap : IndexMap K V (ListMap K V) := {|
  im_new := listmap_new;
  im_insert := listmap_insert;
  im_get := λ k m, alist_get k (entries m);
  im_iter := entries;
|}.

#[export] Instance listmap_ok : IndexMapOk K V (ListMap K V).
Proof.
  split; try done.
  - intros [l Hl]. apply (bool_decide_unpack _ Hl).
  - intros [l1 H1] [l2 H2]. simpl. intros ->. f_equal. apply proof_irrel.
Qed.
End ListMap.

#[global] Arguments encode : simpl never.
#[global] Arguments decode : simpl never.
#[global] Arguments decode_all : simpl never.
