(* ===== verification/Derive.v ===== *)
(** * The derive macros

    src/macros/src/lib.rs as a program that writes programs: [encode_derive]
    and [decode_derive] take a declaration as [syn] parses it and give the
    implementation that [quote!] spells out, or a [compile_error!].  The
    fragment of Rust that is generated has an evaluator here, with scopes,
    shadowing and the refusals of the compiler, and what is generated is
    proved to encode and decode. *)
From stdpp Require Import pretty.
From S2P Require Import Prelude ByteOrder EncDec.

(** ** Declarations

    What the macros read of a [DeriveInput].  A type that occurs in a field
    is known by its values and its two traits. *)
Abbreviation Ident := string.

Record FieldType : Type := MkFieldType {
  carrier : Type;
  field_encode : Encode carrier;
  field_decode : Decode carrier;
}.
Definition field_type (A : Type) `{Encode A, Decode A} : FieldType := MkFieldType A _ _.

Inductive Fields : Type :=
| Named (named : list (Ident * FieldType))
| Unnamed (unnamed : list FieldType)
| Unit.

Inductive Data : Type :=
| DataStruct (fields : Fields)
| DataEnum (variants : list (Ident * Fields))
| DataUnion.

Record DeriveInput : Type := MkInput { ident : Ident; data : Data }.

(** ** What is generated

    [Self::V], [Self::V((b0, b1))] and [Self::V { f, g }]. *)
Inductive Pattern : Type :=
| PatUnit
| PatTuple (binders : list Ident)
| PatStruct (binders : list Ident).

Definition binders (p : Pattern) : list Ident :=
  match p with PatUnit => [] | PatTuple l | PatStruct l => l end.

(** [pattern => vec![vec![index], b0.encode(), ...].concat()]. *)
Record EncodeArm : Type := MkEncodeArm {
  ea_variant : Ident;
  ea_pattern : Pattern;
  ea_index : u8;
}.

(** The body of [fn encode(&self)]: fields appended to a builder, or a match
    on [self]. *)
Inductive EncodeImpl : Type :=
| EncodeFields (appended : list Ident)
| EncodeMatch (arms : list EncodeArm).

Inductive Stmt : Type :=
| LetMut (x y : Ident)                                    (* let mut x = y; *)
| LetDecode (x rest : Ident) (ty : FieldType) (from : Ident) (* let (x, rest) = <ty as Decode>::decode(from)?; *)
| Assign (x y : Ident).                                   (* x = y; *)

(** The variables a constructor is applied to: [C], [C(x0, ...)] and
    [C { f: f, ... }]. *)
Inductive ConsArgs : Type :=
| ArgsUnit
| ArgsTuple (args : list Ident)
| ArgsNamed (args : list Ident).

(** Statements and then [Ok((C ..., bytes))], where [C] is [Self] or the
    variant [Self::V]. *)
Record Block : Type := MkBlock {
  statements : list Stmt;
  variant_name : option Ident;
  arguments : ConsArgs;
}.

(** The body of [fn decode(bytes: &[u8])]: a block, or a match on the first
    byte. *)
Inductive DecodeImpl : Type :=
| DecodeBlock (body : Block)
| DecodeMatch (arms : list (u8 * Block)).

Inductive Expansion (A : Type) : Type :=
| Expands (impl : A)
| CompileError (msg : string).
Arguments Expands {A} _.
Arguments CompileError {A} _.

(** ** The macros *)

(** [(0..n).map(|i| format_ident!("field{}", i))]. *)
Definition field_idents (n : nat) : list Ident := (λ i : nat, "field" +:+ pretty i) <$> seq 0 n.

(** [index as u8]. *)
Definition variant_index (index : nat) : u8 := byte_of (N.of_nat index).

Definition encode_arm (index : nat) (variant : Ident * Fields) : EncodeArm :=
  let pattern :=
    match variant.2 with
    | Unit => PatUnit
    | Unnamed fields => PatTuple (field_idents (length fields))
    | Named fields => PatStruct fields.*1
    end in
  MkEncodeArm variant.1 pattern (variant_index index).

Definition encode_derive (input : DeriveInput) : Expansion EncodeImpl :=
  match data input with
  | DataStruct (Named fields) => Expands (EncodeFields fields.*1)
  | DataStruct (Unnamed _) => CompileError "Tuple structs are not yet supported for Encode"
  | DataStruct Unit => CompileError "Unit structs are not yet supported for Encode"
  | DataEnum variants => Expands (EncodeMatch (imap encode_arm variants))
  | DataUnion => CompileError "Encode only supports structs and enums"
  end.

(** A field of a struct: its remaining bytes become [bytes]. *)
Definition struct_field (f : Ident * FieldType) : list Stmt :=
  [LetDecode f.1 "rest" f.2 "bytes"; Assign "bytes" "rest"].

(** A field of a variant: its remaining bytes shadow [bytes]. *)
Definition variant_field (f : Ident * FieldType) : Stmt := LetDecode f.1 "bytes" f.2 "bytes".

Definition variant_fields (fields : Fields) : list (Ident * FieldType) :=
  match fields with
  | Unit => []
  | Unnamed fields => zip (field_idents (length fields)) fields
  | Named fields => fields
  end.

Definition variant_args (fields : Fields) : ConsArgs :=
  match fields with
  | Unit => ArgsUnit
  | Unnamed fields => ArgsTuple (field_idents (length fields))
  | Named fields => ArgsNamed fields.*1
  end.

Definition decode_arm (index : nat) (variant : Ident * Fields) : u8 * Block :=
  (variant_index index,
   MkBlock (variant_field <$> variant_fields variant.2) (Some variant.1) (variant_args variant.2)).

Definition decode_derive (input : DeriveInput) : Expansion DecodeImpl :=
  match data input with
  | DataStruct (Named fields) =>
      Expands (DecodeBlock (MkBlock (LetMut "bytes" "bytes" :: (fields ≫= struct_field)) None (ArgsNamed fields.*1)))
  | DataStruct (Unnamed _) => CompileError "Tuple structs are not yet supported for Decode"
  | DataStruct Unit => CompileError "Unit structs are not yet supported for Decode"
  | DataEnum variants => Expands (DecodeMatch (imap decode_arm variants))
  | DataUnion => CompileError "Decode only supports structs and enums"
  end.

(** ** Values

    A value of a declared type: its variant, if it is an enum, and its
    fields. *)
Definition Field : Type := { ty : FieldType & carrier ty }.
Definition field {A} `{Encode A, Decode A} (a : A) : Field := existT (field_type A) a.
Definition encode_value (f : Field) : list byte := field_encode (projT1 f) (projT2 f).

Inductive FieldValues : Type :=
| UnitValues
| TupleValues (fields : list Field)
| NamedValues (fields : list (Ident * Field)).

Record Value : Type := MkValue { value_variant : option Ident; value_fields : FieldValues }.

Definition all_fields (v : FieldValues) : list Field :=
  match v with UnitValues => [] | TupleValues l => l | NamedValues l => l.*2 end.

(** ** Evaluation

    Local variables are slices of bytes, mutable or not, and decoded fields.
    The newest is first and shadows. *)
Inductive Local : Type :=
| LBytes (mutable : bool) (bytes : list byte)
| LField (f : Field).
Abbreviation Env := (list (Ident * Local)).

Fixpoint assign_local (x : Ident) (bytes : list byte) (env : Env) : option Env :=
  match env with
  | [] => None
  | (y, l) :: env =>
      if decide (x = y) then
        match l with LBytes true _ => Some ((y, LBytes true bytes) :: env) | _ => None end
      else cons (y, l) <$> assign_local x bytes env
  end.

Definition local_bytes (env : Env) (x : Ident) : option (list byte) :=
  match alist_get x env with Some (LBytes _ bytes) => Some bytes | _ => None end.
Definition local_field (env : Env) (x : Ident) : option Field :=
  match alist_get x env with Some (LField f) => Some f | _ => None end.

(** [None] is code that the compiler refuses: a name that is bound twice in
    one pattern, an assignment to a variable that is not mutable or has
    another type, an argument of another type. *)
Definition run_stmt (s : Stmt) (env : Env) : option (Res DecodingError Env) :=
  match s with
  | LetMut x y => (λ bytes, Ok ((x, LBytes true bytes) :: env)) <$> local_bytes env y
  | LetDecode x rest ty from =>
      if decide (x = rest) then None
      else (λ bytes, rmap (λ '(a, bytes), (x, LField (existT ty a)) :: (rest, LBytes false bytes) :: env)
                       (field_decode ty bytes)) <$> local_bytes env from
  | Assign x y => local_bytes env y ≫= λ bytes, Ok <$> assign_local x bytes env
  end.

Fixpoint run_stmts (l : list Stmt) (env : Env) : option (Res DecodingError Env) :=
  match l with
  | [] => Some (Ok env)
  | s :: l =>
      match run_stmt s env with
      | Some (Ok env) => run_stmts l env
      | r => r
      end
  end.

Definition construct (args : ConsArgs) (env : Env) : option FieldValues :=
  match args with
  | ArgsUnit => Some UnitValues
  | ArgsTuple args => TupleValues <$> mapM (local_field env) args
  | ArgsNamed args => (λ fields, NamedValues (zip args fields)) <$> mapM (local_field env) args
  end.

Definition finish_block (b : Block) (env : Env) : option (Value * list byte) :=
  construct (arguments b) env ≫= λ fields,
  local_bytes env "bytes" ≫= λ bytes, Some (MkValue (variant_name b) fields, bytes).

Definition run_block (b : Block) (env : Env) : option (DecodingResult Value) :=
  match run_stmts (statements b) env with
  | Some (Ok env) => Ok <$> finish_block b env
  | Some (Err e) => Some (Err e)
  | Some (Panic why) => Some (Panic why)
  | None => None
  end.

(** The first arm that matches is taken. *)
Fixpoint find_arm (kind : u8) (arms : list (u8 * Block)) : option Block :=
  match arms with
  | [] => None
  | (index, b) :: arms => if decide (index = kind) then Some b else find_arm kind arms
  end.

Definition eval_decode (impl : DecodeImpl) (bytes : list byte) : option (DecodingResult Value) :=
  match impl with
  | DecodeBlock b => run_block b [("bytes", LBytes false bytes)]
  | DecodeMatch arms =>
      match bytes with
      | [] => Some (Err (MalformedInput "enum insufficient bytes" []))
      | kind :: bytes =>
          match find_arm kind arms with
          | Some b => run_block b [("bytes", LBytes false bytes); ("kind", LField (field kind))]
          | None => Some (Err (InvalidEnumKind bytes))
          end
      end
  end.

(** The fields a pattern binds, in the order of the binders. A pattern with
    parentheses has one sub-pattern, so the variant must have one field, and
    [(field0)] is just [field0]; [(field0, field1)] would match a pair. A
    pattern with braces names every field once. *)
Definition bind_pattern (p : Pattern) (v : FieldValues) : option (list Field) :=
  match p, v with
  | PatUnit, UnitValues => Some []
  | PatTuple [_], TupleValues [f] => Some [f]
  | PatStruct names, NamedValues fields =>
      if decide (NoDup names ∧ length names = length fields) then mapM (λ x, alist_get x fields) names else None
  | _, _ => None
  end.

Fixpoint find_variant (variant : Ident) (arms : list EncodeArm) : option EncodeArm :=
  match arms with
  | [] => None
  | a :: arms => if decide (ea_variant a = variant) then Some a else find_variant variant arms
  end.

(** [encoder = encoder.append(&self.x)] *)
Definition append_field (b : EncodeBuilder) (f : Field) : EncodeBuilder :=
  @append _ (field_encode (projT1 f)) (projT2 f) b.

Definition eval_encode (impl : EncodeImpl) (v : Value) : option (list byte) :=
  match impl, v with
  | EncodeFields names, MkValue None (NamedValues fields) =>
      (λ l, build (foldl append_field builder_new l)) <$> mapM (λ x, alist_get x fields) names
  | EncodeMatch arms, MkValue (Some variant) fields =>
      find_variant variant arms ≫= λ a,
      (λ l, concat ([ea_index a] :: (encode_value <$> l))) <$> bind_pattern (ea_pattern a) fields
  | _, _ => None
  end.

(** * Laws *)

(** ** The meaning of a declaration

    What the derived implementations are meant to do, without names: the
    fields one after the other, after the position of the variant. *)
Definition field_types (fields : Fields) : list FieldType :=
  match fields with Unit => [] | Unnamed l => l | Named l => l.*2 end.

Definition values_of (fields : Fields) (l : list Field) : FieldValues :=
  match fields with Unit => UnitValues | Unnamed _ => TupleValues l | Named fs => NamedValues (zip fs.*1 l) end.

Fixpoint decode_fields (tys : list FieldType) (bytes : list byte) : DecodingResult (list Field) :=
  match tys with
  | [] => Ok ([], bytes)
  | ty :: tys =>
      '(a, bytes) ← field_decode ty bytes;
      '(l, bytes) ← decode_fields tys bytes;
      Ok (existT ty a :: l, bytes)
  end.

Definition decode_values (variant : option Ident) (fields : Fields) (bytes : list byte) : DecodingResult Value :=
  '(l, bytes) ← decode_fields (field_types fields) bytes;
  Ok (MkValue variant (values_of fields l), bytes).

Definition decode_meaning (input : DeriveInput) (bytes : list byte) : option (DecodingResult Value) :=
  match data input with
  | DataStruct (Named fields) => Some (decode_values None (Named fields) bytes)
  | DataEnum variants =>
      Some (match bytes with
            | [] => Err (MalformedInput "enum insufficient bytes" [])
            | kind :: bytes =>
                match variants !! N.to_nat (byte_val kind) with
                | Some (name, fields) => decode_values (Some name) fields bytes
                | None => Err (InvalidEnumKind bytes)
                end
            end)
  | _ => None
  end.

(** Declarations the generated code is right for: the fields and variants have
    different names, no field has the name of a variable of the generated
    code, there are at most 256 variants, and a tuple variant has one field. *)
Definition names_ok (reserved : list Ident) (names : list Ident) : Prop :=
  NoDup names ∧ Forall (λ x, x ∉ reserved) names.

#[export] Instance names_ok_dec reserved names : Decision (names_ok reserved names).
Proof. unfold names_ok. apply _. Defined.

Definition variant_ok (v : Ident * Fields) : bool :=
  match v.2 with
  | Unit => true
  | Unnamed [_] => true
  | Unnamed _ => false
  | Named fields => bool_decide (names_ok ["bytes"] fields.*1)
  end.

Definition derivable (input : DeriveInput) : bool :=
  match data input with
  | DataStruct (Named fields) => bool_decide (names_ok ["bytes"; "rest"] fields.*1)
  | DataEnum variants =>
      bool_decide (NoDup variants.*1) && bool_decide (length variants ≤ 256) && forallb variant_ok variants
  | _ => false
  end.

(** A value of the declared type. *)
Definition fields_typed (fields : Fields) (v : FieldValues) : Prop :=
  match fields, v with
  | Unit, UnitValues => True
  | Unnamed tys, TupleValues l => projT1 <$> l = tys
  | Named fs, NamedValues l => l.*1 = fs.*1 ∧ projT1 <$> l.*2 = fs.*2
  | _, _ => False
  end.

Definition has_type (input : DeriveInput) (v : Value) : Prop :=
  match data input, value_variant v with
  | DataStruct fields, None => fields_typed fields (value_fields v)
  | DataEnum variants, Some x => ∃ fields, (x, fields) ∈ variants ∧ fields_typed fields (value_fields v)
  | _, _ => False
  end.

(** The codec of this field gives the value back. *)
Definition field_round_trips (f : Field) : Prop :=
  ∀ rest, field_decode (projT1 f) (encode_value f ++ rest) = Ok (projT2 f, rest).

Lemma codec_round_trips {A} `{Codec A} (a : A) : valid a → field_round_trips (field a).
Proof. intros Ha rest. exact (decode_encode a rest Ha). Qed.

(** ** Running the fields of a block *)
Definition yields {A} (r : DecodingResult A) (o : option (Res DecodingError Env))
    (Q : A → list byte → Env → Prop) : Prop :=
  match r with
  | Ok (a, bytes) => ∃ env, o = Some (Ok env) ∧ Q a bytes env
  | Err e => o = Some (Err e)
  | Panic why => o = Some (Panic why)
  end.

Lemma run_stmts_app l k env : run_stmts (l ++ k) env =
  match run_stmts l env with Some (Ok env) => run_stmts k env | r => r end.
Proof. revert env. induction l as [|s l IH]; intros env; [done|]. simpl. destruct (run_stmt s env) as [[]|]; auto. Qed.

(** A way to decode a field that keeps the remaining bytes in reach and does
    not touch other variables than the reserved ones. *)
Section RunFields.
Context (step : Ident * FieldType → list Stmt) (slice : Env → list byte → Prop) (reserved : list Ident).

Definition field_step : Prop := ∀ f env bytes,
  slice env bytes → f.1 ∉ reserved →
  yields (field_decode f.2 bytes) (run_stmts (step f) env) (λ a bytes env',
    slice env' bytes ∧ alist_get f.1 env' = Some (LField (existT f.2 a)) ∧
    ∀ x, x ≠ f.1 → x ∉ reserved → alist_get x env' = alist_get x env).

Lemma run_fields fields env bytes :
  field_step → slice env bytes → names_ok reserved fields.*1 →
  yields (decode_fields fields.*2 bytes) (run_stmts (fields ≫= step) env) (λ l bytes env',
    slice env' bytes ∧ mapM (local_field env') fields.*1 = Some l ∧
    ∀ x, x ∉ fields.*1 → x ∉ reserved → alist_get x env' = alist_get x env).
Proof.
  intros Hstep. revert env bytes. induction fields as [|f fields IH]; intros env bytes Hs Hok.
  { exists env. done. }
  destruct Hok as [[Hf Hnd]%NoDup_cons [Hres Hall]%Forall_cons].
  pose proof (Hstep f env bytes Hs Hres) as Hone. csimpl. cbn [decode_fields mbind list_bind]. rewrite run_stmts_app.
  destruct (field_decode f.2 bytes) as [[a b]|e|why]; cbn [yields rbind] in *; [|by rewrite Hone..].
  destruct Hone as (env1 & -> & Hs1 & Hf1 & Hsame1). pose proof (IH env1 b Hs1 (conj Hnd Hall)) as Hmore.
  destruct (decode_fields fields.*2 b) as [[l b']|e|why]; cbn [yields rbind] in *; [|done..].
  destruct Hmore as (env2 & Hrun & Hs2 & Hl & Hsame2). exists env2. split_and!; [done|done| |].
  - assert (local_field env2 f.1 = Some (existT f.2 a)) as Hloc by (unfold local_field; by rewrite Hsame2, Hf1).
    csimpl. rewrite Hloc. exact (f_equal (λ o, o ≫= λ k, Some (existT f.2 a :: k)) Hl).
  - intros x [Hx Hxs]%not_elem_of_cons Hr. rewrite Hsame2, Hsame1; done.
Qed.
End RunFields.

Definition slice_mut (env : Env) (bytes : list byte) : Prop := alist_get "bytes" env = Some (LBytes true bytes).
Definition slice_any (env : Env) (bytes : list byte) : Prop := local_bytes env "bytes" = Some bytes.

Lemma assign_local_get x bytes b env : alist_get x env = Some (LBytes true b) →
  ∃ env', assign_local x bytes env = Some env' ∧ alist_get x env' = Some (LBytes true bytes) ∧
    ∀ y, y ≠ x → alist_get y env' = alist_get y env.
Proof.
  induction env as [|[y l] env IH]; [done|]. cbn [alist_get assign_local]. case_decide as Hxy.
  - intros [= ->]. subst. eexists. split; [done|]. split; [cbn; by rewrite decide_True|].
    intros z Hz. cbn. by rewrite !decide_False.
  - intros Hx. destruct (IH Hx) as (env' & -> & Hget & Hsame). eexists. split; [done|].
    split; [cbn; by rewrite decide_False|]. intros z Hz. cbn. case_decide; [done|by apply Hsame].
Qed.

Lemma struct_field_step : field_step struct_field slice_mut ["bytes"; "rest"].
Proof.
  intros f env bytes Hs [Hb [Hr _]%not_elem_of_cons]%not_elem_of_cons. unfold slice_mut in *.
  unfold struct_field. cbn [run_stmts run_stmt]. rewrite decide_False by done.
  unfold local_bytes at 1. rewrite Hs. csimpl. destruct (field_decode f.2 bytes) as [[a b]|e|why]; [|done..].
  cbn [rmap rbind yields]. unfold local_bytes. cbn [alist_get]. rewrite decide_False by done. rewrite decide_True by done. csimpl.
  rewrite (decide_False (P := "bytes" = f.1)) by done.
  destruct (assign_local_get "bytes" b bytes env Hs) as (env' & -> & Hget & Hsame). csimpl.
  eexists. split; [done|]. split_and!.
  - cbn [alist_get]. by rewrite !decide_False.
  - cbn [alist_get]. by rewrite decide_True.
  - intros x Hx [Hxb [Hxr _]%not_elem_of_cons]%not_elem_of_cons. cbn [alist_get]. rewrite !decide_False by done. by apply Hsame.
Qed.

Lemma variant_field_step : field_step (λ f, [variant_field f]) slice_any ["bytes"].
Proof.
  intros f env bytes Hs [Hb _]%not_elem_of_cons. unfold slice_any in *.
  unfold variant_field. cbn [run_stmts run_stmt]. rewrite decide_False by done. rewrite Hs. csimpl.
  destruct (field_decode f.2 bytes) as [[a b]|e|why]; [|done..]. cbn [rmap rbind yields].
  eexists. split; [done|]. split_and!.
  - unfold local_bytes. cbn [alist_get]. rewrite decide_False by done. by rewrite decide_True.
  - cbn [alist_get]. by rewrite decide_True.
  - intros x Hx [Hxb _]%not_elem_of_cons. cbn [alist_get]. by rewrite !decide_False.
Qed.

(** ** The derived decoder *)
Lemma slice_mut_any env bytes : slice_mut env bytes → slice_any env bytes.
Proof. unfold slice_mut, slice_any, local_bytes. by intros ->. Qed.

(** A block whose statements decode these fields. *)
Lemma run_block_fields stmts variant (fields : Fields) names tys args env bytes :
  yields (decode_fields tys bytes) (run_stmts stmts env) (λ l bytes env',
    slice_any env' bytes ∧ mapM (local_field env') names = Some l) →
  field_types fields = tys →
  (∀ env l, mapM (local_field env) names = Some l → construct args env = Some (values_of fields l)) →
  run_block (MkBlock stmts variant args) env = Some (decode_values variant fields bytes).
Proof.
  intros Hrun Htys Hargs. unfold run_block, decode_values. rewrite Htys. cbn [statements].
  destruct (decode_fields tys bytes) as [[l b]|e|why]; cbn [yields rbind] in *; [|by rewrite Hrun..].
  destruct Hrun as (env' & -> & Hs & Hl). unfold finish_block. cbn [arguments variant_name].
  rewrite (Hargs env' l Hl). csimpl. by rewrite Hs.
Qed.

Lemma yields_impl {A} (r : DecodingResult A) o (P Q : A → list byte → Env → Prop) :
  yields r o P → (∀ a b env, P a b env → Q a b env) → yields r o Q.
Proof. destruct r as [[a b]|e|why]; [|done..]. intros (env & Ho & HP) HQ. exists env. auto. Qed.

Lemma field_idents_elem x n : x ∈ field_idents n → x ≠ "bytes".
Proof. intros (i & -> & _)%list_elem_of_fmap. done. Qed.

Lemma NoDup_field_idents n : NoDup (field_idents n).
Proof. apply NoDup_fmap_2; [|apply NoDup_seq]. intros i j Hij. by apply (inj pretty), (inj (String.append "field")). Qed.

Lemma length_field_idents n : length (field_idents n) = n.
Proof. unfold field_idents. by rewrite length_fmap, length_seq. Qed.

Lemma variant_fields_fst fields : (variant_fields fields).*1 =
  match fields with Unit => [] | Unnamed l => field_idents (length l) | Named l => l.*1 end.
Proof. destruct fields as [l|l|]; [done| |done]. apply fst_zip. by rewrite length_field_idents. Qed.

Lemma variant_fields_snd fields : (variant_fields fields).*2 = field_types fields.
Proof. destruct fields as [l|l|]; [done| |done]. apply snd_zip. by rewrite length_field_idents. Qed.

Lemma variant_names_ok v : variant_ok v = true → names_ok ["bytes"] (variant_fields v.2).*1.
Proof.
  rewrite variant_fields_fst. destruct v as [x [l|l|]]; cbn [snd variant_ok]; intros Hok.
  - by apply bool_decide_eq_true in Hok.
  - split; [apply NoDup_field_idents|]. apply Forall_forall. intros y Hy.
    apply not_elem_of_cons. split; [by eapply field_idents_elem|apply not_elem_of_nil].
  - split; constructor.
Qed.

Lemma construct_variant fields env l :
  mapM (local_field env) (variant_fields fields).*1 = Some l →
  construct (variant_args fields) env = Some (values_of fields l).
Proof.
  rewrite variant_fields_fst. destruct fields as [fs|tys|]; cbn [variant_args construct values_of].
  - by intros ->.
  - by intros ->.
  - done.
Qed.

Lemma variant_index_inj i j : i < 256 → j < 256 → variant_index i = variant_index j → i = j.
Proof.
  intros Hi Hj Heq%(f_equal byte_val). unfold variant_index in Heq. rewrite !byte_val_of, !N.mod_small in Heq by lia. lia.
Qed.

(** The arm of a kind is the one of the variant at this position. *)
Lemma find_arm_position kind variants n :
  n + length variants ≤ 256 → n ≤ N.to_nat (byte_val kind) →
  find_arm kind (imap (λ i, decode_arm (n + i)) variants) =
  (λ v, (decode_arm 0 v).2) <$> variants !! (N.to_nat (byte_val kind) - n).
Proof.
  revert n. induction variants as [|v variants IH]; intros n Hlen Hn; [done|]. cbn [length imap find_arm decode_arm] in *.
  assert (variant_index (N.to_nat (byte_val kind)) = kind) as Hkind.
  { unfold variant_index. rewrite N2Nat.id. apply byte_val_inj. rewrite byte_val_of. apply N.mod_small, byte_val_bound. }
  rewrite Nat.add_0_r. destruct (decide (N.to_nat (byte_val kind) = n)) as [Heq|Hne].
  - rewrite decide_True by (by rewrite <-Hkind, Heq). by rewrite Heq, Nat.sub_diag.
  - rewrite decide_False.
    + rewrite (imap_ext _ (λ i, decode_arm (S n + i))) by (intros i x _; cbn; by rewrite Nat.add_succ_r).
      rewrite IH by lia. by replace (N.to_nat (byte_val kind) - n) with (S (N.to_nat (byte_val kind) - S n)) by lia.
    + rewrite <-Hkind. intros Hi%variant_index_inj; [lia|lia|].
      pose proof (byte_val_bound kind). lia.
Qed.

Lemma bind_singletons {A B} (f : A → B) (l : list A) : l ≫= (λ x, [f x]) = f <$> l.
Proof. induction l as [|x l IH]; [done|]. csimpl. by rewrite IH. Qed.

(** What is generated for [Decode] decodes as the declaration means, failures
    included. *)
Lemma decode_derive_correct input :
  derivable input = true →
  ∃ impl, decode_derive input = Expands impl ∧ ∀ bytes, eval_decode impl bytes = decode_meaning input bytes.
Proof.
  destruct input as [name [[fields|tys|]|variants|]]; unfold derivable, decode_derive, decode_meaning; cbn [data]; [|done|done| |done].
  - intros Hok%bool_decide_eq_true. eexists. split; [reflexivity|]. intros bytes. cbn [eval_decode].
    eapply run_block_fields; [|reflexivity|by intros env l Hl; cbn [construct]; rewrite Hl].
    cbn [run_stmts run_stmt local_bytes alist_get]. csimpl.
    eapply yields_impl; [apply (run_fields _ _ _ _ _ bytes struct_field_step); [done|done]|].
    intros l b env (Hs & Hl & _). split; [by apply slice_mut_any|exact Hl].
  - intros [[_ Hlen%bool_decide_eq_true]%andb_true_iff Hall]%andb_true_iff. eexists. split; [reflexivity|].
    intros [|kind bytes]; [done|]. cbn [eval_decode].
    pose proof (find_arm_position kind variants 0 Hlen (Nat.le_0_l _)) as Harm. rewrite Nat.sub_0_r in Harm.
    change (λ i, decode_arm (0 + i)) with decode_arm in Harm. rewrite Harm.
    destruct (variants !! N.to_nat (byte_val kind)) as [[x fields]|] eqn:Hv; [|done]. csimpl.
    assert (variant_ok (x, fields) = true) as Hok.
    { rewrite forallb_forall in Hall. apply Hall, list_elem_of_In. by eapply list_elem_of_lookup_2. }
    apply (run_block_fields _ _ _ (variant_fields fields).*1 (variant_fields fields).*2).
    + rewrite <-bind_singletons. eapply yields_impl.
      * apply (run_fields _ _ _ _ _ bytes variant_field_step); [done|]. exact (variant_names_ok _ Hok).
      * by intros l b env (Hs & Hl & _).
    + by rewrite variant_fields_snd.
    + apply construct_variant.
Qed.

(** ** The derived encoder *)
Lemma append_fields b (l : list Field) : output (foldl append_field b l) = output b ++ (l ≫= encode_value).
Proof.
  revert b. induction l as [|f l IH]; intros b; [by rewrite app_nil_r|]. csimpl. rewrite IH.
  cbn [append_field append output]. by rewrite <-app_assoc.
Qed.

Lemma concat_encoded (i : u8) (l : list Field) : concat ([i] :: (encode_value <$> l)) = i :: (l ≫= encode_value).
Proof. cbn [concat app]. f_equal. induction l as [|f l IH]; [done|]. csimpl. by rewrite IH. Qed.

Lemma mapM_alist {A} (l : list (Ident * A)) : NoDup l.*1 → mapM (λ x, alist_get x l) l.*1 = Some l.*2.
Proof.
  intros Hnd. apply mapM_Some. apply Forall2_fmap, Forall_Forall2_diag, Forall_forall.
  intros [x a] Hx. by apply (proj2 (alist_get_Some x a l Hnd)).
Qed.

Lemma find_variant_position (variants : list (Ident * Fields)) (f : nat → Ident * Fields → EncodeArm) i x fields :
  (∀ i v, ea_variant (f i v) = v.1) → NoDup variants.*1 → variants !! i = Some (x, fields) →
  find_variant x (imap f variants) = Some (f i (x, fields)).
Proof.
  revert i f. induction variants as [|[y fs] variants IH]; intros i f Hf Hnd Hi; [done|].
  csimpl. apply NoDup_cons in Hnd as [Hy Hnd]. rewrite Hf. destruct i as [|i].
  - injection Hi as -> ->. by rewrite decide_True.
  - rewrite decide_False; [apply (IH i (f ∘ S)); [intros j v; apply Hf|done|done]|]. cbn. intros ->. apply Hy.
    apply list_elem_of_fmap. exists (x, fields). split; [done|]. by eapply list_elem_of_lookup_2.
Qed.

Lemma bind_pattern_fields i x fields v :
  variant_ok (x, fields) = true → fields_typed fields v →
  bind_pattern (ea_pattern (encode_arm i (x, fields))) v = Some (all_fields v).
Proof.
  unfold variant_ok. destruct fields as [fs|tys|], v as [|l|l]; cbn [snd fields_typed]; intros Hok Hty; try done.
  - apply bool_decide_eq_true in Hok as [Hnd _]. destruct Hty as [Hn Ht]. cbn [encode_arm ea_pattern snd bind_pattern all_fields].
    rewrite <-Hn in *. rewrite decide_True by (by rewrite length_fmap). by apply mapM_alist.
  - subst tys. by destruct l as [|f [|g l]].
Qed.

(** The bytes of a value: its fields after the position of its variant. *)
Definition encode_meaning (input : DeriveInput) (v : Value) (bytes : list byte) : Prop :=
  match data input, value_variant v with
  | DataStruct _, None => bytes = all_fields (value_fields v) ≫= encode_value
  | DataEnum variants, Some x =>
      ∃ i fields, variants !! i = Some (x, fields) ∧ bytes = variant_index i :: (all_fields (value_fields v) ≫= encode_value)
  | _, _ => False
  end.

Lemma encode_derive_correct input v :
  derivable input = true → has_type input v →
  ∃ impl bytes, encode_derive input = Expands impl ∧ eval_encode impl v = Some bytes ∧ encode_meaning input v bytes.
Proof.
  destruct input as [name [[fields|tys|]|variants|]], v as [[x|] vs]; unfold derivable, has_type, encode_derive, encode_meaning;
    cbn [data value_variant value_fields]; try done.
  - intros [Hnd _]%bool_decide_eq_true Hty. destruct vs as [|l|l]; [done|done|]. destruct Hty as [Hn _].
    eexists _, _. split; [done|]. cbn [eval_encode]. rewrite <-Hn in *. rewrite mapM_alist by done. csimpl.
    split; [done|]. unfold build. by rewrite append_fields.
  - intros [[Hnd%bool_decide_eq_true _]%andb_true_iff Hall]%andb_true_iff (fields & Hin & Hty).
    apply list_elem_of_lookup in Hin as [i Hi]. eexists _, _. split; [done|]. cbn [eval_encode].
    assert (variant_ok (x, fields) = true) as Hok.
    { rewrite forallb_forall in Hall. apply Hall, list_elem_of_In. by eapply list_elem_of_lookup_2. }
    rewrite (find_variant_position _ _ i x fields) by done. cbn [mbind option_bind].
    rewrite (bind_pattern_fields i x fields vs Hok Hty). csimpl. split; [done|]. exists i, fields. split; [done|].
    f_equal. clear. induction (all_fields vs) as [|f l IH]; [done|]. csimpl. by rewrite IH.
Qed.

(** ** The round trip *)
Lemma decode_fields_encode (l : list Field) rest :
  Forall field_round_trips l → decode_fields (projT1 <$> l) ((l ≫= encode_value) ++ rest) = Ok (l, rest).
Proof.
  induction 1 as [|[ty a] l Hf Hl IH]; [done|]. csimpl. rewrite <-app_assoc, (Hf _). csimpl. by rewrite IH.
Qed.

Lemma typed_values fields v : fields_typed fields v →
  field_types fields = projT1 <$> all_fields v ∧ values_of fields (all_fields v) = v.
Proof.
  destruct fields as [fs|tys|], v as [|l|l]; cbn; try done; try (by intros <-).
  intros [Hn Ht]. split; [done|]. f_equal. rewrite <-Hn. apply zip_fst_snd.
Qed.

Lemma decode_values_encode variant fields v rest :
  fields_typed fields v → Forall field_round_trips (all_fields v) →
  decode_values variant fields ((all_fields v ≫= encode_value) ++ rest) = Ok (MkValue variant v, rest).
Proof.
  intros [Htys Hv]%typed_values Hrt. unfold decode_values. rewrite Htys, decode_fields_encode by done. cbn [rbind]. by rewrite Hv.
Qed.

(** C33: What the derive macros generate is a codec. For a declaration whose
    names do not clash with the variables of the generated code, with at most
    256 variants and one field in a tuple variant, both macros expand to code
    that the compiler takes, and decoding an encoded value gives the value and
    leaves the bytes that follow, if the codecs of its fields do. *)
Theorem derived_codec_round_trips (input : DeriveInput) (v : Value) :
  derivable input = true → has_type input v → Forall field_round_trips (all_fields (value_fields v)) →
  ∃ encoder decoder bytes,
    encode_derive input = Expands encoder ∧ decode_derive input = Expands decoder ∧
    eval_encode encoder v = Some bytes ∧
    ∀ rest, eval_decode decoder (bytes ++ rest) = Some (Ok (v, rest)).
Proof.
  intros Hok Hty Hrt. destruct (encode_derive_correct input v Hok Hty) as (encoder & bytes & He & Hb & Hm).
  destruct (decode_derive_correct input Hok) as (decoder & Hd & Hdec).
  exists encoder, decoder, bytes. split_and!; [done..|]. intros rest. rewrite Hdec.
  unfold encode_meaning, has_type, decode_meaning, derivable in *.
  destruct input as [name [fields|variants|]], v as [[x|] vs]; cbn [data value_variant value_fields] in *; try done.
  - subst bytes. destruct fields; [|done|done]. by rewrite decode_values_encode.
  - destruct Hm as (i & fields & Hi & ->). apply andb_true_iff in Hok as [[Hnd%bool_decide_eq_true Hlen%bool_decide_eq_true]%andb_true_iff _].
    destruct Hty as (fields' & Hin & Hty). apply list_elem_of_lookup in Hin as [j Hj].
    assert (i = j) as <-.
    { apply (NoDup_lookup variants.*1 _ _ x Hnd); rewrite list_lookup_fmap; [by rewrite Hi|by rewrite Hj]. }
    assert (fields' = fields) as -> by congruence. cbn [app]. unfold variant_index.
    rewrite byte_val_of, N.mod_small, Nat2N.id, Hi by (apply lookup_lt_Some in Hi; lia).
    by rewrite decode_values_encode.
Qed.

(** ** What the conditions are for *)

(** The pattern generated for a tuple variant with two fields or more, or with
    none, is refused: [Self::V((field0, field1))] names one field. *)
Lemma tuple_variant_refused input (variants : list (Ident * Fields)) i x tys vs impl :
  data input = DataEnum variants → NoDup variants.*1 → variants !! i = Some (x, Unnamed tys) → length tys ≠ 1 →
  encode_derive input = Expands impl → eval_encode impl (MkValue (Some x) vs) = None.
Proof.
  intros Hd Hnd Hi Hlen. unfold encode_derive. rewrite Hd. intros [= <-]. cbn [eval_encode].
  rewrite (find_variant_position _ encode_arm i x (Unnamed tys)) by done. cbn [mbind option_bind encode_arm ea_pattern snd].
  by destruct tys as [|a [|b tys]].
Qed.

(** The decoder takes it, the encoder does not. *)
Definition pair_variant : DeriveInput := MkInput "Id" (DataEnum [("Rune", Unnamed [field_type u64; field_type u32])]).

Example pair_variant_is_not_encoded :
  match encode_derive pair_variant with
  | Expands impl => eval_encode impl (MkValue (Some "Rune") (TupleValues [field (1%N : u64); field (2%N : u32)]))
  | CompileError _ => Some []
  end = None ∧
  match decode_derive pair_variant with
  | Expands impl => is_ok <$> eval_decode impl (x00 :: encode (1%N : u64) ++ encode (2%N : u32))
  | CompileError _ => None
  end = Some true.
Proof. split; vm_compute; reflexivity. Qed.

(** A field called [bytes] or [rest] is taken for a variable of the decoder. *)
Example captured_names :
  Forall (λ name,
    match decode_derive (MkInput "Slice" (DataStruct (Named [(name, field_type u8); ("tail", field_type u8)]))) with
    | Expands impl => eval_decode impl [x01; x02] = None
    | CompileError _ => False
    end) ["bytes"; "rest"].
Proof. repeat constructor. Qed.

(** The position of a variant is a byte: of 257 variants the last is read back
    as the first. *)
Example position_wraps :
  let input := MkInput "Big" (DataEnum ((λ i : nat, (pretty i, Unit)) <$> seq 0 257)) in
  match encode_derive input, decode_derive input with
  | Expands encoder, Expands decoder =>
      (eval_encode encoder (MkValue (Some "256") UnitValues) ≫= eval_decode decoder) =
      Some (Ok (MkValue (Some "0") UnitValues, []))
  | _, _ => False
  end.
Proof. vm_compute. reflexivity. Qed.

(** ** A closed example with the three forms of a variant *)
Module DeriveExamples.
Definition ex_input : DeriveInput :=
  MkInput "Event"
    (DataEnum
      [("Idle", Unit); ("Rune", Unnamed [field_type (u64 * u32)]); ("Seen", Named [("height", field_type u64); ("rest", field_type u8)])]).
Definition ex_value : Value := MkValue (Some "Seen") (NamedValues [("height", field (300%N : u64)); ("rest", field (x07 : u8))]).

Lemma derived_codec_round_trips_witness :
  derivable ex_input = true ∧
  ∃ encoder decoder bytes,
    encode_derive ex_input = Expands encoder ∧ decode_derive ex_input = Expands decoder ∧
    eval_encode encoder ex_value = Some bytes ∧
    ∀ rest, eval_decode decoder (bytes ++ rest) = Some (Ok (ex_value, rest)).
Proof.
  split; [vm_compute; reflexivity|]. apply (derived_codec_round_trips ex_input ex_value).
  - vm_compute. reflexivity.
  - eexists. split; [by right; right; left|done].
  - apply Forall_cons. split; [by apply (codec_round_trips (300%N : u64))|].
    apply Forall_singleton. by apply (codec_round_trips (x07 : u8)).
Defined.
End DeriveExamples.

(** ** The codec of a type is the derived one *)
Definition derives {A} `{Encode A, Decode A} (input : DeriveInput) (value_of : A → Value) : Prop :=
  (∃ encoder, encode_derive input = Expands encoder ∧ ∀ a, eval_encode encoder (value_of a) = Some (encode a)) ∧
  (∃ decoder, decode_derive input = Expands decoder ∧
    ∀ bytes, eval_decode decoder bytes = Some (rmap (λ '(a, rest), (value_of a, rest)) (decode bytes))).
