(* ===== verification/Timestamp.v ===== *)
(** * Commit timestamps

    [Timestamp], [U64Timestamp] and [U64Comparator] of
    src/src/storage/timestamp.rs.  The system clock is an argument: [unix_ts]
    is what [SystemTime::now()] gave, in seconds. *)
From S2P Require Import Prelude ByteOrder.

Definition LOGICAL_BITS : u64 := 18%N.
Definition LOGICAL_MASK : u64 := (N.shiftl 1 LOGICAL_BITS - 1)%N.

Record Timestamp : Type := MkTimestamp { physical : u64; logical : u64 }.

#[export] Instance timestamp_eq_dec : EqDecision Timestamp.
Proof. solve_decision. Defined.

Definition timestamp_new (unix_ts : u64) : Timestamp := MkTimestamp unix_ts 0%N.

Definition after (unix_ts : u64) (prev : Timestamp) : Timestamp :=
  let logical :=
    if (unix_ts <=? physical prev)%N then wrapping_add 64 (logical prev) 1 else 0%N in
  MkTimestamp unix_ts logical.

(** Lowest 18 bits for logical, rest for physical; both operations wrap. *)
Definition as_u64 (t : Timestamp) : u64 :=
  wrapping_add 64 (N.shiftl (physical t) LOGICAL_BITS mod 2 ^ 64) (logical t).

Definition from_u64 (n : u64) : Timestamp :=
  MkTimestamp (N.shiftr n LOGICAL_BITS) (N.land n LOGICAL_MASK).

(** ** [U64Timestamp]: eight little-endian bytes *)
Definition SIZE : nat := 8.
Definition u64timestamp_new (ts : u64) : u8arr SIZE := le_bytes SIZE ts.
Definition as_rocksdb_ts (t : Timestamp) : u8arr SIZE := u64timestamp_new (as_u64 t).

(** [impl From<&[u8]>], which asserts the length. *)
Definition u64timestamp_from {E} (slice : list byte) : Res E (u8arr SIZE) :=
  _ ← assert (bool_decide (length slice = SIZE)) "incorrect timestamp length";
  Ok slice.

Definition u64timestamp_cmp (a b : u8arr SIZE) : comparison := (le_val a ?= le_val b)%N.

(** ** [U64Comparator] *)
Section Comparator.
Context {E : Type}.

(** [&key[(key.len() - SIZE)..]] and [&key[..(key.len() - SIZE)]]: a key
    shorter than a timestamp panics. *)
Definition extract_timestamp_from_user_key (key : list byte) : Res E (list byte) :=
  if (SIZE <=? length key)%nat then Ok (drop (length key - SIZE) key) else Panic "slice index".

Definition strip_timestamp_from_user_key (key : list byte) : Res E (list byte) :=
  if (SIZE <=? length key)%nat then Ok (take (length key - SIZE) key) else Panic "slice index".

Definition compare_ts (bz1 bz2 : list byte) : Res E comparison :=
  ts1 ← u64timestamp_from bz1;
  ts2 ← u64timestamp_from bz2;
  Ok (u64timestamp_cmp ts1 ts2).

Definition compare_without_ts (a : list byte) (a_has_ts : bool) (b : list byte) (b_has_ts : bool) :
    Res E comparison :=
  a ← (if a_has_ts then strip_timestamp_from_user_key a else Ok a);
  b ← (if b_has_ts then strip_timestamp_from_user_key b else Ok b);
  Ok (lex_cmp a b).

Definition compare (a b : list byte) : Res E comparison :=
  ord ← compare_without_ts a true b true;
  match ord with
  | Eq =>
      ts_a ← extract_timestamp_from_user_key a;
      ts_b ← extract_timestamp_from_user_key b;
      ord ← compare_ts ts_a ts_b;
      Ok (CompOpp ord)
  | ord => Ok ord
  end.
End Comparator.

(** * Laws *)
Lemma shiftl_18 n : N.shiftl n LOGICAL_BITS = (n * 2 ^ 18)%N.
Proof. apply N.shiftl_mul_pow2. Qed.

Lemma logical_mask n : N.land n LOGICAL_MASK = (n mod 2 ^ 18)%N.
Proof. change LOGICAL_MASK with (N.ones 18). apply N.land_ones. Qed.

Lemma as_u64_fits t : fits 64 (as_u64 t).
Proof. apply wrapping_add_fits. Qed.

(** A timestamp whose halves fit is the sum of its halves. *)
Lemma as_u64_exact t :
  fits 46 (physical t) → (logical t <= 2 ^ 18)%N → fits 64 (physical t * 2 ^ 18 + logical t)%N →
  as_u64 t = (physical t * 2 ^ 18 + logical t)%N.
Proof.
  intros Hp Hl Hs. unfold as_u64. rewrite shiftl_18.
  assert (2 ^ 64 = 2 ^ 46 * 2 ^ 18)%N as H64 by done.
  rewrite N.mod_small by (unfold fits in *; nia). by apply wrapping_add_exact.
Qed.

(** A timestamp in the range the two halves were designed for. *)
Definition timestamp_ok (t : Timestamp) : Prop := fits 46 (physical t) ∧ fits 18 (logical t).

Lemma as_u64_ok t : timestamp_ok t → as_u64 t = (physical t * 2 ^ 18 + logical t)%N.
Proof.
  intros [Hp Hl]. assert (2 ^ 64 = 2 ^ 46 * 2 ^ 18)%N as H64 by done.
  apply as_u64_exact; unfold fits in *; [done|lia|rewrite H64; nia].
Qed.

(** A 64-bit number read as a timestamp and written back is unchanged; in
    particular the timestamp of [u64::MAX], which every reader of the latest
    data uses, is the largest timestamp there is. *)
Theorem as_u64_from_u64 (n : u64) : fits 64 n → as_u64 (from_u64 n) = n.
Proof.
  intros Hn. rewrite as_u64_ok.
  - simpl. rewrite logical_mask. rewrite N.shiftr_div_pow2. change LOGICAL_BITS with 18%N.
    rewrite N.mul_comm. symmetry. apply N.div_mod. done.
  - split; simpl.
    + rewrite N.shiftr_div_pow2. unfold fits in *. change LOGICAL_BITS with 18%N.
      apply N.Div0.div_lt_upper_bound. by change (2 ^ 18 * 2 ^ 46)%N with (2 ^ 64)%N.
    + rewrite logical_mask. apply N.mod_lt. done.
Qed.

Example as_u64_from_u64_witness : as_u64 (from_u64 u64_MAX) = u64_MAX.
Proof. apply as_u64_from_u64. vm_compute. reflexivity. Defined.

(** C40: With a clock that does not go back and fewer than 2^18 commits in a
    second, [after] gives a strictly larger timestamp: successive commits are
    ordered as they were made. *)
Theorem after_increases (unix_ts : u64) (prev : Timestamp) :
  timestamp_ok prev → fits 46 unix_ts → (physical prev <= unix_ts)%N → fits 18 (logical prev + 1)%N →
  timestamp_ok (after unix_ts prev) ∧ (as_u64 prev < as_u64 (after unix_ts prev))%N.
Proof.
  intros Hprev Hts Hclock Hroom.
  assert (timestamp_ok (after unix_ts prev)) as Hafter.
  { split; [done|]. simpl. destruct (N.leb_spec unix_ts (physical prev)); [|done].
    rewrite wrapping_add_exact; [done|]. by eapply fits_mono; [|exact Hroom]. }
  split; [done|]. rewrite !as_u64_ok by done. destruct Hprev as [_ Hl]. simpl.
  destruct (N.leb_spec unix_ts (physical prev)) as [Hle|Hlt]; unfold fits in *.
  - rewrite wrapping_add_exact by (by eapply (fits_mono 18)). nia.
  - change (2 ^ 18)%N with 262144%N in *. nia.
Qed.

Example after_increases_witness :
  timestamp_ok (after 1700000000%N (MkTimestamp 1700000000 41)) ∧
  (as_u64 (MkTimestamp 1700000000 41) < as_u64 (after 1700000000%N (MkTimestamp 1700000000 41)))%N.
Proof. apply after_increases; [split| | |]; vm_compute; congruence. Defined.

(** When the clock went back since the previous commit, [after] keeps the
    smaller clock value and the new timestamp is below the previous one: only
    a warning is logged, the timestamp order of the two commits is inverted. *)
Theorem after_clock_back_decreases (unix_ts : u64) (prev : Timestamp) :
  timestamp_ok prev → (unix_ts < physical prev)%N → fits 18 (logical prev + 1)%N →
  (as_u64 (after unix_ts prev) < as_u64 prev)%N.
Proof.
  intros Hprev Hback Hroom.
  assert (logical (after unix_ts prev) = logical prev + 1)%N as Hlog.
  { simpl. destruct (N.leb_spec unix_ts (physical prev)); [|lia].
    apply wrapping_add_exact. by eapply (fits_mono 18). }
  assert (timestamp_ok (after unix_ts prev)) as Hafter.
  { destruct Hprev as [Hp _]. split; [unfold fits in *; simpl; lia|by rewrite Hlog]. }
  rewrite !as_u64_ok, Hlog by done. simpl. unfold fits in *. nia.
Qed.

Example after_clock_back_decreases_witness :
  (as_u64 (after 1700000000%N (MkTimestamp 1700000001 0)) < as_u64 (MkTimestamp 1700000001 0))%N.
Proof. apply after_clock_back_decreases; [split| |]; vm_compute; reflexivity. Defined.

(** The bytes of a timestamp compare as the number. *)
Lemma u64timestamp_cmp_new a b :
  fits 64 a → fits 64 b → u64timestamp_cmp (u64timestamp_new a) (u64timestamp_new b) = (a ?= b)%N.
Proof.
  intros Ha Hb. unfold u64timestamp_cmp, u64timestamp_new. rewrite !le_val_bytes.
  by rewrite !N.mod_small.
Qed.

Lemma strip_timestamp_app {E} key ts :
  strip_timestamp_from_user_key (E:=E) (key ++ u64timestamp_new ts) = Ok key.
Proof.
  unfold strip_timestamp_from_user_key, u64timestamp_new.
  rewrite length_app, length_le_bytes. rewrite (proj2 (Nat.leb_le _ _)) by lia.
  rewrite Nat.add_sub. by rewrite take_app_length.
Qed.

Lemma extract_timestamp_app {E} key ts :
  extract_timestamp_from_user_key (E:=E) (key ++ u64timestamp_new ts) = Ok (u64timestamp_new ts).
Proof.
  unfold extract_timestamp_from_user_key, u64timestamp_new.
  rewrite length_app, length_le_bytes. rewrite (proj2 (Nat.leb_le _ _)) by lia.
  rewrite Nat.add_sub. by rewrite drop_app_length.
Qed.

Lemma u64timestamp_from_new {E} ts :
  u64timestamp_from (E:=E) (u64timestamp_new ts) = Ok (u64timestamp_new ts).
Proof. unfold u64timestamp_from. by rewrite bool_decide_true by apply length_le_bytes. Qed.

(** On keys that carry a timestamp the comparator is total: it orders by
    the key bytes first and, for one key, puts the newer version first. *)
Theorem compare_user_keys {E} (key1 key2 : list byte) (ts1 ts2 : u64) :
  fits 64 ts1 → fits 64 ts2 →
  compare (E:=E) (key1 ++ u64timestamp_new ts1) (key2 ++ u64timestamp_new ts2) =
  Ok (match lex_cmp key1 key2 with Eq => (ts2 ?= ts1)%N | ord => ord end).
Proof.
  intros H1 H2. unfold compare, compare_without_ts.
  rewrite !strip_timestamp_app. simpl. destruct (lex_cmp key1 key2); try done.
  rewrite !extract_timestamp_app. unfold rbind at 1 2.
  unfold compare_ts. rewrite !u64timestamp_from_new. simpl.
  by rewrite u64timestamp_cmp_new, N.compare_antisym, CompOpp_involutive.
Qed.

Example compare_user_keys_witness :
  compare (E:=unit) ([x43; x48] ++ u64timestamp_new 7) ([x43; x48] ++ u64timestamp_new 9) = Ok Gt.
Proof. apply (compare_user_keys [x43; x48] [x43; x48] 7 9); vm_compute; reflexivity. Defined.
