(* ===== verification/Types.v ===== *)
(** * Shared data

    Chain points, transaction outputs and errors: src/src/sync/stages/mod.rs,
    src/src/sync/stages/index/indexers/types.rs, indexers/custom/mod.rs and
    src/src/error.rs.  A hash is its 32 bytes. *)
From S2P Require Import Prelude EncDec.

Abbreviation BlockHash := (u8arr 32).
Abbreviation Txid := (u8arr 32).
Abbreviation BlockHeight := u64.
Abbreviation ScriptPubKey := (list byte).
Abbreviation RawKey := (list byte).
Abbreviation RawValue := (list byte).

Record Point : Type := MkPoint { point_height : BlockHeight; point_hash : BlockHash }.
#[export] Instance point_eq_dec : EqDecision Point.
Proof. intros [h1 b1] [h2 b2]. destruct (N.eq_dec h1 h2), (u8arr_eq_dec 32 b1 b2); (by left; congruence) || (right; congruence). Defined.

(** ** [TransactionIndexer]: the attachments an output can carry *)
Inductive TransactionIndexer : Type :=
| TxCountByAddress
| Runes
| UtxosByAddress
| Charms.
#[export] Instance transaction_indexer_eq_dec : EqDecision TransactionIndexer.
Proof. solve_decision. Defined.

(** [unique_id]: the discriminant. *)
Definition unique_id (i : TransactionIndexer) : u16 :=
  match i with
  | TxCountByAddress => 0
  | Runes => 1
  | UtxosByAddress => 2
  | Charms => 3
  end%N.

#[export] Instance transaction_indexer_encode : Encode TransactionIndexer := λ i,
  match i with
  | TxCountByAddress => encode_variant 0 []
  | Runes => encode_variant 1 []
  | UtxosByAddress => encode_variant 2 []
  | Charms => encode_variant 3 []
  end.

#[export] Instance transaction_indexer_decode : Decode TransactionIndexer :=
  decode_enum
    [decode_struct TxCountByAddress; decode_struct Runes;
     decode_struct UtxosByAddress; decode_struct Charms].

#[export] Program Instance transaction_indexer_codec : Codec TransactionIndexer := {|
  valid := λ _, True;
|}.
Next Obligation. by intros []. Qed.

(** ** [TxoRef] *)
Record TxoRef : Type := MkTxoRef { tx_hash : u8arr 32; txo_index : u32 }.
#[export] Instance txo_ref_eq_dec : EqDecision TxoRef.
Proof. intros [h1 b1] [h2 b2]. destruct (u8arr_eq_dec 32 h1 h2), (N.eq_dec b1 b2); (by left; congruence) || (right; congruence). Defined.
#[export] Program Instance txo_ref_countable : Countable TxoRef :=
  inj_countable' (λ t, (tx_hash t, txo_index t)) (λ p, MkTxoRef p.1 p.2) _.
Next Obligation. by intros []. Qed.

#[export] Instance txo_ref_encode : Encode TxoRef := λ t,
  build (append (txo_index t) (append (tx_hash t) builder_new)).
#[export] Instance txo_ref_decode : Decode TxoRef :=
  decode_field (decode_field (decode_struct MkTxoRef)).
#[export] Program Instance txo_ref_codec : Codec TxoRef := {|
  valid := λ t, length (tx_hash t) = 32 ∧ fits 32 (txo_index t);
|}.
Next Obligation. solve_struct_codec. Qed.

(** ** [Utxo], with its attachments [extended] *)
Record Utxo {Ext : Type} : Type := MkUtxo {
  satoshis : u64;
  script : list byte;
  height : u64;
  extended : Ext;
}.
Arguments Utxo : clear implicits.
Arguments MkUtxo {Ext} _ _ _ _.

Section Utxo.
Context {Ext : Type} `{!IndexMap TransactionIndexer (list byte) Ext}.

#[local] Instance extended_encode : Encode Ext :=
  indexmap_encode (K:=TransactionIndexer) (V:=list byte).
#[local] Instance extended_decode : Decode Ext :=
  indexmap_decode (K:=TransactionIndexer) (V:=list byte).

#[export] Instance utxo_encode : Encode (Utxo Ext) := λ u,
  build (append (extended u) (append (height u) (append (script u)
    (append (satoshis u) builder_new)))).
#[export] Instance utxo_decode : Decode (Utxo Ext) :=
  decode_field (decode_field (decode_field (decode_field (decode_struct MkUtxo)))).
End Utxo.

Section UtxoLaws.
Context {Ext : Type} `{!IndexMap TransactionIndexer (list byte) Ext}.
Context `{!IndexMapOk TransactionIndexer (list byte) Ext}.
#[local] Existing Instances extended_encode extended_decode.

#[local] Instance extended_codec : Codec Ext := {|
  valid := indexmap_valid (K:=TransactionIndexer) (V:=list byte);
  decode_encode := indexmap_decode_encode;
|}.

#[export] Program Instance utxo_codec : Codec (Utxo Ext) := {|
  valid := λ u, valid (satoshis u) ∧ valid (script u) ∧ valid (height u) ∧ valid (extended u);
|}.
Next Obligation. solve_struct_codec. Qed.
End UtxoLaws.

(** ** [P2PError] and [Error]

    The errors of other crates are strings. *)
Inductive P2PError : Type :=
| ConnectFailure (io : string)
| IngressIO (io : string)
| IngressChannelClosed
| IngressDecoding (error : string)
| EgressIO (io : string)
| EgressChannelClosed
| PeerChannelClosed (channel : string)
| GetBlocksMismatch (requested received : BlockHash).

Inductive Error : Type :=
| Config (msg : string)
| Decoding (e : DecodingError)
| Rocks (msg : string)
| Rollback (p : Point)
| Custom (msg : string)
| P2P (e : P2PError)
| MissingUtxo (txo_ref : TxoRef)
| MergeOperator.

Definition missing_utxo (txo_ref : TxoRef) : Error := MissingUtxo txo_ref.

(** Decoding inside code that returns [Error]: the operator [?] converts. *)
Definition decode_or {A} `{Decode A} (bytes : list byte) : Res Error A :=
  map_err Decoding (decode_all bytes).

Lemma decode_or_encode {A} `{Codec A} (a : A) : valid a → decode_or (encode a) = Ok a.
Proof. intros Ha. unfold decode_or. by rewrite decode_all_encode. Qed.
