(* ===== verification/MergeOperation.v ===== *)
(** * Merge operations

    src/src/storage/merge_operation.rs: the operands RocksDB stores for a
    counter, the merge operator and the partial merge operator handed to
    RocksDB, and the two helpers the write buffer uses. *)
From S2P Require Import Prelude EncDec Types.

Inductive MergeOperation : Type :=
| Increment (amount : u128)
| Decrement (amount : u128).

#[export] Instance merge_operation_encode : Encode MergeOperation := λ op,
  match op with
  | Increment amount => [x00] ++ encode amount
  | Decrement amount => [x01] ++ encode amount
  end.

#[export] Instance merge_operation_decode : Decode MergeOperation := λ bytes,
  '(op_code, bytes) ← (decode bytes : DecodingResult u8);
  match op_code with
  | x00 => '(amount, bytes) ← (decode bytes : DecodingResult u128); Ok (Increment amount, bytes)
  | x01 => '(amount, bytes) ← (decode bytes : DecodingResult u128); Ok (Decrement amount, bytes)
  | _ => Err (malformed_input "invalid merge op code" bytes)
  end.

(** One operand on one amount; both directions saturate. *)
Definition apply_operand (op : MergeOperation) (current : u128) : u128 :=
  match op with
  | Increment delta => saturating_add 128 current delta
  | Decrement delta => saturating_sub current delta
  end.

(** [Result::ok]. *)
Definition ok {E A} (r : Res E A) : option A :=
  match r with Ok a => Some a | _ => None end.

(** The closure [create_merge_operator] returns. *)
Fixpoint merge_operands (current : u128) (operands : list (list byte)) : option u128 :=
  match operands with
  | [] => Some current
  | operand :: operands =>
      match ok (decode_all operand) with
      | Some op => merge_operands (apply_operand op current) operands
      | None => None
      end
  end.

Definition merge_operator (existing : option (list byte)) (operands : list (list byte)) :
    option (list byte) :=
  let current :=
    match existing with Some b => ok (decode_all b) | None => Some (0%N : u128) end in
  match current with
  | Some current => option_map encode (merge_operands current operands)
  | None => None
  end.

(** The closure [create_partial_merge_operator] returns. *)
Fixpoint operand_totals (increment_total decrement_total : u128) (operands : list (list byte)) :
    option (u128 * u128) :=
  match operands with
  | [] => Some (increment_total, decrement_total)
  | operand :: operands =>
      match ok (decode_all operand) with
      | Some (Increment delta) =>
          operand_totals (saturating_add 128 increment_total delta) decrement_total operands
      | Some (Decrement delta) =>
          operand_totals increment_total (saturating_add 128 decrement_total delta) operands
      | None => None
      end
  end.

Definition partial_merge_operator (operands : list (list byte)) : option (list byte) :=
  match operand_totals 0%N 0%N operands with
  | Some (increment_total, decrement_total) =>
      let new_op :=
        if (decrement_total <=? increment_total)%N
        then Increment (saturating_sub increment_total decrement_total)
        else Decrement (saturating_sub decrement_total increment_total) in
      Some (encode new_op)
  | None => None
  end.

Definition apply_merge_to_value (op : MergeOperation) (existing_value : list byte) : Res Error u128 :=
  existing_amount ← (decode_or existing_value : Res Error u128);
  Ok (match op with
      | Increment amount => saturating_add 128 existing_amount amount
      | Decrement amount => saturating_sub existing_amount amount
      end).

Definition combine_merge_operations (existing_op new_op : MergeOperation) : MergeOperation :=
  match existing_op, new_op with
  | Increment existing_amount, Increment new_amount =>
      Increment (saturating_add 128 existing_amount new_amount)
  | Decrement existing_amount, Decrement new_amount =>
      Decrement (saturating_add 128 existing_amount new_amount)
  | Increment existing_amount, Decrement new_amount =>
      if (new_amount <=? existing_amount)%N
      then Increment (saturating_sub existing_amount new_amount)
      else Decrement (saturating_sub new_amount existing_amount)
  | Decrement existing_amount, Increment new_amount =>
      if (new_amount <=? existing_amount)%N
      then Decrement (saturating_sub existing_amount new_amount)
      else Increment (saturating_sub new_amount existing_amount)
  end.

(** * Laws *)
Definition op_amount (op : MergeOperation) : u128 :=
  match op with Increment a => a | Decrement a => a end.

#[export] Program Instance merge_operation_codec : Codec MergeOperation := {|
  valid := λ op, fits 128 (op_amount op);
|}.
Next Obligation.
  intros [amount|amount] rest Ha.
  - transitivity ('(x, bytes) ← (decode (encode amount ++ rest) : DecodingResult u128);
                  Ok (Increment x, bytes)); [reflexivity|].
    by rewrite (decode_encode (Codec := u128_codec) amount).
  - transitivity ('(x, bytes) ← (decode (encode amount ++ rest) : DecodingResult u128);
                  Ok (Decrement x, bytes)); [reflexivity|].
    by rewrite (decode_encode (Codec := u128_codec) amount).
Qed.

(** [op] does not saturate on [x]. *)
Definition exact (op : MergeOperation) (x : u128) : Prop :=
  match op with
  | Increment a => fits 128 (x + a)%N
  | Decrement a => (a <= x)%N
  end.

Lemma apply_operand_fits op x : fits 128 x → fits 128 (apply_operand op x).
Proof. destruct op; [intros _; apply saturating_add_fits|apply saturating_sub_fits]. Qed.

(** Folding two pending operations into one gives the amount that the
    two operations give one after the other, as long as the first does not
    saturate. *)
Theorem combine_merge_operations_correct (op1 op2 : MergeOperation) (x : u128) :
  fits 128 x → fits 128 (op_amount op1) → fits 128 (op_amount op2) → exact op1 x →
  apply_operand (combine_merge_operations op1 op2) x = apply_operand op2 (apply_operand op1 x).
Proof.
  unfold fits. intros Hx H1 H2 Hexact.
  destruct op1 as [a|a], op2 as [b|b]; simpl in *;
    unfold fits, saturating_add, saturating_sub, MAX in *;
    try destruct (N.leb_spec b a); simpl; unfold saturating_add, saturating_sub, MAX; lia.
Qed.

Example combine_merge_operations_correct_witness :
  apply_operand (combine_merge_operations (Decrement 2) (Increment 5)) 10 =
  apply_operand (Increment 5) (apply_operand (Decrement 2) 10).
Proof. apply combine_merge_operations_correct; vm_compute; congruence. Defined.

(** When the first of two decrements-then-increments saturates at zero,
    the combined operation loses the part that was cut off: the write buffer
    and RocksDB's partial merge give a smaller amount than applying the two
    operations in order. *)
Theorem combine_loses_saturation (x a b : u128) :
  (x < a)%N → (0 < b)%N → fits 128 b → fits 128 a →
  (apply_operand (combine_merge_operations (Decrement a) (Increment b)) x <
   apply_operand (Increment b) (apply_operand (Decrement a) x))%N.
Proof.
  unfold fits. intros Hx Hb Hbf Haf. simpl.
  destruct (N.leb_spec b a); simpl; unfold saturating_add, saturating_sub, MAX; lia.
Qed.

Example combine_loses_saturation_witness :
  (apply_operand (combine_merge_operations (Decrement 5) (Increment 3)) 1 <
   apply_operand (Increment 3) (apply_operand (Decrement 5) 1))%N.
Proof. apply combine_loses_saturation; vm_compute; reflexivity. Defined.

(** ** The two operators of RocksDB *)
Fixpoint all_exact (ops : list MergeOperation) (x : u128) : Prop :=
  match ops with
  | [] => True
  | op :: ops => exact op x ∧ all_exact ops (apply_operand op x)
  end.

(** The amounts asked for in each direction. *)
Definition incs (ops : list MergeOperation) : N :=
  foldr (λ op acc, match op with Increment a => a + acc | Decrement _ => acc end)%N 0%N ops.
Definition decs (ops : list MergeOperation) : N :=
  foldr (λ op acc, match op with Increment _ => acc | Decrement a => a + acc end)%N 0%N ops.

Lemma merge_operands_encode ops x :
  Forall valid ops → merge_operands x (encode <$> ops) = Some (foldl (λ c op, apply_operand op c) x ops).
Proof.
  intros Hops. revert x. induction Hops as [|op ops Hop _ IH]; intros x; [done|].
  simpl. rewrite decode_all_encode by done. simpl. apply IH.
Qed.

Lemma operand_totals_encode ops i d :
  Forall valid ops → fits 128 (i + incs ops)%N → fits 128 (d + decs ops)%N →
  operand_totals i d (encode <$> ops) = Some (i + incs ops, d + decs ops)%N.
Proof.
  intros Hops. revert i d. induction Hops as [|op ops Hop _ IH]; intros i d Hi Hd.
  { simpl. by rewrite !N.add_0_r. }
  simpl. rewrite decode_all_encode by done. simpl.
  destruct op as [a|a]; simpl in *; unfold fits in *; rewrite saturating_add_exact by (unfold fits; lia).
  - rewrite IH by lia. do 2 f_equal. lia.
  - rewrite IH by lia. do 2 f_equal. lia.
Qed.

(** Operations that do not saturate add up. *)
Lemma foldl_apply_exact ops x :
  fits 128 x → all_exact ops x →
  (foldl (λ c op, apply_operand op c) x ops + decs ops = x + incs ops)%N.
Proof.
  revert x. induction ops as [|op ops IH]; intros x Hx Hex; simpl; [lia|].
  destruct Hex as [Hop Hex]. pose proof (IH _ (apply_operand_fits op x Hx) Hex) as Hsum.
  destruct op as [a|a]; simpl in *; unfold saturating_sub in *.
  - rewrite saturating_add_exact in * by done. lia.
  - lia.
Qed.

Lemma merge_operands_one op x : valid op → merge_operands x [encode op] = Some (apply_operand op x).
Proof. intros Hop. simpl. by rewrite decode_all_encode. Qed.

(** C39: RocksDB may collapse the operands of a counter with the partial merge
    operator before it applies them.  Operands that never saturate and whose
    totals fit on 128 bits give the same stored value either way. *)
Theorem partial_merge_sound (ops : list MergeOperation) (x : u128) :
  fits 128 x → Forall valid ops → all_exact ops x → fits 128 (incs ops) → fits 128 (decs ops) →
  ∃ op, partial_merge_operator (encode <$> ops) = Some op ∧
        merge_operator (Some (encode x)) [op] = merge_operator (Some (encode x)) (encode <$> ops).
Proof.
  intros Hx Hops Hex Hi Hd. unfold partial_merge_operator.
  rewrite operand_totals_encode by done. rewrite !N.add_0_l. eexists. split; [done|].
  unfold merge_operator. rewrite decode_all_encode by done. simpl ok. cbv iota beta.
  rewrite merge_operands_encode by done.
  pose proof (foldl_apply_exact ops x Hx Hex) as Hsum.
  assert (fits 128 (foldl (λ c op, apply_operand op c) x ops)) as Hres.
  { clear -Hx. revert x Hx. induction ops as [|op ops IH]; intros x Hx; simpl; [done|].
    by apply IH, apply_operand_fits. }
  unfold fits in *.
  destruct (N.leb_spec (decs ops) (incs ops)) as [Hle|Hlt];
    (rewrite merge_operands_one by (simpl; unfold fits, saturating_sub; lia));
    simpl; do 2 f_equal; unfold saturating_add, saturating_sub, MAX; lia.
Qed.

Example partial_merge_sound_witness :
  ∃ op, partial_merge_operator (encode <$> [Increment 7; Decrement 3; Increment 1]) = Some op ∧
        merge_operator (Some (encode (2%N : u128))) [op] =
        merge_operator (Some (encode (2%N : u128))) (encode <$> [Increment 7; Decrement 3; Increment 1]).
Proof.
  apply (partial_merge_sound [Increment 7; Decrement 3; Increment 1] 2);
    repeat constructor; vm_compute; congruence.
Defined.
