(* ===== verification/Table.v ===== *)
(** * Tables

    src/src/storage/table.rs: a table is a byte prefix and the codecs of its
    keys and values.  [core_table] and [indexer_table] are what the macros
    [define_core_table!] and [define_indexer_table!] expand to. *)
From S2P Require Import Prelude ByteOrder EncDec Types.

Definition CORE_INDEXER_TAG : u8 := x43.
Definition CUSTOM_INDEXER_TAG : u8 := x55.

(** The trait [Table]. *)
Record Table (K V : Type) : Type := MkTable {
  PREFIX_LEN : nat;
  encode_key : K → list byte;
  encode_range : ∀ {A B : Type}, Encode A → Encode B → option A → option B → Range;
}.
Arguments MkTable {K V} _ _ _.
Arguments PREFIX_LEN {K V} _.
Arguments encode_key {K V} _ _ : simpl never.
Arguments encode_range {K V} _ {A B _ _} _ _.

(** The body of [encode_range], the same in both macros. *)
Definition table_range (prefix : EncodeBuilder) {A B} `{Encode A, Encode B}
    (start : option A) (to : option B) : Range :=
  let prefix_range := prefix_key_range (build prefix) in
  let start_enc := match start with Some start => append start prefix | None => prefix end in
  let start_key := build start_enc in
  let end_key :=
    match to with
    | Some to => build (append to prefix)
    | None => prefix_range.2
    end in
  (start_key, end_key).

Section Macros.
Context {K : Type} (V : Type) `{Encode K}.

Definition core_prefix (indexer_id : u8) : EncodeBuilder :=
  append indexer_id (append CORE_INDEXER_TAG builder_new).

Definition core_table (indexer_id : u8) : Table K V := {|
  PREFIX_LEN := 2;
  encode_key := λ key, build (append key (core_prefix indexer_id));
  encode_range := λ A B _ _ start to, table_range (core_prefix indexer_id) start to;
|}.

Definition indexer_prefix (indexer_id : u16) (table_id : u8) : EncodeBuilder :=
  append table_id (append indexer_id (append CUSTOM_INDEXER_TAG builder_new)).

Definition indexer_table (indexer_id : u16) (table_id : u8) : Table K V := {|
  PREFIX_LEN := 4;
  encode_key := λ key, build (append key (indexer_prefix indexer_id table_id));
  encode_range := λ A B _ _ start to, table_range (indexer_prefix indexer_id table_id) start to;
|}.
End Macros.
Arguments core_table {K} V {_} _.
Arguments indexer_table {K} V {_} _ _.

(** ** [TableIterator] *)
Section Iterator.
Context {K V : Type} `{Decode K, Decode V} (T : Table K V).

(** [next] on an item of the underlying iterator; [&key[PREFIX_LEN..]]
    panics on a key shorter than the prefix. *)
Definition table_next (item : Res Error (RawKey * RawValue)) : Res Error (K * V) :=
  '(key, value) ← item;
  if (PREFIX_LEN T <=? length key)%nat then
    key_out ← decode_or (drop (PREFIX_LEN T) key);
    value_out ← decode_or value;
    Ok (key_out, value_out)
  else Panic "slice index".

Definition table_iterator (items : list (Res Error (RawKey * RawValue))) : list (Res Error (K * V)) :=
  table_next <$> items.
End Iterator.

(** * Laws

    [table_at T prefix]: the table lives under [prefix]. *)
Record table_at {K V} `{Encode K} (T : Table K V) (prefix : list byte) : Prop := {
  table_prefix_len : PREFIX_LEN T = length prefix;
  table_encode_key key : encode_key T key = prefix ++ encode key;
  table_encode_range {A B} `{!Encode A, !Encode B} (start : option A) (to : option B) :
    encode_range T start to =
    (prefix ++ match start with Some a => encode a | None => [] end,
     match to with Some b => prefix ++ encode b | None => (prefix_key_range prefix).2 end);
  table_prefix_bounded : ¬ Forall (λ b, b = xff) prefix;
}.

Lemma table_range_eq p {A B} `{Encode A, Encode B} (start : option A) (to : option B) :
  table_range p start to =
  (build p ++ match start with Some a => encode a | None => [] end,
   match to with Some b => build p ++ encode b | None => (prefix_key_range (build p)).2 end).
Proof. unfold table_range. destruct start, to; rewrite ?app_nil_r; done. Qed.

Lemma core_table_at {K} V `{Encode K} indexer_id :
  table_at (core_table V indexer_id : Table K V) [CORE_INDEXER_TAG; indexer_id].
Proof.
  split; [done|done| |by intros Hff%Forall_cons; destruct Hff].
  intros A B ?? start to. exact (table_range_eq (core_prefix indexer_id) start to).
Qed.

Definition indexer_table_prefix (indexer_id : u16) (table_id : u8) : list byte :=
  CUSTOM_INDEXER_TAG :: encode indexer_id ++ [table_id].

Lemma build_indexer_prefix indexer_id table_id :
  build (indexer_prefix indexer_id table_id) = indexer_table_prefix indexer_id table_id.
Proof. done. Qed.

Lemma length_indexer_table_prefix indexer_id table_id :
  length (indexer_table_prefix indexer_id table_id) = 4.
Proof.
  unfold indexer_table_prefix. cbn [length]. rewrite length_app.
  change (encode indexer_id) with (be_bytes 2 indexer_id). by rewrite length_be_bytes.
Qed.

Lemma indexer_table_at {K} V `{Encode K} indexer_id table_id :
  table_at (indexer_table V indexer_id table_id : Table K V) (indexer_table_prefix indexer_id table_id).
Proof.
  split; [|done| |by intros Hff%Forall_cons; destruct Hff].
  - by rewrite length_indexer_table_prefix.
  - intros A B ?? start to. rewrite <-build_indexer_prefix. apply table_range_eq.
Qed.

Section Laws.
Context {K V : Type} `{Codec K, Codec V} (T : Table K V) (prefix : list byte).
Context (HT : table_at T prefix).

Lemma encode_key_inj k1 k2 : valid k1 → valid k2 → encode_key T k1 = encode_key T k2 → k1 = k2.
Proof. rewrite !(table_encode_key _ _ HT). intros ?? Heq%app_inv_head. by apply encode_inj. Qed.

(** The whole table: its keys and no key of another table. *)
Lemma whole_table_range key :
  in_range (encode_range T (None : option unit) (None : option unit)) key ↔ prefix `prefix_of` key.
Proof.
  rewrite (table_encode_range _ _ HT). rewrite app_nil_r.
  apply (prefix_key_range_iff prefix key), HT.
Qed.

(** The part of the table below a bound. *)
Lemma table_range_below {B} `{Encode B} (to : B) key :
  in_range (encode_range T (None : option unit) (Some to)) (prefix ++ key) ↔ lex_lt key (encode to).
Proof.
  rewrite (table_encode_range _ _ HT), app_nil_r. unfold in_range. simpl. rewrite lex_lt_app.
  pose proof (lex_le_prefix prefix key). tauto.
Qed.

(** A key below the prefix's own bound extends the prefix. *)
Lemma table_range_prefix {A B} `{Encode A, Encode B} (start : option A) (to : option B) key :
  in_range (encode_range T start to) key → prefix `prefix_of` key.
Proof.
  rewrite (table_encode_range _ _ HT). intros [Hle Hlt]. simpl in *.
  apply (prefix_key_range_iff prefix); [apply HT|]. split; simpl.
  - eapply lex_le_trans; [|exact Hle]. apply lex_le_prefix.
  - destruct to as [b|]; [|done]. eapply lex_lt_le_trans; [exact Hlt|].
    assert (in_range (prefix_key_range prefix) (prefix ++ encode b)) as [_ Hb].
    { apply prefix_key_range_iff; [apply HT|]. by apply prefix_app_r. }
    apply lex_le_lt_or_eq. by left.
Qed.

(** Reading back an entry that was written. *)
Lemma table_next_encode k v :
  valid k → valid v → table_next T (Ok (encode_key T k, encode v)) = Ok (k, v).
Proof.
  intros Hk Hv. unfold table_next. simpl.
  rewrite (table_encode_key _ _ HT), (table_prefix_len _ _ HT), length_app.
  rewrite (proj2 (Nat.leb_le _ _)) by lia. rewrite drop_app_length.
  rewrite decode_or_encode by done. simpl. by rewrite decode_or_encode.
Qed.
End Laws.

(** Tables under different prefixes of one length share no key. *)
Lemma prefix_disjoint {A} (p q k : list A) :
  length p = length q → p `prefix_of` k → q `prefix_of` k → p = q.
Proof. intros Hlen [a ->] [b Heq]. by apply app_inj_1 in Heq as [-> _]. Qed.

(** The range of a whole table holds exactly the keys that start with its
    prefix, so a scan of one table reaches every entry of it and no entry of
    another table. *)
Theorem core_table_range_exact {K V} `{Encode K} (indexer_id : u8) (key : list byte) :
  in_range (encode_range (core_table (K:=K) V indexer_id) (None : option unit) (None : option unit)) key ↔
  [CORE_INDEXER_TAG; indexer_id] `prefix_of` key.
Proof. apply whole_table_range, core_table_at. Qed.
