(* ===== verification/Rocks.v ===== *)
(** * The store

    RocksDB is not part of the repository.  [RocksDB] lists the calls the code
    makes; [RocksDBOk] states what the RocksDB documentation promises of a
    column family with user-defined timestamps: a read at a timestamp sees the
    newest commit that is not later, a batch commits as a whole at its
    timestamp with its operations applied in order, and an iterator gives the
    entries of a range in key order.  The laws speak of commits in timestamp
    order: nothing is assumed of a commit that is not newer than the others,
    nor of a read before [db_low], the point up to which history may have been
    collapsed.

    [RefDB] is a small implementation of the interface; the closed examples
    are evaluated on it. *)
From S2P Require Import Prelude ByteOrder EncDec Types MergeOperation.

Abbreviation Snapshot := (gmap RawKey RawValue).

(** One operation of a [WriteBatch]. *)
Inductive WriteOp : Type :=
| Put (key : RawKey) (value : RawValue)
| Delete (key : RawKey)
| Merge (key : RawKey) (operand : list byte)
| DeleteRange (range : Range).

Abbreviation WriteBatch := (list WriteOp).

(** The options of a write, as far as the code sets them. *)
Record WriteOptions : Type := MkWriteOptions { disable_wal : bool }.
Definition write_options_default : WriteOptions := MkWriteOptions false.

(** [wopts.disable_wal(true)]: the options of every write of the index. *)
Definition no_wal : WriteOptions := MkWriteOptions true.

Class RocksDB (DB : Type) : Type := {
  db_get : DB → RawKey → u64 → Res Error (option RawValue);
  db_multi_get : DB → list RawKey → u64 → list (Res Error (option RawValue));
  db_write : DB → WriteOptions → u64 → WriteBatch → Res Error DB;
  db_iterator : DB → Range → u64 → bool → list (Res Error (RawKey * RawValue));
  db_increase_full_history_ts_low : DB → u64 → Res Error DB;
}.

(** ** Snapshots *)
Definition apply_op (op : WriteOp) (s : Snapshot) : option Snapshot :=
  match op with
  | Put k v => Some (<[k := v]> s)
  | Delete k => Some (delete k s)
  | Merge k operand =>
      match merge_operator (s !! k) [operand] with
      | Some v => Some (<[k := v]> s)
      | None => None
      end
  | DeleteRange r => Some (filter (λ kv, ¬ in_range r kv.1) s)
  end.

Fixpoint apply_ops (ops : WriteBatch) (s : Snapshot) : option Snapshot :=
  match ops with
  | [] => Some s
  | op :: ops => match apply_op op s with Some s => apply_ops ops s | None => None end
  end.

Class RocksDBOk (DB : Type) `{RocksDB DB} : Type := {
  db_snapshot : DB → u64 → Snapshot;
  db_last : DB → u64;
  db_low : DB → u64;
  db_get_ok db k ts : (db_low db <= ts)%N → db_get db k ts = Ok (db_snapshot db ts !! k);
  db_multi_get_ok db ks ts :
    (db_low db <= ts)%N → db_multi_get db ks ts = (λ k, Ok (db_snapshot db ts !! k)) <$> ks;
  db_snapshot_latest db ts : (db_last db <= ts)%N → db_snapshot db ts = db_snapshot db (db_last db);
  db_write_ok db o ts ops s :
    (db_last db < ts)%N → apply_ops ops (db_snapshot db ts) = Some s →
    ∃ db', db_write db o ts ops = Ok db' ∧ db_last db' = ts ∧ db_low db' = db_low db ∧
      ∀ t, db_snapshot db' t = if (ts <=? t)%N then s else db_snapshot db t;
  db_increase_ok db ts db' :
    db_increase_full_history_ts_low db ts = Ok db' →
    db_last db' = db_last db ∧ (db_low db' <= N.max (db_low db) ts)%N ∧
    ∀ t, (db_low db' <= t)%N → db_snapshot db' t = db_snapshot db t;
  db_iterator_ok db r ts (rev : bool) :
    (db_low db <= ts)%N →
    ∃ l : list (RawKey * RawValue),
      db_iterator db r ts rev = Ok <$> (if rev then reverse l else l) ∧
      StronglySorted lex_lt l.*1 ∧
      ∀ k v, (k, v) ∈ l ↔ db_snapshot db ts !! k = Some v ∧ in_range r k;
}.

(** What readers of the latest data see. *)
Definition db_latest {DB} `{RocksDBOk DB} (db : DB) : Snapshot := db_snapshot db (db_last db).

(** ** What a crash leaves *)

(** The states a database has gone through since it was opened, newest first,
    and the one it is found in when it is opened again.  A write that is not in
    the write-ahead log is kept in memory until it is flushed, in the order of
    the writes: the last of them may be lost. *)
Definition found_after {A} (o : WriteOptions) (found : A) (states : list A) : Prop :=
  if disable_wal o then found ∈ states else head states = Some found.

(** ** Batches on snapshots *)
Section Snapshots.
Lemma apply_ops_app ops1 ops2 s :
  apply_ops (ops1 ++ ops2) s =
  match apply_ops ops1 s with Some s => apply_ops ops2 s | None => None end.
Proof. revert s. induction ops1 as [|op ops1 IH]; intros s; simpl; [done|]. by destruct (apply_op op s). Qed.

(** The keys a batch may change. *)
Definition op_touches (op : WriteOp) (k : RawKey) : Prop :=
  match op with
  | Put k' _ | Delete k' | Merge k' _ => k' = k
  | DeleteRange r => in_range r k
  end.

Lemma apply_op_untouched op s s' k : ¬ op_touches op k → apply_op op s = Some s' → s' !! k = s !! k.
Proof.
  destruct op as [k' v|k'|k' o|r]; simpl; intros Hk Hs; simplify_eq.
  - by rewrite lookup_insert_ne.
  - by rewrite lookup_delete_ne.
  - destruct (merge_operator _ _); simplify_eq. by rewrite lookup_insert_ne.
  - destruct (s !! k) as [v|] eqn:Hsk.
    + by apply map_lookup_filter_Some.
    + apply map_lookup_filter_None. by left.
Qed.

Lemma apply_ops_untouched ops s s' k :
  Forall (λ op, ¬ op_touches op k) ops → apply_ops ops s = Some s' → s' !! k = s !! k.
Proof.
  intros Hops. revert s. induction Hops as [|op ops Hop _ IH]; intros s Hs; simpl in Hs; [by simplify_eq|].
  destruct (apply_op op s) as [s1|] eqn:Hs1; [|done].
  by rewrite (IH _ Hs), (apply_op_untouched _ _ _ _ Hop Hs1).
Qed.

(** The keys a batch may give a value. *)
Definition op_puts (k : RawKey) (op : WriteOp) : Prop :=
  match op with Put k' _ | Merge k' _ => k' = k | _ => False end.

Lemma apply_op_kept op s s' k v :
  ¬ op_puts k op → apply_op op s = Some s' → s' !! k = Some v → s !! k = Some v.
Proof.
  destruct op as [k' x|k'|k' o|r]; simpl; intros Hk Hs Hv; simplify_eq.
  - by rewrite lookup_insert_ne in Hv.
  - by apply lookup_delete_Some in Hv as [_ Hv].
  - destruct (merge_operator _ _); simplify_eq. by rewrite lookup_insert_ne in Hv.
  - by apply map_lookup_filter_Some in Hv as [Hv _].
Qed.

(** What a batch does not put was there before. *)
Lemma apply_ops_kept ops s s' k v :
  Forall (λ op, ¬ op_puts k op) ops → apply_ops ops s = Some s' → s' !! k = Some v → s !! k = Some v.
Proof.
  intros Hops. revert s. induction Hops as [|op ops Hop _ IH]; intros s Hs Hv; simpl in Hs; [by simplify_eq|].
  destruct (apply_op op s) as [s1|] eqn:Hs1; [|done]. eapply apply_op_kept; [done..|]. by apply IH.
Qed.

(** What a batch deletes and does not put again is gone. *)
Lemma apply_ops_deleted ops s s' k :
  Forall (λ op, ¬ op_puts k op) ops → Delete k ∈ ops → apply_ops ops s = Some s' → s' !! k = None.
Proof.
  intros Hops. revert s. induction Hops as [|op ops Hop Hops IH]; intros s Hin Hs; [by apply elem_of_nil in Hin|].
  simpl in Hs. destruct (apply_op op s) as [s1|] eqn:Hs1; [|done].
  apply elem_of_cons in Hin as [<-|Hin]; [|by eapply IH].
  destruct (s' !! k) as [v|] eqn:Hv; [|done]. pose proof (apply_ops_kept _ _ _ _ _ Hops Hs Hv) as Hv1.
  injection Hs1 as <-. by rewrite lookup_delete_eq in Hv1.
Qed.

(** A batch of puts and deletes never fails. *)
Definition put_or_delete (op : WriteOp) : Prop :=
  match op with Put _ _ | Delete _ => True | _ => False end.

Lemma apply_ops_total ops s : Forall put_or_delete ops → is_Some (apply_ops ops s).
Proof.
  intros Hops. revert s. induction Hops as [|op ops Hop _ IH]; intros s; simpl; [done|].
  destruct op; simpl; done || apply IH.
Qed.
End Snapshots.

(** ** [RefDB]: the commits, newest first, each with the data as of it *)
Definition RefDB : Type := list (u64 * Snapshot).

Fixpoint refdb_snapshot (db : RefDB) (ts : u64) : Snapshot :=
  match db with
  | [] => ∅
  | (t, s) :: db => if (t <=? ts)%N then s else refdb_snapshot db ts
  end.

Definition refdb_last (db : RefDB) : u64 := match db with [] => 0%N | (t, _) :: _ => t end.

Definition entry_le (p q : RawKey * RawValue) : Prop := lex_le p.1 q.1.
#[export] Instance entry_le_dec : RelDecision entry_le.
Proof. intros p q. unfold entry_le. apply _. Defined.

Definition refdb_entries (s : Snapshot) (r : Range) : list (RawKey * RawValue) :=
  merge_sort entry_le (filter (λ kv, in_range r kv.1) (map_to_list s)).

#[export] Instance refdb_rocksdb : RocksDB RefDB := {|
  db_get := λ db k ts, Ok (refdb_snapshot db ts !! k);
  db_multi_get := λ db ks ts, (λ k, Ok (refdb_snapshot db ts !! k)) <$> ks;
  db_write := λ db _ ts ops,
    match apply_ops ops (refdb_snapshot db ts) with
    | Some s => Ok ((ts, s) :: db)
    | None => Err (Rocks "merge operator failed")
    end;
  db_iterator := λ db r ts rev,
    let l := refdb_entries (refdb_snapshot db ts) r in
    Ok <$> (if rev then reverse l else l);
  db_increase_full_history_ts_low := λ db _, Ok db;
|}.

#[export] Instance entry_le_total : Total entry_le.
Proof.
  intros p q. unfold entry_le. rewrite !lex_le_lt_or_eq.
  destruct (lex_lt_total p.1 q.1) as [?|[?|?]]; [left; left|left; right|right; left]; done.
Qed.
#[export] Instance entry_le_trans : Transitive entry_le.
Proof. intros p q r. apply lex_le_trans. Qed.

Lemma refdb_entries_spec s r :
  StronglySorted lex_lt (refdb_entries s r).*1 ∧
  ∀ k v, (k, v) ∈ refdb_entries s r ↔ s !! k = Some v ∧ in_range r k.
Proof.
  set (l := filter (λ kv, in_range r kv.1) (map_to_list s)).
  pose proof (merge_sort_Permutation entry_le l) as Hperm. split.
  - assert (NoDup (refdb_entries s r).*1) as Hnd.
    { unfold refdb_entries. fold l. rewrite Hperm.
      apply (sublist_NoDup _ (map_to_list s).*1); [apply NoDup_fst_map_to_list|].
      apply fmap_sublist, sublist_filter. }
    assert (StronglySorted entry_le (refdb_entries s r)) as Hs.
    { unfold refdb_entries. apply (StronglySorted_merge_sort entry_le). }
    revert Hnd Hs. generalize (refdb_entries s r). clear.
    induction l as [|[k v] l IH]; intros Hnd Hs; csimpl; [constructor|].
    apply NoDup_cons in Hnd as [Hk Hnd]. apply StronglySorted_inv in Hs as [Hs Hall].
    constructor; [by apply IH|]. apply Forall_fmap.
    apply Forall_forall. intros [k' v'] Hin. rewrite Forall_forall in Hall.
    specialize (Hall _ Hin). unfold entry_le in Hall. simpl in *.
    apply lex_le_lt_or_eq in Hall as [?|<-]; [done|].
    destruct Hk. apply list_elem_of_fmap. by exists (k, v').
  - intros k v. unfold refdb_entries. fold l. rewrite Hperm. unfold l.
    rewrite list_elem_of_filter, elem_of_map_to_list. simpl. tauto.
Qed.

(** The interface is implementable: its laws hold of [RefDB]. *)
#[export] Program Instance refdb_ok : RocksDBOk RefDB := {|
  db_snapshot := refdb_snapshot;
  db_last := refdb_last;
  db_low := λ _, 0%N;
|}.
Next Obligation. done. Qed.
Next Obligation. done. Qed.
Next Obligation.
  intros [|[t s] db] ts Hts; simpl in *; [done|].
  apply N.leb_le in Hts as ->. by rewrite N.leb_refl.
Qed.
Next Obligation.
  intros db o ts ops s Hlt Hs. simpl. rewrite Hs. by eexists.
Qed.
Next Obligation. intros db ts db' Heq. injection Heq as <-. split_and!; [done|apply N.le_0_l|done]. Qed.
Next Obligation.
  intros db r ts rev _. exists (refdb_entries (refdb_snapshot db ts) r).
  split; [done|]. apply refdb_entries_spec.
Qed.
