(* ===== verification/CoreTables.v ===== *)
(** * The core tables

    src/src/sync/stages/index/indexers/core/: the tables every deployment
    has, whatever indexers are enabled, and [PreviousValue] of
    src/src/storage/kv_store.rs, the values of the rollback buffer. *)
From S2P Require Import Prelude ByteOrder EncDec Types Table.

(** [CoreIndexer], by its discriminants. *)
Inductive CoreIndexer : Type :=
| IndexerInfoTag
| UtxoByTxoRefTag
| TimestampsTag
| HashByHeightTag
| RollbackBufferTag.

Definition core_indexer_id (c : CoreIndexer) : u8 :=
  match c with
  | IndexerInfoTag => x49
  | UtxoByTxoRefTag => x55
  | TimestampsTag => x54
  | HashByHeightTag => x48
  | RollbackBufferTag => x52
  end.

(** ** [HashByHeightKV] *)
Definition HashByHeightKV : Table u64 (u8arr 32) :=
  core_table (u8arr 32) (core_indexer_id HashByHeightTag).

(** ** [IndexerInfoKV] *)
Record IndexerInfo : Type := MkIndexerInfo {
  last_point_height : u64;
  last_point_hash : u8arr 32;
  info_mempool : bool;
}.
Definition indexer_info_new (height : u64) (hash : u8arr 32) (mempool : bool) : IndexerInfo :=
  MkIndexerInfo height hash mempool.

#[export] Instance indexer_info_encode : Encode IndexerInfo := λ i,
  build (append (info_mempool i) (append (last_point_hash i) (append (last_point_height i) builder_new))).
#[export] Instance indexer_info_decode : Decode IndexerInfo :=
  decode_field (decode_field (decode_field (decode_struct MkIndexerInfo))).
#[export] Program Instance indexer_info_codec : Codec IndexerInfo := {|
  valid := λ i, valid (last_point_height i) ∧ valid (last_point_hash i);
|}.
Next Obligation. solve_struct_codec. Qed.

Definition IndexerInfoKV : Table unit IndexerInfo :=
  core_table IndexerInfo (core_indexer_id IndexerInfoTag).

(** ** [TimestampsKV] *)
Inductive PointKind : Type := Confirmed | Mempool.

#[export] Instance point_kind_encode : Encode PointKind := λ p,
  match p with Confirmed => encode_variant 0 [] | Mempool => encode_variant 1 [] end.
#[export] Instance point_kind_decode : Decode PointKind :=
  decode_enum [decode_struct Confirmed; decode_struct Mempool].
#[export] Program Instance point_kind_codec : Codec PointKind := {| valid := λ _, True |}.
Next Obligation. by intros []. Qed.

Record TimestampEntry : Type := MkTimestampEntry {
  tip_height : u64;
  tip_hash : u8arr 32;
  rocks_timestamp : u64;
  mempool_timestamp : option u64;
}.
#[export] Instance timestamp_entry_encode : Encode TimestampEntry := λ e,
  build (append (mempool_timestamp e) (append (rocks_timestamp e)
    (append (tip_hash e) (append (tip_height e) builder_new)))).
#[export] Instance timestamp_entry_decode : Decode TimestampEntry :=
  decode_field (decode_field (decode_field (decode_field (decode_struct MkTimestampEntry)))).
#[export] Program Instance timestamp_entry_codec : Codec TimestampEntry := {|
  valid := λ e, valid (tip_height e) ∧ valid (tip_hash e) ∧ valid (rocks_timestamp e) ∧
                valid (mempool_timestamp e);
|}.
Next Obligation. solve_struct_codec. Qed.

Definition TimestampsKV : Table PointKind TimestampEntry :=
  core_table TimestampEntry (core_indexer_id TimestampsTag).

(** ** [RollbackBufferKV] *)
Inductive PreviousValue : Type :=
| Present (value : RawValue)
| NotPresent.

(** [impl From<Option<RawValue>>]. *)
Definition previous_value_from (o : option RawValue) : PreviousValue :=
  match o with Some value => Present value | None => NotPresent end.

#[export] Instance previous_value_encode : Encode PreviousValue := λ p,
  match p with
  | Present value => encode_variant 0 (encode value)
  | NotPresent => encode_variant 1 []
  end.
#[export] Instance previous_value_decode : Decode PreviousValue :=
  decode_enum [decode_field (decode_struct Present); decode_struct NotPresent].
#[export] Program Instance previous_value_codec : Codec PreviousValue := {|
  valid := λ p, match p with Present value => valid value | NotPresent => True end;
|}.
Next Obligation.
  intros [value|] rest Hv; [|done].
  unfold decode at 1, encode at 1, previous_value_encode, previous_value_decode.
  erewrite decode_enum_variant; [|done|lia]. by eapply decode_field_encode.
Qed.

Record RollbackKey : Type := MkRollbackKey {
  rk_height : BlockHeight;
  rk_hash : u8arr 32;
  rk_key : list byte;
}.
#[export] Instance rollback_key_encode : Encode RollbackKey := λ k,
  build (append (rk_key k) (append (rk_hash k) (append (rk_height k) builder_new))).
#[export] Instance rollback_key_decode : Decode RollbackKey :=
  decode_field (decode_field (decode_field (decode_struct MkRollbackKey))).
#[export] Program Instance rollback_key_codec : Codec RollbackKey := {|
  valid := λ k, valid (rk_height k) ∧ valid (rk_hash k) ∧ valid (rk_key k);
|}.
Next Obligation. solve_struct_codec. Qed.

Definition RollbackBufferKV : Table RollbackKey PreviousValue :=
  core_table PreviousValue (core_indexer_id RollbackBufferTag).

(** ** [UtxoByTxoRefKV] *)
Definition UtxoByTxoRefKV {Ext : Type} : Table TxoRef (Utxo Ext) :=
  core_table (Utxo Ext) (core_indexer_id UtxoByTxoRefTag).

(** * Laws *)

(** A key of the rollback buffer is ordered by the height it starts with. *)
Lemma rollback_key_encode_eq k :
  encode k = encode (rk_height k) ++ encode (rk_hash k) ++ encode (rk_key k).
Proof.
  unfold encode at 1, rollback_key_encode, build, append, builder_new. cbn [output].
  by rewrite <-!app_assoc.
Qed.

Lemma uint_below_iff (h bound : N) rest :
  fits 64 h → fits 64 bound → lex_lt (uint_encode h ++ rest) (uint_encode bound) ↔ (h < bound)%N.
Proof.
  intros Hh Hb. split.
  - intros Hlt. destruct (N.lt_ge_cases h bound) as [?|Hge]; [done|].
    apply lex_le_not_lt in Hlt; [done|]. apply N.lt_eq_cases in Hge as [Hlt'| <-].
    + apply lex_le_lt_or_eq. left. rewrite <-(app_nil_r (uint_encode bound)).
      by apply (uint_encode_lt 64).
    + apply lex_le_prefix.
  - intros Hlt. rewrite <-(app_nil_r (uint_encode bound)). by apply (uint_encode_lt 64).
Qed.

(** The range that prunes the persistent rollback buffer holds exactly the
    entries of blocks below the bound. *)
Lemma rollback_gc_range_exact (k : RollbackKey) (remove_before : u64) :
  fits 64 (rk_height k) → fits 64 remove_before →
  in_range (encode_range RollbackBufferKV (None : option unit) (Some remove_before))
           (encode_key RollbackBufferKV k) ↔ (rk_height k < remove_before)%N.
Proof.
  intros Hk Hb. pose proof (core_table_at (K:=RollbackKey) PreviousValue x52) as HT.
  change RollbackBufferKV with (core_table (K:=RollbackKey) PreviousValue x52).
  rewrite (table_encode_key _ _ HT), (table_range_below _ _ HT), rollback_key_encode_eq.
  by apply uint_below_iff.
Qed.

(** Blocks are stored by height in an order-preserving encoding: of two
    heights the larger one has the larger key, so the last entry of a scan is
    the tip of the indexed chain. *)
Theorem hash_by_height_ordered (h1 h2 : u64) :
  fits 64 h1 → fits 64 h2 →
  lex_lt (encode_key HashByHeightKV h1) (encode_key HashByHeightKV h2) ↔ (h1 < h2)%N.
Proof.
  intros H1 H2. pose proof (core_table_at (K:=u64) (u8arr 32) x48) as HT.
  change HashByHeightKV with (core_table (K:=u64) (u8arr 32) x48).
  rewrite !(table_encode_key _ _ HT), lex_lt_app. by apply (uint_encode_lt_iff 64).
Qed.

Example hash_by_height_ordered_witness :
  lex_lt (encode_key HashByHeightKV 255%N) (encode_key HashByHeightKV 256%N) ↔ (255 < 256)%N.
Proof. apply hash_by_height_ordered; vm_compute; reflexivity. Defined.
