(* ===== verification/KvStore.v ===== *)
(** * Indexing tasks and the storage handler

    src/src/storage/kv_store.rs.  An [IndexingTask] reads the store as of the
    last commit and buffers its writes; a mutable task also keeps the original
    value of every key it changes.  [apply_indexing_task] commits the buffer
    as one batch.  The [trace!] calls and the statistics are not modelled; the
    clock of a commit is the argument [unix_ts]. *)
From S2P Require Import Prelude ByteOrder EncDec Timestamp Types MergeOperation Table Rocks.
From S2P Require Import CoreTables.

Inductive StorageAction : Type :=
| Set_ (value : RawValue)
| Delete_
| Merge_ (op : MergeOperation).

(** [VarUIntEncoded::as_u128]. *)
Class VarUIntEncoded (A : Type) : Type := as_u128 : A → u128.
#[export] Instance usize_varuint : VarUIntEncoded usize := λ x, x.
#[export] Instance u32_varuint : VarUIntEncoded u32 := λ x, x.
#[export] Instance u64_varuint : VarUIntEncoded u64 := λ x, x.
#[export] Instance u128_varuint : VarUIntEncoded u128 := λ x, x.

Record IndexingTask {DB : Type} : Type := MkTask {
  task_db : DB;
  read_ts : Timestamp;
  write_buffer : gmap RawKey StorageAction;
  original_kvs : option (gmap RawKey PreviousValue);
  task_mempool : bool;
}.
Arguments IndexingTask : clear implicits.
Arguments MkTask {DB} _ _ _ _ _.

Definition with_write_buffer {DB : Type} (wb : gmap RawKey StorageAction) (t : IndexingTask DB) : IndexingTask DB :=
  MkTask (task_db t) (read_ts t) wb (original_kvs t) (task_mempool t).

Record FinalizedTask : Type := MkFinalized {
  fin_write_buffer : gmap RawKey StorageAction;
  fin_original_kvs : option (gmap RawKey PreviousValue);
  fin_mempool : bool;
}.

Definition entry_key_le {K} (p q : K * RawKey) : Prop := lex_le p.2 q.2.
#[export] Instance entry_key_le_dec {K} : RelDecision (entry_key_le (K:=K)).
Proof. intros p q. unfold entry_key_le. apply _. Defined.

(** ** [IndexingTask] *)
Section IndexingTask.
Context {DB : Type} `{RocksDB DB}.

Section Get.
Context {K V : Type} `{Decode V}.

(** [get_inner] *)
Definition get_inner (task : IndexingTask DB) (encoded_key : RawKey)
    (merge_op : option MergeOperation) : Res Error (option V) :=
  base_value ← db_get (task_db task) encoded_key (as_u64 (read_ts task));
  match merge_op with
  | Some op =>
      base ← match base_value with
             | Some bytes => (decode_or bytes : Res Error u128)
             | None => Ok (0%N : u128)
             end;
      let result : u128 :=
        match op with
        | Increment delta => saturating_add 128 base delta
        | Decrement delta => saturating_sub base delta
        end in
      v ← decode_or (encode result);
      Ok (Some v)
  | None =>
      match base_value with
      | Some bytes => v ← decode_or bytes; Ok (Some v)
      | None => Ok None
      end
  end.

Definition task_get (T : Table K V) (task : IndexingTask DB) (key : K) : Res Error (option V) :=
  let encoded_key := encode_key T key in
  match write_buffer task !! encoded_key with
  | Some (Set_ value) => v ← decode_or value; Ok (Some v)
  | Some Delete_ => Ok None
  | Some (Merge_ op) => get_inner task encoded_key (Some op)
  | None => get_inner task encoded_key None
  end.

(** The first loop of [multi_get]: keys with a buffered action are
    answered, the others are set aside. *)
Fixpoint multi_get_buffered (task : IndexingTask DB) (keys : list (K * RawKey))
    (out : list (K * option V)) (to_fetch : list (K * RawKey)) :
    Res Error (list (K * option V) * list (K * RawKey)) :=
  match keys with
  | [] => Ok (out, to_fetch)
  | (key, encoded_key) :: keys =>
      match write_buffer task !! encoded_key with
      | Some action =>
          value ← match action with
                  | Set_ value => v ← decode_or value; Ok (Some v)
                  | Delete_ => Ok None
                  | Merge_ op => get_inner task encoded_key (Some op)
                  end;
          multi_get_buffered task keys (out ++ [(key, value)]) to_fetch
      | None => multi_get_buffered task keys out (to_fetch ++ [(key, encoded_key)])
      end
  end.

(** The second loop; [zip_eq] panics on lists of different lengths. *)
Fixpoint multi_get_fetched (to_fetch : list (K * RawKey))
    (fetched : list (Res Error (option RawValue))) (out : list (K * option V)) :
    Res Error (list (K * option V)) :=
  match to_fetch, fetched with
  | [], [] => Ok out
  | (key, _) :: to_fetch, value :: fetched =>
      value ← value;
      value ← match value with
              | Some v => v ← decode_or v; Ok (Some v)
              | None => Ok None
              end;
      multi_get_fetched to_fetch fetched (out ++ [(key, value)])
  | _, _ => Panic "zip_eq"
  end.

Definition multi_get (T : Table K V) (task : IndexingTask DB) (keys : list K) :
    Res Error (list (K * option V)) :=
  let keys := (λ key, (key, encode_key T key)) <$> keys in
  '(out, to_fetch) ← multi_get_buffered task keys [] [];
  let to_fetch := merge_sort entry_key_le to_fetch in
  let fetched := db_multi_get (task_db task) to_fetch.*2 (as_u64 (read_ts task)) in
  multi_get_fetched to_fetch fetched out.
End Get.

(** [maybe_store_original_kv]: once per key, and only for mutable tasks. *)
Definition maybe_store_original_kv (raw_key : RawKey) (task : IndexingTask DB) :
    Res Error (IndexingTask DB) :=
  match original_kvs task with
  | Some originals =>
      match originals !! raw_key with
      | Some _ => Ok task
      | None =>
          original_value ← db_get (task_db task) raw_key (as_u64 (read_ts task));
          Ok (MkTask (task_db task) (read_ts task) (write_buffer task)
                (Some (<[raw_key := previous_value_from original_value]> originals))
                (task_mempool task))
      end
  | None => Ok task
  end.

Definition task_set {K V} `{Encode V} (T : Table K V) (key : K) (value : V)
    (task : IndexingTask DB) : Res Error (IndexingTask DB) :=
  let encoded_key := encode_key T key in
  let encoded_value := encode value in
  task ← maybe_store_original_kv encoded_key task;
  Ok (with_write_buffer (<[encoded_key := Set_ encoded_value]> (write_buffer task)) task).

Definition task_delete {K V} (T : Table K V) (key : K) (task : IndexingTask DB) :
    Res Error (IndexingTask DB) :=
  let encoded_key := encode_key T key in
  task ← maybe_store_original_kv encoded_key task;
  Ok (with_write_buffer (<[encoded_key := Delete_]> (write_buffer task)) task).

Definition merge_op {K V} (T : Table K V) (key : K) (op : MergeOperation)
    (task : IndexingTask DB) : Res Error (IndexingTask DB) :=
  let encoded_key := encode_key T key in
  task ← maybe_store_original_kv encoded_key task;
  match write_buffer task !! encoded_key with
  | Some (Set_ existing_value) =>
      result ← apply_merge_to_value op existing_value;
      Ok (with_write_buffer (<[encoded_key := Set_ (encode result)]> (write_buffer task)) task)
  | Some (Merge_ existing_op) =>
      let merged_op := combine_merge_operations existing_op op in
      Ok (with_write_buffer (<[encoded_key := Merge_ merged_op]> (write_buffer task)) task)
  | Some Delete_ | None =>
      Ok (with_write_buffer (<[encoded_key := Merge_ op]> (write_buffer task)) task)
  end.

Definition increment {K V} `{VarUIntEncoded V} (T : Table K V) (key : K) (amount : V)
    (task : IndexingTask DB) : Res Error (IndexingTask DB) :=
  merge_op T key (Increment (as_u128 amount)) task.

Definition decrement {K V} `{VarUIntEncoded V} (T : Table K V) (key : K) (amount : V)
    (task : IndexingTask DB) : Res Error (IndexingTask DB) :=
  merge_op T key (Decrement (as_u128 amount)) task.

Definition finalize (task : IndexingTask DB) : FinalizedTask :=
  MkFinalized (write_buffer task) (original_kvs task) (task_mempool task).
End IndexingTask.

(** ** [StorageHandler] *)
Record StorageHandler {DB : Type} : Type := MkStorage {
  sh_db : DB;
  previous_timestamp : option Timestamp;
  read_only : bool;
}.
Arguments StorageHandler : clear implicits.
Arguments MkStorage {DB} _ _ _.

Record Reader {DB : Type} : Type := MkReader { reader_db : DB; reader_timestamp : Timestamp }.
Arguments Reader : clear implicits.
Arguments MkReader {DB} _ _.

Section StorageHandler.
Context {DB : Type} `{RocksDB DB} `{HashOrder}.

Definition latest_ts : Timestamp := from_u64 u64_MAX.

Definition begin_indexing_task (mutable : bool) (sh : StorageHandler DB) : IndexingTask DB :=
  MkTask (sh_db sh) (default latest_ts (previous_timestamp sh)) ∅
    (if mutable then Some ∅ else None) false.

Definition begin_mempool_indexing_task (sh : StorageHandler DB) : IndexingTask DB :=
  MkTask (sh_db sh) (default latest_ts (previous_timestamp sh)) ∅ (Some ∅) true.

(** [previous_timestamp.map(Timestamp::after).unwrap_or_default()]. *)
Definition commit_ts (unix_ts : u64) (sh : StorageHandler DB) : Timestamp :=
  match previous_timestamp sh with
  | Some prev => after unix_ts prev
  | None => timestamp_new unix_ts
  end.

Definition action_op (kv : RawKey * StorageAction) : WriteOp :=
  match kv.2 with
  | Set_ value => Put kv.1 value
  | Delete_ => Delete kv.1
  | Merge_ op => Merge kv.1 (encode op)
  end.

Definition rollback_op (height : u64) (hash : BlockHash) (kv : RawKey * PreviousValue) : WriteOp :=
  Put (encode_key RollbackBufferKV (MkRollbackKey height hash kv.1)) (encode kv.2).

(** The batch [apply_indexing_task] builds. *)
Definition task_batch (task : FinalizedTask) (point : Point) (max_rollback : u64)
    (mempool_timestamp : option u64) (commit_ts : Timestamp) : WriteBatch :=
  (action_op <$> hm_iter (fin_write_buffer task)) ++
  match fin_original_kvs task with
  | Some originals =>
      let height := if fin_mempool task then u64_MAX else point_height point in
      (rollback_op height (point_hash point) <$> hm_iter originals) ++
      (if fin_mempool task then []
       else
         let remove_before : u64 := saturating_sub (point_height point) max_rollback in
         [DeleteRange (encode_range RollbackBufferKV (None : option unit) (Some remove_before))])
  | None => []
  end ++
  [Put (encode_key TimestampsKV (if fin_mempool task then Mempool else Confirmed))
     (encode (MkTimestampEntry (point_height point) (point_hash point) (as_u64 commit_ts)
                mempool_timestamp))].

Definition apply_indexing_task (unix_ts : u64) (task : FinalizedTask) (point : Point)
    (max_rollback : u64) (mempool_timestamp : option u64) (sh : StorageHandler DB) :
    Res Error (StorageHandler DB) :=
  let commit_ts := commit_ts unix_ts sh in
  let wb := task_batch task point max_rollback mempool_timestamp commit_ts in
  db ← db_write (sh_db sh) no_wal (as_u64 commit_ts) wb;
  let db :=
    if fin_mempool task then db
    else match db_increase_full_history_ts_low db (as_u64 commit_ts) with Ok db => db | _ => db end in
  Ok (MkStorage db (Some commit_ts) (read_only sh)).

Definition reader (timestamp : Timestamp) (sh : StorageHandler DB) : Reader DB :=
  MkReader (sh_db sh) timestamp.

Definition reader_get {K V} `{Decode V} (T : Table K V) (r : Reader DB) (key : K) : Res Error (option V) :=
  res ← db_get (reader_db r) (encode_key T key) (as_u64 (reader_timestamp r));
  match res with
  | Some bytes => v ← decode_or bytes; Ok (Some v)
  | None => Ok None
  end.

Definition iter_kvs {K V} `{Decode K, Decode V} (T : Table K V) (r : Reader DB) (range : Range)
    (reverse : bool) : list (Res Error (K * V)) :=
  table_iterator T (db_iterator (reader_db r) range (as_u64 (reader_timestamp r)) reverse).
End StorageHandler.
