(* ===== verification/KvStoreLaws.v ===== *)
(** * What an indexing task does to the store

    The abstract state of a task is the data it read from together with the
    buffered actions: [effect] gives the value each key will have once the
    task is committed.  The theorems show that reads of the task see that
    value, that a commit makes it durable, and that the original values a
    mutable task records are those of the keys it changes. *)
From S2P Require Import Prelude ByteOrder EncDec Timestamp Types MergeOperation Table Rocks.
From S2P Require Import CoreTables KvStore.

Section Effect.
(** The value an action leaves on a key that held [base]; [None] when the
    stored bytes are not a counter. *)
Definition action_value (a : StorageAction) (base : option RawValue) : option (option RawValue) :=
  match a with
  | Set_ v => Some (Some v)
  | Delete_ => Some None
  | Merge_ op => option_map Some (merge_operator base [encode op])
  end.

Definition effect (wb : gmap RawKey StorageAction) (s : Snapshot) (k : RawKey) :
    option (option RawValue) :=
  match wb !! k with
  | Some a => action_value a (s !! k)
  | None => Some (s !! k)
  end.

(** Every buffered operand is one the merge operator can apply. *)
Definition buffer_ok (wb : gmap RawKey StorageAction) (s : Snapshot) : Prop :=
  ∀ k, is_Some (effect wb s k).

(** The operands of a buffer fit their type. *)
Definition op_fits (a : StorageAction) : Prop :=
  match a with Merge_ op => fits 128 (op_amount op) | _ => True end.
Definition buffer_fits (wb : gmap RawKey StorageAction) : Prop :=
  ∀ k a, wb !! k = Some a → op_fits a.

Lemma merge_operator_one base op :
  fits 128 (op_amount op) →
  merge_operator base [encode op] =
  match base with
  | Some b => (λ x, encode (apply_operand op x : u128)) <$> ok (decode_all b : Res DecodingError u128)
  | None => Some (encode (apply_operand op 0%N : u128))
  end.
Proof.
  intros Hop. unfold merge_operator. destruct base as [b|].
  - destruct (ok (decode_all b)) as [x|]; [|done]. by rewrite merge_operands_one.
  - by rewrite merge_operands_one.
Qed.
End Effect.

(** ** Reads of a task *)
Section Reads.
Context {DB : Type} `{RocksDBOk DB}.

(** The data a task reads from. *)
Definition task_snapshot (task : IndexingTask DB) : Snapshot :=
  db_snapshot (task_db task) (as_u64 (read_ts task)).

(** History has not been collapsed beyond the point the task reads at. *)
Definition readable (task : IndexingTask DB) : Prop :=
  (db_low (task_db task) <= as_u64 (read_ts task))%N.

(** The bytes of a read, decoded. *)
Definition decode_value {V} `{Decode V} (o : option RawValue) : Res Error (option V) :=
  match o with Some bytes => v ← decode_or bytes; Ok (Some v) | None => Ok None end.

Lemma reader_get_eq {K V} `{Decode V} (T : Table K V) (r : Reader DB) key :
  (db_low (reader_db r) <= as_u64 (reader_timestamp r))%N →
  reader_get T r key =
  decode_value (db_snapshot (reader_db r) (as_u64 (reader_timestamp r)) !! encode_key T key).
Proof. intros Hlow. unfold reader_get. rewrite db_get_ok by exact Hlow. simpl. by destruct (_ !! _). Qed.

Lemma decode_or_ok {A} `{Decode A} b (x : A) : ok (decode_all b) = Some x → decode_or b = Ok x.
Proof. unfold decode_or. destruct (decode_all b); simpl; congruence. Qed.

Lemma get_inner_none {V} `{Decode V} (task : IndexingTask DB) k :
  readable task → get_inner (V:=V) task k None = decode_value (task_snapshot task !! k).
Proof. intros Hr. unfold get_inner. rewrite db_get_ok by exact Hr. simpl. fold (task_snapshot task). by destruct (_ !! k). Qed.

Lemma get_inner_merge {V} `{Decode V} (task : IndexingTask DB) k op o :
  readable task → fits 128 (op_amount op) →
  action_value (Merge_ op) (task_snapshot task !! k) = Some o →
  get_inner (V:=V) task k (Some op) = decode_value o.
Proof.
  intros Hr Hop. simpl. rewrite merge_operator_one by done. unfold get_inner.
  rewrite db_get_ok by exact Hr. simpl.
  fold (task_snapshot task). destruct (task_snapshot task !! k) as [b|]; simpl.
  - destruct (ok (decode_all b)) as [x|] eqn:Hb; simpl; intros; simplify_eq.
    rewrite (decode_or_ok _ _ Hb). by destruct op.
  - intros; simplify_eq. by destruct op.
Qed.

(** A read gives the value the key will have after the commit. *)
Lemma task_get_effect {K V} `{Decode V} (T : Table K V) (task : IndexingTask DB) key o :
  readable task → buffer_fits (write_buffer task) →
  effect (write_buffer task) (task_snapshot task) (encode_key T key) = Some o →
  task_get T task key = decode_value o.
Proof.
  intros Hr Hfits. unfold effect, task_get.
  destruct (write_buffer task !! encode_key T key) as [[v| |op]|] eqn:Ha; intros Ho.
  - by simplify_eq/=.
  - by simplify_eq/=.
  - apply get_inner_merge; [done| |done]. apply (Hfits _ _ Ha).
  - rewrite get_inner_none by done. by simplify_eq/=.
Qed.
End Reads.

(** ** [multi_get] *)
Section MultiGet.
Context {DB : Type} `{RocksDBOk DB} {K V : Type} `{Decode V}.
Context (T : Table K V) (task : IndexingTask DB) (f : K → option V).

Definition with_key (key : K) : K * RawKey := (key, encode_key T key).
Definition with_value (key : K) : K * option V := (key, f key).

(** A key no action is pending on. *)
Definition to_be_fetched (p : K * RawKey) : Prop :=
  p.2 = encode_key T p.1 ∧ write_buffer task !! p.2 = None ∧ task_get T task p.1 = Ok (f p.1).

Lemma multi_get_buffered_spec keys out to_fetch :
  (∀ key, key ∈ keys → task_get T task key = Ok (f key)) → Forall to_be_fetched to_fetch →
  ∃ out' to_fetch', multi_get_buffered task (with_key <$> keys) out to_fetch = Ok (out', to_fetch') ∧
    Forall to_be_fetched to_fetch' ∧
    out' ++ (with_value <$> to_fetch'.*1) ≡ₚ out ++ (with_value <$> to_fetch.*1) ++ (with_value <$> keys).
Proof.
  revert out to_fetch. induction keys as [|key keys IH]; intros out to_fetch Hget Hf.
  { exists out, to_fetch. split_and!; [done|done|]. by rewrite app_nil_r. }
  pose proof (Hget key ltac:(by left)) as Hkey.
  assert (∀ key', key' ∈ keys → task_get T task key' = Ok (f key')) as Hget' by (intros; apply Hget; by right).
  cbn [fmap list_fmap]. unfold with_key at 1. cbn [multi_get_buffered].
  unfold task_get in Hkey. destruct (write_buffer task !! encode_key T key) as [a|] eqn:Ha.
  - destruct (IH (out ++ [with_value key]) to_fetch Hget' Hf) as (out' & tf' & Hm & Hf' & Hperm).
    exists out', tf'. split_and!; [|done|].
    + unfold with_value in Hm. destruct a; [rewrite Hkey| |rewrite Hkey]; [exact Hm| |exact Hm].
      injection Hkey as Hkey. by rewrite <-Hkey in Hm.
    + rewrite Hperm. solve_Permutation.
  - destruct (IH out (to_fetch ++ [with_key key]) Hget') as (out' & tf' & Hm & Hf' & Hperm).
    { apply Forall_app. split; [done|]. apply Forall_singleton. split_and!; [done..|]. by apply Hget; left. }
    exists out', tf'. split_and!; [done|done|].
    rewrite Hperm, fmap_app, fmap_app. csimpl. solve_Permutation.
Qed.

Lemma multi_get_fetched_spec to_fetch out :
  readable task → Forall to_be_fetched to_fetch →
  multi_get_fetched to_fetch (db_multi_get (task_db task) to_fetch.*2 (as_u64 (read_ts task))) out =
  Ok (out ++ (with_value <$> to_fetch.*1)).
Proof.
  intros Hr. rewrite db_multi_get_ok by exact Hr. intros Hf. revert out.
  induction Hf as [|[key ek] to_fetch (Hek & Hwb & Hkey) _ IH]; intros out; csimpl; [by rewrite app_nil_r|].
  cbn [fst snd] in *. unfold task_get in Hkey. rewrite <-Hek, Hwb, get_inner_none in Hkey by exact Hr.
  unfold task_snapshot in Hkey. cbn [rbind].
  destruct (db_snapshot (task_db task) (as_u64 (read_ts task)) !! ek) as [b|]; cbn [decode_value rbind] in *.
  - apply res_bind_ok in Hkey as (v & -> & Hv). injection Hv as Hv. cbn [rbind].
    rewrite IH, <-app_assoc. unfold with_value at 2. by rewrite <-Hv.
  - injection Hkey as Hv. rewrite IH, <-app_assoc. unfold with_value at 2. by rewrite <-Hv.
Qed.
End MultiGet.

(** [multi_get] gives for every key of the request what a single [get]
    gives, buffered writes included, whatever order it fetches the keys in. *)
Lemma multi_get_gets {DB : Type} `{RocksDBOk DB} {K V : Type} `{Decode V} (T : Table K V)
    (task : IndexingTask DB) (keys : list K) (f : K → option V) :
  readable task → (∀ key, key ∈ keys → task_get T task key = Ok (f key)) →
  ∃ out, multi_get T task keys = Ok out ∧ out ≡ₚ (λ key, (key, f key)) <$> keys.
Proof.
  intros Hr Hget. destruct (multi_get_buffered_spec T task f keys [] [] Hget) as (out & tf & Hm & Hf & Hperm);
    [constructor|].
  unfold multi_get. change ((λ key, (key, encode_key T key)) <$> keys) with (with_key T <$> keys).
  rewrite Hm. cbn [rbind].
  pose proof (merge_sort_Permutation entry_key_le tf) as Hsort.
  rewrite (multi_get_fetched_spec T task f); [|exact Hr|by rewrite Hsort].
  eexists. split; [reflexivity|]. rewrite Hsort. exact Hperm.
Qed.

(** ** Writes of a task *)
Section Writes.
Context {DB : Type} `{RocksDBOk DB}.

(** What a mutable task has recorded: the stored value of each key it
    changed, and of no other key. *)
Definition originals_ok (task : IndexingTask DB) : Prop :=
  match original_kvs task with
  | Some originals =>
      ∀ k, originals !! k =
        if decide (k ∈ dom (write_buffer task))
        then Some (previous_value_from (task_snapshot task !! k)) else None
  | None => True
  end.

(** Same store, same read timestamp, same kind of task. *)
Definition same_task (t1 t2 : IndexingTask DB) : Prop :=
  task_db t1 = task_db t2 ∧ read_ts t1 = read_ts t2 ∧ task_mempool t1 = task_mempool t2 ∧
  (is_Some (original_kvs t1) ↔ is_Some (original_kvs t2)).

#[export] Instance same_task_equiv : Equivalence same_task.
Proof.
  split; unfold same_task.
  - by intros t.
  - intros t1 t2 (-> & -> & -> & ->). done.
  - intros t1 t2 t3 (-> & -> & -> & ->) (-> & -> & -> & ->). done.
Qed.

#[export] Instance task_snapshot_proper : Proper (same_task ==> eq) task_snapshot.
Proof. intros t1 t2 (Hdb & Hts & _). unfold task_snapshot. by rewrite Hdb, Hts. Qed.

(** Buffering an action: the shape shared by every write. *)
Record buffered (k : RawKey) (a : StorageAction) (t t' : IndexingTask DB) : Prop := {
  buffered_same : same_task t t';
  buffered_wb : write_buffer t' = <[k := a]> (write_buffer t);
  buffered_originals : readable t → originals_ok t → originals_ok t';
}.

Lemma same_task_readable t t' : same_task t t' → readable t → readable t'.
Proof. intros (Hdb & Hts & _). unfold readable. by rewrite Hdb, Hts. Qed.

Lemma maybe_store_original_kv_inv k (t t1 : IndexingTask DB) :
  maybe_store_original_kv k t = Ok t1 →
  write_buffer t1 = write_buffer t ∧
  ∀ a, buffered k a t (with_write_buffer (<[k := a]> (write_buffer t1)) t1).
Proof.
  unfold maybe_store_original_kv. destruct (original_kvs t) as [o|] eqn:Ho.
  - destruct (o !! k) as [p|] eqn:Hk.
    + intros Heq. injection Heq as <-. split; [done|]. intros a. split; [done|done|].
      unfold originals_ok. simpl. rewrite Ho. intros _ Hinv k'. rewrite (Hinv k'), dom_insert_L.
      specialize (Hinv k). rewrite Hk in Hinv. change (task_snapshot (with_write_buffer _ t)) with (task_snapshot t).
      destruct (decide (k ∈ dom (write_buffer t))); [|done].
      destruct (decide (k' ∈ dom (write_buffer t))).
      * by rewrite decide_True by set_solver.
      * by rewrite decide_False by set_solver.
    + intros Heq. apply res_bind_ok in Heq as (v & Hv & Heq). injection Heq as <-.
      split; [done|]. intros a. split; [|done|].
      * unfold same_task. simpl. rewrite Ho. naive_solver.
      * unfold originals_ok. simpl. rewrite Ho. intros Hr Hinv k'. rewrite dom_insert_L.
        rewrite db_get_ok in Hv by exact Hr. injection Hv as <-.
        change (task_snapshot (with_write_buffer _ _)) with (task_snapshot t).
        destruct (decide (k = k')) as [<-|Hne].
        -- rewrite lookup_insert_eq, decide_True by set_solver. done.
        -- rewrite lookup_insert_ne, Hinv by done.
           destruct (decide (k' ∈ dom (write_buffer t))).
           ++ by rewrite decide_True by set_solver.
           ++ by rewrite decide_False by set_solver.
  - intros Heq. injection Heq as <-. split; [done|]. intros a. split; [done|done|].
    unfold originals_ok. simpl. by rewrite Ho.
Qed.

Lemma maybe_store_original_kv_ok k (t : IndexingTask DB) :
  readable t →
  ∃ t1, maybe_store_original_kv k t = Ok t1 ∧ write_buffer t1 = write_buffer t ∧
    ∀ a, buffered k a t (with_write_buffer (<[k := a]> (write_buffer t1)) t1).
Proof.
  intros Hr. enough (∃ t1, maybe_store_original_kv k t = Ok t1) as (t1 & Ht1).
  { exists t1. split; [done|]. by apply maybe_store_original_kv_inv. }
  unfold maybe_store_original_kv. destruct (original_kvs t) as [o|]; [|eauto].
  destruct (o !! k); [eauto|]. rewrite db_get_ok by exact Hr. eauto.
Qed.

Lemma task_set_inv {K V} `{Encode V} (T : Table K V) key value (t t' : IndexingTask DB) :
  task_set T key value t = Ok t' → buffered (encode_key T key) (Set_ (encode value)) t t'.
Proof.
  intros Hs. apply res_bind_ok in Hs as (t1 & Ht1 & Hs). injection Hs as <-.
  by apply maybe_store_original_kv_inv.
Qed.

Lemma task_set_ok {K V} `{Encode V} (T : Table K V) key value (t : IndexingTask DB) :
  readable t →
  ∃ t', task_set T key value t = Ok t' ∧ buffered (encode_key T key) (Set_ (encode value)) t t'.
Proof.
  intros Hr. unfold task_set.
  destruct (maybe_store_original_kv_ok (encode_key T key) t Hr) as (t1 & -> & _ & Hb). simpl. eauto.
Qed.

Lemma task_delete_inv {K V} (T : Table K V) key (t t' : IndexingTask DB) :
  task_delete T key t = Ok t' → buffered (encode_key T key) Delete_ t t'.
Proof.
  intros Hs. apply res_bind_ok in Hs as (t1 & Ht1 & Hs). injection Hs as <-.
  by apply maybe_store_original_kv_inv.
Qed.

Lemma task_delete_ok {K V} (T : Table K V) key (t : IndexingTask DB) :
  readable t →
  ∃ t', task_delete T key t = Ok t' ∧ buffered (encode_key T key) Delete_ t t'.
Proof.
  intros Hr. unfold task_delete.
  destruct (maybe_store_original_kv_ok (encode_key T key) t Hr) as (t1 & -> & _ & Hb). simpl. eauto.
Qed.

(** [merge_op] buffers an action, or fails on bytes that are no counter. *)
Lemma merge_op_buffered {K V} (T : Table K V) key op (t t' : IndexingTask DB) :
  merge_op T key op t = Ok t' →
  ∃ a, buffered (encode_key T key) a t t' ∧
    match write_buffer t !! encode_key T key with
    | Some (Set_ v) => ∃ r, apply_merge_to_value op v = Ok r ∧ a = Set_ (encode r)
    | Some (Merge_ op0) => a = Merge_ (combine_merge_operations op0 op)
    | Some Delete_ | None => a = Merge_ op
    end.
Proof.
  unfold merge_op. intros Hm. apply res_bind_ok in Hm as (t1 & Ht1 & Hm).
  apply maybe_store_original_kv_inv in Ht1 as [Hwb Hb]. rewrite Hwb in *.
  destruct (write_buffer t !! encode_key T key) as [[v| |op0]|].
  - apply res_bind_ok in Hm as (r & Hr & Hm). simplify_eq. eauto 6.
  - simplify_eq. eauto.
  - simplify_eq. eauto.
  - simplify_eq. eauto.
Qed.

Lemma buffered_snapshot k a t t' : buffered k a t t' → task_snapshot t' = task_snapshot t.
Proof. intros [Hsame _ _]. symmetry. by apply task_snapshot_proper. Qed.

Lemma buffered_effect k a t t' k' :
  buffered k a t t' →
  effect (write_buffer t') (task_snapshot t') k' =
  if decide (k = k') then action_value a (task_snapshot t !! k)
  else effect (write_buffer t) (task_snapshot t) k'.
Proof.
  intros Hb. rewrite (buffered_snapshot _ _ _ _ Hb). unfold effect. rewrite (buffered_wb _ _ _ _ Hb).
  case_decide as Hk; [subst k'; by rewrite lookup_insert_eq|by rewrite lookup_insert_ne].
Qed.

Lemma buffered_fits k a t t' :
  buffered k a t t' → op_fits a → buffer_fits (write_buffer t) → buffer_fits (write_buffer t').
Proof.
  intros [_ Hwb _] Ha Hfits k' a'. rewrite Hwb. rewrite lookup_insert.
  case_decide; [by intros; simplify_eq|apply Hfits].
Qed.
End Writes.

#[export] Hint Resolve buffered_same buffered_originals : symphony.

(** ** The writes as seen by reads *)
Section WriteTheorems.
Context {DB : Type} `{RocksDBOk DB}.

(** Two keys of a table, and what one write leaves of the other's value. *)
Lemma task_get_buffered {K V} `{Decode V} (T : Table K V) (t t' : IndexingTask DB) k a key o :
  readable t → buffered k a t t' → op_fits a → buffer_fits (write_buffer t) →
  (if decide (k = encode_key T key) then action_value a (task_snapshot t !! k)
   else effect (write_buffer t) (task_snapshot t) (encode_key T key)) = Some o →
  task_get T t' key = decode_value o.
Proof.
  intros Hr Hb Ha Hfits Ho.
  apply task_get_effect; [by eapply same_task_readable, Hr; apply Hb|by eapply buffered_fits|].
  by rewrite (buffered_effect _ _ _ _ _ Hb).
Qed.

(** After a [set] a task reads the value it set. *)
Theorem task_get_set {K V} `{Codec K, Codec V} (T : Table K V) (task : IndexingTask DB) key value :
  readable task → valid value → buffer_fits (write_buffer task) →
  ∃ task', task_set T key value task = Ok task' ∧ task_get T task' key = Ok (Some value).
Proof.
  intros Hr Hv Hfits. destruct (task_set_ok T key value task Hr) as (t' & Ht' & Hb).
  exists t'. split; [done|].
  rewrite (task_get_buffered T _ _ _ _ _ (Some (encode value)) Hr Hb); [|done|done|by rewrite decide_True].
  simpl. by rewrite decode_or_encode.
Qed.

(** After a [delete] a task reads no value. *)
Theorem task_get_delete {K V} `{Decode V} (T : Table K V) (task : IndexingTask DB) key :
  readable task → buffer_fits (write_buffer task) →
  ∃ task', task_delete T key task = Ok task' ∧ task_get T task' key = Ok None.
Proof.
  intros Hr Hfits. destruct (task_delete_ok T key task Hr) as (t' & Ht' & Hb).
  exists t'. split; [done|].
  by rewrite (task_get_buffered T _ _ _ _ _ None Hr Hb); [|done|done|by rewrite decide_True].
Qed.

(** The counter behind a key: what it will hold, as a number. *)
Definition counter (task : IndexingTask DB) (k : RawKey) : option u128 :=
  match effect (write_buffer task) (task_snapshot task) k with
  | Some (Some b) => ok (decode_all b)
  | Some None => Some 0%N
  | None => None
  end.

(** The action pending on a key is not a deletion. *)
Definition not_deleted (task : IndexingTask DB) (k : RawKey) : Prop :=
  write_buffer task !! k ≠ Some Delete_.

(** Folding the new operand into a pending one is exact. *)
Definition combine_exact (task : IndexingTask DB) (k : RawKey) : Prop :=
  match write_buffer task !! k with
  | Some (Merge_ op) =>
      ∀ x, (match task_snapshot task !! k with
            | Some b => ok (decode_all b) | None => Some (0%N : u128) end) = Some x →
           exact op x ∧ fits 128 x
  | _ => True
  end.

Lemma decode_u128_fits b (x : u128) : ok (decode_all b) = Some x → fits 128 x.
Proof.
  unfold decode_all, decode, u128_decode, uint_decode. intros Hok.
  destruct (decode b) as [[v r]| |]; simpl in Hok; try done. unfold try_from_varuint in Hok.
  destruct (N.ltb_spec (varuint_val v) (2 ^ 128)); simpl in Hok; by simplify_eq.
Qed.

Lemma combine_fits op1 op2 :
  fits 128 (op_amount op1) → fits 128 (op_amount op2) →
  fits 128 (op_amount (combine_merge_operations op1 op2)).
Proof.
  intros H1 H2. destruct op1 as [a|a], op2 as [b|b]; simpl in *; try apply saturating_add_fits;
    destruct (b <=? a)%N; simpl; by apply saturating_sub_fits.
Qed.

Lemma action_value_merge base op x :
  fits 128 (op_amount op) →
  match base with Some b => ok (decode_all b) | None => Some (0%N : u128) end = Some x →
  action_value (Merge_ op) base = Some (Some (encode (apply_operand op x : u128))).
Proof.
  intros Hop Hx. simpl. rewrite merge_operator_one by done.
  destruct base as [b|]; [by rewrite Hx|by simplify_eq].
Qed.

(** What a pending operand leaves, read back as a number. *)
Lemma counter_pending base op0 x :
  fits 128 (op_amount op0) →
  match action_value (Merge_ op0) base with
  | Some (Some b) => ok (decode_all b) | Some None => Some (0%N : u128) | None => None end = Some x →
  ∃ y, match base with Some b => ok (decode_all b) | None => Some (0%N : u128) end = Some y ∧
    apply_operand op0 y = x.
Proof.
  intros Hop0. cbn [action_value]. rewrite merge_operator_one by exact Hop0.
  destruct base as [b|].
  - destruct (ok (decode_all b)) as [y|] eqn:Hby; cbn; [|intros Hx; discriminate Hx]. intros Hx.
    exists y. split; [reflexivity|]. rewrite decode_all_encode in Hx; [by injection Hx|].
    apply apply_operand_fits. by eapply decode_u128_fits.
  - cbn. intros Hx. exists 0%N. split; [reflexivity|].
    rewrite decode_all_encode in Hx; [by injection Hx|].
    apply apply_operand_fits. apply fits_0.
Qed.

(** What [merge_op] leaves on its key. *)
Lemma merge_op_effect {K V} (T : Table K V) (task : IndexingTask DB) key op x :
  readable task → fits 128 (op_amount op) → buffer_fits (write_buffer task) →
  not_deleted task (encode_key T key) → combine_exact task (encode_key T key) →
  counter task (encode_key T key) = Some x →
  ∃ task' a, merge_op T key op task = Ok task' ∧ buffered (encode_key T key) a task task' ∧ op_fits a ∧
    action_value a (task_snapshot task !! encode_key T key) =
      Some (Some (encode (apply_operand op x : u128))).
Proof.
  intros Hr Hop Hfits Hdel Hexact Hx. set (k := encode_key T key) in *.
  unfold counter, effect in Hx. unfold not_deleted in Hdel. unfold combine_exact in Hexact.
  destruct (maybe_store_original_kv_ok k task Hr) as (t1 & Hst & Hwb & Hb).
  unfold merge_op. fold k. rewrite Hst. simpl. rewrite Hwb in *.
  destruct (write_buffer task !! k) as [[v| |op0]|] eqn:Ha; [|done| |].
  - simpl in Hx. unfold apply_merge_to_value. rewrite (decode_or_ok _ _ Hx). cbn [rbind].
    eexists _, _. split; [reflexivity|]. split; [apply Hb|]. split; [exact I|by destruct op].
  - pose proof (Hfits _ _ Ha) as Hop0. cbn [op_fits] in Hop0.
    eexists _, _. split; [reflexivity|]. split; [apply Hb|].
    split; [by apply combine_fits|].
    destruct (counter_pending _ _ _ Hop0 Hx) as (y & Hy & <-).
    destruct (Hexact _ Hy) as [Hex Hyf].
    rewrite (action_value_merge _ _ y); [|by apply combine_fits|exact Hy].
    by rewrite combine_merge_operations_correct.
  - eexists _, _. split; [reflexivity|]. split; [apply Hb|]. split; [exact Hop|].
    apply action_value_merge; [exact Hop|]. by destruct (task_snapshot task !! k).
Qed.

(** [increment] adds to the counter a task will commit, without reading
    it, whatever action was pending on the key except a deletion; a read
    that follows gives the saturated sum. *)
Theorem task_get_increment {K} (T : Table K u128) (task : IndexingTask DB) key amount x :
  readable task → fits 128 amount → buffer_fits (write_buffer task) →
  not_deleted task (encode_key T key) → combine_exact task (encode_key T key) →
  counter task (encode_key T key) = Some x →
  ∃ task', increment T key amount task = Ok task' ∧
    task_get T task' key = Ok (Some (saturating_add 128 x amount)).
Proof.
  intros Hr Hamount Hfits Hdel Hexact Hx.
  destruct (merge_op_effect T task key (Increment amount) x) as (t' & a & Ht' & Hb & Ha & Hval); [done..|].
  exists t'. split; [done|].
  rewrite (task_get_buffered T _ _ _ _ _ (Some (encode (apply_operand (Increment amount) x : u128))) Hr Hb Ha Hfits);
    [|rewrite decide_True by done; exact Hval].
  unfold decode_value. rewrite decode_or_encode; [done|]. apply saturating_add_fits.
Qed.

(** An increment that follows a deletion in the same task acts on the
    value that is still in the store, not on the deleted entry: the task
    then reads, and commits, the stored amount plus the increment. *)
Theorem increment_after_delete {K} (T : Table K u128) (task : IndexingTask DB) key amount x :
  readable task → fits 128 amount → buffer_fits (write_buffer task) →
  task_snapshot task !! encode_key T key = Some (encode (x : u128)) → fits 128 x →
  ∃ task1 task2, task_delete T key task = Ok task1 ∧ increment T key amount task1 = Ok task2 ∧
    task_get T task1 key = Ok None ∧ task_get T task2 key = Ok (Some (saturating_add 128 x amount)).
Proof.
  intros Hr Hamount Hfits Hsnap Hx.
  destruct (task_delete_ok T key task Hr) as (t1 & Ht1 & Hb1).
  assert (readable t1) as Hr1 by (eapply same_task_readable, Hr; apply Hb1).
  assert (buffer_fits (write_buffer t1)) as Hfits1 by by eapply buffered_fits.
  assert (∃ t2, increment T key amount t1 = Ok t2) as (t2 & Ht2).
  { unfold increment, merge_op.
    destruct (maybe_store_original_kv_ok (encode_key T key) t1 Hr1) as (t & -> & Hwb & _). simpl.
    rewrite Hwb, (buffered_wb _ _ _ _ Hb1), lookup_insert_eq. eauto. }
  destruct (merge_op_buffered T key _ _ _ Ht2) as (a & Hb2 & Ha).
  rewrite (buffered_wb _ _ _ _ Hb1), lookup_insert_eq in Ha. subst a.
  exists t1, t2. split_and!; [done|done| |].
  - by rewrite (task_get_buffered T _ _ _ _ _ None Hr Hb1); [|done|done|by rewrite decide_True].
  - erewrite (task_get_buffered T _ _ _ _ _ _ Hr1 Hb2); [|done|done|].
    2:{ rewrite decide_True by done. rewrite (buffered_snapshot _ _ _ _ Hb1), Hsnap.
        apply (action_value_merge _ _ x); [done|]. by rewrite decode_all_encode. }
    unfold decode_value. rewrite decode_or_encode; [done|]. apply saturating_add_fits.
Qed.
End WriteTheorems.

(** ** Closed examples, on the reference store *)
Module KvExamples.
Definition kv_table : Table u64 u128 := indexer_table u128 7%N x01.
Definition kv_key : list byte := encode_key kv_table 3%N.
Definition kv_task : IndexingTask RefDB :=
  MkTask [(5%N, {[kv_key := encode (40%N : u128)]})] latest_ts ∅ (Some ∅) false.

Lemma kv_readable : readable kv_task.
Proof. apply N.le_0_l. Qed.
Lemma kv_fits : buffer_fits (write_buffer kv_task).
Proof. intros k a Ha. cbn [kv_task write_buffer] in Ha. by rewrite lookup_empty in Ha. Qed.

Example task_get_set_witness :
  ∃ task', task_set kv_table 3%N 41%N kv_task = Ok task' ∧ task_get kv_table task' 3%N = Ok (Some 41%N).
Proof. apply task_get_set; [apply kv_readable|vm_compute; reflexivity|apply kv_fits]. Defined.

Example task_get_delete_witness :
  ∃ task', task_delete kv_table 3%N kv_task = Ok task' ∧ task_get kv_table task' 3%N = Ok None.
Proof. apply task_get_delete; [apply kv_readable|apply kv_fits]. Defined.

Example task_get_increment_witness :
  ∃ task', increment kv_table 3%N 2%N kv_task = Ok task' ∧
    task_get kv_table task' 3%N = Ok (Some (saturating_add 128 40 2)).
Proof.
  apply task_get_increment.
  - apply kv_readable.
  - vm_compute. reflexivity.
  - apply kv_fits.
  - vm_compute. discriminate.
  - exact I.
  - vm_compute. reflexivity.
Defined.

Example increment_after_delete_witness :
  ∃ task1 task2, task_delete kv_table 3%N kv_task = Ok task1 ∧
    increment kv_table 3%N 2%N task1 = Ok task2 ∧
    task_get kv_table task1 3%N = Ok None ∧ task_get kv_table task2 3%N = Ok (Some (saturating_add 128 40 2)).
Proof.
  apply increment_after_delete.
  - apply kv_readable.
  - vm_compute. reflexivity.
  - apply kv_fits.
  - vm_compute. reflexivity.
  - vm_compute. reflexivity.
Defined.
End KvExamples.
