(* ===== verification/Commit.v ===== *)
(** * Commits

    What [apply_indexing_task] (src/src/storage/kv_store.rs) leaves in the
    store: the indexed data changes exactly as the buffer says, the previous
    values of the changed keys are recorded for the block, the records of
    blocks out of the rollback window are pruned, and the timestamp of the
    commit is recorded. *)
From S2P Require Import Prelude ByteOrder EncDec Timestamp Types MergeOperation Table Rocks.
From S2P Require Import CoreTables KvStore KvStoreLaws.

(** Keys of the tables a commit maintains itself. *)
Definition rollback_prefix : list byte := [CORE_INDEXER_TAG; core_indexer_id RollbackBufferTag].
Definition timestamps_prefix : list byte := [CORE_INDEXER_TAG; core_indexer_id TimestampsTag].
Definition user_key (k : RawKey) : Prop :=
  ¬ rollback_prefix `prefix_of` k ∧ ¬ timestamps_prefix `prefix_of` k.
#[export] Instance user_key_dec k : Decision (user_key k).
Proof. unfold user_key. apply _. Defined.

Lemma rollback_table_at : table_at RollbackBufferKV rollback_prefix.
Proof. exact (core_table_at (K:=RollbackKey) PreviousValue x52). Qed.
Lemma timestamps_table_at : table_at TimestampsKV timestamps_prefix.
Proof. exact (core_table_at (K:=PointKind) TimestampEntry x54). Qed.

Lemma rollback_key_prefix k : rollback_prefix `prefix_of` encode_key RollbackBufferKV k.
Proof. rewrite (table_encode_key _ _ rollback_table_at). by apply prefix_app_r. Qed.
Lemma timestamps_key_prefix k : timestamps_prefix `prefix_of` encode_key TimestampsKV k.
Proof. rewrite (table_encode_key _ _ timestamps_table_at). by apply prefix_app_r. Qed.

Lemma rollback_not_timestamps k :
  rollback_prefix `prefix_of` k → timestamps_prefix `prefix_of` k → False.
Proof. intros H1 H2. discriminate (prefix_disjoint rollback_prefix timestamps_prefix k eq_refl H1 H2). Qed.

#[export] Hint Resolve rollback_key_prefix timestamps_key_prefix : symphony.

(** ** The batch on a snapshot *)
Section Batch.
Lemma apply_action_op k a s o :
  action_value a (s !! k) = Some o →
  apply_op (action_op (k, a)) s = Some (match o with Some v => <[k := v]> s | None => delete k s end).
Proof.
  destruct a as [v| |op]; simpl; [by intros; simplify_eq..|].
  destruct (merge_operator (s !! k) [encode op]) as [v|]; intros Ho; [|done]. by injection Ho as <-.
Qed.

(** The buffered actions change their keys, and no other. *)
Lemma apply_action_ops (l : list (RawKey * StorageAction)) s :
  NoDup l.*1 → (∀ k a, (k, a) ∈ l → is_Some (action_value a (s !! k))) →
  ∃ s', apply_ops (action_op <$> l) s = Some s' ∧
    ∀ k, match alist_get k l with
         | Some a => action_value a (s !! k) = Some (s' !! k)
         | None => s' !! k = s !! k
         end.
Proof.
  revert s. induction l as [|[k a] l IH]; intros s Hnd Hok; [by exists s|].
  apply NoDup_cons in Hnd as [Hk Hnd]. cbn [fmap list_fmap apply_ops].
  destruct (Hok k a) as [o Ho]; [by left|]. rewrite (apply_action_op _ _ _ _ Ho).
  set (s1 := match o with Some v => <[k := v]> s | None => delete k s end).
  assert (s1 !! k = o) as Hs1k.
  { unfold s1. destruct o; [by rewrite lookup_insert_eq|by rewrite lookup_delete_eq]. }
  assert (∀ k', k ≠ k' → s1 !! k' = s !! k') as Hs1.
  { intros k' Hne. unfold s1. destruct o; [by rewrite lookup_insert_ne|by rewrite lookup_delete_ne]. }
  destruct (IH s1 Hnd) as (s' & Hs' & Hval).
  { intros k' a' Hin. rewrite Hs1; [apply Hok; by right|].
    intros ->. apply Hk, list_elem_of_fmap. by exists (k', a'). }
  exists s'. split; [done|]. intros k'. specialize (Hval k'). cbn [alist_get].
  destruct (decide (k' = k)) as [->|Hne].
  - rewrite (proj2 (alist_get_None k l) Hk) in Hval. by rewrite Hval, Hs1k.
  - rewrite Hs1 in Hval by done. exact Hval.
Qed.

(** Puts under distinct keys. *)
Lemma apply_puts_lookup (l : list (RawKey * RawValue)) s :
  NoDup l.*1 →
  ∃ s', apply_ops ((λ kv, Put kv.1 kv.2) <$> l) s = Some s' ∧
    ∀ k, s' !! k = match alist_get k l with Some v => Some v | None => s !! k end.
Proof.
  revert s. induction l as [|[k v] l IH]; intros s Hnd; [by exists s|].
  apply NoDup_cons in Hnd as [Hk Hnd]. cbn [fmap list_fmap apply_ops apply_op fst snd].
  destruct (IH (<[k := v]> s) Hnd) as (s' & Hs' & Hval). exists s'. split; [done|].
  intros k'. rewrite Hval. cbn [alist_get]. destruct (decide (k' = k)) as [->|Hne].
  - by rewrite (proj2 (alist_get_None k l) Hk), lookup_insert_eq.
  - by rewrite lookup_insert_ne.
Qed.
End Batch.

(** ** The records of the rollback buffer *)
Section RollbackRecords.
Context `{HashOrderOk}.

Definition rollback_record (h : u64) (hash : BlockHash) (kv : RawKey * PreviousValue) : RawKey * RawValue :=
  (encode_key RollbackBufferKV (MkRollbackKey h hash kv.1), encode kv.2).

Lemma rollback_ops_puts h hash (l : list (RawKey * PreviousValue)) :
  rollback_op h hash <$> l = (λ kv, Put kv.1 kv.2) <$> (rollback_record h hash <$> l).
Proof. by rewrite <-list_fmap_compose. Qed.

Context (h : u64) (hash : BlockHash) (originals : gmap RawKey PreviousValue).
Context (Hh : fits 64 h) (Hhash : length hash = 32).
Context (Hkeys : ∀ k, k ∈ dom originals → valid k).

Lemma rollback_key_inj rk k :
  valid rk → k ∈ dom originals →
  encode_key RollbackBufferKV rk = encode_key RollbackBufferKV (MkRollbackKey h hash k) →
  rk = MkRollbackKey h hash k.
Proof.
  intros Hrk Hk Heq. eapply (encode_key_inj _ _ rollback_table_at); [exact Hrk| |exact Heq].
  split; [exact Hh|]. split; [exact Hhash|]. by apply Hkeys.
Qed.

Lemma rollback_records_nodup : NoDup (rollback_record h hash <$> hm_iter originals).*1.
Proof.
  rewrite <-list_fmap_compose.
  apply (NoDup_fmap_2_strong _ (hm_iter originals)).
  - intros [k1 v1] [k2 v2] H1 H2 Heq. apply elem_of_hm_iter in H1, H2.
    assert (k1 = k2) as <-; [|congruence].
    apply rollback_key_inj in Heq; [by injection Heq| |by eapply elem_of_dom_2].
    split; [exact Hh|]. split; [exact Hhash|]. eapply Hkeys, elem_of_dom_2, H1.
  - eapply NoDup_fmap_1, hm_iter_nodup.
Qed.

(** The record under a key of the buffer table. *)
Definition record_of (rk : RollbackKey) : option PreviousValue :=
  if decide (rk_height rk = h ∧ rk_hash rk = hash) then originals !! rk_key rk else None.

Lemma rollback_records_get rk :
  valid rk →
  alist_get (encode_key RollbackBufferKV rk) (rollback_record h hash <$> hm_iter originals) =
  encode <$> record_of rk.
Proof.
  intros Hrk. apply option_eq. intros v.
  rewrite alist_get_Some by apply rollback_records_nodup.
  rewrite list_elem_of_fmap, fmap_Some. unfold record_of. split.
  - intros ([k pv] & Heq & Hin). apply elem_of_hm_iter in Hin. apply pair_equal_spec in Heq as [Hkey ->].
    cbn [fst snd] in Hkey.
    apply rollback_key_inj in Hkey as ->; [|done|by eapply elem_of_dom_2].
    exists pv. by rewrite decide_True.
  - intros (pv & Hpv & ->). case_decide as Heq; [|done]. destruct Heq as [<- <-].
    exists (rk_key rk, pv). split; [by destruct rk|]. by apply elem_of_hm_iter.
Qed.
End RollbackRecords.

(** ** The whole batch *)
Section TaskBatch.
Context `{HashOrderOk}.

(** What a commit may assume of the task: it only touched data keys, of
    encodable length, and every buffered merge applies. *)
Record committable (fin : FinalizedTask) (s : Snapshot) : Prop := {
  com_user k : k ∈ dom (fin_write_buffer fin) → user_key k;
  com_buffer : buffer_ok (fin_write_buffer fin) s;
  com_keys originals k : fin_original_kvs fin = Some originals → k ∈ dom originals → valid k;
}.

Definition point_ok (p : Point) : Prop := fits 64 (point_height p) ∧ length (point_hash p) = 32.

(** The height under which a task records previous values. *)
Definition record_height (fin : FinalizedTask) (p : Point) : u64 :=
  if fin_mempool fin then u64_MAX else point_height p.

(** The buffer table after the commit. *)
Definition buffer_after (fin : FinalizedTask) (p : Point) (max_rollback : u64) (s : Snapshot)
    (rk : RollbackKey) : option RawValue :=
  match fin_original_kvs fin with
  | Some originals =>
      if negb (fin_mempool fin) && (rk_height rk <? point_height p - max_rollback)%N then None
      else match record_of (record_height fin p) (point_hash p) originals rk with
           | Some pv => Some (encode pv)
           | None => s !! encode_key RollbackBufferKV rk
           end
  | None => s !! encode_key RollbackBufferKV rk
  end.

Definition commit_entry (fin : FinalizedTask) (p : Point) (mempool_ts : option u64) (ts : Timestamp) :
    PointKind * TimestampEntry :=
  (if fin_mempool fin then Mempool else Confirmed,
   MkTimestampEntry (point_height p) (point_hash p) (as_u64 ts) mempool_ts).

(** The second part of the batch: previous values, and pruning. *)
Definition undo_ops (fin : FinalizedTask) (p : Point) (max_rollback : u64) : WriteBatch :=
  match fin_original_kvs fin with
  | Some originals =>
      (rollback_op (record_height fin p) (point_hash p) <$> hm_iter originals) ++
      (if fin_mempool fin then []
       else
         let remove_before : u64 := saturating_sub (point_height p) max_rollback in
         [DeleteRange (encode_range RollbackBufferKV (None : option unit) (Some remove_before))])
  | None => []
  end.

Lemma undo_ops_user fin p max_rollback k :
  user_key k → Forall (λ op, ¬ op_touches op k) (undo_ops fin p max_rollback).
Proof.
  intros [Hk _]. unfold undo_ops. destruct (fin_original_kvs fin) as [o|]; [|constructor].
  apply Forall_app. split.
  - apply Forall_fmap, Forall_true. intros [k' pv]. simpl. intros <-. by apply Hk, rollback_key_prefix.
  - destruct (fin_mempool fin); [constructor|]. apply Forall_singleton. simpl. intros Hin. apply Hk.
    by eapply (table_range_prefix _ _ rollback_table_at).
Qed.

Lemma undo_ops_entry fin p max_rollback kind :
  Forall (λ op, ¬ op_touches op (encode_key TimestampsKV kind)) (undo_ops fin p max_rollback).
Proof.
  pose proof (timestamps_key_prefix kind) as Ht. unfold undo_ops. destruct (fin_original_kvs fin) as [o|]; [|constructor].
  apply Forall_app. split.
  - apply Forall_fmap, Forall_true. intros [k' pv]. simpl. intros Heq.
    apply (rollback_not_timestamps (encode_key TimestampsKV kind)); [|done]. rewrite <-Heq. apply rollback_key_prefix.
  - destruct (fin_mempool fin); [constructor|]. apply Forall_singleton. simpl. intros Hin.
    apply (rollback_not_timestamps (encode_key TimestampsKV kind)); [|done].
    by eapply (table_range_prefix _ _ rollback_table_at).
Qed.

Lemma gc_filter_lookup (s : Snapshot) (bound : u64) rk :
  fits 64 bound → fits 64 (rk_height rk) →
  filter (λ kv, ¬ in_range (encode_range RollbackBufferKV (None : option unit) (Some bound)) kv.1) s
    !! encode_key RollbackBufferKV rk =
  if (rk_height rk <? bound)%N then None else s !! encode_key RollbackBufferKV rk.
Proof.
  intros Hb Hr. pose proof (rollback_gc_range_exact rk bound Hr Hb) as Hiff.
  destruct (N.ltb_spec (rk_height rk) bound) as [Hlt|Hge].
  - apply map_lookup_filter_None. right. intros v _ Hnot. by apply Hnot, Hiff.
  - assert (¬ in_range (encode_range RollbackBufferKV (None : option unit) (Some bound))
              (encode_key RollbackBufferKV rk)) as Hout by (rewrite Hiff; lia).
    apply option_eq. intros v. rewrite map_lookup_filter_Some. tauto.
Qed.

Lemma undo_ops_spec fin p max_rollback s :
  point_ok p → (∀ originals k, fin_original_kvs fin = Some originals → k ∈ dom originals → valid k) →
  ∃ s', apply_ops (undo_ops fin p max_rollback) s = Some s' ∧
    ∀ rk, valid rk → s' !! encode_key RollbackBufferKV rk = buffer_after fin p max_rollback s rk.
Proof.
  intros [Hh Hhash] Hkeys. unfold undo_ops, buffer_after.
  destruct (fin_original_kvs fin) as [o|] eqn:Ho; [|by exists s].
  specialize (Hkeys o).
  assert (fits 64 (record_height fin p)) as Hrh.
  { unfold record_height. destruct (fin_mempool fin); [apply saturating_add_fits with (a:=u64_MAX) (b:=0%N)|done]. }
  rewrite apply_ops_app, rollback_ops_puts.
  destruct (apply_puts_lookup (rollback_record (record_height fin p) (point_hash p) <$> hm_iter o) s)
    as (s1 & -> & Hs1).
  { apply rollback_records_nodup; [exact Hrh|exact Hhash|]. intros k. by apply Hkeys. }
  assert (∀ rk, valid rk → s1 !! encode_key RollbackBufferKV rk =
            match record_of (record_height fin p) (point_hash p) o rk with
            | Some pv => Some (encode pv) | None => s !! encode_key RollbackBufferKV rk end) as Hs1'.
  { intros rk Hrk. rewrite Hs1, rollback_records_get; [|exact Hrh|exact Hhash|intros k; by apply Hkeys|done].
    by destruct (record_of _ _ o rk). }
  destruct (fin_mempool fin); simpl negb; cbn [andb].
  - by exists s1.
  - eexists. split; [reflexivity|]. intros rk Hrk.
    rewrite gc_filter_lookup; [|by apply saturating_sub_fits|apply Hrk].
    unfold saturating_sub. destruct (rk_height rk <? point_height p - max_rollback)%N; [done|].
    by apply Hs1'.
Qed.
End TaskBatch.

Section TaskBatchSpec.
Context `{HashOrderOk}.

Lemma task_batch_eq fin p max_rollback mempool_ts ts :
  task_batch fin p max_rollback mempool_ts ts =
  (action_op <$> hm_iter (fin_write_buffer fin)) ++ undo_ops fin p max_rollback ++
  [let '(kind, entry) := commit_entry fin p mempool_ts ts in
   Put (encode_key TimestampsKV kind) (encode entry)].
Proof. done. Qed.

Lemma action_ops_spec (wb : gmap RawKey StorageAction) s :
  buffer_ok wb s →
  ∃ s', apply_ops (action_op <$> hm_iter wb) s = Some s' ∧ ∀ k, effect wb s k = Some (s' !! k).
Proof.
  intros Hok. destruct (apply_action_ops (hm_iter wb) s) as (s' & Hs' & Hval).
  - apply hm_iter_nodup.
  - intros k a Hin. apply elem_of_hm_iter in Hin. specialize (Hok k). unfold effect in Hok.
    by rewrite Hin in Hok.
  - exists s'. split; [done|]. intros k. specialize (Hval k). rewrite alist_get_hm_iter in Hval.
    unfold effect. destruct (wb !! k); [done|by rewrite Hval].
Qed.

Lemma effect_untouched wb s k : k ∉ dom wb → effect wb s k = Some (s !! k).
Proof. intros Hk. unfold effect. by rewrite (proj1 (not_elem_of_dom wb k) Hk). Qed.

Lemma buffer_after_ext (fin : FinalizedTask) (p : Point) (max_rollback : u64) (s1 s2 : Snapshot) rk :
  s1 !! encode_key RollbackBufferKV rk = s2 !! encode_key RollbackBufferKV rk →
  buffer_after fin p max_rollback s1 rk = buffer_after fin p max_rollback s2 rk.
Proof. intros Heq. unfold buffer_after. by rewrite Heq. Qed.

Record batch_result (fin : FinalizedTask) (p : Point) (max_rollback : u64) (mempool_ts : option u64)
    (ts : Timestamp) (s s' : Snapshot) : Prop := {
  br_data k : user_key k → effect (fin_write_buffer fin) s k = Some (s' !! k);
  br_undo rk : valid rk → s' !! encode_key RollbackBufferKV rk = buffer_after fin p max_rollback s rk;
  br_entry : s' !! encode_key TimestampsKV (commit_entry fin p mempool_ts ts).1 =
             Some (encode (commit_entry fin p mempool_ts ts).2);
  br_other kind : kind ≠ (commit_entry fin p mempool_ts ts).1 →
    s' !! encode_key TimestampsKV kind = s !! encode_key TimestampsKV kind;
  br_kept k v : rollback_prefix `prefix_of` k → s' !! k = Some v →
    (∃ o key, fin_original_kvs fin = Some o ∧ key ∈ dom o ∧
       k = encode_key RollbackBufferKV (MkRollbackKey (record_height fin p) (point_hash p) key)) ∨
    s !! k = Some v;
}.

(** The records a commit puts. *)
Lemma task_batch_puts fin p max_rollback mempool_ts ts k :
  (∀ k, k ∈ dom (fin_write_buffer fin) → user_key k) → rollback_prefix `prefix_of` k →
  (∀ o key, fin_original_kvs fin = Some o → key ∈ dom o →
     k ≠ encode_key RollbackBufferKV (MkRollbackKey (record_height fin p) (point_hash p) key)) →
  Forall (λ op, ¬ op_puts k op) (task_batch fin p max_rollback mempool_ts ts).
Proof.
  intros Huser Hk Hnew. rewrite task_batch_eq. apply Forall_app. split; [|apply Forall_app; split].
  - apply Forall_fmap, Forall_forall. intros [k' a] Hin Hputs. apply elem_of_hm_iter, elem_of_dom_2, Huser in Hin as [Hin _].
    apply Hin. destruct a; cbn in Hputs; by subst.
  - unfold undo_ops. destruct (fin_original_kvs fin) as [o|] eqn:Ho; [|constructor]. apply Forall_app. split.
    + apply Forall_fmap, Forall_forall. intros [k' pv] Hin Hputs. apply elem_of_hm_iter, elem_of_dom_2 in Hin.
      by apply (Hnew o k' eq_refl Hin).
    + destruct (fin_mempool fin); [constructor|]. apply Forall_singleton. intros [].
  - apply Forall_singleton. destruct (commit_entry _ _ _ _). simpl. intros <-.
    eapply rollback_not_timestamps; [exact Hk|apply timestamps_key_prefix].
Qed.

Lemma task_batch_kept fin p max_rollback mempool_ts ts s s' k v :
  (∀ k, k ∈ dom (fin_write_buffer fin) → user_key k) →
  apply_ops (task_batch fin p max_rollback mempool_ts ts) s = Some s' →
  rollback_prefix `prefix_of` k → s' !! k = Some v →
  (∃ o key, fin_original_kvs fin = Some o ∧ key ∈ dom o ∧
     k = encode_key RollbackBufferKV (MkRollbackKey (record_height fin p) (point_hash p) key)) ∨
  s !! k = Some v.
Proof.
  intros Huser Hops Hk Hv.
  destruct (decide (set_Exists (λ key, k = encode_key RollbackBufferKV (MkRollbackKey (record_height fin p) (point_hash p) key))
              (default ∅ (dom <$> fin_original_kvs fin)))) as [(key & Hkey & Heq)|Hnot].
  - left. destruct (fin_original_kvs fin) as [o|]; [eauto|]. by apply elem_of_empty in Hkey.
  - right. eapply apply_ops_kept; [|exact Hops|exact Hv]. apply task_batch_puts; [done..|].
    intros o key Ho Hkey Heq. apply Hnot. exists key. rewrite Ho. by split.
Qed.

Lemma task_batch_spec fin p max_rollback mempool_ts ts s :
  committable fin s → point_ok p →
  ∃ s', apply_ops (task_batch fin p max_rollback mempool_ts ts) s = Some s' ∧
    batch_result fin p max_rollback mempool_ts ts s s'.
Proof.
  intros [Huser Hbuf Hkeys] Hp.
  destruct (action_ops_spec _ _ Hbuf) as (s1 & Hops1 & Hs1).
  destruct (undo_ops_spec fin p max_rollback s1 Hp Hkeys) as (s2 & Hundo & Hs2).
  destruct (commit_entry fin p mempool_ts ts) as [kind entry] eqn:Hce.
  assert (apply_ops (task_batch fin p max_rollback mempool_ts ts) s =
          Some (<[encode_key TimestampsKV kind := encode entry]> s2)) as Hops.
  { by rewrite task_batch_eq, apply_ops_app, Hops1, apply_ops_app, Hundo, Hce. }
  eexists. split; [exact Hops|].
  assert (∀ k, ¬ timestamps_prefix `prefix_of` k →
            <[encode_key TimestampsKV kind := encode entry]> s2 !! k = s2 !! k) as Hts.
  { intros k Hk. rewrite lookup_insert_ne; [done|]. intros <-. by apply Hk, timestamps_key_prefix. }
  split.
  - intros k Hk. rewrite Hts by apply Hk.
    rewrite (apply_ops_untouched _ _ _ k (undo_ops_user fin p max_rollback k Hk) Hundo). apply Hs1.
  - intros rk Hrk. rewrite Hts by (intros Htp; exact (rollback_not_timestamps _ (rollback_key_prefix rk) Htp)).
    rewrite Hs2 by done. apply buffer_after_ext.
    assert (encode_key RollbackBufferKV rk ∉ dom (fin_write_buffer fin)) as Hnot.
    { intros Hin. destruct (Huser _ Hin) as [Hr _]. by apply Hr, rollback_key_prefix. }
    specialize (Hs1 (encode_key RollbackBufferKV rk)).
    rewrite (effect_untouched _ _ _ Hnot) in Hs1. symmetry. by apply (inj Some).
  - by rewrite Hce, lookup_insert_eq.
  - intros kind' Hne. rewrite Hce in Hne. cbn [fst] in Hne. rewrite lookup_insert_ne.
    2:{ intros Heq. apply Hne. by apply (encode_key_inj _ _ timestamps_table_at) in Heq. }
    rewrite (apply_ops_untouched _ _ _ _ (undo_ops_entry fin p max_rollback kind') Hundo).
    assert (encode_key TimestampsKV kind' ∉ dom (fin_write_buffer fin)) as Hnot.
    { intros Hin. destruct (Huser _ Hin) as [_ Ht]. apply Ht, timestamps_key_prefix. }
    specialize (Hs1 (encode_key TimestampsKV kind')). rewrite (effect_untouched _ _ _ Hnot) in Hs1.
    symmetry. by apply (inj Some).
  - intros k v. by apply (task_batch_kept _ _ _ _ _ _ _ _ _ Huser Hops).
Qed.
End TaskBatchSpec.

(** ** [apply_indexing_task] *)
Section Commit.
Context {DB : Type} `{RocksDBOk DB} `{HashOrderOk}.

(** The handler knows the timestamp of the last commit, or none was made by
    this process; timestamps are machine words.  When commits were lost before
    the process started, the point up to which history may be collapsed may be
    later than the last of those that were found. *)
Definition storage_ok (sh : StorageHandler DB) : Prop :=
  fits 64 (db_last (sh_db sh)) ∧ fits 64 (db_low (sh_db sh)) ∧
  match previous_timestamp sh with
  | Some ts => as_u64 ts = db_last (sh_db sh) ∧ (db_low (sh_db sh) <= db_last (sh_db sh))%N
  | None => True
  end.

(** The commit is newer than every other, and than the lost ones that had
    history collapsed. *)
Definition commit_fresh (unix_ts : u64) (sh : StorageHandler DB) : Prop :=
  (db_last (sh_db sh) < as_u64 (commit_ts unix_ts sh))%N ∧ (db_low (sh_db sh) <= as_u64 (commit_ts unix_ts sh))%N.

(** The newest data can be read. *)
Lemma storage_low_readable (sh : StorageHandler DB) :
  storage_ok sh → (db_low (sh_db sh) <= as_u64 (default latest_ts (previous_timestamp sh)))%N.
Proof.
  intros (_ & Hlow & Hts). destruct (previous_timestamp sh) as [ts|]; simpl; [by destruct Hts as [-> ?]|].
  apply N.lt_succ_r. exact Hlow.
Qed.

Lemma storage_low_latest (sh : StorageHandler DB) : storage_ok sh → (db_low (sh_db sh) <= as_u64 latest_ts)%N.
Proof. intros (_ & Hlow & _). apply N.lt_succ_r. exact Hlow. Qed.

Lemma storage_last_latest (sh : StorageHandler DB) : storage_ok sh → (db_last (sh_db sh) <= as_u64 latest_ts)%N.
Proof. intros (Hf & _). apply N.lt_succ_r. exact Hf. Qed.

(** A commit leaves the point below itself. *)
Lemma storage_low_last (sh : StorageHandler DB) ts :
  storage_ok sh → previous_timestamp sh = Some ts → (db_low (sh_db sh) <= db_last (sh_db sh))%N ∧ as_u64 ts = db_last (sh_db sh).
Proof. intros (_ & _ & Hts) Hp. rewrite Hp in Hts. tauto. Qed.

Lemma begin_snapshot mutable sh :
  storage_ok sh → task_snapshot (begin_indexing_task mutable sh) = db_latest (sh_db sh).
Proof.
  intros (Hfits & _ & Hts). unfold task_snapshot, begin_indexing_task, db_latest. simpl.
  apply db_snapshot_latest. destruct (previous_timestamp sh) as [ts|]; simpl; [by destruct Hts as [-> _]|].
  apply N.lt_succ_r. exact Hfits.
Qed.

Lemma begin_mempool_snapshot sh :
  storage_ok sh → task_snapshot (begin_mempool_indexing_task sh) = db_latest (sh_db sh).
Proof. intros Hok. exact (begin_snapshot true sh Hok). Qed.

Lemma begin_readable mutable sh : storage_ok sh → readable (begin_indexing_task mutable sh).
Proof.
  intros Hok. unfold readable, begin_indexing_task. simpl. by apply storage_low_readable.
Qed.

Lemma begin_originals mutable sh : originals_ok (begin_indexing_task mutable sh).
Proof. destruct mutable; [|done]. intros k. simpl. rewrite dom_empty_L. by rewrite decide_False by set_solver. Qed.

Record commit_result (unix_ts : u64) (fin : FinalizedTask) (p : Point) (max_rollback : u64)
    (mempool_ts : option u64) (sh sh' : StorageHandler DB) : Prop := {
  cr_ok : storage_ok sh';
  cr_batch : batch_result fin p max_rollback mempool_ts (commit_ts unix_ts sh)
               (db_latest (sh_db sh)) (db_latest (sh_db sh'));
  cr_history t : (db_low (sh_db sh') <= t)%N → (t < as_u64 (commit_ts unix_ts sh))%N →
                 db_snapshot (sh_db sh') t = db_snapshot (sh_db sh) t;
  cr_ts : previous_timestamp sh' = Some (commit_ts unix_ts sh);
  cr_low : fin_mempool fin = true → db_low (sh_db sh') = db_low (sh_db sh);
}.

(** Raising the point up to which history may be collapsed, at a commit. *)
Lemma raise_low_ok (db : DB) ts :
  db_last db = ts → (db_low db <= ts)%N →
  let db' := match db_increase_full_history_ts_low db ts with Ok db => db | _ => db end in
  db_last db' = ts ∧ (db_low db' <= ts)%N ∧ ∀ t, (db_low db' <= t)%N → db_snapshot db' t = db_snapshot db t.
Proof.
  intros Hlast Hlow. destruct (db_increase_full_history_ts_low db ts) as [db'| |] eqn:Hinc; simpl; [|done..].
  destruct (db_increase_ok _ _ _ Hinc) as (Hl & Hlo & Hs). split_and!; [by rewrite Hl|lia|done].
Qed.

Lemma apply_indexing_task_spec unix_ts fin p max_rollback mempool_ts sh :
  storage_ok sh → commit_fresh unix_ts sh → committable fin (db_latest (sh_db sh)) → point_ok p →
  ∃ sh', apply_indexing_task unix_ts fin p max_rollback mempool_ts sh = Ok sh' ∧
    commit_result unix_ts fin p max_rollback mempool_ts sh sh'.
Proof.
  intros (Hfits & Hlow & Hts) Hfresh Hcom Hp. unfold apply_indexing_task. cbv zeta.
  set (ts := commit_ts unix_ts sh) in *.
  destruct (task_batch_spec fin p max_rollback mempool_ts ts _ Hcom Hp) as (s' & Hops & Hres).
  destruct (db_write_ok (sh_db sh) no_wal (as_u64 ts) (task_batch fin p max_rollback mempool_ts ts) s')
    as (db1 & Hw & Hlast1 & Hlow1 & Hsnap1).
  { apply Hfresh. }
  { rewrite db_snapshot_latest; [exact Hops|]. apply N.lt_le_incl, Hfresh. }
  rewrite Hw. cbn [rbind]. eexists. split; [reflexivity|].
  assert (db_low db1 <= as_u64 ts)%N as Hle by (rewrite Hlow1; apply Hfresh).
  set (db' := if fin_mempool fin then db1
              else match db_increase_full_history_ts_low db1 (as_u64 ts) with Ok db => db | _ => db1 end).
  assert (db_last db' = as_u64 ts ∧ (db_low db' <= as_u64 ts)%N ∧
          (∀ t, (db_low db' <= t)%N → db_snapshot db' t = db_snapshot db1 t)) as (Hlast & Hlow' & Hsnap).
  { unfold db'. destruct (fin_mempool fin); [done|]. by apply raise_low_ok. }
  split; cbn [sh_db previous_timestamp].
  - pose proof (as_u64_fits ts) as Hf. split; [cbn [sh_db]; by rewrite Hlast|].
    cbn [sh_db previous_timestamp]. rewrite Hlast. split; [unfold fits in *; lia|done].
  - unfold db_latest at 2. rewrite Hlast, Hsnap, Hsnap1, N.leb_refl by exact Hlow'. exact Hres.
  - intros t Hge Ht. rewrite Hsnap, Hsnap1 by exact Hge. by rewrite (proj2 (N.leb_gt (as_u64 ts) t) Ht).
  - done.
  - intros Hm. unfold db'. by rewrite Hm.
Qed.
End Commit.

(** ** From a task to its commit *)
Section Ready.
Context {DB : Type} `{RocksDBOk DB} `{HashOrderOk}.

(** A task of the handler, with only data keys in its buffer. *)
Record task_ready (task : IndexingTask DB) (sh : StorageHandler DB) : Prop := {
  tr_readable : readable task;
  tr_snapshot : task_snapshot task = db_latest (sh_db sh);
  tr_originals : originals_ok task;
  tr_keys k : k ∈ dom (write_buffer task) → user_key k ∧ valid k;
  tr_buffer : buffer_ok (write_buffer task) (task_snapshot task);
  tr_fits : buffer_fits (write_buffer task);
}.

Lemma begin_ready mutable sh : storage_ok sh → task_ready (begin_indexing_task mutable sh) sh.
Proof.
  intros Hok. split.
  - by apply begin_readable.
  - by apply begin_snapshot.
  - apply begin_originals.
  - intros k. simpl. by rewrite dom_empty_L, elem_of_empty.
  - intros k. simpl. by rewrite effect_untouched by (rewrite dom_empty_L; set_solver).
  - intros k a. simpl. by rewrite lookup_empty.
Qed.

Lemma begin_mempool_ready sh : storage_ok sh → task_ready (begin_mempool_indexing_task sh) sh.
Proof. intros Hok. destruct (begin_ready true sh Hok) as [H1' H2' H3' H4' H5' H6']. split; done. Qed.

Lemma buffered_ready k a t t' sh :
  buffered k a t t' → user_key k → valid k → op_fits a →
  is_Some (action_value a (task_snapshot t !! k)) → task_ready t sh → task_ready t' sh.
Proof.
  intros Hb Hu Hv Ha Hval [Hread Hsnap Ho Hk Hbuf Hfits]. split.
  - eapply same_task_readable, Hread. apply Hb.
  - by rewrite (buffered_snapshot _ _ _ _ Hb).
  - by apply (buffered_originals _ _ _ _ Hb).
  - intros k'. rewrite (buffered_wb _ _ _ _ Hb), dom_insert_L, elem_of_union, elem_of_singleton.
    intros [->|?]; [done|by apply Hk].
  - intros k'. rewrite (buffered_effect _ _ _ _ _ Hb). case_decide; [done|apply Hbuf].
  - by eapply buffered_fits.
Qed.

Lemma task_set_ready {K V} `{Encode V} (T : Table K V) key value t t' sh :
  task_set T key value t = Ok t' → user_key (encode_key T key) → valid (encode_key T key) →
  task_ready t sh → task_ready t' sh.
Proof.
  intros Hs%task_set_inv Hu Hv. by eapply buffered_ready.
Qed.

Lemma task_delete_ready {K V} (T : Table K V) key t t' sh :
  task_delete T key t = Ok t' → user_key (encode_key T key) → valid (encode_key T key) →
  task_ready t sh → task_ready t' sh.
Proof.
  intros Hs%task_delete_inv Hu Hv. by eapply buffered_ready.
Qed.

Lemma ready_committable task sh :
  task_ready task sh → committable (finalize task) (db_latest (sh_db sh)).
Proof.
  intros [_ Hsnap Ho Hk Hbuf _]. split; simpl.
  - intros k Hin. by apply Hk.
  - by rewrite <-Hsnap.
  - intros o k Heq Hin. unfold originals_ok in Ho. rewrite Heq in Ho.
    apply elem_of_dom in Hin as [pv Hpv]. rewrite Ho in Hpv.
    case_decide as Hd; [|done]. by apply Hk.
Qed.

(** C11: A commit makes durable exactly what the task would have read: a
    reader at the commit's timestamp gets for every key of every table of
    the index what a [get] of the task gave before. *)
Theorem commit_reads_back (unix_ts : u64) (task : IndexingTask DB) (p : Point)
    (max_rollback : u64) (mempool_ts : option u64) (sh : StorageHandler DB) :
  storage_ok sh → commit_fresh unix_ts sh → task_ready task sh → point_ok p →
  ∃ sh', apply_indexing_task unix_ts (finalize task) p max_rollback mempool_ts sh = Ok sh' ∧
    ∀ (K V : Type) (HV : Decode V) (T : Table K V) (key : K), user_key (encode_key T key) →
      reader_get T (reader (commit_ts unix_ts sh) sh') key = task_get T task key.
Proof.
  intros Hok Hfresh Hready Hp.
  destruct (apply_indexing_task_spec unix_ts _ p max_rollback mempool_ts _ Hok Hfresh
              (ready_committable _ _ Hready) Hp) as (sh' & Happly & [Hok' Hbatch _ Hts _]).
  exists sh'. split; [exact Happly|]. intros K V ? T key Huser.
  pose proof (br_data _ _ _ _ _ _ _ Hbatch _ Huser) as Hdata. simpl in Hdata.
  rewrite <-(tr_snapshot _ _ Hready) in Hdata.
  destruct (storage_low_last _ _ Hok' Hts) as [Hlow Hlast].
  rewrite (task_get_effect T task key _ (tr_readable _ _ Hready) (tr_fits _ _ Hready) Hdata), reader_get_eq.
  - simpl. by rewrite Hlast.
  - simpl. by rewrite Hlast.
Qed.

(** C26: The commit of a mutable block leaves in the persistent rollback
    buffer, for each key the block changed, the value the key had before;
    it removes the records of the blocks that left the rollback window, and
    keeps those of the blocks still in it. *)
Theorem commit_keeps_undo_window (unix_ts : u64) (task : IndexingTask DB) (p : Point)
    (max_rollback : u64) (mempool_ts : option u64) (sh : StorageHandler DB) :
  storage_ok sh → commit_fresh unix_ts sh → task_ready task sh → point_ok p →
  is_Some (original_kvs task) → task_mempool task = false →
  ∃ sh', apply_indexing_task unix_ts (finalize task) p max_rollback mempool_ts sh = Ok sh' ∧
    (∀ k, k ∈ dom (write_buffer task) →
       db_latest (sh_db sh') !! encode_key RollbackBufferKV (MkRollbackKey (point_height p) (point_hash p) k) =
       Some (encode (previous_value_from (db_latest (sh_db sh) !! k)))) ∧
    (∀ rk, valid rk → (rk_height rk < point_height p - max_rollback)%N →
       db_latest (sh_db sh') !! encode_key RollbackBufferKV rk = None) ∧
    (∀ rk, valid rk → (point_height p - max_rollback <= rk_height rk)%N → rk_height rk ≠ point_height p →
       db_latest (sh_db sh') !! encode_key RollbackBufferKV rk =
       db_latest (sh_db sh) !! encode_key RollbackBufferKV rk).
Proof.
  intros Hok Hfresh Hready Hp [o Ho] Hmem.
  destruct (apply_indexing_task_spec unix_ts _ p max_rollback mempool_ts _ Hok Hfresh
              (ready_committable _ _ Hready) Hp) as (sh' & Happly & [_ Hbatch _ _ _]).
  exists sh'. split; [exact Happly|].
  pose proof (br_undo _ _ _ _ _ _ _ Hbatch) as Hundo.
  unfold buffer_after, record_of, record_height in Hundo. simpl in Hundo. rewrite Ho, Hmem in Hundo. simpl in Hundo.
  split_and!.
  - intros k Hk. destruct Hp as [Hh Hhash]. destruct (tr_keys _ _ Hready k Hk) as [_ Hv].
    rewrite Hundo by done. simpl.
    rewrite (proj2 (N.ltb_ge _ _)) by lia. rewrite decide_True by done.
    pose proof (tr_originals _ _ Hready) as Horig. unfold originals_ok in Horig. rewrite Ho in Horig.
    by rewrite Horig, decide_True, (tr_snapshot _ _ Hready) by done.
  - intros rk Hrk Hlt. rewrite Hundo by done. by rewrite (proj2 (N.ltb_lt _ _) Hlt).
  - intros rk Hrk Hge Hne. rewrite Hundo by done. rewrite (proj2 (N.ltb_ge _ _) Hge).
    by rewrite decide_False by tauto.
Qed.

(** Indexing the mempool does not change what readers of earlier
    timestamps see: requests served from the last confirmed block keep
    getting the same data after a mempool snapshot is committed. *)
Theorem mempool_commit_preserves_history {K V} `{Decode V} (T : Table K V) (key : K) (unix_ts : u64)
    (task : IndexingTask DB) (p : Point) (max_rollback : u64) (mempool_ts : option u64)
    (sh : StorageHandler DB) (ts : Timestamp) :
  storage_ok sh → commit_fresh unix_ts sh → task_ready task sh → point_ok p → task_mempool task = true →
  (db_low (sh_db sh) <= as_u64 ts)%N → (as_u64 ts <= db_last (sh_db sh))%N →
  ∃ sh', apply_indexing_task unix_ts (finalize task) p max_rollback mempool_ts sh = Ok sh' ∧
    reader_get T (reader ts sh') key = reader_get T (reader ts sh) key.
Proof.
  intros Hok Hfresh Hready Hp Hmem Hlow Hts.
  destruct (apply_indexing_task_spec unix_ts _ p max_rollback mempool_ts _ Hok Hfresh
              (ready_committable _ _ Hready) Hp) as (sh' & Happly & [_ _ Hhist _ Hl]).
  specialize (Hl Hmem). exists sh'. split; [exact Happly|].
  rewrite !reader_get_eq; simpl; [|done|by rewrite Hl].
  rewrite Hhist; [done|by rewrite Hl|]. destruct Hfresh. lia.
Qed.
End Ready.

(** ** Scans *)
Section Scan.
Context {DB : Type} `{RocksDBOk DB} {K V : Type} `{Codec K, Codec V}.
Context (T : Table K V) (prefix : list byte) (HT : table_at T prefix).

(** The table holds these records, and no other. *)
Definition table_holds (records : list (K * V)) (s : Snapshot) : Prop :=
  ∀ k v, (prefix `prefix_of` k ∧ s !! k = Some v) ↔
    ∃ r, r ∈ records ∧ k = encode_key T r.1 ∧ v = encode r.2.

(** A scan of a range of the table gives its records in the range, in the
    order of their keys. *)
Lemma range_scan (records : list (K * V)) (r : Reader DB) (range : Range) (rev : bool) :
  (db_low (reader_db r) <= as_u64 (reader_timestamp r))%N →
  table_holds records (db_snapshot (reader_db r) (as_u64 (reader_timestamp r))) →
  Forall (λ r, valid r.1 ∧ valid r.2) records →
  StronglySorted lex_lt ((λ r, encode_key T r.1) <$> records) →
  (∀ k, in_range range k → prefix `prefix_of` k) →
  iter_kvs T r range rev =
  Ok <$> (let found := filter (λ r, in_range range (encode_key T r.1)) records in
          if rev then reverse found else found).
Proof.
  intros Hlow Hholds Hvalid Hsorted Hprefix.
  destruct (db_iterator_ok (reader_db r) range (as_u64 (reader_timestamp r)) rev) as (l & Hl & Hls & Hel); [done|].
  set (entry := λ r : K * V, (encode_key T r.1, encode r.2)).
  set (found := filter (λ r, in_range range (encode_key T r.1)) records).
  assert (l = entry <$> found) as ->.
  { apply lex_sorted_unique; [done| |].
    - rewrite <-list_fmap_compose. unfold found. clear -Hsorted. induction records as [|x records IH]; [constructor|].
      cbn [fmap list_fmap] in Hsorted. apply StronglySorted_inv in Hsorted as [Hs Hx]. rewrite filter_cons.
      destruct (decide _); [|auto]. cbn [fmap list_fmap]. constructor; [auto|].
      apply Forall_fmap, Forall_forall. intros y [_ Hy]%list_elem_of_filter.
      rewrite Forall_forall in Hx. apply Hx, list_elem_of_fmap. by exists y.
    - intros [k v]. rewrite Hel, list_elem_of_fmap. split.
      + intros [Hv Hin]. destruct (proj1 (Hholds k v)) as (x & Hx & -> & ->); [by auto|].
        exists x. split; [done|]. by apply list_elem_of_filter.
      + intros (x & Heq & Hx). apply pair_equal_spec in Heq as [-> ->]. apply list_elem_of_filter in Hx as [Hin Hx].
        split; [|done]. apply (Hholds (encode_key T x.1) (encode x.2)). by exists x. }
  unfold iter_kvs, table_iterator. rewrite Hl.
  assert (∀ recs, Forall (λ r, valid r.1 ∧ valid r.2) recs →
            table_next T <$> (Ok <$> (entry <$> recs)) = Ok <$> recs) as Hdec.
  { intros recs Hrecs. rewrite <-!list_fmap_compose. apply list_fmap_ext. intros i x Hx.
    apply list_elem_of_lookup_2 in Hx. rewrite Forall_forall in Hrecs. destruct (Hrecs _ Hx) as [Hk Hv].
    destruct x as [key value]. exact (table_next_encode T prefix HT key value Hk Hv). }
  assert (Forall (λ r, valid r.1 ∧ valid r.2) found) as Hf.
  { apply Forall_forall. intros x [_ Hx]%list_elem_of_filter. rewrite Forall_forall in Hvalid. by apply Hvalid. }
  cbv zeta. destruct rev; [rewrite <-fmap_reverse; apply Hdec; by apply Forall_reverse|by apply Hdec].
Qed.

(** The latest data, scanned over a whole table, is its records in the order
    of their keys. *)
Lemma table_scan (records : list (K * V)) (sh : StorageHandler DB) (rev : bool) :
  storage_ok sh → table_holds records (db_latest (sh_db sh)) →
  Forall (λ r, valid r.1 ∧ valid r.2) records →
  StronglySorted lex_lt ((λ r, encode_key T r.1) <$> records) →
  iter_kvs T (reader latest_ts sh) (encode_range T (None : option unit) (None : option unit)) rev =
  Ok <$> (if rev then reverse records else records).
Proof.
  intros Hok Hholds Hvalid Hsorted.
  pose proof (storage_last_latest _ Hok) as Hlast. pose proof (storage_low_latest _ Hok) as Hlow.
  rewrite (range_scan records); cbn [reader reader_db reader_timestamp]; [| |by rewrite db_snapshot_latest|done..|].
  - cbv zeta. rewrite filter_all; [done|]. intros x _.
    apply (whole_table_range _ _ HT). rewrite (table_encode_key _ _ HT). by apply prefix_app_r.
  - lia.
  - intros k. apply (whole_table_range _ _ HT).
Qed.

(** The data made of these records alone. *)
Definition record_map (records : list (K * V)) : Snapshot :=
  list_to_map ((λ r, (encode_key T r.1, encode r.2)) <$> records).

Lemma record_map_holds (records : list (K * V)) :
  StronglySorted lex_lt ((λ r, encode_key T r.1) <$> records) → table_holds records (record_map records).
Proof.
  intros Hs k v. unfold record_map. rewrite <-elem_of_list_to_map.
  2:{ apply lex_sorted_nodup. by rewrite <-list_fmap_compose. }
  rewrite list_elem_of_fmap. split.
  - intros (_ & r & Heq & Hr). apply pair_equal_spec in Heq as [-> ->]. by exists r.
  - intros (r & Hr & -> & ->). split; [|by exists r].
    rewrite (table_encode_key _ _ HT). by apply prefix_app_r.
Qed.
End Scan.

(** ** Closed examples, on the reference store *)
(** On the reference store all history is kept. *)
Lemma refdb_fresh unix_ts (sh : StorageHandler RefDB) :
  (refdb_last (sh_db sh) <? as_u64 (commit_ts unix_ts sh))%N = true → commit_fresh unix_ts sh.
Proof. intros Hlt%N.ltb_lt. split; [exact Hlt|apply N.le_0_l]. Qed.

Module CommitExamples.
#[local] Existing Instance sorted_hash_order.
#[local] Existing Instance sorted_hash_order_ok.

Definition ex_table : Table u64 u128 := indexer_table u128 7%N x01.
Definition ex_key : list byte := encode_key ex_table 3%N.
Definition ex_point : Point := MkPoint 100%N (replicate 32 x0a).

(** A store with one commit, at timestamp 5, of the counter 40. *)
Definition ex_storage : StorageHandler RefDB :=
  MkStorage [(5%N, {[ex_key := encode (40%N : u128)]})] (Some (from_u64 5%N)) false.

Definition ex_task0 : IndexingTask RefDB := begin_indexing_task true ex_storage.
Definition or_else (t : IndexingTask RefDB) (r : Res Error (IndexingTask RefDB)) : IndexingTask RefDB :=
  match r with Ok t' => t' | _ => t end.
Definition ex_task1 : IndexingTask RefDB := or_else ex_task0 (task_set ex_table 3%N (41%N : u128) ex_task0).

Lemma ex_storage_ok : storage_ok ex_storage.
Proof. split_and!; [vm_compute; reflexivity|vm_compute; reflexivity|split; [vm_compute; reflexivity|apply N.le_0_l]]. Qed.
Lemma ex_fresh : commit_fresh 2%N ex_storage.
Proof. apply refdb_fresh. vm_compute. reflexivity. Qed.
Lemma ex_point_ok : point_ok ex_point.
Proof. split; vm_compute; reflexivity. Defined.
Lemma valid_bytes (k : list byte) : fits 64 (N.of_nat (length k)) → valid k.
Proof. intros Hk. split; [exact Hk|]. by apply Forall_true. Qed.
Lemma ex_ready : task_ready ex_task1 ex_storage.
Proof.
  unfold ex_task1. destruct (task_set_ok ex_table 3%N (41%N : u128) ex_task0) as (t' & Heq & _); [apply N.le_0_l|].
  rewrite Heq. apply (task_set_ready ex_table 3%N (41%N : u128) ex_task0 t' _ Heq).
  - apply (bool_decide_eq_true_1 _). vm_compute. reflexivity.
  - apply valid_bytes. vm_compute. reflexivity.
  - apply begin_ready, ex_storage_ok.
Qed.

Example commit_reads_back_witness :
  ∃ sh', apply_indexing_task 2%N (finalize ex_task1) ex_point 10%N None ex_storage = Ok sh' ∧
    reader_get ex_table (reader (commit_ts 2%N ex_storage) sh') 3%N = Ok (Some 41%N).
Proof.
  destruct (commit_reads_back 2%N ex_task1 ex_point 10%N None ex_storage
              ex_storage_ok ex_fresh ex_ready ex_point_ok) as (sh' & Happly & Hread).
  exists sh'. split; [exact Happly|]. rewrite (Hread _ _ _ ex_table 3%N).
  - vm_compute. reflexivity.
  - apply (bool_decide_eq_true_1 _). vm_compute. reflexivity.
Defined.

Example commit_keeps_undo_window_witness :
  ∃ sh', apply_indexing_task 2%N (finalize ex_task1) ex_point 10%N None ex_storage = Ok sh' ∧
    db_latest (sh_db sh') !! encode_key RollbackBufferKV (MkRollbackKey 100%N (replicate 32 x0a) ex_key) =
    Some (encode (Present (encode (40%N : u128)))).
Proof.
  destruct (commit_keeps_undo_window 2%N ex_task1 ex_point 10%N None ex_storage
              ex_storage_ok ex_fresh ex_ready ex_point_ok) as (sh' & Happly & Hundo & _).
  - apply (bool_decide_eq_true_1 _). vm_compute. reflexivity.
  - vm_compute. reflexivity.
  - exists sh'. split; [exact Happly|]. apply (Hundo ex_key). apply (bool_decide_eq_true_1 _). vm_compute. reflexivity.
Defined.

Definition ex_mempool_task : IndexingTask RefDB := begin_mempool_indexing_task ex_storage.

Example mempool_commit_preserves_history_witness :
  ∃ sh', apply_indexing_task 2%N (finalize ex_mempool_task) ex_point 10%N (Some 7%N) ex_storage = Ok sh' ∧
    reader_get ex_table (reader (from_u64 5%N) sh') 3%N = Ok (Some 40%N).
Proof.
  destruct (mempool_commit_preserves_history ex_table 3%N 2%N ex_mempool_task ex_point 10%N (Some 7%N)
              ex_storage (from_u64 5%N) ex_storage_ok ex_fresh
              (begin_mempool_ready ex_storage ex_storage_ok) ex_point_ok) as (sh' & Happly & Hread).
  - reflexivity.
  - vm_compute. discriminate.
  - vm_compute. discriminate.
  - exists sh'. split; [exact Happly|]. rewrite Hread. vm_compute. reflexivity.
Defined.
End CommitExamples.
