(* ===== verification/RollbackBuffer.v ===== *)
(** * The rollback buffer

    src/src/sync/stages/index/rollback/buffer.rs: the blocks that can still be
    undone, newest first, each with the values its keys had before it.  The
    buffer is rebuilt from the persistent table when the process starts. *)
From S2P Require Import Prelude ByteOrder EncDec Timestamp Types Table Rocks CoreTables KvStore.
From S2P Require Import Commit.

Definition DEFAULT_MAX_ROLLBACK : usize := 16%N.

Abbreviation OriginalKVs := (gmap RawKey PreviousValue).

Record PointWithOriginalKVs : Type := MkPointKVs {
  pk_point : Point;
  pk_original_kvs : OriginalKVs;
}.

Record RollbackBuffer : Type := MkRollbackBuffer {
  rb_points : list PointWithOriginalKVs;
  rb_size : usize;
  rb_safe_mode : bool;
}.

(** [VecDeque::truncate]. *)
Definition truncate {A} (size : usize) (l : list A) : list A :=
  if (N.of_nat (length l) <=? size)%N then l else take (N.to_nat size) l.

(** One for the rollback point, one for the mempool's pseudo point. *)
Definition rollback_buffer_new (size : usize) (safe_mode : bool) : RollbackBuffer :=
  MkRollbackBuffer [] (wrapping_add 64 size 2) safe_mode.

Definition with_points (points : list PointWithOriginalKVs) (rb : RollbackBuffer) : RollbackBuffer :=
  MkRollbackBuffer points (rb_size rb) (rb_safe_mode rb).

Definition capacity (rb : RollbackBuffer) : usize := rb_size rb.
Definition total_actions (rb : RollbackBuffer) : usize :=
  foldr (λ x acc, wrapping_add 64 (N.of_nat (size (pk_original_kvs x))) acc) 0%N (rb_points rb).
Definition position (point : Point) (rb : RollbackBuffer) : option nat :=
  fst <$> list_find (λ p, pk_point p = point) (rb_points rb).
Definition rb_len (rb : RollbackBuffer) : usize := N.of_nat (length (rb_points rb)).
Definition rb_is_empty (rb : RollbackBuffer) : bool :=
  match rb_points rb with [] => true | _ => false end.
Definition latest (rb : RollbackBuffer) : option PointWithOriginalKVs := head (rb_points rb).
Definition oldest (rb : RollbackBuffer) : option PointWithOriginalKVs := last (rb_points rb).

Definition add_block (point : Point) (original_kvs : OriginalKVs) (rb : RollbackBuffer) : RollbackBuffer :=
  with_points (truncate (rb_size rb) (MkPointKVs point original_kvs :: rb_points rb)) rb.

(** The blocks since [point], removed from the buffer. *)
Definition rb_rollback_to_point (point : Point) (rb : RollbackBuffer) :
    Res Error (list PointWithOriginalKVs * RollbackBuffer) :=
  match position point rb with
  | Some p => Ok (take p (rb_points rb), with_points (drop p (rb_points rb)) rb)
  | None => Err (Rollback point)
  end.

Definition points_since (point : Point) (rb : RollbackBuffer) : Res Error (list PointWithOriginalKVs) :=
  match position point rb with
  | Some p => Ok (take p (rb_points rb))
  | None => Err (Rollback point)
  end.

Definition insert_actions_for_point (point : Point) (new_actions : OriginalKVs) (rb : RollbackBuffer) :
    Res Error RollbackBuffer :=
  match position point rb with
  | Some p =>
      entry ← expect (rb_points rb !! p) "unwrap";
      _ ← (if rb_safe_mode rb
           then assert (bool_decide (map_Forall (λ key _, pk_original_kvs entry !! key = None) new_actions))
                  "inserting action for key already present in rb buf"
           else Ok tt);
      let entry := MkPointKVs (pk_point entry) (new_actions ∪ pk_original_kvs entry) in
      Ok (with_points (<[p := entry]> (rb_points rb)) rb)
  | None => Ok (add_block point new_actions rb)
  end.

Definition remove_actions_for_point (point : Point) (remove_keys : gset RawKey) (rb : RollbackBuffer) :
    Res Error RollbackBuffer :=
  match position point rb with
  | Some p =>
      entry ← expect (rb_points rb !! p) "unwrap";
      _ ← (if rb_safe_mode rb
           then assert (bool_decide (set_Forall (λ key, is_Some (pk_original_kvs entry !! key)) remove_keys))
                  "trying to remove inverse action which doesn't exist"
           else Ok tt);
      let kvs := filter (λ kv, kv.1 ∉ remove_keys) (pk_original_kvs entry) in
      if decide (kvs = ∅) then Ok (with_points (delete p (rb_points rb)) rb)
      else Ok (with_points (<[p := MkPointKVs (pk_point entry) kvs]> (rb_points rb)) rb)
  | None => Ok rb
  end.

(** The body of the loop of [fetch_from_storage]. *)
Definition fetch_entry (rb : RollbackBuffer) (kv : Res Error (RollbackKey * PreviousValue)) :
    Res Error RollbackBuffer :=
  '(k, v) ← kv;
  let point := MkPoint (rk_height k) (rk_hash k) in
  insert_actions_for_point point {[rk_key k := v]} rb.

Section FetchFromStorage.
Context {DB : Type} `{RocksDB DB}.

Definition fetch_from_storage (max_rollback : option usize) (safe_mode : option bool)
    (db : StorageHandler DB) : Res Error RollbackBuffer :=
  let rollback_buffer :=
    rollback_buffer_new (default DEFAULT_MAX_ROLLBACK max_rollback) (default false safe_mode) in
  let range := encode_range RollbackBufferKV (None : option unit) (None : option unit) in
  let reader := reader (from_u64 u64_MAX) db in
  for_each (iter_kvs RollbackBufferKV reader range false) rollback_buffer fetch_entry.
End FetchFromStorage.

(** * Laws *)

(** The position of a point is the one of its newest entry. *)
Lemma position_first point rb newer e older :
  rb_points rb = newer ++ e :: older → pk_point e = point →
  Forall (λ x, pk_point x ≠ point) newer → position point rb = Some (length newer).
Proof.
  intros Hp He Hn. unfold position. rewrite Hp, (list_find_app_r _ newer).
  - simpl. by rewrite decide_True by done.
  - by apply list_find_None.
Qed.

Lemma position_None point rb :
  position point rb = None ↔ Forall (λ x, pk_point x ≠ point) (rb_points rb).
Proof. unfold position. rewrite fmap_None. apply list_find_None. Qed.

Lemma position_inv point rb p :
  position point rb = Some p →
  ∃ newer e older, rb_points rb = newer ++ e :: older ∧ pk_point e = point ∧ p = length newer ∧
    Forall (λ x, pk_point x ≠ point) newer.
Proof.
  unfold position. intros ([i e] & Hf & ->)%fmap_Some. apply list_find_Some in Hf as (Hi & He & Hn).
  exists (take i (rb_points rb)), e, (drop (S i) (rb_points rb)). split_and!.
  - symmetry. by apply take_drop_middle.
  - done.
  - simpl. rewrite length_take. apply lookup_lt_Some in Hi. lia.
  - apply Forall_lookup. intros j x Hj. apply lookup_take_Some in Hj as [Hj Hlt]. by eapply Hn.
Qed.

Lemma truncate_length {A} size (l : list A) : (N.of_nat (length (truncate size l)) <= size)%N.
Proof. unfold truncate. destruct (N.leb_spec (N.of_nat (length l)) size); [done|]. rewrite length_take. lia. Qed.

Lemma truncate_all {A} size (l : list A) : (N.of_nat (length l) <= size)%N → truncate size l = l.
Proof. intros Hl. unfold truncate. by rewrite (proj2 (N.leb_le _ _) Hl). Qed.

Lemma truncate_take {A} size (l : list A) : truncate size l = take (N.to_nat size) l.
Proof. unfold truncate. destruct (N.leb_spec (N.of_nat (length l)) size); [|done]. rewrite take_ge; [done|lia]. Qed.

(** ** States of the buffer *)
Inductive rb_step : RollbackBuffer → RollbackBuffer → Prop :=
| step_add point kvs rb : rb_step rb (add_block point kvs rb)
| step_rollback point rb undone rb' : rb_rollback_to_point point rb = Ok (undone, rb') → rb_step rb rb'
| step_insert point kvs rb rb' : insert_actions_for_point point kvs rb = Ok rb' → rb_step rb rb'
| step_remove point keys rb rb' : remove_actions_for_point point keys rb = Ok rb' → rb_step rb rb'.

Definition rb_bounded (rb : RollbackBuffer) : Prop := (rb_len rb <= capacity rb)%N.

Lemma rb_step_bounded rb rb' :
  rb_step rb rb' → rb_bounded rb → rb_bounded rb' ∧ capacity rb' = capacity rb.
Proof.
  unfold rb_bounded, rb_len, capacity.
  intros [point kvs rb1|point rb1 undone rb1' Hr|point kvs rb1 rb1' Hr|point keys rb1 rb1' Hr] Hb.
  - split; [|done]. apply truncate_length.
  - unfold rb_rollback_to_point in Hr. destruct (position _ _) as [p|]; [|done]. injection Hr as _ <-.
    split; [|done]. simpl. rewrite length_drop. lia.
  - unfold insert_actions_for_point in Hr. destruct (position _ _) as [p|].
    + inv_bind. simplify_eq. split; [|done]. simpl. by rewrite length_insert.
    + injection Hr as <-. split; [|done]. apply truncate_length.
  - unfold remove_actions_for_point in Hr. destruct (position _ _) as [p|]; [|by injection Hr as <-].
    inv_bind. case_decide; simplify_eq; (split; [|done]); simpl.
    + apply N.le_trans with (N.of_nat (length (rb_points rb1))); [|done].
      apply lookup_lt_Some in Heqo as Hlt. rewrite length_delete by eauto. lia.
    + by rewrite length_insert.
Qed.

(** However it is used, the buffer never holds more blocks than the
    configured rollback depth plus the rollback point and the mempool. *)
Theorem rollback_buffer_bounded (size : usize) (safe_mode : bool) (rb : RollbackBuffer) :
  fits 64 (size + 2) → rtc rb_step (rollback_buffer_new size safe_mode) rb → (rb_len rb <= size + 2)%N.
Proof.
  intros Hfits Hsteps.
  assert (rb_bounded (rollback_buffer_new size safe_mode)) as Hinit.
  { unfold rb_bounded, rb_len. simpl. lia. }
  assert (capacity (rollback_buffer_new size safe_mode) = size + 2)%N as Hcap.
  { unfold capacity. simpl. by apply wrapping_add_exact. }
  rewrite <-Hcap. clear Hcap Hfits. induction Hsteps as [rb|rb1 rb2 rb3 Hstep _ IH]; [done|].
  destruct (rb_step_bounded _ _ Hstep Hinit) as [Hb <-]. by apply IH.
Qed.

(** Rolling back to a point of the buffer hands out the blocks that came
    after it, newest first, and leaves the point as the newest block; a point
    that is not in the buffer is an error and changes nothing. *)
Theorem rollback_hands_out_newer (point : Point) (rb : RollbackBuffer) :
  (∃ newer e older, rb_points rb = newer ++ e :: older ∧ pk_point e = point ∧
     Forall (λ x, pk_point x ≠ point) newer ∧
     rb_rollback_to_point point rb = Ok (newer, with_points (e :: older) rb) ∧
     points_since point rb = Ok newer) ∨
  (Forall (λ x, pk_point x ≠ point) (rb_points rb) ∧
     rb_rollback_to_point point rb = Err (Rollback point) ∧ points_since point rb = Err (Rollback point)).
Proof.
  unfold rb_rollback_to_point, points_since. destruct (position point rb) as [p|] eqn:Hpos.
  - left. apply position_inv in Hpos as (newer & e & older & Hp & He & -> & Hn).
    exists newer, e, older. rewrite Hp, take_app_length, drop_app_length. by split_and!.
  - right. by apply position_None in Hpos.
Qed.

(** ** Rebuilding the buffer *)
Section Rebuild.
(** The record of one key of a block. *)
Definition block_key (p : Point) (kv : RawKey * PreviousValue) : RollbackKey * PreviousValue :=
  (MkRollbackKey (point_height p) (point_hash p) kv.1, kv.2).

Lemma fetch_head (p : Point) (m : OriginalKVs) (points : list PointWithOriginalKVs) (size : usize) (safe_mode : bool) k v :
  m !! k = None →
  fetch_entry (MkRollbackBuffer (MkPointKVs p m :: points) size safe_mode) (Ok (block_key p (k, v))) =
  Ok (MkRollbackBuffer (MkPointKVs p (<[k := v]> m) :: points) size safe_mode).
Proof.
  intros Hk. unfold fetch_entry, insert_actions_for_point. cbn [rbind block_key fst snd rk_height rk_hash rk_key].
  destruct p as [h hash]. cbn [point_height point_hash].
  rewrite (position_first _ _ [] (MkPointKVs (MkPoint h hash) m) points) by done.
  cbn [length rb_points lookup list_lookup expect rbind pk_original_kvs pk_point rb_safe_mode].
  rewrite (bool_decide_eq_true_2 (map_Forall _ {[k := v]})) by by apply map_Forall_singleton.
  destruct safe_mode; cbn [assert rbind]; by rewrite <-insert_union_singleton_l.
Qed.

Lemma fetch_rest (p : Point) (m : OriginalKVs) (points : list PointWithOriginalKVs) (size : usize) (safe_mode : bool) (kvs : list (RawKey * PreviousValue)) :
  NoDup kvs.*1 → (∀ k, k ∈ kvs.*1 → m !! k = None) →
  for_each (Ok <$> (block_key p <$> kvs)) (MkRollbackBuffer (MkPointKVs p m :: points) size safe_mode)
    fetch_entry =
  Ok (MkRollbackBuffer (MkPointKVs p (list_to_map kvs ∪ m) :: points) size safe_mode).
Proof.
  revert m. induction kvs as [|[k v] kvs IH]; intros m Hnd Hm.
  { simpl. by rewrite (left_id_L ∅ (∪)). }
  cbn [fmap list_fmap for_each list_to_map foldr fst snd] in *.
  apply NoDup_cons in Hnd as [Hk Hnd]. rewrite fetch_head by (apply Hm; by left). cbn [rbind].
  rewrite IH; [|done|].
  - f_equal. f_equal. f_equal. f_equal. rewrite <-insert_union_r, insert_union_l; [done|].
    by apply not_elem_of_list_to_map.
  - intros k' Hk'. rewrite lookup_insert_ne; [apply Hm; by right|]. by intros ->.
Qed.

(** The records of one block, in any order. *)
Lemma fetch_block (p : Point) (points : list PointWithOriginalKVs) (size : usize) (safe_mode : bool) (m : OriginalKVs)
    (kvs : list (RawKey * PreviousValue)) :
  kvs ≡ₚ map_to_list m → m ≠ ∅ → Forall (λ x, pk_point x ≠ p) points →
  (N.of_nat (S (length points)) <= size)%N →
  for_each (Ok <$> (block_key p <$> kvs)) (MkRollbackBuffer points size safe_mode) fetch_entry =
  Ok (MkRollbackBuffer (MkPointKVs p m :: points) size safe_mode).
Proof.
  intros Hperm Hne Hp Hsize.
  assert (NoDup kvs.*1) as Hnd by (rewrite Hperm; apply NoDup_fst_map_to_list).
  assert (list_to_map kvs = m) as <-.
  { rewrite <-(list_to_map_to_list m). by apply list_to_map_proper. }
  destruct kvs as [|[k v] kvs]; [by destruct Hne|]. csimpl in *.
  apply NoDup_cons in Hnd as [Hk Hnd].
  unfold fetch_entry at 1, insert_actions_for_point, block_key. cbn [rbind fst snd rk_height rk_hash rk_key].
  destruct p as [h hash]. cbn [point_height point_hash].
  rewrite (proj2 (position_None _ (MkRollbackBuffer points size safe_mode)) Hp). cbn [rbind].
  unfold add_block. cbn [rb_size rb_points]. rewrite truncate_all by done.
  unfold with_points. cbn [rb_size rb_safe_mode].
  etransitivity; [apply (fetch_rest (MkPoint h hash)); [done|]|].
  - intros k' Hk'. rewrite lookup_singleton_ne; [done|]. by intros ->.
  - f_equal. f_equal. f_equal. f_equal. rewrite <-insert_union_singleton_r; [done|].
    by apply not_elem_of_list_to_map.
Qed.

(** Blocks that arrive oldest first. *)
Lemma fetch_blocks (order : PointWithOriginalKVs → list (RawKey * PreviousValue))
    (blocks older : list PointWithOriginalKVs) (size : usize) (safe_mode : bool) :
  (∀ e, e ∈ blocks → order e ≡ₚ map_to_list (pk_original_kvs e) ∧ pk_original_kvs e ≠ ∅) →
  NoDup (pk_point <$> blocks ++ older) → (N.of_nat (length blocks + length older) <= size)%N →
  for_each (Ok <$> (blocks ≫= λ e, block_key (pk_point e) <$> order e))
    (MkRollbackBuffer older size safe_mode) fetch_entry =
  Ok (MkRollbackBuffer (reverse blocks ++ older) size safe_mode).
Proof.
  revert older. induction blocks as [|e blocks IH]; intros older Hord Hnd Hsize; [done|].
  cbn [mbind list_bind]. rewrite fmap_app, for_each_app.
  destruct (Hord e) as [Hperm Hne]; [by left|].
  csimpl in Hnd. apply NoDup_cons in Hnd as [He Hnd]. simpl in Hsize.
  rewrite (fetch_block (pk_point e) older size safe_mode (pk_original_kvs e)); [|done|done| |lia].
  2:{ apply Forall_forall. intros x Hx Heq. apply He. rewrite <-Heq.
      apply list_elem_of_fmap_2, elem_of_app. by right. }
  cbn [rbind]. replace (MkPointKVs (pk_point e) (pk_original_kvs e)) with e by by destruct e.
  rewrite IH.
  - rewrite reverse_cons, <-app_assoc. done.
  - intros x Hx. apply Hord. by right.
  - rewrite fmap_app in *. csimpl. apply NoDup_app in Hnd as (Hnd1 & Hdis & Hnd2).
    apply NoDup_app. split_and!; [done| |].
    + intros x Hx. rewrite elem_of_cons. intros [->|?]; [|by eapply Hdis].
      apply He, elem_of_app. by left.
    + apply NoDup_cons. split; [|done]. intros Hx. apply He, elem_of_app. by right.
  - simpl. lia.
Qed.
End Rebuild.

(** ** The persistent table and the buffer *)
Section Persisted.
(** The records of a block can be encoded. *)
Record block_ok (e : PointWithOriginalKVs) : Prop := {
  bo_point : point_ok (pk_point e);
  bo_nonempty : pk_original_kvs e ≠ ∅;
  bo_kvs k pv : pk_original_kvs e !! k = Some pv → valid k ∧ valid pv;
}.

Definition higher (e1 e2 : PointWithOriginalKVs) : Prop :=
  (point_height (pk_point e2) < point_height (pk_point e1))%N.

(** The table holds the records of these blocks, and no other. *)
Definition persisted (points : list PointWithOriginalKVs) (s : Snapshot) : Prop :=
  ∀ k v, (rollback_prefix `prefix_of` k ∧ s !! k = Some v) ↔
    ∃ e key pv, e ∈ points ∧ pk_original_kvs e !! key = Some pv ∧
      k = encode_key RollbackBufferKV (block_key (pk_point e) (key, pv)).1 ∧ v = encode pv.

Definition record_entry (r : RollbackKey * PreviousValue) : RawKey * RawValue :=
  (encode_key RollbackBufferKV r.1, encode r.2).

Definition entry_key (e : PointWithOriginalKVs) (kv : RawKey * PreviousValue) : RawKey :=
  (record_entry (block_key (pk_point e) kv)).1.
Definition block_order (e : PointWithOriginalKVs) : list (RawKey * PreviousValue) :=
  merge_sort (lex_le_by (entry_key e)) (map_to_list (pk_original_kvs e)).
Definition all_records (blocks : list PointWithOriginalKVs) : list (RollbackKey * PreviousValue) :=
  blocks ≫= λ e, block_key (pk_point e) <$> block_order e.

Lemma block_order_perm e : block_order e ≡ₚ map_to_list (pk_original_kvs e).
Proof. apply merge_sort_Permutation. Qed.

Lemma elem_of_block_order e k pv : (k, pv) ∈ block_order e ↔ pk_original_kvs e !! k = Some pv.
Proof. rewrite block_order_perm. apply elem_of_map_to_list. Qed.

Lemma elem_of_all_records r blocks :
  r ∈ all_records blocks ↔
  ∃ e key pv, e ∈ blocks ∧ pk_original_kvs e !! key = Some pv ∧ r = block_key (pk_point e) (key, pv).
Proof.
  unfold all_records. rewrite list_elem_of_bind. split.
  - intros (e & Hr & He). apply list_elem_of_fmap in Hr as ([key pv] & -> & Hin).
    apply elem_of_block_order in Hin. eauto 8.
  - intros (e & key & pv & He & Hkv & ->). exists e. split; [|done].
    by apply list_elem_of_fmap_2, elem_of_block_order.
Qed.

Lemma block_key_valid e k pv :
  block_ok e → pk_original_kvs e !! k = Some pv →
  valid (block_key (pk_point e) (k, pv)).1 ∧ valid pv.
Proof.
  intros [[Hh Hhash] _ Hkvs] Hk. destruct (Hkvs _ _ Hk) as [Hvk Hvp].
  split; [|exact Hvp]. split; [exact Hh|]. by split.
Qed.

Lemma block_records_sorted e :
  block_ok e → StronglySorted lex_lt (entry_key e <$> block_order e).
Proof.
  intros He. apply sorted_lt_by; [apply (StronglySorted_merge_sort (lex_le_by (entry_key e)))|].
  apply NoDup_fmap_2_strong.
  - intros [k1 v1] [k2 v2] H1 H2 Heq. apply elem_of_block_order in H1, H2.
    apply (encode_key_inj _ _ rollback_table_at) in Heq; [|by eapply block_key_valid..].
    injection Heq as ->. congruence.
  - rewrite block_order_perm. eapply (NoDup_fmap_1 fst), NoDup_fst_map_to_list.
Qed.

(** A record of a lower block comes first. *)
Lemma record_lt_height r1 r2 :
  fits 64 (rk_height r2) → (rk_height r1 < rk_height r2)%N →
  lex_lt (encode_key RollbackBufferKV r1) (encode_key RollbackBufferKV r2).
Proof.
  intros Hf Hlt. rewrite !(table_encode_key _ _ rollback_table_at), lex_lt_app, !rollback_key_encode_eq.
  by apply (uint_encode_lt 64).
Qed.

Lemma all_records_sorted blocks :
  Forall block_ok blocks → StronglySorted (flip higher) blocks →
  StronglySorted lex_lt (record_entry <$> all_records blocks).*1.
Proof.
  intros Hok Hs. induction Hs as [|e blocks Hs IH Hall]; [constructor|].
  apply Forall_cons in Hok as [He Hok]. unfold all_records. cbn [mbind list_bind].
  rewrite !fmap_app. apply StronglySorted_app. split_and!.
  - intros x1 x2 H1 H2.
    apply list_elem_of_fmap in H1 as (y1 & -> & H1). apply list_elem_of_fmap in H1 as (r1 & -> & H1).
    apply list_elem_of_fmap in H1 as (kv1 & -> & H1).
    apply list_elem_of_fmap in H2 as (y2 & -> & H2). apply list_elem_of_fmap in H2 as (r2 & -> & H2).
    apply elem_of_all_records in H2 as (e2 & k2 & pv2 & He2 & Hk2 & ->).
    rewrite Forall_forall in Hall, Hok. apply record_lt_height; [|by apply (Hall e2)].
    apply (Hok e2 He2).
  - rewrite <-!list_fmap_compose.
    rewrite (list_fmap_ext _ (entry_key e)) by reflexivity. by apply block_records_sorted.
  - by apply IH.
Qed.
End Persisted.

Lemma StronglySorted_reverse {A} (R : relation A) l :
  StronglySorted R l → StronglySorted (flip R) (reverse l).
Proof.
  induction 1 as [|x l Hs IH Hall]; [constructor|]. rewrite reverse_cons.
  apply StronglySorted_app. split; [|split; [exact IH|repeat constructor]].
  intros y z Hy Hz%list_elem_of_singleton. subst z. rewrite elem_of_reverse in Hy.
  rewrite Forall_forall in Hall. exact (Hall y Hy).
Qed.

Section FetchTheorem.
Context {DB : Type} `{RocksDBOk DB}.

(** The scan of the table gives the records in order. *)
Lemma rollback_scan (points : list PointWithOriginalKVs) (sh : StorageHandler DB) :
  storage_ok sh → Forall block_ok points → StronglySorted higher points →
  persisted points (db_latest (sh_db sh)) →
  iter_kvs RollbackBufferKV (reader latest_ts sh)
    (encode_range RollbackBufferKV (None : option unit) (None : option unit)) false =
  Ok <$> all_records (reverse points).
Proof.
  intros Hsh Hok Hs Hper. assert (Forall block_ok (reverse points)) as Hok' by by apply Forall_reverse.
  apply (table_scan _ _ rollback_table_at (all_records (reverse points)) sh false Hsh).
  - intros k v. unfold persisted in Hper. rewrite (Hper k v). split.
    + intros (e & key & pv & He & Hkv & -> & ->). exists (block_key (pk_point e) (key, pv)).
      split; [|done]. apply elem_of_all_records. exists e, key, pv. by rewrite elem_of_reverse.
    + intros (r & Hr & -> & ->). apply elem_of_all_records in Hr as (e & key & pv & He & Hkv & ->).
      exists e, key, pv. by rewrite elem_of_reverse in He.
  - apply Forall_forall. intros r Hr. apply elem_of_all_records in Hr as (e & key & pv & He & Hkv & ->).
    rewrite Forall_forall in Hok'. exact (block_key_valid e key pv (Hok' e He) Hkv).
  - assert (StronglySorted (flip higher) (reverse points)) as Hs' by by apply StronglySorted_reverse.
    pose proof (all_records_sorted _ Hok' Hs') as Hsorted. rewrite <-list_fmap_compose in Hsorted. exact Hsorted.
Qed.

Lemma fetch_from_storage_points (points : list PointWithOriginalKVs) (sh : StorageHandler DB)
    (max_rollback : option usize) (safe_mode : option bool) :
  storage_ok sh → Forall block_ok points → StronglySorted higher points →
  persisted points (db_latest (sh_db sh)) →
  fits 64 (default DEFAULT_MAX_ROLLBACK max_rollback + 2) →
  (N.of_nat (length points) <= default DEFAULT_MAX_ROLLBACK max_rollback + 2)%N →
  fetch_from_storage max_rollback safe_mode sh =
  Ok (MkRollbackBuffer points (default DEFAULT_MAX_ROLLBACK max_rollback + 2)%N (default false safe_mode)).
Proof.
  intros Hsh Hok Hs Hper Hfits Hlen. unfold fetch_from_storage. cbv zeta.
  fold latest_ts. rewrite (rollback_scan points sh Hsh Hok Hs Hper).
  unfold rollback_buffer_new. rewrite wrapping_add_exact by exact Hfits.
  unfold all_records. rewrite (fetch_blocks block_order (reverse points) []).
  - by rewrite reverse_involutive, app_nil_r.
  - intros e He. split; [apply block_order_perm|]. rewrite elem_of_reverse in He.
    rewrite Forall_forall in Hok. by apply Hok.
  - rewrite app_nil_r, fmap_reverse, reverse_Permutation.
    clear -Hs. induction Hs as [|e points Hs IH Hall]; csimpl; constructor; [|done].
    intros Hin. apply list_elem_of_fmap in Hin as (e' & Heq & Hin).
    rewrite Forall_forall in Hall. specialize (Hall _ Hin). unfold higher in Hall. rewrite Heq in Hall. lia.
  - rewrite length_reverse. simpl. lia.
Qed.

(** C27: A restart rebuilds the rollback buffer from the store: when the
    persistent table holds the records of the blocks of a buffer, reading it
    back gives those blocks, newest first, with every key and previous
    value, and with no panic in safe mode. *)
Theorem fetch_from_storage_rebuilds (points : list PointWithOriginalKVs) (sh : StorageHandler DB)
    (max_rollback : option usize) (safe_mode : option bool) :
  storage_ok sh → Forall block_ok points → StronglySorted higher points →
  persisted points (db_latest (sh_db sh)) →
  fits 64 (default DEFAULT_MAX_ROLLBACK max_rollback + 2) →
  (N.of_nat (length points) <= default DEFAULT_MAX_ROLLBACK max_rollback + 2)%N →
  fetch_from_storage max_rollback safe_mode sh =
  Ok (MkRollbackBuffer points (default DEFAULT_MAX_ROLLBACK max_rollback + 2)%N (default false safe_mode)).
Proof. exact (fetch_from_storage_points points sh max_rollback safe_mode). Qed.
End FetchTheorem.

(** The table that holds the records of a buffer and nothing else. *)
Lemma persisted_records (points : list PointWithOriginalKVs) :
  Forall block_ok points → StronglySorted higher points →
  persisted points (list_to_map (record_entry <$> all_records (reverse points))).
Proof.
  intros Hok Hs k v.
  rewrite <-elem_of_list_to_map, list_elem_of_fmap.
  2:{ apply lex_sorted_nodup, all_records_sorted; [by apply Forall_reverse|by apply StronglySorted_reverse]. }
  split.
  - intros (_ & r & Heq & Hr). apply elem_of_all_records in Hr as (e & key & pv & He & Hkv & ->).
    apply pair_equal_spec in Heq as [-> ->]. rewrite elem_of_reverse in He. by exists e, key, pv.
  - intros (e & key & pv & He & Hkv & -> & ->). split; [apply rollback_key_prefix|].
    exists (block_key (pk_point e) (key, pv)). split; [reflexivity|].
    apply elem_of_all_records. exists e, key, pv. by rewrite elem_of_reverse.
Qed.

Module RollbackExamples.
Definition rb_block (h : N) (b : byte) : PointWithOriginalKVs :=
  MkPointKVs (MkPoint h (replicate 32 b)) {[ [x55; b] := Present [b] ]}.
Definition rb_blocks : list PointWithOriginalKVs := [rb_block 8%N x08; rb_block 7%N x07].
Definition rb_storage : StorageHandler RefDB :=
  MkStorage [(5%N, list_to_map (record_entry <$> all_records (reverse rb_blocks)))] None false.

Lemma rb_block_ok h b : fits 64 h → block_ok (rb_block h b).
Proof.
  intros Hh. split.
  - split; [exact Hh|reflexivity].
  - cbn [rb_block pk_original_kvs]. apply map_non_empty_singleton.
  - intros k pv Hk. cbn [rb_block pk_original_kvs] in Hk. apply lookup_singleton_Some in Hk as [<- <-].
    split; (split; [vm_compute; reflexivity|by apply Forall_true]).
Qed.

Lemma rb_blocks_ok : Forall block_ok rb_blocks.
Proof. apply Forall_cons. split; [|apply Forall_singleton]; apply rb_block_ok; vm_compute; reflexivity. Qed.
Lemma rb_blocks_sorted : StronglySorted higher rb_blocks.
Proof. repeat constructor; vm_compute; reflexivity. Qed.

Example fetch_from_storage_rebuilds_witness :
  fetch_from_storage (Some 3%N) (Some true) rb_storage = Ok (MkRollbackBuffer rb_blocks 5%N true).
Proof.
  apply (fetch_from_storage_rebuilds rb_blocks rb_storage (Some 3%N) (Some true)).
  - split_and!; [vm_compute; reflexivity|vm_compute; reflexivity|exact I].
  - apply rb_blocks_ok.
  - apply rb_blocks_sorted.
  - exact (persisted_records rb_blocks rb_blocks_ok rb_blocks_sorted).
  - vm_compute. reflexivity.
  - vm_compute. discriminate.
Defined.

Example rollback_buffer_bounded_witness :
  (rb_len (add_block (MkPoint 1%N []) ∅ (rollback_buffer_new 3%N false)) <= 3 + 2)%N.
Proof.
  apply (rollback_buffer_bounded 3%N false); [vm_compute; reflexivity|].
  apply rtc_once. constructor.
Defined.
End RollbackExamples.
