(* ===== verification/Bitcoin.v ===== *)
(** * What the code uses of the [bitcoin] crate, and the chain events

    The crate is not part of the repository: its transactions, scripts and
    headers are the parameter [Bitcoin], a list of the accessors the indexer
    calls.  The types built on them are those of src/src/sync/stages/mod.rs
    and src/src/sync/mod.rs. *)
From S2P Require Import Prelude EncDec Types.

(** A reference to an output, as an input carries it. *)
Record OutPoint : Type := MkOutPoint { op_txid : Txid; op_vout : u32 }.

(** One item of [Script::instructions]: a push, another opcode, or an error. *)
Inductive Instruction : Type :=
| PushBytes (bytes : list byte)
| Op
| InvalidInstruction.

Class Bitcoin : Type := {
  Transaction : Type;
  TxIn : Type;
  TxOut : Type;
  Header : Type;
  tx_input : Transaction → list TxIn;
  tx_output : Transaction → list TxOut;
  is_coinbase : Transaction → bool;
  previous_output : TxIn → OutPoint;
  is_null : OutPoint → bool;
  (** [input.witness.tapscript()], as its instructions. *)
  tapscript : TxIn → option (list Instruction);
  value_to_sat : TxOut → u64;
  script_pubkey : TxOut → list byte;
  is_op_return : list byte → bool;
  is_p2tr : list byte → bool;
  prev_blockhash : Header → BlockHash;
}.

(** [impl From<OutPoint> for TxoRef]. *)
Definition txo_ref_from (outpoint : OutPoint) : TxoRef := MkTxoRef (op_txid outpoint) (op_vout outpoint).

(** [src/src/sync/mod.rs] *)
Inductive Network : Type := Mainnet | Testnet4 | Regtest.

Section Events.
Context `{Bitcoin}.

Record TransactionWithId : Type := MkTxWithId { tx_id : Txid; tx : Transaction }.
Definition BlockTxs : Type := list TransactionWithId.

Record MempoolSnapshotInfo : Type := MkSnapshotInfo {
  snapshot_timestamp : u64;
  snapshot_tip : BlockHash;
}.

Inductive ChainEvent : Type :=
| RollForward (point : Point) (header : Header) (txs : BlockTxs) (tip : Point)
| RollBack (point : Point)
| MempoolBlocks (info : MempoolSnapshotInfo) (blocks : list BlockTxs).
End Events.

(** The input and output references of a transaction. *)
Section Refs.
Context `{Bitcoin}.

Definition input_ref (i : TxIn) : TxoRef := txo_ref_from (previous_output i).
Definition output_ref (t : TransactionWithId) (i : nat) : TxoRef :=
  MkTxoRef (tx_id t) (N.of_nat i mod 2 ^ 32)%N.
End Refs.

(** A small instance of the interface, for closed examples. *)
Module SimpleBitcoin.
Record SimpleTxIn : Type := MkSimpleIn { si_prev : OutPoint; si_tapscript : option (list Instruction) }.
Record SimpleTxOut : Type := MkSimpleOut { so_value : u64; so_script : list byte }.
Record SimpleTx : Type := MkSimpleTx { st_input : list SimpleTxIn; st_output : list SimpleTxOut }.

Definition zero_txid : Txid := replicate 32 x00.
Definition null_outpoint : OutPoint := MkOutPoint zero_txid u32_MAX.
Definition simple_is_null (o : OutPoint) : bool :=
  bool_decide (op_txid o = zero_txid) && (op_vout o =? u32_MAX)%N.

Definition simple_bitcoin : Bitcoin := {|
  Transaction := SimpleTx;
  TxIn := SimpleTxIn;
  TxOut := SimpleTxOut;
  Header := list byte;
  tx_input := st_input;
  tx_output := st_output;
  is_coinbase := λ t, match st_input t with [i] => simple_is_null (si_prev i) | _ => false end;
  previous_output := si_prev;
  is_null := simple_is_null;
  tapscript := si_tapscript;
  value_to_sat := so_value;
  script_pubkey := so_script;
  is_op_return := λ s, match s with x6a :: _ => true | _ => false end;
  is_p2tr := λ s, match s with x51 :: x20 :: r => (length r =? 32)%nat | _ => false end;
  prev_blockhash := take 32;
|}.
End SimpleBitcoin.
