(* ===== verification/Context.v ===== *)
(** * The unspent outputs of a block being indexed

    src/src/sync/stages/index/indexers/core/utxo_by_txo_ref.rs (the cache and
    [resolve_inputs]) and src/src/sync/stages/index/worker/context.rs (the
    [IndexingContext]).  The cache's eviction policy belongs to [mini_moka]:
    [MokaCache] is its interface.  The clock and the memory are looked at after
    every transaction; what they show is an argument. *)
From S2P Require Import Prelude Float ByteOrder EncDec Timestamp Types MergeOperation Table Rocks.
From S2P Require Import CoreTables KvStore Bitcoin.

Class MokaCache (V C : Type) : Type := {
  moka_new : u64 → C;
  moka_get : TxoRef → C → option V;
  moka_insert : TxoRef → V → C → C;
  moka_invalidate : TxoRef → C → C;
}.

(** A cache may forget entries and never makes one up. *)
Class MokaCacheOk (V C : Type) `{!MokaCache V C} : Prop := {
  moka_get_new n k : moka_get k (moka_new n : C) = None;
  moka_get_insert k v k' (c : C) v' :
    moka_get k' (moka_insert k v c) = Some v' → (k' = k ∧ v' = v) ∨ (k' ≠ k ∧ moka_get k' c = Some v');
  moka_get_invalidate k k' (c : C) v' :
    moka_get k' (moka_invalidate k c) = Some v' → k' ≠ k ∧ moka_get k' c = Some v';
}.

(** What a look at the clock and at the memory gives. *)
Record MemoryReading : Type := MkMemoryReading { mr_now : N; mr_app_mem : u64; mr_total_memory : u64 }.

Section Context.
Context {DB : Type} `{RocksDB DB} `{HashOrder} `{Bitcoin}.
Context {Ext : Type} `{!IndexMap TransactionIndexer (list byte) Ext}.
Context {C : Type} `{!MokaCache (Utxo Ext) C}.

(** ** [UtxoCache]

    [uc_last_check] is an [Instant]: nanoseconds, counted from the creation of
    the cache. *)
Record UtxoCache : Type := MkUtxoCache { uc_cache : C; uc_last_check : N; uc_max_capacity : u64 }.

Definition utxo_cache_new (max_size_bytes : u64) : UtxoCache :=
  MkUtxoCache (moka_new max_size_bytes) 0 max_size_bytes.
Definition utxo_cache_get (c : UtxoCache) (txo_ref : TxoRef) : option (Utxo Ext) :=
  moka_get txo_ref (uc_cache c).
Definition utxo_cache_insert (txo_ref : TxoRef) (utxo : Utxo Ext) (c : UtxoCache) : UtxoCache :=
  MkUtxoCache (moka_insert txo_ref utxo (uc_cache c)) (uc_last_check c) (uc_max_capacity c).
Definition utxo_cache_remove (txo_ref : TxoRef) (c : UtxoCache) : option (Utxo Ext) * UtxoCache :=
  (moka_get txo_ref (uc_cache c),
   MkUtxoCache (moka_invalidate txo_ref (uc_cache c)) (uc_last_check c) (uc_max_capacity c)).

(** The memory used by the process and the memory there is: whether the first
    is 90% of the second or more. *)
Definition mem_usage_high (app_mem total_memory : u64) : bool :=
  if (total_memory =? 0)%N then false
  else f64_geb (f64_mul (f64_div (f64_of_u64 app_mem) (f64_of_u64 total_memory)) f64_100) f64_90.

Definition wipe_if_mem_usage_high (r : MemoryReading) (c : UtxoCache) : UtxoCache :=
  (* duration_since(..).as_secs() *)
  if ((mr_now r - uc_last_check c) / 1000000000 <? 300)%N then c
  else if mem_usage_high (mr_app_mem r) (mr_total_memory r)
       then MkUtxoCache (moka_new (uc_max_capacity c)) (mr_now r) (uc_max_capacity c)
       else MkUtxoCache (uc_cache c) (mr_now r) (uc_max_capacity c).

(** ** [resolve_inputs] *)
Record ResolvedUtxos : Type := MkResolved {
  ru_resolver : gmap TxoRef (Utxo Ext);
  ru_chained_txos : gset TxoRef;
  ru_cache_hits : usize;
}.

(** The transactions whose inputs are resolved: a leading coinbase is skipped. *)
Definition skip_coinbase (txs : BlockTxs) : BlockTxs :=
  match txs with
  | t :: rest => if is_coinbase (tx t) then rest else txs
  | [] => []
  end.

Definition block_tx_ids (txs : BlockTxs) : gset Txid := list_to_set (tx_id <$> txs).
Definition block_input_refs (txs : BlockTxs) : gset TxoRef :=
  list_to_set (skip_coinbase txs ≫= λ x, input_ref <$> tx_input (tx x)).

(** The state of the first loop. *)
Record ResolveState : Type := MkResolveState {
  rs_resolver : gmap TxoRef (Utxo Ext);
  rs_fetch_from_db : list TxoRef;
  rs_chained : gset TxoRef;
  rs_cache_hits : usize;
  rs_cache : option UtxoCache;
}.

Definition resolve_cached (tx_ids : gset Txid) (s : ResolveState) (input_ref : TxoRef) : ResolveState :=
  if decide (tx_hash input_ref ∈ tx_ids) then
    MkResolveState (rs_resolver s) (rs_fetch_from_db s) ({[input_ref]} ∪ rs_chained s)
      (rs_cache_hits s) (rs_cache s)
  else
    let '(found, cache) :=
      match rs_cache s with
      | Some c => let '(found, c) := utxo_cache_remove input_ref c in (found, Some c)
      | None => (None, None)
      end in
    match found with
    | Some utxo =>
        MkResolveState (<[input_ref := utxo]> (rs_resolver s)) (rs_fetch_from_db s) (rs_chained s)
          (wrapping_add 64 (rs_cache_hits s) 1) cache
    | None =>
        MkResolveState (rs_resolver s) (rs_fetch_from_db s ++ [input_ref]) (rs_chained s)
          (rs_cache_hits s) cache
    end.

(** The second loop: an output that is nowhere is a panic. *)
Definition resolve_fetched (resolver : gmap TxoRef (Utxo Ext)) (e : TxoRef * option (Utxo Ext)) :
    Res Error (gmap TxoRef (Utxo Ext)) :=
  match e.2 with
  | Some u => Ok (<[e.1 := u]> resolver)
  | None => Panic "missing non chained utxo"
  end.

Definition resolve_inputs (task : IndexingTask DB) (txs : BlockTxs) (cache : option UtxoCache) :
    Res Error (ResolvedUtxos * option UtxoCache) :=
  let tx_ids := block_tx_ids txs in
  let s := foldl (resolve_cached tx_ids) (MkResolveState ∅ [] ∅ 0%N cache)
             (hs_iter (block_input_refs txs)) in
  resolver ←
    match rs_fetch_from_db s with
    | [] => Ok (rs_resolver s)
    | fetch_from_db =>
        fetched_utxos ← multi_get UtxoByTxoRefKV task fetch_from_db;
        for_each fetched_utxos (rs_resolver s) resolve_fetched
    end;
  Ok (MkResolved resolver (rs_chained s) (rs_cache_hits s), rs_cache s).

(** ** [IndexingContext] *)
Record IndexingContext : Type := MkContext {
  ctx_point : Point;
  ctx_resolver : gmap TxoRef (Utxo Ext);
  ctx_utxo_metadata : gmap TxoRef Ext;
  ctx_chained_txos : gset TxoRef;
  ctx_network : Network;
}.

Definition block_height (ctx : IndexingContext) : BlockHeight := point_height (ctx_point ctx).
Definition block_hash (ctx : IndexingContext) : BlockHash := point_hash (ctx_point ctx).
Definition resolve_input (ctx : IndexingContext) (txo_ref : TxoRef) : option (Utxo Ext) :=
  ctx_resolver ctx !! txo_ref.

Definition attach_utxo_metadata {E} `{Encode E} (txo_ref : TxoRef) (indexer : TransactionIndexer)
    (data : E) (ctx : IndexingContext) : IndexingContext :=
  let m := default im_new (ctx_utxo_metadata ctx !! txo_ref) in
  MkContext (ctx_point ctx) (ctx_resolver ctx)
    (<[txo_ref := im_insert indexer (encode data) m]> (ctx_utxo_metadata ctx))
    (ctx_chained_txos ctx) (ctx_network ctx).

Definition context_new (task : IndexingTask DB) (txs : BlockTxs) (point : Point) (network : Network)
    (utxo_cache : option UtxoCache) : Res Error (IndexingContext * option UtxoCache) :=
  '(r, utxo_cache) ← resolve_inputs task txs utxo_cache;
  Ok (MkContext point (ru_resolver r) ∅ (ru_chained_txos r) network, utxo_cache).

Definition update_point (point : Point) (ctx : IndexingContext) : IndexingContext :=
  MkContext point (ctx_resolver ctx) (ctx_utxo_metadata ctx) (ctx_chained_txos ctx) (ctx_network ctx).

(** ** [update_utxo_set] *)
Definition consume_input (s : IndexingContext * IndexingTask DB) (input : TxIn) :
    Res Error (IndexingContext * IndexingTask DB) :=
  let '(ctx, task) := s in
  let txo_ref := txo_ref_from (previous_output input) in
  let ctx :=
    if task_mempool task then ctx
    else MkContext (ctx_point ctx) (delete txo_ref (ctx_resolver ctx)) (ctx_utxo_metadata ctx)
           (ctx_chained_txos ctx) (ctx_network ctx) in
  task ← task_delete (UtxoByTxoRefKV (Ext:=Ext)) txo_ref task;
  Ok (ctx, task).

Record UpdateState : Type := MkUpdate {
  us_ctx : IndexingContext;
  us_task : IndexingTask DB;
  us_cache : option UtxoCache;
  us_outs_written : usize;
}.

Definition produce_output (t : TransactionWithId) (s : UpdateState) (o : nat * TxOut) :
    Res Error UpdateState :=
  let '(output_index, output) := o in
  let ctx := us_ctx s in
  if is_op_return (script_pubkey output) then Ok s
  else
    let txo_ref := output_ref t output_index in
    let utxo := MkUtxo (value_to_sat output) (script_pubkey output) (block_height ctx)
                  (default im_new (ctx_utxo_metadata ctx !! txo_ref)) in
    let ctx := MkContext (ctx_point ctx) (ctx_resolver ctx) (delete txo_ref (ctx_utxo_metadata ctx))
                 (ctx_chained_txos ctx) (ctx_network ctx) in
    if decide (txo_ref ∈ ctx_chained_txos ctx) then
      Ok (MkUpdate
            (MkContext (ctx_point ctx) (<[txo_ref := utxo]> (ctx_resolver ctx)) (ctx_utxo_metadata ctx)
               (ctx_chained_txos ctx) (ctx_network ctx))
            (us_task s) (us_cache s) (us_outs_written s))
    else
      let cache :=
        match us_cache s with
        | Some c => Some (if task_mempool (us_task s) then c else utxo_cache_insert txo_ref utxo c)
        | None => None
        end in
      task ← task_set UtxoByTxoRefKV txo_ref utxo (us_task s);
      Ok (MkUpdate ctx task cache (wrapping_add 64 (us_outs_written s) 1)).

(** [iter().enumerate()] *)
Definition enumerate {A} (l : list A) : list (nat * A) := imap pair l.

Definition update_utxo_set (r : MemoryReading) (t : TransactionWithId)
    (ctx : IndexingContext) (task : IndexingTask DB) (utxo_cache : option UtxoCache) :
    Res Error UpdateState :=
  '(ctx, task) ← for_each (tx_input (tx t)) (ctx, task) consume_input;
  s ← for_each (enumerate (tx_output (tx t))) (MkUpdate ctx task utxo_cache 0%N) (produce_output t);
  Ok (MkUpdate (us_ctx s) (us_task s)
        (option_map (wipe_if_mem_usage_high r) (us_cache s))
        (us_outs_written s)).
End Context.
Arguments UtxoCache C : clear implicits.
Arguments IndexingContext Ext : clear implicits.
Arguments UpdateState DB Ext C : clear implicits.
