(* ===== verification/AddressIndexers.v ===== *)
(** * The address indexers

    src/src/sync/stages/index/indexers/custom/id.rs (the trait
    [ProcessTransaction]), tx_count_by_address.rs and utxos_by_address.rs. *)
From S2P Require Import Prelude ByteOrder EncDec Timestamp Types MergeOperation Table Rocks.
From S2P Require Import CoreTables KvStore Bitcoin Context.

(** ** The trait [ProcessTransaction]

    An indexer reads and writes the task, and may attach data to the outputs
    in the context. *)
Section Trait.
Context (DB Ext : Type) `{Bitcoin}.

Definition IndexerState : Type := IndexingTask DB * IndexingContext Ext.

Class ProcessTransaction (I : Type) : Type :=
  process_tx : I → TransactionWithId → usize → IndexerState → Res Error IndexerState.
End Trait.
Arguments process_tx {DB Ext _ I _} i t tx_block_index s.

(** ** Tables *)
Definition TxCountByAddressKV : Table ScriptPubKey u64 :=
  indexer_table u64 (unique_id TxCountByAddress) x00.

Record UtxosByAddressKey : Type := MkUtxosByAddressKey {
  uba_script : ScriptPubKey;
  uba_produced_height : u64;
  uba_txo_ref : TxoRef;
}.
#[export] Instance utxos_by_address_key_encode : Encode UtxosByAddressKey := λ k,
  build (append (uba_txo_ref k) (append (uba_produced_height k) (append (uba_script k) builder_new))).
#[export] Instance utxos_by_address_key_decode : Decode UtxosByAddressKey :=
  decode_field (decode_field (decode_field (decode_struct MkUtxosByAddressKey))).
#[export] Program Instance utxos_by_address_key_codec : Codec UtxosByAddressKey := {|
  valid := λ k, valid (uba_script k) ∧ valid (uba_produced_height k) ∧ valid (uba_txo_ref k);
|}.
Next Obligation. solve_struct_codec. Qed.

Definition UtxosByAddressKV : Table UtxosByAddressKey unit :=
  indexer_table unit (unique_id UtxosByAddress) x00.

Section Indexers.
Context {DB : Type} `{RocksDB DB} `{HashOrder} `{Bitcoin} {Ext : Type}.

(** ** [TxCountByAddressIndexer] *)
Inductive TxCountByAddressIndexer : Type := MkTxCountByAddressIndexer.

Definition seen_input (ctx : IndexingContext Ext) (seen_scripts : gset ScriptPubKey) (input : TxIn) :
    Res Error (gset ScriptPubKey) :=
  let txo_ref := txo_ref_from (previous_output input) in
  utxo ← ok_or (resolve_input ctx txo_ref) (missing_utxo txo_ref);
  Ok ({[script utxo]} ∪ seen_scripts).

Definition seen_scripts (ctx : IndexingContext Ext) (t : TransactionWithId) :
    Res Error (gset ScriptPubKey) :=
  seen ← (if is_coinbase (tx t) then Ok ∅
          else for_each (tx_input (tx t)) ∅ (seen_input ctx));
  Ok (foldl (λ seen output, {[script_pubkey output]} ∪ seen) seen (tx_output (tx t))).

Definition tx_count_process_tx (t : TransactionWithId) (s : IndexerState DB Ext) :
    Res Error (IndexerState DB Ext) :=
  let '(task, ctx) := s in
  seen ← seen_scripts ctx t;
  task ← for_each (hs_iter seen) task
           (λ task script, increment TxCountByAddressKV script (1%N : u64) task);
  Ok (task, ctx).
#[export] Instance tx_count_by_address_process : ProcessTransaction DB Ext TxCountByAddressIndexer :=
  λ _ t _ s, tx_count_process_tx t s.

(** ** [UtxosByAddressIndexer] *)
Inductive UtxosByAddressIndexer : Type := MkUtxosByAddressIndexer.

Definition delete_consumed (ctx : IndexingContext Ext) (task : IndexingTask DB) (input : TxIn) :
    Res Error (IndexingTask DB) :=
  let txo_ref := txo_ref_from (previous_output input) in
  utxo ← expect (resolve_input ctx txo_ref) "unwrap";
  task_delete UtxosByAddressKV (MkUtxosByAddressKey (script utxo) (height utxo) txo_ref) task.

Definition set_produced (t : TransactionWithId) (ctx : IndexingContext Ext) (task : IndexingTask DB)
    (o : nat * TxOut) : Res Error (IndexingTask DB) :=
  let '(output_index, output) := o in
  let key := MkUtxosByAddressKey (script_pubkey output) (block_height ctx) (output_ref t output_index) in
  task_set UtxosByAddressKV key tt task.

Definition utxos_by_address_process_tx (t : TransactionWithId) (s : IndexerState DB Ext) :
    Res Error (IndexerState DB Ext) :=
  let '(task, ctx) := s in
  task ← (if is_coinbase (tx t) then Ok task
          else for_each (tx_input (tx t)) task (delete_consumed ctx));
  task ← for_each (enumerate (tx_output (tx t))) task (set_produced t ctx);
  Ok (task, ctx).
#[export] Instance utxos_by_address_process : ProcessTransaction DB Ext UtxosByAddressIndexer :=
  λ _ t _ s, utxos_by_address_process_tx t s.
End Indexers.
