(* ===== verification/RunesTables.v ===== *)
(** * The tables of the runes indexer

    src/src/sync/stages/index/indexers/custom/runes/tables.rs. *)
From S2P Require Import Prelude ByteOrder EncDec Types Table.

(** [RunesTables], by its discriminants. *)
Inductive RunesTables : Type :=
| RuneInfoById
| RuneIdByName
| RuneMintsById
| RuneUtxosByScript
| RuneActivityByTx.

Definition runes_table_id (t : RunesTables) : u8 :=
  match t with
  | RuneInfoById => x00
  | RuneIdByName => x01
  | RuneMintsById => x02
  | RuneUtxosByScript => x03
  | RuneActivityByTx => x04
  end.

(** ** [RuneId], of the [ordinals] crate: a block and a position in it *)
Record RuneId : Type := MkRuneId { rune_block : u64; rune_tx : u32 }.
#[export] Instance rune_id_eq_dec : EqDecision RuneId.
Proof. intros [h1 b1] [h2 b2]. destruct (N.eq_dec h1 h2), (N.eq_dec b1 b2); (by left; congruence) || (right; congruence). Defined.
#[export] Program Instance rune_id_countable : Countable RuneId :=
  inj_countable' (λ r, (rune_block r, rune_tx r)) (λ p, MkRuneId p.1 p.2) _.
Next Obligation. by intros []. Qed.

(** [RuneId::default()]. *)
Definition rune_id_default : RuneId := MkRuneId 0 0.

#[export] Instance rune_id_encode : Encode RuneId := λ r, encode (rune_block r, rune_tx r).
#[export] Instance rune_id_decode : Decode RuneId := λ bytes,
  '((block, tx), bytes) ← (decode bytes : DecodingResult (u64 * u32));
  Ok (MkRuneId block tx, bytes).
#[export] Program Instance rune_id_codec : Codec RuneId := {|
  valid := λ r, fits 64 (rune_block r) ∧ fits 32 (rune_tx r);
|}.
Next Obligation.
  intros [b t] rest [Hb Ht]. unfold decode, encode, rune_id_encode, rune_id_decode.
  rewrite (decode_encode ((b, t) : u64 * u32) rest) by by split. done.
Qed.

Definition UtxoRunes : Type := list (RuneId * u128).

(** ** Keys and values *)
Record RuneUtxosByScriptKey : Type := MkRuneUtxosByScriptKey {
  rus_script : ScriptPubKey;
  rus_produced_height : u64;
  rus_txo_ref : TxoRef;
}.
#[export] Instance rune_utxos_by_script_key_encode : Encode RuneUtxosByScriptKey := λ k,
  build (append (rus_txo_ref k) (append (rus_produced_height k) (append (rus_script k) builder_new))).
#[export] Instance rune_utxos_by_script_key_decode : Decode RuneUtxosByScriptKey :=
  decode_field (decode_field (decode_field (decode_struct MkRuneUtxosByScriptKey))).
#[export] Program Instance rune_utxos_by_script_key_codec : Codec RuneUtxosByScriptKey := {|
  valid := λ k, valid (rus_script k) ∧ valid (rus_produced_height k) ∧ valid (rus_txo_ref k);
|}.
Next Obligation. solve_struct_codec. Qed.

Record RuneTerms : Type := MkRuneTerms {
  terms_amount : option u128;
  terms_cap : option u128;
  terms_start_height : option u64;
  terms_end_height : option u64;
}.
#[export] Instance rune_terms_encode : Encode RuneTerms := λ t,
  build (append (terms_end_height t) (append (terms_start_height t)
    (append (terms_cap t) (append (terms_amount t) builder_new)))).
#[export] Instance rune_terms_decode : Decode RuneTerms :=
  decode_field (decode_field (decode_field (decode_field (decode_struct MkRuneTerms)))).
#[export] Program Instance rune_terms_codec : Codec RuneTerms := {|
  valid := λ t, valid (terms_amount t) ∧ valid (terms_cap t) ∧ valid (terms_start_height t) ∧
                valid (terms_end_height t);
|}.
Next Obligation. solve_struct_codec. Qed.

Record RuneInfo : Type := MkRuneInfo {
  info_name : u128;
  info_terms : option RuneTerms;
  info_symbol : option u32;
  info_divisibility : u8;
  info_etching_height : u64;
  info_etching_tx : u8arr 32;
  info_premine : u128;
  info_spacers : u32;
}.
#[export] Instance rune_info_encode : Encode RuneInfo := λ i,
  build (append (info_spacers i) (append (info_premine i) (append (info_etching_tx i)
    (append (info_etching_height i) (append (info_divisibility i) (append (info_symbol i)
    (append (info_terms i) (append (info_name i) builder_new)))))))).
#[export] Instance rune_info_decode : Decode RuneInfo :=
  decode_field (decode_field (decode_field (decode_field (decode_field (decode_field
    (decode_field (decode_field (decode_struct MkRuneInfo)))))))).
#[export] Program Instance rune_info_codec : Codec RuneInfo := {|
  valid := λ i, valid (info_name i) ∧ valid (info_terms i) ∧ valid (info_symbol i) ∧
                valid (info_divisibility i) ∧ valid (info_etching_height i) ∧
                valid (info_etching_tx i) ∧ valid (info_premine i) ∧ valid (info_spacers i);
|}.
Next Obligation. solve_struct_codec. Qed.

Record RuneActivityByTxKey : Type := MkRuneActivityByTxKey { rat_tx_hash : u8arr 32; rat_seq : u16 }.
#[export] Instance rune_activity_key_encode : Encode RuneActivityByTxKey := λ k,
  build (append (rat_seq k) (append (rat_tx_hash k) builder_new)).
#[export] Instance rune_activity_key_decode : Decode RuneActivityByTxKey :=
  decode_field (decode_field (decode_struct MkRuneActivityByTxKey)).
#[export] Program Instance rune_activity_key_codec : Codec RuneActivityByTxKey := {|
  valid := λ k, valid (rat_tx_hash k) ∧ valid (rat_seq k);
|}.
Next Obligation. solve_struct_codec. Qed.

Record RuneBalanceChange : Type := MkRuneBalanceChange {
  rbc_rune_id : RuneId;
  rbc_script : ScriptPubKey;
  rbc_sent : u128;
  rbc_received : u128;
  rbc_output_index : option u32;
}.
#[export] Instance rune_balance_change_encode : Encode RuneBalanceChange := λ c,
  build (append (rbc_output_index c) (append (rbc_received c) (append (rbc_sent c)
    (append (rbc_script c) (append (rbc_rune_id c) builder_new))))).
#[export] Instance rune_balance_change_decode : Decode RuneBalanceChange :=
  decode_field (decode_field (decode_field (decode_field (decode_field (decode_struct MkRuneBalanceChange))))).
#[export] Program Instance rune_balance_change_codec : Codec RuneBalanceChange := {|
  valid := λ c, valid (rbc_rune_id c) ∧ valid (rbc_script c) ∧ valid (rbc_sent c) ∧
                valid (rbc_received c) ∧ valid (rbc_output_index c);
|}.
Next Obligation. solve_struct_codec. Qed.

(** ** Tables *)
Definition RuneInfoByIdKV : Table RuneId RuneInfo :=
  indexer_table RuneInfo (unique_id Runes) (runes_table_id RuneInfoById).
Definition RuneIdByNameKV : Table u128 RuneId :=
  indexer_table RuneId (unique_id Runes) (runes_table_id RuneIdByName).
Definition RuneMintsByIdKV : Table RuneId u128 :=
  indexer_table u128 (unique_id Runes) (runes_table_id RuneMintsById).
Definition RuneUtxosByScriptKV : Table RuneUtxosByScriptKey unit :=
  indexer_table unit (unique_id Runes) (runes_table_id RuneUtxosByScript).
Definition RuneActivityByTxKV : Table RuneActivityByTxKey RuneBalanceChange :=
  indexer_table RuneBalanceChange (unique_id Runes) (runes_table_id RuneActivityByTx).
