(* ===== verification/Runes.v ===== *)
(** * The runes indexer

    src/src/sync/stages/index/indexers/custom/runes/indexer.rs.  Runestones
    are deciphered by the [ordinals] crate, which is the parameter [Ordinals];
    its data types are declared with the fields the indexer reads.  Sums of
    amounts are machine sums: they wrap, as in a release build. *)
From S2P Require Import Prelude ByteOrder EncDec Timestamp Types MergeOperation Table Rocks.
From S2P Require Import CoreTables KvStore Bitcoin Context AddressIndexers RunesTables.

(** ** Data of the [ordinals] crate *)
Record Edict : Type := MkEdict { edict_id : RuneId; edict_amount : u128; edict_output : u32 }.
Record Terms : Type := MkTerms {
  t_amount : option u128;
  t_cap : option u128;
  t_height : option u64 * option u64;
  t_offset : option u64 * option u64;
}.
Record Etching : Type := MkEtching {
  etching_divisibility : option u8;
  etching_premine : option u128;
  etching_rune : option u128;
  etching_spacers : option u32;
  etching_symbol : option u32;
  etching_terms : option Terms;
}.
Record Runestone : Type := MkRunestone {
  rs_edicts : list Edict;
  rs_etching : option Etching;
  rs_mint : option RuneId;
  rs_pointer : option u32;
}.
Record Cenotaph : Type := MkCenotaph { cen_etching : option u128; cen_mint : option RuneId }.
Inductive Artifact : Type :=
| ArtifactRunestone (runestone : Runestone)
| ArtifactCenotaph (cenotaph : Cenotaph).

(** [Artifact::mint]. *)
Definition artifact_mint (a : Artifact) : option RuneId :=
  match a with ArtifactRunestone r => rs_mint r | ArtifactCenotaph c => cen_mint c end.

Class Ordinals `{Bitcoin} : Type := {
  decipher : Transaction → option Artifact;
  minimum_at_height : Network → u32 → u128;
  rune_is_reserved : u128 → bool;
  rune_reserved : u64 → u32 → u128;
  rune_commitment : u128 → list byte;
  COMMIT_CONFIRMATIONS : u16;
}.

(** ** [RunesIndexer] *)
Record RunesIndexerConfig : Type := MkRunesConfig {
  rc_start_height : u64;
  rc_index_activity : bool;
  rc_commitment_confirmations : option u64;
}.
Record RunesIndexer : Type := MkRunesIndexer {
  ri_start_height : u64;
  ri_index_activity : bool;
  ri_commitment_confirmations : option u64;
}.
Definition runes_indexer_new (config : RunesIndexerConfig) : Res Error RunesIndexer :=
  Ok (MkRunesIndexer (rc_start_height config) (rc_index_activity config)
        (rc_commitment_confirmations config)).

Abbreviation Balances := (gmap RuneId u128).

(** [*map.entry(id).or_default() += amount]. *)
Definition add_balance (id : RuneId) (amount : u128) (m : Balances) : Balances :=
  let balance : u128 := default (0%N : u128) (m !! id) in
  <[id := (wrapping_add 128 balance amount : u128)]> m.

Section Allocation.
(** [allocated[output]]: out of range is a panic. *)
Definition credit_output (output : nat) (id : RuneId) (amount : u128) (allocated : list Balances) :
    Res Error (list Balances) :=
  m ← expect (allocated !! output) "index out of bounds";
  Ok (<[output := add_balance id amount m]> allocated).

(** The closure [allocate]. *)
Definition allocate (id : RuneId) (s : u128 * list Balances) (amount : u128) (output : nat) :
    Res Error (u128 * list Balances) :=
  let '(balance, allocated) := s in
  if (0 <? amount)%N then
    allocated ← credit_output output id amount allocated;
    Ok (wrapping_sub 128 balance amount, allocated)
  else Ok (balance, allocated).

(** One balance distributed by an edict whose output is the number of outputs. *)
Definition allocate_all (id : RuneId) (amount : u128) (destinations : list nat)
    (s : u128 * list Balances) : Res Error (u128 * list Balances) :=
  if (amount =? 0)%N then
    match destinations with
    | [] => Ok s
    | _ =>
        let n := N.of_nat (length destinations) in
        let amount : u128 := (s.1 / n)%N in
        let remainder := N.to_nat (s.1 mod n) in
        for_each (imap pair destinations) s (λ s '(i, output),
          allocate id s (if (i <? remainder)%nat then wrapping_add 128 amount 1 else amount) output)
    end
  else
    for_each destinations s (λ s output, allocate id s (N.min amount s.1) output).

(** The loop over the edicts: one edict. *)
Definition apply_edict (n_outputs : nat) (destinations : list nat) (etched : option (RuneId * u128))
    (s : Balances * list Balances) (e : Edict) : Res Error (Balances * list Balances) :=
  let '(unallocated, allocated) := s in
  let output := edict_output e in
  let amount := edict_amount e in
  _ ← assert (output <=? N.of_nat n_outputs)%N "output <= tx.output.len()";
  match (if decide (edict_id e = rune_id_default) then fst <$> etched else Some (edict_id e)) with
  | None => Ok s
  | Some id =>
      match unallocated !! id with
      | None => Ok s
      | Some balance =>
          '(balance, allocated) ←
            (if (output =? N.of_nat n_outputs)%N then allocate_all id amount destinations (balance, allocated)
             else
               let amount := if (amount =? 0)%N then balance else N.min amount balance in
               allocate id (balance, allocated) amount (N.to_nat output));
          Ok (<[id := balance]> unallocated, allocated)
      end
  end.

(** What is left of the balances goes to one output. *)
Definition assign_rest (vout : nat) (allocated : list Balances) (e : RuneId * u128) :
    Res Error (list Balances) :=
  let '(id, balance) := e in
  if (0 <? balance)%N then credit_output vout id balance allocated else Ok allocated.
End Allocation.

(** ** Terms of an etching *)
Definition or_else {A} (a b : option A) : option A := match a with Some x => Some x | None => b end.

(** [a.zip(b).map(f).or(a).or(b)]. *)
Definition combine_heights (f : u64 → u64 → u64) (relative absolute : option u64) : option u64 :=
  or_else (or_else (match relative, absolute with Some r, Some a => Some (f r a) | _, _ => None end) relative)
    absolute.

Definition rune_terms_of (height : BlockHeight) (terms : Terms) : RuneTerms :=
  let relative_start := option_map (saturating_add 64 height) (fst (t_offset terms)) in
  let absolute_start := fst (t_height terms) in
  let relative_end := option_map (saturating_add 64 height) (snd (t_offset terms)) in
  let absolute_end := snd (t_height terms) in
  MkRuneTerms (t_amount terms) (t_cap terms)
    (combine_heights N.max relative_start absolute_start)
    (combine_heights N.min relative_end absolute_end).

Section RunesIndexer.
Context {DB : Type} `{RocksDB DB} `{HashOrder} `{Ordinals}.
Context {Ext : Type} `{!IndexMap TransactionIndexer (list byte) Ext}.

Abbreviation Task := (IndexingTask DB).
Abbreviation Resolver := (gmap TxoRef (Utxo Ext)).

(** The runes attached to an output. *)
Definition utxo_runes (utxo : Utxo Ext) : Res Error UtxoRunes :=
  match im_get Runes (extended utxo) with
  | Some raw_utxo_metadata => decode_or raw_utxo_metadata
  | None => Ok []
  end.

(** ** [unallocated] *)
Definition unallocated_input (resolver : Resolver) (s : Task * Balances) (input : TxIn) :
    Res Error (Task * Balances) :=
  let '(task, unallocated) := s in
  if is_null (previous_output input) then Ok s
  else
    let txo_ref := txo_ref_from (previous_output input) in
    utxo ← expect (resolver !! txo_ref) "todo";
    runes ← utxo_runes utxo;
    task ← match runes with
           | [] => Ok task
           | _ => task_delete RuneUtxosByScriptKV
                    (MkRuneUtxosByScriptKey (script utxo) (height utxo) txo_ref) task
           end;
    Ok (task, foldl (λ m '(id, balance), add_balance id balance m) unallocated runes).

Definition unallocated (task : Task) (t : Transaction) (resolver : Resolver) :
    Res Error (Task * Balances) :=
  for_each (tx_input t) (task, ∅) (unallocated_input resolver).

(** ** [mint] *)
Definition mint (task : Task) (id : RuneId) (height : BlockHeight) :
    Res Error (Task * option u128) :=
  info ← task_get RuneInfoByIdKV task id;
  match (match info with Some i => info_terms i | None => None end) with
  | None => Ok (task, None)
  | Some terms =>
      if (match terms_start_height terms with Some start => (height <? start)%N | None => false end)
      then Ok (task, None)
      else if (match terms_end_height terms with Some stop => (stop <=? height)%N | None => false end)
      then Ok (task, None)
      else
        let cap : u128 := default 0%N (terms_cap terms) in
        mints ← task_get RuneMintsByIdKV task id;
        let current_mints : u128 := default 0%N mints in
        if (cap <=? current_mints)%N then Ok (task, None)
        else
          new_mints ← expect (checked_add 128 current_mints 1) "mints overflow";
          task ← task_set RuneMintsByIdKV id (new_mints : u128) task;
          Ok (task, Some (default 0%N (terms_amount terms) : u128))
  end.

(** ** [tx_commits_to_rune] *)
Fixpoint input_commits (instructions : list Instruction) (input : TxIn) (commitment : list byte)
    (height required_confirmations : u64) (resolver : Resolver) : Res Error bool :=
  match instructions with
  | [] | InvalidInstruction :: _ => Ok false
  | Op :: rest => input_commits rest input commitment height required_confirmations resolver
  | PushBytes pushbytes :: rest =>
      if decide (pushbytes ≠ commitment)
      then input_commits rest input commitment height required_confirmations resolver
      else
        utxo ← expect (resolver !! txo_ref_from (previous_output input))
                 "missing txo resolver in rune commit";
        if negb (is_p2tr (script utxo))
        then input_commits rest input commitment height required_confirmations resolver
        else
          let commit_tx_height := Types.height utxo in
          blocks ← expect (checked_sub height commit_tx_height) "rune commit underflow";
          confirmations ← expect (checked_add 64 blocks 1) "rune commit overflow";
          if (required_confirmations <=? confirmations)%N then Ok true
          else input_commits rest input commitment height required_confirmations resolver
  end.

Fixpoint inputs_commit (inputs : list TxIn) (commitment : list byte)
    (height required_confirmations : u64) (resolver : Resolver) : Res Error bool :=
  match inputs with
  | [] => Ok false
  | input :: inputs =>
      match tapscript input with
      | None => inputs_commit inputs commitment height required_confirmations resolver
      | Some instructions =>
          found ← input_commits instructions input commitment height required_confirmations resolver;
          if (found : bool) then Ok true
          else inputs_commit inputs commitment height required_confirmations resolver
      end
  end.

Definition tx_commits_to_rune (t : Transaction) (rune : u128) (height : BlockHeight)
    (resolver : Resolver) (confirmations_override : option u64) : Res Error bool :=
  let required_confirmations := default (COMMIT_CONFIRMATIONS : u64) confirmations_override in
  inputs_commit (tx_input t) (rune_commitment rune) height required_confirmations resolver.

(** ** [etched] *)
Definition etched (task : Task) (resolver : Resolver) (tx_index : usize) (t : Transaction)
    (artifact : Artifact) (height : BlockHeight) (network : Network)
    (confirmations_override : option u64) : Res Error (option (RuneId * u128)) :=
  _ ← assert (tx_index <? 2 ^ 32)%N "tx index u32 overflow";
  match (match artifact with
         | ArtifactRunestone runestone => option_map etching_rune (rs_etching runestone)
         | ArtifactCenotaph cenotaph => option_map Some (cen_etching cenotaph)
         end) with
  | None => Ok None
  | Some rune =>
      _ ← assert (height <? 2 ^ 32)%N "height u32 overflow";
      let minimum := minimum_at_height network height in
      let id := MkRuneId height tx_index in
      match rune with
      | Some rune =>
          if (rune <? minimum)%N then Ok None
          else if rune_is_reserved rune then Ok None
          else
            known ← task_get RuneIdByNameKV task rune;
            match known with
            | Some _ => Ok None
            | None =>
                commits ← tx_commits_to_rune t rune height resolver confirmations_override;
                if (commits : bool) then Ok (Some (id, rune)) else Ok None
            end
      | None => Ok (Some (id, rune_reserved height tx_index))
      end
  end.

(** ** [create_rune_entry] *)
Definition create_rune_entry (task : Task) (artifact : Artifact) (tx_id : Txid) (id : RuneId)
    (rune : u128) (height : BlockHeight) : Res Error Task :=
  task ← task_set RuneIdByNameKV rune id task;
  info ← match artifact with
         | ArtifactCenotaph _ => Ok (MkRuneInfo rune None None x00 height tx_id 0 0)
         | ArtifactRunestone runestone =>
             e ← expect (rs_etching runestone) "unwrap";
             Ok (MkRuneInfo rune (option_map (rune_terms_of height) (etching_terms e))
                   (etching_symbol e) (default x00 (etching_divisibility e)) height tx_id
                   (default 0%N (etching_premine e)) (default 0%N (etching_spacers e)))
         end;
  task_set RuneInfoByIdKV id info task.

(** ** Allocation of the runes of a transaction *)

(** The outputs that are not OP_RETURN. *)
Definition destinations (t : Transaction) : list nat :=
  filter_map (λ '(i, o), if is_op_return (script_pubkey o) then None else Some i) (enumerate (tx_output t)).

(** Mint, premine and edicts, and the entry of a new rune. *)
Definition process_artifact (ri : RunesIndexer) (t : TransactionWithId) (tx_block_index : usize)
    (ctx : IndexingContext Ext) (artifact : Artifact) (task : Task) (unallocated : Balances)
    (allocated : list Balances) : Res Error (Task * Balances * list Balances) :=
  let height := block_height ctx in
  '(task, unallocated) ←
    match artifact_mint artifact with
    | Some id =>
        '(task, amount) ← mint task id height;
        Ok (task, match amount with Some amount => add_balance id amount unallocated | None => unallocated end)
    | None => Ok (task, unallocated)
    end;
  etched ← etched task (ctx_resolver ctx) tx_block_index (tx t) artifact height (ctx_network ctx)
             (ri_commitment_confirmations ri);
  '(unallocated, allocated) ←
    match artifact with
    | ArtifactRunestone runestone =>
        unallocated ← match etched with
                      | Some (id, _) =>
                          e ← expect (rs_etching runestone) "unwrap";
                          Ok (add_balance id (default 0%N (etching_premine e)) unallocated)
                      | None => Ok unallocated
                      end;
        for_each (rs_edicts runestone) (unallocated, allocated)
          (apply_edict (length (tx_output (tx t))) (destinations (tx t)) etched)
    | ArtifactCenotaph _ => Ok (unallocated, allocated)
    end;
  task ← match etched with
         | Some (id, rune) => create_rune_entry task artifact (tx_id t) id rune height
         | None => Ok task
         end;
  Ok (task, unallocated, allocated).

(** The output that gets what is left: the pointer, or the first that is
    not an OP_RETURN. *)
Definition rest_output (t : Transaction) (pointer : option u32) : Res Error (option nat) :=
  match pointer with
  | Some pointer =>
      _ ← assert (pointer <? N.of_nat (length (tx_output t)))%N "pointer < tx.output.len()";
      Ok (Some (N.to_nat pointer))
  | None =>
      Ok (fst <$> list_find (λ o, is_op_return (script_pubkey o) = false) (tx_output t))
  end.

Definition assign_unallocated (t : Transaction) (artifact : option Artifact) (unallocated : Balances)
    (allocated : list Balances) : Res Error (list Balances) :=
  match artifact with
  | Some (ArtifactCenotaph _) => Ok allocated
  | _ =>
      let pointer := match artifact with Some (ArtifactRunestone r) => rs_pointer r | _ => None end in
      vout ← rest_output t pointer;
      match vout with
      | Some vout => for_each (hm_iter unallocated) allocated (assign_rest vout)
      | None => Ok allocated
      end
  end.

(** ** Activity records *)
Record RuneActivity : Type := MkRuneActivity { ra_sent : u128; ra_received : list (u32 * u128) }.
Definition rune_activity_default : RuneActivity := MkRuneActivity 0 [].

(** [AddressRuneKey]: a script and a rune. *)
Abbreviation Activity := (gmap (ScriptPubKey * RuneId) RuneActivity).

Definition add_sent (script : ScriptPubKey) (id : RuneId) (qty : u128) (m : Activity) : Activity :=
  let a := default rune_activity_default (m !! (script, id)) in
  <[(script, id) := MkRuneActivity (wrapping_add 128 (ra_sent a) qty) (ra_received a)]> m.
Definition add_received (script : ScriptPubKey) (id : RuneId) (vout : u32) (amount : u128) (m : Activity) :
    Activity :=
  let a := default rune_activity_default (m !! (script, id)) in
  <[(script, id) := MkRuneActivity (ra_sent a) (ra_received a ++ [(vout, amount)])]> m.

Definition collect_input (ctx : IndexingContext Ext) (m : Activity) (input : TxIn) : Res Error Activity :=
  if is_null (previous_output input) then Ok m
  else
    match resolve_input ctx (txo_ref_from (previous_output input)) with
    | None => Ok m
    | Some utxo =>
        match im_get Runes (extended utxo) with
        | None => Ok m
        | Some raw =>
            runes ← (decode_or raw : Res Error UtxoRunes);
            Ok (foldl (λ m '(id, qty), add_sent (script utxo) id qty m) m runes)
        end
    end.

Definition collect_input_totals (t : Transaction) (ctx : IndexingContext Ext) (m : Activity) :
    Res Error Activity :=
  if is_coinbase t then Ok m else for_each (tx_input t) m (collect_input ctx).

(** One record: the key takes the next sequence number. *)
Definition log_change (tx_hash : Txid) (s : u16 * Task) (change : RuneBalanceChange) :
    Res Error (u16 * Task) :=
  let '(seq_counter, task) := s in
  let key_tx := MkRuneActivityByTxKey tx_hash seq_counter in
  next ← expect (checked_add 16 seq_counter 1) "seq overflow";
  task ← task_set RuneActivityByTxKV key_tx change task;
  Ok (next, task).

(** The records of one script and rune: what was spent, then each output
    that received some. *)
Definition activity_changes (e : ScriptPubKey * RuneId * RuneActivity) : list RuneBalanceChange :=
  let '(script, rune_id, activity) := e in
  (if (0 <? ra_sent activity)%N
   then [MkRuneBalanceChange rune_id script (ra_sent activity) 0 None] else []) ++
  filter_map (λ '(vout, amount),
          if (amount =? 0)%N then None
          else Some (MkRuneBalanceChange rune_id script 0 amount (Some vout)))
       (ra_received activity).

Definition log_rune_balance_changes (task : Task) (seq_counter : u16) (tx_hash : Txid)
    (rune_activity : Activity) : Res Error (u16 * Task) :=
  for_each (hm_iter rune_activity ≫= activity_changes) (seq_counter, task) (log_change tx_hash).

(** ** [process_tx] *)

(** The loop over the outputs: the runes of one output. *)
Definition record_output (ri : RunesIndexer) (t : TransactionWithId) (height : BlockHeight)
    (s : Task * IndexingContext Ext * Activity) (o : nat * TxOut * Balances) :
    Res Error (Task * IndexingContext Ext * Activity) :=
  let '(task, ctx, activity) := s in
  let '(output_index, output, output_runes) := o in
  _ ← assert (N.of_nat output_index <? 2 ^ 32)%N "output index u32 overflow";
  let txo_ref := MkTxoRef (tx_id t) (N.of_nat output_index) in
  if decide (output_runes = ∅) then Ok s
  else
    let output_runes_vec : UtxoRunes := hm_iter output_runes in
    let ctx := attach_utxo_metadata txo_ref Runes output_runes_vec ctx in
    let key := MkRuneUtxosByScriptKey (script_pubkey output) height txo_ref in
    task ← task_set RuneUtxosByScriptKV key tt task;
    Ok (task, ctx,
        if ri_index_activity ri
        then foldl (λ m '(rune_id, amount),
                      add_received (script_pubkey output) rune_id (N.of_nat output_index) amount m)
                   activity output_runes_vec
        else activity).

Definition runes_process_tx (ri : RunesIndexer) (t : TransactionWithId) (tx_block_index : usize)
    (s : IndexerState DB Ext) : Res Error (IndexerState DB Ext) :=
  let '(task, ctx) := s in
  let height := block_height ctx in
  if (height <? ri_start_height ri)%N then Ok s
  else
    let artifact := decipher (tx t) in
    '(task, unallocated) ← unallocated task (tx t) (ctx_resolver ctx);
    let allocated := replicate (length (tx_output (tx t))) ∅ in
    '(task, unallocated, allocated) ←
      match artifact with
      | Some artifact => process_artifact ri t tx_block_index ctx artifact task unallocated allocated
      | None => Ok (task, unallocated, allocated)
      end;
    allocated ← assign_unallocated (tx t) artifact unallocated allocated;
    activity ← (if ri_index_activity ri then collect_input_totals (tx t) ctx ∅ else Ok ∅);
    '(task, ctx, activity) ←
      for_each (zip (enumerate (tx_output (tx t))) allocated) (task, ctx, activity)
        (record_output ri t height);
    '(_, task) ←
      (if ri_index_activity ri then log_rune_balance_changes task 0%N (tx_id t) activity
       else Ok (0%N, task));
    Ok (task, ctx).

#[export] Instance runes_process : ProcessTransaction DB Ext RunesIndexer :=
  λ ri t i s, runes_process_tx ri t i s.
End RunesIndexer.
