(* ===== verification/Charms.v ===== *)
(** * The charms indexer

    src/src/sync/stages/index/indexers/custom/charms/{tables,indexer}.rs.
    Spells are extracted and verified by the [charms_lib] crate, which is the
    parameter [CharmsLib]. *)
From S2P Require Import Prelude ByteOrder EncDec Timestamp Types MergeOperation Table Rocks.
From S2P Require Import CoreTables KvStore Bitcoin Context AddressIndexers.

(** ** Tables *)
Inductive CharmsTables : Type :=
| CharmsUtxosByScript
| CharmsUtxosByApp.

Definition charms_table_id (t : CharmsTables) : u8 :=
  match t with CharmsUtxosByScript => x00 | CharmsUtxosByApp => x01 end.

Record CharmsUtxosByScriptKey : Type := MkCharmsUtxosByScriptKey {
  cus_script : ScriptPubKey;
  cus_produced_height : u64;
  cus_txo_ref : TxoRef;
}.
#[export] Instance charms_utxos_by_script_key_encode : Encode CharmsUtxosByScriptKey := λ k,
  build (append (cus_txo_ref k) (append (cus_produced_height k) (append (cus_script k) builder_new))).
#[export] Instance charms_utxos_by_script_key_decode : Decode CharmsUtxosByScriptKey :=
  decode_field (decode_field (decode_field (decode_struct MkCharmsUtxosByScriptKey))).
#[export] Program Instance charms_utxos_by_script_key_codec : Codec CharmsUtxosByScriptKey := {|
  valid := λ k, valid (cus_script k) ∧ valid (cus_produced_height k) ∧ valid (cus_txo_ref k);
|}.
Next Obligation. solve_struct_codec. Qed.

Record CharmsUtxosByAppKey : Type := MkCharmsUtxosByAppKey {
  cua_app : list byte;
  cua_produced_height : u64;
  cua_txo_ref : TxoRef;
}.
#[export] Instance charms_utxos_by_app_key_encode : Encode CharmsUtxosByAppKey := λ k,
  build (append (cua_txo_ref k) (append (cua_produced_height k) (append (cua_app k) builder_new))).
#[export] Instance charms_utxos_by_app_key_decode : Decode CharmsUtxosByAppKey :=
  decode_field (decode_field (decode_field (decode_struct MkCharmsUtxosByAppKey))).
#[export] Program Instance charms_utxos_by_app_key_codec : Codec CharmsUtxosByAppKey := {|
  valid := λ k, valid (cua_app k) ∧ valid (cua_produced_height k) ∧ valid (cua_txo_ref k);
|}.
Next Obligation. solve_struct_codec. Qed.

Definition CharmsUtxosByScriptKV : Table CharmsUtxosByScriptKey unit :=
  indexer_table unit (unique_id Charms) (charms_table_id CharmsUtxosByScript).
Definition CharmsUtxosByAppKV : Table CharmsUtxosByAppKey unit :=
  indexer_table unit (unique_id Charms) (charms_table_id CharmsUtxosByApp).

(** The charms of an output: application and data, both as bytes. *)
Definition UtxoCharms : Type := list (list byte * list byte).

(** ** What the code uses of a verified spell *)
Record Spell : Type := MkSpell {
  spell_apps : list (list byte);                  (* keys of app_public_inputs, as strings *)
  spell_outs : list (list (u32 * list byte));     (* tx.outs, each in the order of its map *)
  spell_beamed_outs : option (gset u32);          (* keys of tx.beamed_outs *)
}.

Class CharmsLib `{Bitcoin} : Type := {
  (** [extract_and_verify_spell(tx, false)]. *)
  extract_and_verify_spell : Transaction → option Spell;
}.

Record CharmsIndexerConfig : Type := MkCharmsConfig { cc_start_height : u64 }.
Record CharmsIndexer : Type := MkCharmsIndexer { ci_start_height : u64 }.
Definition charms_indexer_new (c : CharmsIndexerConfig) : CharmsIndexer := MkCharmsIndexer (cc_start_height c).

Section CharmsIndexer.
Context {DB : Type} `{RocksDB DB} `{CharmsLib}.
Context {Ext : Type} `{!IndexMap TransactionIndexer (list byte) Ext}.

Abbreviation Task := (IndexingTask DB).

(** The index entries of one output are removed. *)
Definition remove_charms (utxo : Utxo Ext) (txo_ref : TxoRef) (utxo_charms : UtxoCharms) (task : Task) :
    Res Error Task :=
  match utxo_charms with
  | [] => Ok task
  | _ =>
      task ← task_delete CharmsUtxosByScriptKV
               (MkCharmsUtxosByScriptKey (script utxo) (height utxo) txo_ref) task;
      for_each utxo_charms task (λ task '(app_bytes, _),
        task_delete CharmsUtxosByAppKV (MkCharmsUtxosByAppKey app_bytes (height utxo) txo_ref) task)
  end.

Definition clean_input (ctx : IndexingContext Ext) (task : Task) (input : TxIn) : Res Error Task :=
  if is_null (previous_output input) then Ok task
  else
    let txo_ref := txo_ref_from (previous_output input) in
    match resolve_input ctx txo_ref with
    | None => Ok task
    | Some utxo =>
        match im_get Charms (extended utxo) with
        | None => Ok task
        | Some raw =>
            utxo_charms ← (decode_or raw : Res Error UtxoCharms);
            remove_charms utxo txo_ref utxo_charms task
        end
    end.

(** Indices into the applications; an index out of range is dropped. *)
Definition resolve_apps (apps : list (list byte)) (n_charms : list (u32 * list byte)) : UtxoCharms :=
  filter_map (λ '(app_idx, data), option_map (λ app, (app, data)) (apps !! N.to_nat app_idx)) n_charms.

Definition index_output (spell : Spell) (t : TransactionWithId) (height : BlockHeight)
    (s : Task * IndexingContext Ext) (o : nat * (TxOut * list (u32 * list byte))) :
    Res Error (Task * IndexingContext Ext) :=
  let '(task, ctx) := s in
  let '(output_index, (output, n_charms)) := o in
  let output_index_u32 : u32 := (N.of_nat output_index mod 2 ^ 32)%N in
  if (match spell_beamed_outs spell with
      | Some b => bool_decide (output_index_u32 ∈ b)
      | None => false
      end) then Ok s
  else
    match n_charms with
    | [] => Ok s
    | _ =>
        let txo_ref := MkTxoRef (tx_id t) output_index_u32 in
        let utxo_charms := resolve_apps (spell_apps spell) n_charms in
        let ctx := attach_utxo_metadata txo_ref Charms utxo_charms ctx in
        task ← task_set CharmsUtxosByScriptKV
                 (MkCharmsUtxosByScriptKey (script_pubkey output) height txo_ref) tt task;
        task ← for_each utxo_charms task (λ task '(app_bytes, _),
                 task_set CharmsUtxosByAppKV (MkCharmsUtxosByAppKey app_bytes height txo_ref) tt task);
        Ok (task, ctx)
    end.

Definition charms_process_tx (ci : CharmsIndexer) (t : TransactionWithId) (s : IndexerState DB Ext) :
    Res Error (IndexerState DB Ext) :=
  let '(task, ctx) := s in
  let height := block_height ctx in
  if (height <? ci_start_height ci)%N then Ok s
  else
    task ← for_each (tx_input (tx t)) task (clean_input ctx);
    match extract_and_verify_spell (tx t) with
    | None => Ok (task, ctx)
    | Some spell =>
        for_each (enumerate (zip (tx_output (tx t)) (spell_outs spell))) (task, ctx)
          (index_output spell t height)
    end.

#[export] Instance charms_process : ProcessTransaction DB Ext CharmsIndexer :=
  λ ci t _ s, charms_process_tx ci t s.
End CharmsIndexer.
