(* ===== verification/Derived.v ===== *)
(** * The derived codecs of the program

    The types with [#[derive(Encode, Decode)]] that are stored: their
    declarations as the macros read them, and the proofs that the codecs this
    library works with are those that src/macros/src/lib.rs generates.  Each
    [_input] is the declaration, each [_value] the value of a record as its
    fields by name. *)
From S2P Require Import Prelude ByteOrder EncDec Derive Types CoreTables Rocks KvStore Bitcoin Context.
From S2P Require Import AddressIndexers RunesTables Charms.

(** ** Automation

    A decoder is a chain of decoders of the fields; both sides take the same
    steps and fail alike. *)
Ltac same_steps :=
  cbn [rbind rmap];
  repeat match goal with
  | |- context [rbind ?r _] =>
      lazymatch r with
      | rbind _ _ => fail
      | Ok _ => fail
      | _ => destruct r as [[? ?]|?|?]; cbn [rbind rmap]; [|reflexivity|reflexivity]
      end
  end; reflexivity.

Ltac solve_derives_struct :=
  split; [eexists; split; [reflexivity|]; intros a; reflexivity|];
  match goal with |- ∃ decoder, decode_derive ?input = _ ∧ _ =>
    destruct (decode_derive_correct input) as (decoder & Hd & Hdec); [vm_compute; reflexivity|];
    exists decoder; split; [exact Hd|]; intros bytes; rewrite Hdec; unfold input
  end;
  unfold decode_meaning; cbn [data]; f_equal; unfold decode_values; cbn [field_types]; csimpl; cbn [decode_fields];
  match goal with |- context [@decode _ ?inst _] => unfold decode at 1; let i := get_head inst in unfold i end;
  unfold decode_field, decode_struct, decode; cbn [field_decode field_type].

(** *** [TxoRef] *)
Definition txo_ref_input : DeriveInput :=
  MkInput "TxoRef" (DataStruct (Named
    [("tx_hash", field_type (u8arr 32));
     ("txo_index", field_type u32)])).
Definition txo_ref_value (x : TxoRef) : Value :=
  MkValue None (NamedValues
    [("tx_hash", field (tx_hash x));
     ("txo_index", field (txo_index x))]).
Lemma txo_ref_derived : derives txo_ref_input txo_ref_value.
Proof. solve_derives_struct. same_steps. Qed.

(** *** [RollbackKey] *)
Definition rollback_key_input : DeriveInput :=
  MkInput "RollbackKey" (DataStruct (Named
    [("height", field_type u64);
     ("hash", field_type (u8arr 32));
     ("key", field_type (list byte))])).
Definition rollback_key_value (x : RollbackKey) : Value :=
  MkValue None (NamedValues
    [("height", field (rk_height x));
     ("hash", field (rk_hash x));
     ("key", field (rk_key x))]).
Lemma rollback_key_derived : derives rollback_key_input rollback_key_value.
Proof. solve_derives_struct. same_steps. Qed.

(** *** [IndexerInfo] *)
Definition indexer_info_input : DeriveInput :=
  MkInput "IndexerInfo" (DataStruct (Named
    [("last_point_height", field_type u64);
     ("last_point_hash", field_type (u8arr 32));
     ("mempool", field_type bool)])).
Definition indexer_info_value (x : IndexerInfo) : Value :=
  MkValue None (NamedValues
    [("last_point_height", field (last_point_height x));
     ("last_point_hash", field (last_point_hash x));
     ("mempool", field (info_mempool x))]).
Lemma indexer_info_derived : derives indexer_info_input indexer_info_value.
Proof. solve_derives_struct. same_steps. Qed.

(** *** [TimestampEntry] *)
Definition timestamp_entry_input : DeriveInput :=
  MkInput "TimestampEntry" (DataStruct (Named
    [("tip_height", field_type u64);
     ("tip_hash", field_type (u8arr 32));
     ("rocks_timestamp", field_type u64);
     ("mempool_timestamp", field_type (option u64))])).
Definition timestamp_entry_value (x : TimestampEntry) : Value :=
  MkValue None (NamedValues
    [("tip_height", field (tip_height x));
     ("tip_hash", field (tip_hash x));
     ("rocks_timestamp", field (rocks_timestamp x));
     ("mempool_timestamp", field (mempool_timestamp x))]).
Lemma timestamp_entry_derived : derives timestamp_entry_input timestamp_entry_value.
Proof. solve_derives_struct. same_steps. Qed.

(** *** [UtxosByAddressKey] *)
Definition utxos_by_address_key_input : DeriveInput :=
  MkInput "UtxosByAddressKey" (DataStruct (Named
    [("script", field_type ScriptPubKey);
     ("produced_height", field_type u64);
     ("txo_ref", field_type TxoRef)])).
Definition utxos_by_address_key_value (x : UtxosByAddressKey) : Value :=
  MkValue None (NamedValues
    [("script", field (uba_script x));
     ("produced_height", field (uba_produced_height x));
     ("txo_ref", field (uba_txo_ref x))]).
Lemma utxos_by_address_key_derived : derives utxos_by_address_key_input utxos_by_address_key_value.
Proof. solve_derives_struct. same_steps. Qed.

(** *** [RuneUtxosByScriptKey] *)
Definition rune_utxos_by_script_key_input : DeriveInput :=
  MkInput "RuneUtxosByScriptKey" (DataStruct (Named
    [("script", field_type ScriptPubKey);
     ("produced_height", field_type u64);
     ("txo_ref", field_type TxoRef)])).
Definition rune_utxos_by_script_key_value (x : RuneUtxosByScriptKey) : Value :=
  MkValue None (NamedValues
    [("script", field (rus_script x));
     ("produced_height", field (rus_produced_height x));
     ("txo_ref", field (rus_txo_ref x))]).
Lemma rune_utxos_by_script_key_derived : derives rune_utxos_by_script_key_input rune_utxos_by_script_key_value.
Proof. solve_derives_struct. same_steps. Qed.

(** *** [RuneTerms] *)
Definition rune_terms_input : DeriveInput :=
  MkInput "RuneTerms" (DataStruct (Named
    [("amount", field_type (option u128));
     ("cap", field_type (option u128));
     ("start_height", field_type (option u64));
     ("end_height", field_type (option u64))])).
Definition rune_terms_value (x : RuneTerms) : Value :=
  MkValue None (NamedValues
    [("amount", field (terms_amount x));
     ("cap", field (terms_cap x));
     ("start_height", field (terms_start_height x));
     ("end_height", field (terms_end_height x))]).
Lemma rune_terms_derived : derives rune_terms_input rune_terms_value.
Proof. solve_derives_struct. same_steps. Qed.

(** *** [RuneInfo] *)
Definition rune_info_input : DeriveInput :=
  MkInput "RuneInfo" (DataStruct (Named
    [("name", field_type u128);
     ("terms", field_type (option RuneTerms));
     ("symbol", field_type (option u32));
     ("divisibility", field_type u8);
     ("etching_height", field_type u64);
     ("etching_tx", field_type (u8arr 32));
     ("premine", field_type u128);
     ("spacers", field_type u32)])).
Definition rune_info_value (x : RuneInfo) : Value :=
  MkValue None (NamedValues
    [("name", field (info_name x));
     ("terms", field (info_terms x));
     ("symbol", field (info_symbol x));
     ("divisibility", field (info_divisibility x));
     ("etching_height", field (info_etching_height x));
     ("etching_tx", field (info_etching_tx x));
     ("premine", field (info_premine x));
     ("spacers", field (info_spacers x))]).
Lemma rune_info_derived : derives rune_info_input rune_info_value.
Proof. solve_derives_struct. same_steps. Qed.

(** *** [RuneActivityByTxKey] *)
Definition rune_activity_key_input : DeriveInput :=
  MkInput "RuneActivityByTxKey" (DataStruct (Named
    [("tx_hash", field_type (u8arr 32));
     ("seq", field_type u16)])).
Definition rune_activity_key_value (x : RuneActivityByTxKey) : Value :=
  MkValue None (NamedValues
    [("tx_hash", field (rat_tx_hash x));
     ("seq", field (rat_seq x))]).
Lemma rune_activity_key_derived : derives rune_activity_key_input rune_activity_key_value.
Proof. solve_derives_struct. same_steps. Qed.

(** *** [RuneBalanceChange] *)
Definition rune_balance_change_input : DeriveInput :=
  MkInput "RuneBalanceChange" (DataStruct (Named
    [("rune_id", field_type RuneId);
     ("script", field_type ScriptPubKey);
     ("sent", field_type u128);
     ("received", field_type u128);
     ("output_index", field_type (option u32))])).
Definition rune_balance_change_value (x : RuneBalanceChange) : Value :=
  MkValue None (NamedValues
    [("rune_id", field (rbc_rune_id x));
     ("script", field (rbc_script x));
     ("sent", field (rbc_sent x));
     ("received", field (rbc_received x));
     ("output_index", field (rbc_output_index x))]).
Lemma rune_balance_change_derived : derives rune_balance_change_input rune_balance_change_value.
Proof. solve_derives_struct. same_steps. Qed.

(** *** [CharmsUtxosByScriptKey] *)
Definition charms_utxos_by_script_key_input : DeriveInput :=
  MkInput "CharmsUtxosByScriptKey" (DataStruct (Named
    [("script", field_type ScriptPubKey);
     ("produced_height", field_type u64);
     ("txo_ref", field_type TxoRef)])).
Definition charms_utxos_by_script_key_value (x : CharmsUtxosByScriptKey) : Value :=
  MkValue None (NamedValues
    [("script", field (cus_script x));
     ("produced_height", field (cus_produced_height x));
     ("txo_ref", field (cus_txo_ref x))]).
Lemma charms_utxos_by_script_key_derived : derives charms_utxos_by_script_key_input charms_utxos_by_script_key_value.
Proof. solve_derives_struct. same_steps. Qed.

(** *** [CharmsUtxosByAppKey] *)
Definition charms_utxos_by_app_key_input : DeriveInput :=
  MkInput "CharmsUtxosByAppKey" (DataStruct (Named
    [("app", field_type (list byte));
     ("produced_height", field_type u64);
     ("txo_ref", field_type TxoRef)])).
Definition charms_utxos_by_app_key_value (x : CharmsUtxosByAppKey) : Value :=
  MkValue None (NamedValues
    [("app", field (cua_app x));
     ("produced_height", field (cua_produced_height x));
     ("txo_ref", field (cua_txo_ref x))]).
Lemma charms_utxos_by_app_key_derived : derives charms_utxos_by_app_key_input charms_utxos_by_app_key_value.
Proof. solve_derives_struct. same_steps. Qed.

(** *** [Utxo], with its map of attachments *)
Section Utxo.
Context {Ext : Type} `{!IndexMap TransactionIndexer (list byte) Ext}.
#[local] Existing Instances extended_encode extended_decode.

Definition utxo_input : DeriveInput :=
  MkInput "Utxo" (DataStruct (Named
    [("satoshis", field_type u64);
     ("script", field_type (list byte));
     ("height", field_type u64);
     ("extended", field_type Ext)])).
Definition utxo_value (x : Utxo Ext) : Value :=
  MkValue None (NamedValues
    [("satoshis", field (satoshis x));
     ("script", field (script x));
     ("height", field (height x));
     ("extended", field (extended x))]).
Lemma utxo_derived : derives utxo_input utxo_value.
Proof. solve_derives_struct. same_steps. Qed.
End Utxo.

(** ** Enums *)
Ltac solve_derives_enum :=
  split;
  [ eexists; split; [reflexivity|]; intros a; destruct a;
    first [reflexivity | exact (f_equal Some (app_nil_r (byte_of (N.of_nat _) :: encode _)))]
  | ];
  match goal with |- ∃ decoder, decode_derive ?input = _ ∧ _ =>
    destruct (decode_derive_correct input) as (decoder & Hd & Hdec); [vm_compute; reflexivity|];
    exists decoder; split; [exact Hd|]; intros [|kind bytes]; rewrite Hdec;
      [reflexivity | unfold input, decode_meaning; cbn [data]; f_equal]
  end;
  match goal with |- context [@decode _ ?inst _] => unfold decode at 1; let i := get_head inst in unfold i, decode_enum end.

(** *** [PointKind] *)
Definition point_kind_input : DeriveInput := MkInput "PointKind" (DataEnum [("Confirmed", Unit); ("Mempool", Unit)]).
Definition point_kind_value (x : PointKind) : Value :=
  MkValue (Some match x with Confirmed => "Confirmed" | Mempool => "Mempool" end) UnitValues.
Lemma point_kind_derived : derives point_kind_input point_kind_value.
Proof. solve_derives_enum. by destruct (N.to_nat (byte_val kind)) as [|[|n]]. Qed.

(** *** [TransactionIndexer] *)
Definition transaction_indexer_input : DeriveInput :=
  MkInput "TransactionIndexer" (DataEnum [("TxCountByAddress", Unit); ("Runes", Unit); ("UtxosByAddress", Unit); ("Charms", Unit)]).
Definition transaction_indexer_value (x : TransactionIndexer) : Value :=
  MkValue (Some match x with
                | TxCountByAddress => "TxCountByAddress"
                | Runes => "Runes"
                | UtxosByAddress => "UtxosByAddress"
                | Charms => "Charms"
                end) UnitValues.
Lemma transaction_indexer_derived : derives transaction_indexer_input transaction_indexer_value.
Proof. solve_derives_enum. by destruct (N.to_nat (byte_val kind)) as [|[|[|[|n]]]]. Qed.

(** *** [PreviousValue] *)
Definition previous_value_input : DeriveInput :=
  MkInput "PreviousValue" (DataEnum [("Present", Unnamed [field_type RawValue]); ("NotPresent", Unit)]).
Definition previous_value_value (x : PreviousValue) : Value :=
  match x with
  | Present value => MkValue (Some "Present") (TupleValues [field value])
  | NotPresent => MkValue (Some "NotPresent") UnitValues
  end.
Lemma previous_value_derived : derives previous_value_input previous_value_value.
Proof.
  solve_derives_enum. destruct (N.to_nat (byte_val kind)) as [|[|n]]; [|done|done]. cbn [lookup list_lookup].
  unfold decode_values, decode_field, decode_struct, decode. cbn [field_types decode_fields field_decode field_type]. same_steps.
Qed.

(** ** All of them *)
#[export] Hint Resolve txo_ref_derived utxo_derived transaction_indexer_derived indexer_info_derived point_kind_derived
  timestamp_entry_derived rollback_key_derived previous_value_derived utxos_by_address_key_derived
  rune_utxos_by_script_key_derived rune_terms_derived rune_info_derived rune_activity_key_derived
  rune_balance_change_derived charms_utxos_by_script_key_derived charms_utxos_by_app_key_derived : symphony.

(** The codec of every stored type that derives [Encode] and [Decode] is
    the one the macros generate for its declaration: the same bytes for every
    value, and on every slice of bytes the same value and rest or the same
    failure. *)
Theorem stored_codecs_are_derived {Ext} `{!IndexMap TransactionIndexer (list byte) Ext} :
  (derives txo_ref_input txo_ref_value ∧ derives (utxo_input (Ext:=Ext)) (utxo_value (Ext:=Ext)) ∧
   derives transaction_indexer_input transaction_indexer_value) ∧
  (derives indexer_info_input indexer_info_value ∧ derives point_kind_input point_kind_value ∧
   derives timestamp_entry_input timestamp_entry_value ∧ derives rollback_key_input rollback_key_value ∧
   derives previous_value_input previous_value_value) ∧
  (derives utxos_by_address_key_input utxos_by_address_key_value ∧
   derives rune_utxos_by_script_key_input rune_utxos_by_script_key_value ∧ derives rune_terms_input rune_terms_value ∧
   derives rune_info_input rune_info_value ∧ derives rune_activity_key_input rune_activity_key_value ∧
   derives rune_balance_change_input rune_balance_change_value) ∧
  derives charms_utxos_by_script_key_input charms_utxos_by_script_key_value ∧
  derives charms_utxos_by_app_key_input charms_utxos_by_app_key_value.
Proof. split_and!; auto with symphony. Qed.
