(* ===== verification/Indexers.v ===== *)
(** * The configured indexers and what they promise

    src/src/sync/stages/index/indexers/custom/mod.rs: the factory of the
    indexers.  The class [IndexerOk] is the contract between an indexer and
    the stage that runs it: an indexer only buffers writes of its own tables
    and attaches data to outputs. *)
From S2P Require Import Prelude ByteOrder EncDec Timestamp Types MergeOperation Table Rocks.
From S2P Require Import CoreTables KvStore KvStoreLaws Commit Bitcoin Context AddressIndexers.
From S2P Require Import RunesTables Runes Charms.

Inductive TransactionIndexerFactory : Type :=
| FTxCountByAddress
| FRunes (c : RunesIndexerConfig)
| FUtxosByAddress
| FCharms (c : CharmsIndexerConfig).

(** [Box<dyn ProcessTransaction>]. *)
Inductive AnyIndexer : Type :=
| ITxCountByAddress (i : TxCountByAddressIndexer)
| IRunes (i : RunesIndexer)
| IUtxosByAddress (i : UtxosByAddressIndexer)
| ICharms (i : CharmsIndexer).

Definition create_indexer (f : TransactionIndexerFactory) : Res Error AnyIndexer :=
  match f with
  | FTxCountByAddress => Ok (ITxCountByAddress MkTxCountByAddressIndexer)
  | FRunes c => i ← runes_indexer_new c; Ok (IRunes i)
  | FUtxosByAddress => Ok (IUtxosByAddress MkUtxosByAddressIndexer)
  | FCharms c => Ok (ICharms (charms_indexer_new c))
  end.

(** [unique_id] of [BlockIndexer]. *)
Inductive BlockIndexer : Type := TimestampByHeight.
Definition block_indexer_id (b : BlockIndexer) : u16 := N.lor 0xFF00 (match b with TimestampByHeight => 0%N end).

Section AnyIndexer.
Context {DB : Type} `{RocksDB DB} `{HashOrder} `{Ordinals} `{!CharmsLib}.
Context {Ext : Type} `{!IndexMap TransactionIndexer (list byte) Ext}.

#[export] Instance any_process : ProcessTransaction DB Ext AnyIndexer := λ i,
  match i with
  | ITxCountByAddress i => process_tx i
  | IRunes i => process_tx i
  | IUtxosByAddress i => process_tx i
  | ICharms i => process_tx i
  end.
End AnyIndexer.

(** * The contract *)

(** The keys that hold counters, and are only written by merges. *)
Definition counter_prefix : list byte := indexer_table_prefix (unique_id TxCountByAddress) x00.
Definition counter_key (k : RawKey) : Prop := counter_prefix `prefix_of` k.

(** The writes an indexer may buffer. *)
Definition allowed (k : RawKey) (a : StorageAction) : Prop :=
  user_key k ∧ op_fits a ∧
  match a with Merge_ _ => counter_key k | _ => ¬ counter_key k end.

Section Contract.
Context {DB : Type} `{RocksDBOk DB}.

(** Writes to keys of [P]. *)
Definition task_step (P : RawKey → Prop) (t t' : IndexingTask DB) : Prop :=
  ∃ k a, buffered k a t t' ∧ allowed k a ∧ P k.
Definition task_steps (P : RawKey → Prop) : relation (IndexingTask DB) := rtc (task_step P).

Lemma task_steps_mono (P Q : RawKey → Prop) t t' :
  (∀ k, P k → Q k) → task_steps P t t' → task_steps Q t t'.
Proof. intros HPQ. apply rtc_subrel. intros t1 t2 (k & a & Hb & Ha & Hk). exists k, a. auto. Qed.

Lemma task_steps_untouched P t t' k :
  task_steps P t t' → ¬ P k → write_buffer t' !! k = write_buffer t !! k.
Proof.
  induction 1 as [|t1 t2 t3 (k' & a & Hb & _ & Hk') _ IH]; intros Hk; [done|].
  rewrite (IH Hk), (buffered_wb _ _ _ _ Hb). apply lookup_insert_ne. by intros ->.
Qed.

(** A task with only allowed writes. *)
Definition task_wf (t : IndexingTask DB) : Prop := ∀ k a, write_buffer t !! k = Some a → allowed k a.

Lemma task_steps_wf P t t' : task_steps P t t' → task_wf t → task_wf t'.
Proof.
  induction 1 as [|t1 t2 t3 (k & a & Hb & Ha & _) _ IH]; intros Hwf; [done|].
  apply IH. intros k' a'. rewrite (buffered_wb _ _ _ _ Hb), lookup_insert.
  case_decide as Hk; [|apply Hwf]. intros Heq. injection Heq as <-. by subst k'.
Qed.

Lemma task_steps_same P t t' : task_steps P t t' → same_task t t'.
Proof.
  induction 1 as [|t1 t2 t3 (k & a & Hb & Ha & _) _ IH]; [reflexivity|].
  etransitivity; [apply Hb|exact IH].
Qed.

Lemma task_steps_originals P t t' : task_steps P t t' → readable t → originals_ok t → originals_ok t'.
Proof.
  induction 1 as [|t1 t2 t3 (k & a & Hb & Ha & _) _ IH]; [done|]. intros Hr Ho.
  apply IH; [by eapply same_task_readable, Hr; apply Hb|by apply Hb].
Qed.

(** What is left unchanged of the context. *)
Definition same_context {Ext} (c c' : IndexingContext Ext) : Prop :=
  ctx_point c' = ctx_point c ∧ ctx_resolver c' = ctx_resolver c ∧
  ctx_chained_txos c' = ctx_chained_txos c ∧ ctx_network c' = ctx_network c.

#[export] Instance same_context_preorder {Ext} : PreOrder (same_context (Ext:=Ext)).
Proof.
  split; [by intros c|]. intros c1 c2 c3 (H1' & H2' & H3' & H4') (H5' & H6' & H7' & H8').
  split_and!; congruence.
Qed.

(** A key of the tables of indexers, and of one indexer. *)
Definition custom_key (k : RawKey) : Prop := [CUSTOM_INDEXER_TAG] `prefix_of` k.
Definition own_key (i : TransactionIndexer) (k : RawKey) : Prop :=
  CUSTOM_INDEXER_TAG :: encode (unique_id i) `prefix_of` k.

Lemma own_custom i k : own_key i k → custom_key k.
Proof. intros Hk. unfold custom_key. etransitivity; [|exact Hk]. by apply (prefix_app_r [_] [_]). Qed.

Lemma own_key_owner i j k : own_key i k → own_key j k → i = j.
Proof. intros Hi Hj. assert (CUSTOM_INDEXER_TAG :: encode (unique_id i) = CUSTOM_INDEXER_TAG :: encode (unique_id j)) as Heq
  by (by eapply prefix_disjoint). injection Heq. by destruct i, j. Qed.

Class IndexerOk {Ext} `{Bitcoin} (I : Type) `{!ProcessTransaction DB Ext I} : Prop :=
  process_tx_ok : ∀ (i : I) (t : TransactionWithId) (n : usize) (task task' : IndexingTask DB)
                    (ctx ctx' : IndexingContext Ext),
    task_wf task → process_tx i t n (task, ctx) = Ok (task', ctx') →
    task_steps custom_key task task' ∧ same_context ctx ctx'.

(** An indexer that writes nothing but its own tables. *)
Class IndexerOwn {Ext} `{Bitcoin} (I : Type) `{!ProcessTransaction DB Ext I} (owner : I → TransactionIndexer) : Prop :=
  process_tx_own : ∀ (i : I) (t : TransactionWithId) (n : usize) (task task' : IndexingTask DB)
                     (ctx ctx' : IndexingContext Ext),
    task_wf task → process_tx i t n (task, ctx) = Ok (task', ctx') →
    task_steps (own_key (owner i)) task task' ∧ same_context ctx ctx'.

#[export] Instance indexer_own_ok {Ext} `{Bitcoin} (I : Type) `{!ProcessTransaction DB Ext I} owner :
  IndexerOwn (Ext:=Ext) I owner → IndexerOk (Ext:=Ext) I.
Proof.
  intros Hown i t n task task' ctx ctx' Hwf Hp. destruct (Hown i _ _ _ _ _ _ Hwf Hp) as [Hs Hc].
  split; [|exact Hc]. eapply task_steps_mono; [|exact Hs]. intros k. apply own_custom.
Qed.

(** A write of a table of the index, all of whose keys are in [P]. *)
Definition index_table {K V} (P : RawKey → Prop) (T : Table K V) : Prop :=
  ∀ key, user_key (encode_key T key) ∧ ¬ counter_key (encode_key T key) ∧ P (encode_key T key).

Lemma task_set_steps {K V} `{Encode V} P (T : Table K V) key value t t' :
  index_table P T → task_set T key value t = Ok t' → task_steps P t t'.
Proof.
  intros HT Hs%task_set_inv. destruct (HT key) as (Hu & Hc & HP).
  apply rtc_once. eexists _, _. by split; [exact Hs|].
Qed.

Lemma task_delete_steps {K V} P (T : Table K V) key t t' :
  index_table P T → task_delete T key t = Ok t' → task_steps P t t'.
Proof.
  intros HT Hs%task_delete_inv. destruct (HT key) as (Hu & Hc & HP).
  apply rtc_once. eexists _, _. by split; [exact Hs|].
Qed.

Lemma custom_user_key k : [CUSTOM_INDEXER_TAG] `prefix_of` k → user_key k.
Proof. intros [r ->]. split; intros [r' Heq]; discriminate Heq. Qed.

Lemma indexer_table_key {K V} `{Encode K} indexer_id table_id (key : K) :
  indexer_table_prefix indexer_id table_id `prefix_of`
    encode_key (indexer_table V indexer_id table_id : Table K V) key.
Proof.
  rewrite (table_encode_key _ _ (indexer_table_at V indexer_id table_id)). by apply prefix_app_r.
Qed.

Lemma table_own_key i table_id k : indexer_table_prefix (unique_id i) table_id `prefix_of` k → own_key i k.
Proof. intros Hk. unfold own_key. etransitivity; [|exact Hk]. exists [table_id]. done. Qed.

(** Every table of an indexer but the counters. *)
Lemma indexer_index_table {K V} `{Encode K} i table_id :
  indexer_table_prefix (unique_id i) table_id ≠ counter_prefix →
  index_table (own_key i) (indexer_table V (unique_id i) table_id : Table K V).
Proof.
  intros Hne key. pose proof (indexer_table_key (V:=V) (unique_id i) table_id key) as Hp.
  pose proof (table_own_key _ _ _ Hp) as Hown.
  split_and!; [by eapply custom_user_key, own_custom| |done].
  - intros Hc. apply Hne. eapply prefix_disjoint; [|exact Hp|exact Hc].
    by rewrite !length_indexer_table_prefix.
Qed.

Lemma core_index_table {K V} `{Encode K} (id : u8) :
  id ≠ x52 → id ≠ x54 →
  index_table (λ k, [CORE_INDEXER_TAG; id] `prefix_of` k) (core_table V id : Table K V).
Proof.
  intros Hr Ht key. rewrite (table_encode_key _ _ (core_table_at V id)).
  split; [|split; [|by apply prefix_app_r]].
  - split; intros [r Heq]; injection Heq; intros; by simplify_eq.
  - intros [r Heq]. discriminate Heq.
Qed.
End Contract.

#[export] Hint Resolve task_set_steps task_delete_steps : symphony.

(** ** The indexers keep the contract *)
Section IndexersOk.
Context {DB : Type} `{RocksDBOk DB} `{HashOrder} `{Ordinals} `{!CharmsLib}.
Context {Ext : Type} `{!IndexMap TransactionIndexer (list byte) Ext}.

(** A loop of steps is steps. *)
Lemma for_each_steps {A} P (l : list A) (t t' : IndexingTask DB)
    (body : IndexingTask DB → A → Res Error (IndexingTask DB)) :
  (∀ x t1 t2, body t1 x = Ok t2 → task_steps P t1 t2) → for_each l t body = Ok t' → task_steps P t t'.
Proof.
  intros Hstep. apply (for_each_inv (task_steps P t)); [|reflexivity].
  intros x s1 s2 _ Hs1 Hs2. etransitivity; [exact Hs1|by eapply Hstep].
Qed.

(** A loop that also carries other data: the task moves by steps and the
    rest keeps a preorder. *)
Lemma for_each_steps_with {A S} P (R : relation S) `{!PreOrder R} (l : list A)
    (s s' : IndexingTask DB * S) (body : IndexingTask DB * S → A → Res Error (IndexingTask DB * S)) :
  (∀ x s1 s2, body s1 x = Ok s2 → task_steps P s1.1 s2.1 ∧ R s1.2 s2.2) →
  for_each l s body = Ok s' → task_steps P s.1 s'.1 ∧ R s.2 s'.2.
Proof.
  intros Hstep. apply (for_each_inv (λ s', task_steps P s.1 s'.1 ∧ R s.2 s'.2)); [|by split].
  intros x s1 s2 _ [Ht1 Hr1] Hs2. destruct (Hstep _ _ _ Hs2) as [Ht2 Hr2].
  split; (etransitivity; [eassumption|done]).
Qed.

Lemma attach_same_context {E} `{Encode E} txo_ref indexer (data : E) (ctx : IndexingContext Ext) :
  same_context ctx (attach_utxo_metadata txo_ref indexer data ctx).
Proof. done. Qed.

(** *** Transaction counts *)
Lemma increment_steps (script : ScriptPubKey) (t t' : IndexingTask DB) :
  task_wf t → increment TxCountByAddressKV script (1%N : u64) t = Ok t' → task_steps (own_key TxCountByAddress) t t'.
Proof.
  intros Hwf Hi. set (k := encode_key TxCountByAddressKV script).
  assert (counter_key k) as Hck by apply indexer_table_key.
  pose proof (table_own_key _ _ _ Hck) as Hown. pose proof (custom_user_key k (own_custom _ _ Hown)) as Huk.
  destruct (merge_op_buffered _ _ _ _ _ Hi) as (a & Hb & Ha). fold k in Hb, Ha.
  apply rtc_once. exists k, a. split; [exact Hb|]. split; [|exact Hown]. split; [exact Huk|].
  assert (fits 128 1) as Hone by (vm_compute; reflexivity).
  destruct (write_buffer t !! k) as [[v| |op0]|] eqn:Hk.
  - by destruct (Hwf _ _ Hk) as (_ & _ & Hnc).
  - by destruct (Hwf _ _ Hk) as (_ & _ & Hnc).
  - subst a. destruct (Hwf _ _ Hk) as (_ & Hop & _). split; [by apply combine_fits|exact Hck].
  - subst a. by split.
Qed.

#[export] Instance tx_count_own : IndexerOwn (Ext:=Ext) TxCountByAddressIndexer (λ _, TxCountByAddress).
Proof.
  intros i t n task task' ctx ctx' Hwf Hp. unfold process_tx, tx_count_by_address_process, tx_count_process_tx in Hp.
  inv_bind. simplify_eq. split; [|reflexivity].
  enough (task_wf task' ∧ task_steps (own_key TxCountByAddress) task task') by naive_solver.
  eapply (for_each_inv (λ t, task_wf t ∧ task_steps (own_key TxCountByAddress) task t)); [|by split|eassumption].
  intros script t1 t2 _ [Hwf1 Hs1] Hi. apply increment_steps in Hi; [|done].
  split; [by eapply task_steps_wf|by etransitivity].
Qed.

(** *** Outputs by address *)
Lemma utxos_by_address_table : index_table (own_key UtxosByAddress) UtxosByAddressKV.
Proof. apply indexer_index_table. by vm_compute. Qed.

#[export] Instance utxos_by_address_own : IndexerOwn (Ext:=Ext) UtxosByAddressIndexer (λ _, UtxosByAddress).
Proof.
  intros i t n task task' ctx ctx' _ Hp.
  unfold process_tx, utxos_by_address_process, utxos_by_address_process_tx in Hp.
  apply res_bind_ok in Hp as (t1 & Ht1 & Hp). apply res_bind_ok in Hp as (t2 & Ht2 & Hp).
  injection Hp as <- <-. split; [|reflexivity]. transitivity t1.
  - destruct (is_coinbase (tx t)); [by injection Ht1 as <-|].
    eapply for_each_steps; [|exact Ht1]. intros x s1 s2 Hd. unfold delete_consumed in Hd. inv_bind.
    eapply task_delete_steps; [apply utxos_by_address_table|eassumption].
  - eapply for_each_steps; [|exact Ht2]. intros [j o] s1 s2 Hd.
    eapply task_set_steps; [apply utxos_by_address_table|exact Hd].
Qed.

(** *** Runes *)
Lemma runes_table {K V} `{Encode K} id : index_table (own_key Runes) (indexer_table V (unique_id Runes) id : Table K V).
Proof. apply indexer_index_table. discriminate. Qed.

Lemma runes_set_own {K V} `{Encode K, Encode V} id key (value : V) (t t' : IndexingTask DB) :
  task_set (indexer_table V (unique_id Runes) id : Table K V) key value t = Ok t' → task_steps (own_key Runes) t t'.
Proof. apply task_set_steps, runes_table. Qed.

(** Only the entry of a new rune is written to the table of the names. *)
Definition names_prefix : list byte := indexer_table_prefix (unique_id Runes) (runes_table_id RuneIdByName).
Definition unnamed_key (k : RawKey) : Prop := own_key Runes k ∧ ¬ names_prefix `prefix_of` k.

Lemma unnamed_own (t t' : IndexingTask DB) : task_steps unnamed_key t t' → task_steps (own_key Runes) t t'.
Proof. apply task_steps_mono. by intros k [Hk _]. Qed.

Lemma runes_unnamed {K V} `{Encode K} table :
  table ≠ RuneIdByName → index_table unnamed_key (indexer_table V (unique_id Runes) (runes_table_id table) : Table K V).
Proof.
  intros Hne key. destruct (runes_table (K:=K) (V:=V) (runes_table_id table) key) as (Hu & Hc & Ho).
  split; [exact Hu|]. split; [exact Hc|]. split; [exact Ho|]. intros Hn. apply Hne.
  pose proof (indexer_table_key (V:=V) (unique_id Runes) (runes_table_id table) key) as Hp.
  eapply prefix_disjoint in Hn; [|by rewrite !length_indexer_table_prefix|exact Hp]. by destruct table.
Qed.

Lemma runes_set {K V} `{Encode K, Encode V} table key (value : V) (t t' : IndexingTask DB) :
  table ≠ RuneIdByName →
  task_set (indexer_table V (unique_id Runes) (runes_table_id table) : Table K V) key value t = Ok t' → task_steps unnamed_key t t'.
Proof. intros Hne. by apply task_set_steps, runes_unnamed. Qed.

Lemma unallocated_steps (task task' : IndexingTask DB) t (resolver : gmap TxoRef (Utxo Ext)) m :
  unallocated task t resolver = Ok (task', m) → task_steps unnamed_key task task'.
Proof.
  apply (for_each_inv (λ s, task_steps unnamed_key task s.1)); [|reflexivity].
  intros input [t1 m1] [t2 m2] _ Hs1 Hi. simpl in *. etransitivity; [exact Hs1|].
  unfold unallocated_input in Hi.
  destruct (is_null _); [by injection Hi as <- <-|]. inv_bind. simplify_eq. simpl.
  destruct x0 as [|r x0]; [by simplify_eq|].
  eapply (task_delete_steps unnamed_key RuneUtxosByScriptKV); [by apply (runes_unnamed RuneUtxosByScript)|eassumption].
Qed.

Lemma mint_steps (task task' : IndexingTask DB) id h amount :
  mint task id h = Ok (task', amount) → task_steps unnamed_key task task'.
Proof.
  unfold mint. intros Hm. apply res_bind_ok in Hm as (info & _ & Hm).
  destruct (match info with Some i => info_terms i | None => None end) as [terms|]; [|by injection Hm as <- _].
  destruct (match terms_start_height terms with Some start => _ | None => _ end); [by injection Hm as <- _|].
  destruct (match terms_end_height terms with Some stop => _ | None => _ end); [by injection Hm as <- _|].
  apply res_bind_ok in Hm as (mints & _ & Hm).
  destruct (_ <=? _)%N; [by injection Hm as <- _|].
  apply res_bind_ok in Hm as (new & _ & Hm). apply res_bind_ok in Hm as (t1 & Ht1 & Hm).
  injection Hm as <- _. by apply (runes_set RuneMintsById) in Ht1.
Qed.

Lemma create_rune_entry_steps (task task' : IndexingTask DB) artifact txid id rune h :
  create_rune_entry task artifact txid id rune h = Ok task' → task_steps (own_key Runes) task task'.
Proof.
  unfold create_rune_entry. intros Hc. apply res_bind_ok in Hc as (t1 & Ht1 & Hc).
  apply res_bind_ok in Hc as (info & _ & Hc). apply runes_set_own in Ht1, Hc. by etransitivity.
Qed.

Lemma process_artifact_steps ri t n (ctx : IndexingContext Ext) artifact (task task' : IndexingTask DB) u al u' al' :
  process_artifact ri t n ctx artifact task u al = Ok (task', u', al') → task_steps (own_key Runes) task task'.
Proof.
  unfold process_artifact. intros Hp. apply res_bind_ok in Hp as ([t1 u1] & Ht1 & Hp).
  apply res_bind_ok in Hp as (et & _ & Hp). apply res_bind_ok in Hp as ([u2 al2] & _ & Hp).
  apply res_bind_ok in Hp as (t2 & Ht2 & Hp). injection Hp as <- _ _. transitivity t1.
  - destruct (artifact_mint artifact) as [id|]; [|by injection Ht1 as <- _].
    apply res_bind_ok in Ht1 as ([t3 am] & Ht3 & Ht1). injection Ht1 as <- _. by eapply unnamed_own, mint_steps.
  - destruct et as [[id rune]|]; [by eapply create_rune_entry_steps|by injection Ht2 as <-].
Qed.

Lemma record_outputs_steps ri t h l (task task' : IndexingTask DB) (ctx ctx' : IndexingContext Ext) act act' :
  for_each l (task, ctx, act) (record_output ri t h) = Ok (task', ctx', act') →
  task_steps unnamed_key task task' ∧ same_context ctx ctx'.
Proof.
  apply (for_each_inv (λ s, task_steps unnamed_key task s.1.1 ∧ same_context ctx s.1.2)); [|by split].
  intros [[j o] m] [[t1 c1] a1] [[t2 c2] a2] _ [Ht1 Hc1] Hr. simpl in *. unfold record_output in Hr.
  apply res_bind_ok in Hr as (_ & _ & Hr). case_decide; [by injection Hr as <- <- _|].
  apply res_bind_ok in Hr as (t3 & Ht3 & Hr). injection Hr as <- <- _. apply (runes_set RuneUtxosByScript) in Ht3; [|done].
  split; [by etransitivity|]. etransitivity; [exact Hc1|apply attach_same_context].
Qed.

Lemma log_changes_steps txid l seq seq' (task task' : IndexingTask DB) :
  for_each l (seq, task) (log_change txid) = Ok (seq', task') → task_steps unnamed_key task task'.
Proof.
  apply (for_each_inv (λ s, task_steps unnamed_key task s.2)); [|reflexivity].
  intros c [s1 t1] [s2 t2] _ Ht1 Hl. simpl in *. unfold log_change in Hl.
  apply res_bind_ok in Hl as (next & _ & Hl). apply res_bind_ok in Hl as (t3 & Ht3 & Hl).
  injection Hl as _ <-. apply (runes_set RuneActivityByTx) in Ht3; [|done]. by etransitivity.
Qed.

#[export] Instance runes_own : IndexerOwn (Ext:=Ext) RunesIndexer (λ _, Runes).
Proof.
  intros i t n task task' ctx ctx' _ Hp. unfold process_tx, runes_process, runes_process_tx in Hp.
  destruct (_ <? _)%N; [injection Hp as <- <-; by split|].
  apply res_bind_ok in Hp as ([t1 u1] & Ht1 & Hp).
  apply res_bind_ok in Hp as ([[t2 u2] al2] & Ht2 & Hp).
  apply res_bind_ok in Hp as (al3 & _ & Hp). apply res_bind_ok in Hp as (act & _ & Hp).
  apply res_bind_ok in Hp as ([[t3 c3] a3] & Ht3 & Hp).
  apply res_bind_ok in Hp as ([seq t4] & Ht4 & Hp). injection Hp as <- <-.
  apply unallocated_steps, unnamed_own in Ht1. apply record_outputs_steps in Ht3 as [Ht3%unnamed_own Hc3].
  split; [|exact Hc3]. etransitivity; [exact Ht1|]. transitivity t2; [|transitivity t3; [exact Ht3|]].
  - destruct (decipher (tx t)); [by eapply process_artifact_steps|by injection Ht2 as <- _ _].
  - destruct (ri_index_activity i); [by eapply unnamed_own, log_changes_steps|by injection Ht4 as _ <-].
Qed.

(** *** Charms *)
Lemma charms_table {K V} `{Encode K} id : index_table (own_key Charms) (indexer_table V (unique_id Charms) id : Table K V).
Proof. apply indexer_index_table. discriminate. Qed.

Lemma remove_charms_steps (utxo : Utxo Ext) r charms (task task' : IndexingTask DB) :
  remove_charms utxo r charms task = Ok task' → task_steps (own_key Charms) task task'.
Proof.
  destruct charms as [|c charms]; [by intros Hr; injection Hr as <-|]. unfold remove_charms. intros Hr.
  apply res_bind_ok in Hr as (t1 & Ht1 & Hr). apply (task_delete_steps (own_key Charms) CharmsUtxosByScriptKV) in Ht1; [|apply charms_table].
  etransitivity; [exact Ht1|]. apply (for_each_steps (own_key Charms) (c :: charms)) in Hr; [done|].
  intros [app d] s1 s2 Hd. eapply (task_delete_steps (own_key Charms) CharmsUtxosByAppKV); [apply charms_table|exact Hd].
Qed.

Lemma clean_input_steps (ctx : IndexingContext Ext) (task task' : IndexingTask DB) input :
  clean_input ctx task input = Ok task' → task_steps (own_key Charms) task task'.
Proof.
  unfold clean_input. destruct (is_null _); [by intros; simplify_eq|].
  destruct (resolve_input ctx _) as [utxo|]; [|by intros; simplify_eq].
  destruct (im_get Charms (extended utxo)) as [raw|]; [|by intros; simplify_eq].
  intros Hc. apply res_bind_ok in Hc as (charms & _ & Hc). by eapply remove_charms_steps.
Qed.

Lemma index_output_steps spell t h o (task task' : IndexingTask DB) (ctx ctx' : IndexingContext Ext) :
  index_output spell t h (task, ctx) o = Ok (task', ctx') → task_steps (own_key Charms) task task' ∧ same_context ctx ctx'.
Proof.
  destruct o as [j [out charms]]. unfold index_output.
  destruct (match spell_beamed_outs spell with Some b => _ | None => _ end); [by intros; simplify_eq|].
  destruct charms as [|c charms]; [by intros; simplify_eq|]. intros Hi.
  apply res_bind_ok in Hi as (t1 & Ht1 & Hi). apply res_bind_ok in Hi as (t2 & Ht2 & Hi).
  injection Hi as <- <-. split; [|apply attach_same_context].
  apply (task_set_steps (own_key Charms) CharmsUtxosByScriptKV) in Ht1; [|apply charms_table]. etransitivity; [exact Ht1|].
  apply (for_each_steps (own_key Charms)) in Ht2; [done|]. intros [app d] s1 s2 Hd.
  eapply (task_set_steps (own_key Charms) CharmsUtxosByAppKV); [apply charms_table|exact Hd].
Qed.

#[export] Instance charms_own : IndexerOwn (Ext:=Ext) CharmsIndexer (λ _, Charms).
Proof.
  intros i t n task task' ctx ctx' _ Hp. unfold process_tx, charms_process, charms_process_tx in Hp.
  destruct (_ <? _)%N; [injection Hp as <- <-; by split|].
  apply res_bind_ok in Hp as (t1 & Ht1 & Hp).
  assert (task_steps (own_key Charms) task t1) as Hs1.
  { eapply for_each_steps; [|exact Ht1]. intros x s1 s2. apply clean_input_steps. }
  destruct (extract_and_verify_spell (tx t)) as [spell|]; [|by injection Hp as <- <-].
  apply (for_each_steps_with (own_key Charms) same_context) in Hp as [Hs2 Hc]; [split; [by etransitivity|exact Hc]|].
  intros x [s1 c1] [s2 c2]. apply index_output_steps.
Qed.

Definition owner (i : AnyIndexer) : TransactionIndexer :=
  match i with
  | ITxCountByAddress _ => TxCountByAddress
  | IRunes _ => Runes
  | IUtxosByAddress _ => UtxosByAddress
  | ICharms _ => Charms
  end.

#[export] Instance any_own : IndexerOwn (Ext:=Ext) AnyIndexer owner.
Proof.
  intros [i|i|i|i] t n task task' ctx ctx' Hwf Hp;
    [exact (tx_count_own i t n task task' ctx ctx' Hwf Hp)|exact (runes_own i t n task task' ctx ctx' Hwf Hp)
    |exact (utxos_by_address_own i t n task task' ctx ctx' Hwf Hp)
    |exact (charms_own i t n task task' ctx ctx' Hwf Hp)].
Qed.
End IndexersOk.
