(* ===== verification/Stage.v ===== *)
(** * The index stage

    src/src/sync/stages/index/worker/stage.rs: the stage that applies chain
    events to the store, and src/src/sync/mod.rs (its configuration).  Logging
    and timings are left out.  The clock is read at each commit: its readings
    are the argument [now].  A failure ends the event; the error value says
    whether the runtime stops or restarts the worker. *)
From S2P Require Import Prelude Float Sysinfo ByteOrder EncDec Timestamp Types MergeOperation Table Rocks.
From S2P Require Import CoreTables KvStore RollbackBuffer Bitcoin Context AddressIndexers.
From S2P Require Import RunesTables Runes Charms Indexers.

(** [gasket::framework::WorkerError], the values the code produces. *)
Inductive WorkerError : Type := WorkerRestart | WorkerRetry | WorkerPanic.

Definition or_panic {E A} (r : Res E A) : Res WorkerError A := map_err (λ _, WorkerPanic) r.
Definition or_restart {E A} (r : Res E A) : Res WorkerError A := map_err (λ _, WorkerRestart) r.
Definition or_retry {E A} (r : Res E A) : Res WorkerError A := map_err (λ _, WorkerRetry) r.

(** [NodeConfig] and [Config]; the cache size is in gigabytes. *)
Record NodeConfig : Type := MkNodeConfig {
  p2p_address : string;
  rpc_address : string;
  rpc_user : string;
  rpc_pass : string;
}.

Record Config : Type := MkConfig {
  cfg_node : NodeConfig;
  cfg_network : Network;
  cfg_mempool : bool;
  cfg_utxo_cache_size : option f64;
  cfg_block_page_size : option usize;
  cfg_stop_after : option u64;
  cfg_stage_queue_size : option usize;
  cfg_stage_timeout_secs : option u64;
  cfg_indexers : list TransactionIndexerFactory;
  cfg_max_rollback : option usize;
  cfg_safe_mode : option bool;
}.

Definition utxo_cache_size_bytes (config : Config) : option u64 := gb_as_bytes <$> cfg_utxo_cache_size config.

(** What the stage asks of the machine and of the [bitcoin] crate. *)
Class Machine : Type := {
  system : SystemInfo;
  genesis_hash : Network → BlockHash;        (* genesis_block().block_hash() *)
}.

(** What the clock and the memory show during an event: the times of its
    commits, and the readings after each transaction, by the (pseudo) block
    and the index in it. *)
Record Clock : Type := MkClock {
  clock_undo : u64;
  clock_commit : u64;
  clock_memory : nat → nat → MemoryReading;
}.

Section Stage.
Context {DB : Type} `{RocksDB DB} `{HashOrder} `{Ordinals} `{!CharmsLib} `{!Machine}.
Context {Ext : Type} `{!IndexMap TransactionIndexer (list byte) Ext}.
Context {C : Type} `{!MokaCache (Utxo Ext) C}.

Record Stage : Type := MkStage {
  st_db : StorageHandler DB;
  st_indexers : list TransactionIndexerFactory;
  st_network : Network;
  st_rollback_buffer : RollbackBuffer;
  st_max_rollbacks : u64;
  st_last_processed : Point;
  st_processed_mempool : bool;
  st_utxo_cache : option (UtxoCache C);
  st_stop_after : option u64;
}.

Definition with_storage (db : StorageHandler DB) (rb : RollbackBuffer) (last_processed : Point)
    (processed_mempool : bool) (cache : option (UtxoCache C)) (st : Stage) : Stage :=
  MkStage db (st_indexers st) (st_network st) rb (st_max_rollbacks st) last_processed processed_mempool
    cache (st_stop_after st).

(** ** [Stage::new] *)

(** The newest entry of [HashByHeightKV], else the genesis block. *)
Definition last_processed_point (storage : Reader DB) (network : Network) : Res Error Point :=
  let range := encode_range HashByHeightKV (None : option unit) (None : option unit) in
  match iter_kvs HashByHeightKV storage range true with
  | [] => Ok (MkPoint 0 (genesis_hash network))
  | res :: _ => '(height, hash) ← res; Ok (MkPoint height hash)
  end.

(** The assertions that the store, the buffer and the cursor agree. *)
Definition check_cursor (info : IndexerInfo) (rollback_buffer : RollbackBuffer) (last_processed : Point) :
    Res Error unit :=
  let info_cursor := MkPoint (last_point_height info) (last_point_hash info) in
  match latest rollback_buffer with
  | None => Ok tt
  | Some rbbuf_latest =>
      let p := pk_point rbbuf_latest in
      if info_mempool info then
        _ ← assert (bool_decide (point_hash p = point_hash info_cursor)) "assert_eq";
        assert (bool_decide (point_hash p = point_hash last_processed)) "assert_eq"
      else
        _ ← assert (bool_decide (p = last_processed)) "assert_eq";
        assert (bool_decide (p = info_cursor)) "assert_eq"
  end.

Definition stage_new (config : Config) (db : StorageHandler DB) : Res Error Stage :=
  let utxo_cache_size := default (get_default_cache_size system) (utxo_cache_size_bytes config) in
  let utxo_cache := if (utxo_cache_size =? 0)%N then None else Some (utxo_cache_new utxo_cache_size) in
  rollback_buffer ← fetch_from_storage (cfg_max_rollback config) (cfg_safe_mode config) db;
  let storage := reader (from_u64 u64_MAX) db in
  last_processed ← last_processed_point storage (cfg_network config);
  indexer_info ← reader_get IndexerInfoKV storage tt;
  let processed_mempool := match indexer_info with Some i => info_mempool i | None => false end in
  _ ← match indexer_info with
      | Some info => check_cursor info rollback_buffer last_processed
      | None => Ok tt
      end;
  Ok (MkStage db (cfg_indexers config) (cfg_network config) rollback_buffer
        (default DEFAULT_MAX_ROLLBACK (cfg_max_rollback config)) last_processed processed_mempool
        utxo_cache (cfg_stop_after config)).

(** ** [rollback_to_point] *)

(** The inverse of one write, and the removal of its record. *)
Definition undo_kv (point : Point) (kv : RawKey * PreviousValue) : WriteBatch :=
  let '(key, original_kv) := kv in
  [match original_kv with Present prev => Put key prev | NotPresent => Delete key end;
   Delete (encode_key RollbackBufferKV (MkRollbackKey (point_height point) (point_hash point) key))].

Definition undo_batch (blocks_to_undo : list PointWithOriginalKVs) : WriteBatch :=
  blocks_to_undo ≫= λ block, hm_iter (pk_original_kvs block) ≫= undo_kv (pk_point block).

Definition rollback_to_point (unix_ts : u64) (rb_point : Point) (st : Stage) : Res WorkerError Stage :=
  blocks_to_undo ← or_panic (points_since rb_point (st_rollback_buffer st));
  let commit_ts := commit_ts unix_ts (st_db st) in
  db ← or_restart (db_write (sh_db (st_db st)) no_wal (as_u64 commit_ts) (undo_batch blocks_to_undo));
  '(_, rollback_buffer) ← or_panic (rb_rollback_to_point rb_point (st_rollback_buffer st));
  Ok (with_storage (MkStorage db (Some commit_ts) (read_only (st_db st))) rollback_buffer rb_point false
        (st_utxo_cache st) st).

(** ** [Worker] *)
Record Worker : Type := MkWorker { w_indexers : list AnyIndexer; w_mutable : bool }.

Fixpoint create_indexers (l : list TransactionIndexerFactory) : Res Error (list AnyIndexer) :=
  match l with
  | [] => Ok []
  | f :: l => i ← create_indexer f; rest ← create_indexers l; Ok (i :: rest)
  end.

Definition bootstrap (st : Stage) : Res WorkerError Worker :=
  indexers ← or_panic (create_indexers (st_indexers st));
  Ok (MkWorker indexers (negb (rb_is_empty (st_rollback_buffer st)))).

Inductive WorkSchedule : Type := ScheduleUnit (event : ChainEvent) | ScheduleDone.

(** An event received is worked on, unless it is a block above the configured last one. *)
Definition schedule (event : ChainEvent) (st : Stage) : WorkSchedule :=
  match st_stop_after st, event with
  | Some stop, RollForward point _ _ _ =>
      if (stop <? point_height point)%N then ScheduleDone else ScheduleUnit event
  | _, _ => ScheduleUnit event
  end.

(** ** Indexing the transactions of a block *)
Definition run_indexers (indexers : list AnyIndexer) (t : TransactionWithId) (block_index : usize)
    (s : IndexerState DB Ext) : Res Error (IndexerState DB Ext) :=
  for_each indexers s (λ s i, process_tx i t block_index s).

Definition index_tx (readings : nat → MemoryReading) (indexers : list AnyIndexer)
    (s : IndexingTask DB * IndexingContext Ext * option (UtxoCache C)) (t : nat * TransactionWithId) :
    Res Error (IndexingTask DB * IndexingContext Ext * option (UtxoCache C)) :=
  let '(task, ctx, cache) := s in
  let '(block_index, t) := t in
  '(task, ctx) ← run_indexers indexers t (N.of_nat block_index) (task, ctx);
  u ← update_utxo_set (readings block_index) t ctx task cache;
  Ok (us_task u, us_ctx u, us_cache u).

Definition index_txs (readings : nat → MemoryReading) (indexers : list AnyIndexer) (txs : BlockTxs)
    (s : IndexingTask DB * IndexingContext Ext * option (UtxoCache C)) :
    Res Error (IndexingTask DB * IndexingContext Ext * option (UtxoCache C)) :=
  for_each (enumerate txs) s (index_tx readings indexers).

Definition set_info (info : IndexerInfo) (task : IndexingTask DB) : Res Error (IndexingTask DB) :=
  task_set IndexerInfoKV tt info task.

(** ** [execute] *)

(** The task of a block that extends the processed chain. *)
Definition block_task (now : Clock) (w : Worker) (point : Point) (txs : BlockTxs) (st : Stage) :
    Res WorkerError (IndexingTask DB * option (UtxoCache C)) :=
  let task := begin_indexing_task (w_mutable w) (st_db st) in
  '(ctx, cache) ← or_restart (context_new task txs point (st_network st) (st_utxo_cache st));
  '(task, _, cache) ← or_restart (index_txs (clock_memory now 0) (w_indexers w) txs (task, ctx, cache));
  task ← or_restart (set_info (indexer_info_new (point_height point) (point_hash point) false) task);
  task ← or_restart (task_set HashByHeightKV (point_height point) (point_hash point) task);
  Ok (task, cache).

(** Its commit. *)
Definition commit_block (now : Clock) (point : Point) (task : IndexingTask DB)
    (cache : option (UtxoCache C)) (st : Stage) : Res WorkerError Stage :=
  let task := finalize task in
  db ← or_restart (apply_indexing_task (clock_commit now) task point (st_max_rollbacks st) None (st_db st));
  let rollback_buffer :=
    match fin_original_kvs task with
    | Some original_kvs => add_block point original_kvs (st_rollback_buffer st)
    | None => st_rollback_buffer st
    end in
  Ok (with_storage db rollback_buffer point (st_processed_mempool st) cache st).

Definition index_block (now : Clock) (w : Worker) (point : Point) (txs : BlockTxs) (st : Stage) :
    Res WorkerError Stage :=
  '(task, cache) ← block_task now w point txs st;
  commit_block now point task cache st.

Definition roll_forward (now : Clock) (w : Worker) (point : Point) (header : Header) (txs : BlockTxs)
    (tip : Point) (st : Stage) : Res WorkerError (Worker * Stage) :=
  st ← (if st_processed_mempool st
        then rollback_to_point (clock_undo now) (st_last_processed st) st
        else Ok st);
  let expected_height := wrapping_add 64 (point_height (st_last_processed st)) 1 in
  if (point_height point <? expected_height)%N then Ok (w, st)
  else if (expected_height <? point_height point)%N then Err WorkerPanic
  else if decide (prev_blockhash header ≠ point_hash (st_last_processed st)) then Err WorkerPanic
  else
    let w := MkWorker (w_indexers w)
               (w_mutable w || (saturating_sub (point_height tip) (st_max_rollbacks st) <? point_height point)%N) in
    st ← index_block now w point txs st;
    Ok (w, st).

(** One pseudo block of the mempool. *)
Definition index_mempool_block (now : Clock) (w : Worker) (last_processed : Point)
    (s : IndexingTask DB * IndexingContext Ext * option (UtxoCache C)) (b : nat * BlockTxs) :
    Res Error (IndexingTask DB * IndexingContext Ext * option (UtxoCache C)) :=
  let '(task, ctx, cache) := s in
  let '(i, txs) := b in
  let height := wrapping_add 64 (wrapping_add 64 (point_height last_processed) 1) (N.of_nat i) in
  let pseudo_point := MkPoint height (point_hash last_processed) in
  let ctx := update_point pseudo_point ctx in
  '(task, ctx, cache) ← index_txs (clock_memory now i) (w_indexers w) txs (task, ctx, cache);
  task ← set_info (indexer_info_new (point_height pseudo_point) (point_hash pseudo_point) true) task;
  Ok (task, ctx, cache).

Definition mempool_tip_height (last_processed : Point) (blocks : list BlockTxs) : u64 :=
  match blocks with
  | [] => point_height last_processed
  | _ => wrapping_add 64 (wrapping_add 64 (point_height last_processed) 1) (N.of_nat (length blocks - 1))
  end.

Definition mempool_task (now : Clock) (w : Worker) (blocks : list BlockTxs) (st : Stage) :
    Res WorkerError (IndexingTask DB * option (UtxoCache C)) :=
  let task := begin_mempool_indexing_task (st_db st) in
  let mempool_txs := concat blocks in
  let last_processed := st_last_processed st in
  '(ctx, cache) ← or_restart (context_new task mempool_txs last_processed (st_network st) (st_utxo_cache st));
  '(task, _, cache) ← or_restart (for_each (enumerate blocks) (task, ctx, cache)
                                    (index_mempool_block now w last_processed));
  Ok (task, cache).

Definition commit_mempool (now : Clock) (info : MempoolSnapshotInfo) (blocks : list BlockTxs)
    (task : IndexingTask DB) (cache : option (UtxoCache C)) (st : Stage) : Res WorkerError Stage :=
  let last_processed := st_last_processed st in
  let task := finalize task in
  let pseudo_point := MkPoint (mempool_tip_height last_processed blocks) (point_hash last_processed) in
  db ← or_restart (apply_indexing_task (clock_commit now) task pseudo_point (st_max_rollbacks st)
                     (Some (snapshot_timestamp info)) (st_db st));
  let rollback_buffer :=
    match fin_original_kvs task with
    | Some original_kvs =>
        add_block (MkPoint u64_MAX (point_hash last_processed)) original_kvs (st_rollback_buffer st)
    | None => st_rollback_buffer st
    end in
  Ok (with_storage db rollback_buffer last_processed true cache st).

Definition index_mempool (now : Clock) (w : Worker) (info : MempoolSnapshotInfo) (blocks : list BlockTxs)
    (st : Stage) : Res WorkerError Stage :=
  '(task, cache) ← mempool_task now w blocks st;
  commit_mempool now info blocks task cache st.

Definition mempool_blocks (now : Clock) (w : Worker) (info : MempoolSnapshotInfo) (blocks : list BlockTxs)
    (st : Stage) : Res WorkerError Stage :=
  let true_tip := st_last_processed st in
  blocks_to_undo ← or_panic (points_since true_tip (st_rollback_buffer st));
  st ← (match blocks_to_undo with
        | [] => Ok st
        | _ => rollback_to_point (clock_undo now) true_tip st
        end);
  if decide (snapshot_tip info ≠ point_hash (st_last_processed st)) then Ok st
  else index_mempool now w info blocks st.

Definition execute (now : Clock) (w : Worker) (event : ChainEvent) (st : Stage) :
    Res WorkerError (Worker * Stage) :=
  match event with
  | RollForward point header txs tip => roll_forward now w point header txs tip st
  | RollBack rb_point => st ← rollback_to_point (clock_undo now) rb_point st; Ok (w, st)
  | MempoolBlocks info blocks => st ← mempool_blocks now w info blocks st; Ok (w, st)
  end.
End Stage.
Arguments Stage DB C : clear implicits.
