(* ===== verification/Instances.v ===== *)
(** * Reference implementations of the interfaces

    Small instances of the third-party interfaces, on which the closed
    examples are evaluated; each interface with laws is shown to have a model. *)
From S2P Require Import Prelude Sysinfo ByteOrder EncDec Timestamp Types MergeOperation Table Rocks.
From S2P Require Import CoreTables KvStore RollbackBuffer Bitcoin Context AddressIndexers.
From S2P Require Import RunesTables Runes Charms Indexers Stage.

(** A cache that forgets nothing. *)
#[export] Instance gmap_cache V : MokaCache V (gmap TxoRef V) := {|
  moka_new := λ _, ∅;
  moka_get := λ k c, c !! k;
  moka_insert := λ k v c, <[k := v]> c;
  moka_invalidate := λ k c, delete k c;
|}.

#[export] Instance gmap_cache_ok V : MokaCacheOk V (gmap TxoRef V).
Proof.
  split; simpl.
  - intros _ k. apply lookup_empty.
  - intros k v k' c v'. rewrite lookup_insert. case_decide; naive_solver.
  - intros k k' c v'. rewrite lookup_delete. case_decide; naive_solver.
Qed.

Module Simple.
#[export] Existing Instance SimpleBitcoin.simple_bitcoin.
#[export] Existing Instance sorted_hash_order.
#[export] Existing Instance sorted_hash_order_ok.

#[export] Instance simple_ordinals : Ordinals := {|
  decipher := λ _, None;
  minimum_at_height := λ _ _, 0%N;
  rune_is_reserved := λ _, false;
  rune_reserved := λ h i, (h * 2 ^ 32 + i)%N;
  rune_commitment := λ r, le_bytes 16 r;
  COMMIT_CONFIRMATIONS := 6%N;
|}.
#[export] Instance simple_charms : CharmsLib := {| extract_and_verify_spell := λ _, None |}.
#[export] Instance simple_machine : Machine := {|
  system := MkSystemInfo None 0%N 1%N;
  genesis_hash := λ _, replicate 32 x00;
|}.

Abbreviation SimpleExt := (ListMap TransactionIndexer (list byte)).
Abbreviation SimpleCache := (gmap TxoRef (Utxo SimpleExt)).
Abbreviation SimpleStage := (Stage RefDB SimpleCache).
End Simple.
