(* ===== verification/StageLaws.v ===== *)
(** * Rollbacks of the index stage

    A rollback puts back the data of the point it goes to: what the blocks
    (or the mempool) indexed since that point had changed is restored from the
    rollback buffer, whatever indexers ran. *)
From S2P Require Import Prelude ByteOrder EncDec Timestamp Types MergeOperation Table Rocks.
From S2P Require Import CoreTables KvStore KvStoreLaws Commit RollbackBuffer Bitcoin Context.
From S2P Require Import AddressIndexers RunesTables Runes Charms Indexers Stage Instances.

(** ** Data *)

(** Two snapshots agree on the indexed data. *)
Definition same_data (s1 s2 : Snapshot) : Prop := ∀ k, user_key k → s1 !! k = s2 !! k.
#[export] Instance same_data_equiv : Equivalence same_data.
Proof.
  split.
  - by intros s k.
  - intros s1 s2 Heq k Hk. by rewrite Heq.
  - intros s1 s2 s3 H1 H2 k Hk. by rewrite H1, H2.
Qed.

(** The value a record puts back. *)
Definition previous_bytes (pv : PreviousValue) : option RawValue :=
  match pv with Present v => Some v | NotPresent => None end.

Lemma previous_bytes_from o : previous_bytes (previous_value_from o) = o.
Proof. by destruct o. Qed.

Definition revert (kvs : OriginalKVs) (k : RawKey) (o : option RawValue) : option RawValue :=
  match kvs !! k with Some pv => previous_bytes pv | None => o end.

(** The value of a key once blocks are undone, newest first. *)
Definition revert_all (blocks : list PointWithOriginalKVs) (k : RawKey) (o : option RawValue) :
    option RawValue := foldl (λ o b, revert (pk_original_kvs b) k o) o blocks.

Section Undo.
Context `{HashOrderOk}.

Lemma undo_kv_lookup p kv s k :
  user_key k →
  ∃ s', apply_ops (undo_kv p kv) s = Some s' ∧
    s' !! k = if decide (k = kv.1) then previous_bytes kv.2 else s !! k.
Proof.
  intros [Hk _]. destruct kv as [key pv]. cbn [undo_kv apply_ops fst snd].
  assert (encode_key RollbackBufferKV (MkRollbackKey (point_height p) (point_hash p) key) ≠ k) as Hne.
  { intros <-. by apply Hk, rollback_key_prefix. }
  destruct pv as [v|]; cbn [apply_op]; (eexists; split; [reflexivity|]); rewrite lookup_delete_ne by done.
  - case_decide; [subst; by rewrite lookup_insert_eq|by rewrite lookup_insert_ne].
  - case_decide; [subst; by rewrite lookup_delete_eq|by rewrite lookup_delete_ne].
Qed.

Lemma undo_kvs_lookup p (l : list (RawKey * PreviousValue)) s k :
  user_key k → NoDup l.*1 →
  ∃ s', apply_ops (l ≫= undo_kv p) s = Some s' ∧
    s' !! k = match alist_get k l with Some pv => previous_bytes pv | None => s !! k end.
Proof.
  intros Hk. revert s. induction l as [|kv l IH]; intros s Hnd; [by exists s|].
  apply NoDup_cons in Hnd as [Hkv Hnd]. cbn [mbind list_bind]. rewrite apply_ops_app.
  destruct (undo_kv_lookup p kv s k Hk) as (s1 & -> & Hs1).
  destruct (IH s1 Hnd) as (s2 & Hs2 & Hval). exists s2. split; [exact Hs2|].
  rewrite Hval, Hs1. destruct kv as [key pv]. cbn [alist_get fst snd] in *.
  destruct (decide (k = key)) as [->|Hne]; [|done].
  by rewrite (proj2 (alist_get_None key l) Hkv).
Qed.

(** The batch of a rollback never fails, and puts back the values of the
    undone blocks. *)
Lemma undo_batch_total blocks s : is_Some (apply_ops (undo_batch blocks) s).
Proof.
  apply apply_ops_total. unfold undo_batch. apply Forall_bind, Forall_true. intros b.
  apply Forall_bind, Forall_true. intros [k pv]. simpl.
  apply Forall_cons. split; [by destruct pv|by apply Forall_singleton].
Qed.

Lemma undo_batch_lookup blocks s s' k :
  user_key k → apply_ops (undo_batch blocks) s = Some s' → s' !! k = revert_all blocks k (s !! k).
Proof.
  intros Hk. revert s. induction blocks as [|b blocks IH]; intros s Hs; [by simplify_eq/=|].
  unfold undo_batch in Hs. cbn [mbind list_bind] in Hs. rewrite apply_ops_app in Hs.
  destruct (undo_kvs_lookup (pk_point b) (hm_iter (pk_original_kvs b)) s k Hk) as (s1 & Hs1 & Hval);
    [apply hm_iter_nodup|].
  rewrite Hs1 in Hs. apply IH in Hs. by rewrite Hs, Hval, alist_get_hm_iter.
Qed.
End Undo.

(** ** The task of an event is ready to commit *)

(** Counters of the store are numbers. *)
Definition counters_ok (s : Snapshot) : Prop :=
  ∀ k v, counter_key k → s !! k = Some v → is_Some (ok (decode_all v : Res DecodingError u128)).

(** Keys are shorter than the address space. *)
Definition keys_fit {DB} (task : IndexingTask DB) : Prop :=
  ∀ k, k ∈ dom (write_buffer task) → fits 64 (N.of_nat (length k)).

(** The keys written while the transactions of a block are indexed. *)
Definition utxo_key (k : RawKey) : Prop := [CORE_INDEXER_TAG; core_indexer_id UtxoByTxoRefTag] `prefix_of` k.
Definition tx_key (k : RawKey) : Prop := custom_key k ∨ utxo_key k.
Definition any_key (k : RawKey) : Prop := True.
Definition mempool_key (k : RawKey) : Prop := tx_key k ∨ [CORE_INDEXER_TAG; x49] `prefix_of` k.

Section TaskReady.
Context {DB : Type} `{RocksDBOk DB} `{HashOrderOk} `{Ordinals} `{!CharmsLib} `{!Machine}.
Context {Ext : Type} `{!IndexMap TransactionIndexer (list byte) Ext}.
Context {C : Type} `{!MokaCache (Utxo Ext) C}.

Lemma wf_buffer_ok (t : IndexingTask DB) :
  task_wf t → counters_ok (task_snapshot t) → buffer_ok (write_buffer t) (task_snapshot t).
Proof.
  intros Hwf Hc k. unfold effect. destruct (write_buffer t !! k) as [a|] eqn:Ha; [|done].
  destruct (Hwf _ _ Ha) as (_ & Hfits & Hkind). destruct a as [v| |op]; [done..|].
  cbn [action_value]. rewrite merge_operator_one by exact Hfits.
  destruct (task_snapshot t !! k) as [b|] eqn:Hb; [|done].
  destruct (Hc _ _ Hkind Hb) as [x Hx]. rewrite Hx. done.
Qed.

Lemma steps_ready P (t0 t : IndexingTask DB) sh :
  task_steps P t0 t → readable t0 → task_wf t0 → originals_ok t0 → task_snapshot t0 = db_latest (sh_db sh) →
  counters_ok (db_latest (sh_db sh)) → keys_fit t → task_ready t sh.
Proof.
  intros Hs Hr Hwf0 Ho0 Hsnap Hc Hk. pose proof (task_steps_wf _ _ _ Hs Hwf0) as Hwf.
  assert (task_snapshot t = db_latest (sh_db sh)) as Hsnap'.
  { rewrite <-Hsnap. symmetry. by eapply task_snapshot_proper, task_steps_same. }
  split; [by eapply same_task_readable, Hr; eapply task_steps_same|exact Hsnap'| | | |].
  - by eapply task_steps_originals.
  - intros k Hin. apply elem_of_dom in Hin as Hin'. destruct Hin' as [a Ha]. split; [by apply (Hwf k a)|].
    split; [by apply Hk|]. by apply Forall_true.
  - apply wf_buffer_ok; [done|]. by rewrite Hsnap'.
  - intros k a Ha. by apply (Hwf k a).
Qed.

Lemma begin_wf mutable (sh : StorageHandler DB) : task_wf (begin_indexing_task mutable sh).
Proof. intros k a Ha. cbn [begin_indexing_task write_buffer] in Ha. by rewrite lookup_empty in Ha. Qed.
Lemma begin_mempool_wf (sh : StorageHandler DB) : task_wf (begin_mempool_indexing_task sh).
Proof. intros k a Ha. cbn [begin_mempool_indexing_task write_buffer] in Ha. by rewrite lookup_empty in Ha. Qed.

(** *** The steps of a block *)
Lemma utxo_table : index_table utxo_key (UtxoByTxoRefKV (Ext:=Ext)).
Proof. by apply core_index_table. Qed.

Lemma update_utxo_set_steps {reading : MemoryReading} t (ctx : IndexingContext Ext) (task : IndexingTask DB)
    (cache : option (UtxoCache C)) u :
  update_utxo_set reading t ctx task cache = Ok u → task_steps utxo_key task (us_task u).
Proof.
  unfold update_utxo_set. intros Hu. apply res_bind_ok in Hu as ([c1 t1] & Ht1 & Hu).
  apply res_bind_ok in Hu as (s & Hs & Hu). injection Hu as <-. simpl. transitivity t1.
  - revert Ht1. apply (for_each_inv (λ s, task_steps utxo_key task s.2)); [|reflexivity].
    intros i [c2 t2] [c3 t3] _ Ht2 Hc. simpl in *. apply res_bind_ok in Hc as (t4 & Ht4 & Hc).
    injection Hc as _ <-. apply (task_delete_steps _ _ _ _ _ utxo_table) in Ht4. by etransitivity.
  - revert Hs. apply (for_each_inv (λ s, task_steps utxo_key t1 (us_task s))); [|reflexivity].
    intros [j o] s1 s2 _ Ht2 Hp. unfold produce_output in Hp.
    destruct (is_op_return _); [by injection Hp as <-|]. case_decide; [by injection Hp as <-|].
    apply res_bind_ok in Hp as (t4 & Ht4 & Hp). injection Hp as <-. simpl.
    apply (task_set_steps _ _ _ _ _ _ utxo_table) in Ht4. by etransitivity.
Qed.

Lemma run_indexers_steps indexers t n (task task' : IndexingTask DB) (ctx ctx' : IndexingContext Ext) :
  task_wf task → run_indexers indexers t n (task, ctx) = Ok (task', ctx') → task_steps custom_key task task'.
Proof.
  intros Hwf. apply (for_each_inv (λ s, task_steps custom_key task s.1)); [|reflexivity].
  intros i [t1 c1] [t2 c2] _ Ht1 Hp. simpl in *.
  apply (process_tx_ok i) in Hp as [Hp _]; [by etransitivity|by eapply task_steps_wf].
Qed.

Lemma index_txs_steps {readings : nat → MemoryReading} indexers txs (task task' : IndexingTask DB) (ctx ctx' : IndexingContext Ext)
    (cache cache' : option (UtxoCache C)) :
  task_wf task → index_txs readings indexers txs (task, ctx, cache) = Ok (task', ctx', cache') →
  task_steps tx_key task task'.
Proof.
  intros Hwf. apply (for_each_inv (λ s, task_steps tx_key task s.1.1)); [|reflexivity].
  intros [j t] [[t1 c1] ca1] [[t2 c2] ca2] _ Ht1 Hi. simpl in *.
  apply res_bind_ok in Hi as ([t3 c3] & Ht3 & Hi). apply res_bind_ok in Hi as (u & Hu & Hi).
  injection Hi as <- _ _. apply run_indexers_steps in Ht3; [|by eapply task_steps_wf].
  apply update_utxo_set_steps in Hu. etransitivity; [exact Ht1|]. transitivity t3.
  - eapply task_steps_mono; [|exact Ht3]. intros k Hk. by left.
  - eapply task_steps_mono; [|exact Hu]. intros k Hk. by right.
Qed.

Lemma or_restart_ok {E A} (r : Res E A) a : or_restart r = Ok a → r = Ok a.
Proof. destruct r; simpl; congruence. Qed.
Lemma or_panic_ok {E A} (r : Res E A) a : or_panic r = Ok a → r = Ok a.
Proof. destruct r; simpl; congruence. Qed.

Lemma block_task_inv {now : Clock} w point txs (st : Stage DB C) task cache :
  block_task now w point txs st = Ok (task, cache) →
  ∃ t1 t2, task_steps tx_key (begin_indexing_task (w_mutable w) (st_db st)) t1 ∧
    set_info (indexer_info_new (point_height point) (point_hash point) false) t1 = Ok t2 ∧
    task_set HashByHeightKV (point_height point) (point_hash point) t2 = Ok task.
Proof.
  unfold block_task. intros Hb. apply res_bind_ok in Hb as ([ctx c1] & _ & Hb).
  apply res_bind_ok in Hb as ([[t1 ctx1] c2] & Ht1 & Hb). apply or_restart_ok in Ht1.
  apply res_bind_ok in Hb as (t2 & Ht2 & Hb). apply or_restart_ok in Ht2.
  apply res_bind_ok in Hb as (t3 & Ht3 & Hb). apply or_restart_ok in Ht3. injection Hb as <- _.
  apply index_txs_steps in Ht1; [|apply begin_wf]. eauto.
Qed.

Lemma set_any {K V} `{Encode K, Encode V} id (key : K) (value : V) (t t' : IndexingTask DB) :
  id ≠ x52 → id ≠ x54 → task_set (core_table V id) key value t = Ok t' → task_steps any_key t t'.
Proof.
  intros Hr Ht Hs. eapply task_steps_mono;
    [|exact (task_set_steps _ _ _ _ _ _ (core_index_table (K:=K) (V:=V) id Hr Ht) Hs)]. done.
Qed.

Lemma block_task_steps {now : Clock} w point txs (st : Stage DB C) task cache :
  block_task now w point txs st = Ok (task, cache) →
  task_steps any_key (begin_indexing_task (w_mutable w) (st_db st)) task.
Proof.
  intros (t1 & t2 & Ht1 & Ht2 & Ht3)%block_task_inv.
  transitivity t1; [by eapply task_steps_mono, Ht1|]. transitivity t2.
  - by apply (set_any x49) in Ht2.
  - by apply (set_any x48) in Ht3.
Qed.

Lemma mempool_task_steps {now : Clock} w blocks (st : Stage DB C) task cache :
  mempool_task now w blocks st = Ok (task, cache) →
  task_steps mempool_key (begin_mempool_indexing_task (st_db st)) task.
Proof.
  unfold mempool_task. intros Hb. apply res_bind_ok in Hb as ([ctx c1] & _ & Hb).
  apply res_bind_ok in Hb as ([[t1 ctx1] c2] & Ht1 & Hb). apply or_restart_ok in Ht1. injection Hb as <- _.
  revert Ht1.
  apply (for_each_inv (λ s, task_steps mempool_key (begin_mempool_indexing_task (st_db st)) s.1.1)); [|reflexivity].
  intros [j txs] [[t2 ctx2] c3] [[t3 ctx3] c4] _ Ht2 Hi. simpl in *. unfold index_mempool_block in Hi.
  apply res_bind_ok in Hi as ([[t4 ctx4] c5] & Ht4 & Hi). apply res_bind_ok in Hi as (t5 & Ht5 & Hi).
  injection Hi as <- _ _. apply index_txs_steps in Ht4; [|eapply task_steps_wf; [exact Ht2|apply begin_mempool_wf]].
  etransitivity; [exact Ht2|]. transitivity t4; [by eapply task_steps_mono, Ht4; left|].
  unfold set_info in Ht5. apply (task_set_steps (λ k, [CORE_INDEXER_TAG; x49] `prefix_of` k)) in Ht5.
  - eapply task_steps_mono; [|exact Ht5]. intros k Hk. by right.
  - by apply core_index_table.
Qed.
End TaskReady.

(** ** Commits can be reverted *)
Section Revert.
Context {DB : Type} `{RocksDBOk DB} `{HashOrderOk}.

Lemma counter_user k : counter_key k → user_key k.
Proof. intros Hk. apply custom_user_key. etransitivity; [|exact Hk]. by apply (prefix_app_r [_] [_]). Qed.

Lemma counters_ok_effect wb s s' :
  (∀ k a, wb !! k = Some a → allowed k a) → counters_ok s →
  (∀ k, user_key k → effect wb s k = Some (s' !! k)) → counters_ok s'.
Proof.
  intros Hwf Hc Heff k v Hk Hv. pose proof (Heff k (counter_user k Hk)) as Hek. unfold effect in Hek.
  destruct (wb !! k) as [a|] eqn:Ha.
  - destruct (Hwf _ _ Ha) as (_ & Hfits & Hkind). destruct a as [x| |op]; [done..|].
    rewrite Hv in Hek. cbn [action_value] in Hek. rewrite merge_operator_one in Hek by exact Hfits.
    destruct (s !! k) as [b|] eqn:Hb.
    + destruct (ok (decode_all b)) as [x|] eqn:Hx; [|done]. injection Hek as <-.
      rewrite decode_all_encode; [done|]. apply apply_operand_fits. by eapply decode_u128_fits.
    + injection Hek as <-. rewrite decode_all_encode; [done|]. apply apply_operand_fits, fits_0.
  - injection Hek as Hek. rewrite Hv in Hek. by apply (Hc k).
Qed.

Lemma counters_ok_same s s' : same_data s s' → counters_ok s → counters_ok s'.
Proof. intros Heq Hc k v Hk Hv. apply (Hc k); [done|]. by rewrite (Heq k (counter_user k Hk)). Qed.

Lemma revert_commit (task : IndexingTask DB) (o : OriginalKVs) (s s' : Snapshot) (k : RawKey) :
  originals_ok task → task_snapshot task = s → original_kvs task = Some o →
  effect (write_buffer task) s k = Some (s' !! k) → revert o k (s' !! k) = s !! k.
Proof.
  intros Horig Hsnap Ho Heff. unfold originals_ok in Horig. rewrite Ho, Hsnap in Horig.
  unfold revert. rewrite Horig. case_decide as Hd; [apply previous_bytes_from|].
  rewrite effect_untouched in Heff by exact Hd. by injection Heff.
Qed.

Lemma ready_commit ts (task : IndexingTask DB) p max_rollback mempool_ts sh :
  storage_ok sh → commit_fresh ts sh → task_ready task sh → task_wf task →
  counters_ok (db_latest (sh_db sh)) → point_ok p →
  ∃ sh', apply_indexing_task ts (finalize task) p max_rollback mempool_ts sh = Ok sh' ∧
    storage_ok sh' ∧ counters_ok (db_latest (sh_db sh')) ∧
    (∀ o k, original_kvs task = Some o → user_key k →
      revert o k (db_latest (sh_db sh') !! k) = db_latest (sh_db sh) !! k) ∧
    commit_result ts (finalize task) p max_rollback mempool_ts sh sh'.
Proof.
  intros Hok Hfresh Hready Hwf Hc Hp.
  destruct (apply_indexing_task_spec ts _ p max_rollback mempool_ts _ Hok Hfresh
              (ready_committable _ _ Hready) Hp) as (sh' & Happly & Hres).
  pose proof (br_data _ _ _ _ _ _ _ (cr_batch _ _ _ _ _ _ _ Hres)) as Hdata.
  exists sh'. split; [exact Happly|]. split; [apply Hres|]. split; [by eapply counters_ok_effect|].
  split; [|exact Hres]. intros o k Ho Hk.
  eapply revert_commit; [apply Hready|apply Hready|exact Ho|by apply Hdata].
Qed.
End Revert.

(** ** The stage *)
Section StageLaws.
Context {DB : Type} `{RocksDBOk DB} `{HashOrderOk} `{Ordinals} `{!CharmsLib} `{!Machine}.
Context {Ext : Type} `{!IndexMap TransactionIndexer (list byte) Ext}.
Context {C : Type} `{!MokaCache (Utxo Ext) C}.

Abbreviation data st := (db_latest (sh_db (st_db st))).

Record stage_ok (st : Stage DB C) : Prop := {
  so_storage : storage_ok (st_db st);
  so_counters : counters_ok (data st);
}.

(** What indexing a block or the mempool does to the stage, when rollback
    data is kept: [point] is the entry of the rollback buffer. *)
Record committed (point last : Point) (mempool : bool) (st st' : Stage DB C) : Prop := {
  co_ok : stage_ok st';
  co_revert : ∃ o, st_rollback_buffer st' = add_block point o (st_rollback_buffer st) ∧
    ∀ k, user_key k → revert o k (data st' !! k) = data st !! k;
  co_last : st_last_processed st' = last;
  co_mempool : st_processed_mempool st' = mempool;
}.

(** The task of an event is well formed and ready to be committed. *)
Lemma block_task_ready {now : Clock} w point txs (st : Stage DB C) task cache :
  stage_ok st → block_task now w point txs st = Ok (task, cache) → keys_fit task →
  task_wf task ∧ task_ready task (st_db st).
Proof.
  intros [Hst Hc] Htask Hk. pose proof (block_task_steps _ _ _ _ _ _ Htask) as Hsteps.
  split; [eapply task_steps_wf; [exact Hsteps|apply begin_wf]|].
  eapply steps_ready; [exact Hsteps|by apply begin_readable|apply begin_wf|apply begin_originals|by apply begin_snapshot|done|done].
Qed.

Lemma mempool_task_ready {now : Clock} w blocks (st : Stage DB C) task cache :
  stage_ok st → mempool_task now w blocks st = Ok (task, cache) → keys_fit task →
  task_wf task ∧ task_ready task (st_db st).
Proof.
  intros [Hst Hc] Htask Hk. pose proof (mempool_task_steps _ _ _ _ _ Htask) as Hsteps.
  split; [eapply task_steps_wf; [exact Hsteps|apply begin_mempool_wf]|].
  eapply steps_ready; [exact Hsteps|exact (begin_readable true _ Hst)|apply begin_mempool_wf| |by apply begin_mempool_snapshot|done|done].
  exact (begin_originals true (st_db st)).
Qed.

Lemma commit_block_ok now w point txs (st : Stage DB C) task cache :
  stage_ok st → block_task now w point txs st = Ok (task, cache) → keys_fit task → point_ok point →
  commit_fresh (clock_commit now) (st_db st) → w_mutable w = true →
  ∃ st', index_block now w point txs st = Ok st' ∧
    committed point point (st_processed_mempool st) st st'.
Proof.
  intros Hok Htask Hk Hp Hfresh Hm. destruct (block_task_ready _ _ _ _ _ _ Hok Htask Hk) as [Hwf Hready].
  destruct Hok as [Hst Hc]. pose proof (block_task_steps _ _ _ _ _ _ Htask) as Hsteps. rewrite Hm in Hsteps.
  destruct (ready_commit (clock_commit now) task point (st_max_rollbacks st) None (st_db st))
    as (sh' & Happly & Hok' & Hc' & Hrev & _); [done..|].
  assert (∃ o, original_kvs task = Some o) as [o Ho].
  { destruct (task_steps_same _ _ _ Hsteps) as (_ & _ & _ & Hiff). apply Hiff. by eexists. }
  unfold index_block. rewrite Htask. cbn [rbind]. unfold commit_block. cbv zeta.
  rewrite Happly. cbn [or_restart map_err rbind finalize fin_original_kvs]. rewrite Ho.
  eexists. split; [reflexivity|]. split; [by split| |done|done].
  exists o. split; [done|]. intros k Huk. by apply (Hrev o k).
Qed.

Lemma commit_mempool_ok now w info blocks (st : Stage DB C) task cache :
  stage_ok st → mempool_task now w blocks st = Ok (task, cache) → keys_fit task →
  fits 64 (mempool_tip_height (st_last_processed st) blocks) →
  length (point_hash (st_last_processed st)) = 32 →
  commit_fresh (clock_commit now) (st_db st) →
  ∃ st', index_mempool now w info blocks st = Ok st' ∧
    committed (MkPoint u64_MAX (point_hash (st_last_processed st))) (st_last_processed st) true st st' ∧
    ∀ k, user_key k → effect (write_buffer task) (data st) k = Some (data st' !! k).
Proof.
  intros Hok Htask Hk Hph Hpl Hfresh. destruct (mempool_task_ready _ _ _ _ _ Hok Htask Hk) as [Hwf Hready].
  destruct Hok as [Hst Hc]. pose proof (mempool_task_steps _ _ _ _ _ Htask) as Hsteps.
  destruct (ready_commit (clock_commit now) task
              (MkPoint (mempool_tip_height (st_last_processed st) blocks) (point_hash (st_last_processed st)))
              (st_max_rollbacks st) (Some (snapshot_timestamp info)) (st_db st))
    as (sh' & Happly & Hok' & Hc' & Hrev & Hres); [done..|by split|].
  assert (∃ o, original_kvs task = Some o) as [o Ho].
  { destruct (task_steps_same _ _ _ Hsteps) as (_ & _ & _ & Hiff). apply Hiff. by eexists. }
  unfold index_mempool. rewrite Htask. cbn [rbind]. unfold commit_mempool. cbv zeta.
  rewrite Happly. cbn [or_restart map_err rbind finalize fin_original_kvs]. rewrite Ho.
  eexists. split; [reflexivity|]. split; [split; [by split| |done|done]|].
  - exists o. split; [done|]. intros k Huk. by apply (Hrev o k).
  - exact (br_data _ _ _ _ _ _ _ (cr_batch _ _ _ _ _ _ _ Hres)).
Qed.

(** C10: What an event buffers is typed by its keys: no entry of the rollback
    buffer or of the timestamps is touched, counters are only merged, with
    amounts that fit their type, and everything else is only set or deleted.
    So the merge operator never fails when the task is committed: the commit
    succeeds, and the counters of the new store are numbers again. *)
Theorem event_writes_are_typed (now : Clock) ts w point txs blocks (st : Stage DB C) task cache p mempool_ts :
  stage_ok st →
  block_task now w point txs st = Ok (task, cache) ∨ mempool_task now w blocks st = Ok (task, cache) →
  keys_fit task → point_ok p → commit_fresh ts (st_db st) →
  (∀ k a, write_buffer task !! k = Some a →
    user_key k ∧
    match a with
    | Merge_ (Increment n) | Merge_ (Decrement n) => counter_key k ∧ fits 128 n
    | Set_ _ | Delete_ => ¬ counter_key k
    end) ∧
  ∃ sh', apply_indexing_task ts (finalize task) p (st_max_rollbacks st) mempool_ts (st_db st) = Ok sh' ∧
    storage_ok sh' ∧ counters_ok (db_latest (sh_db sh')).
Proof.
  intros Hok Htask Hk Hp Hfresh. assert (task_wf task ∧ task_ready task (st_db st)) as [Hwf Hready].
  { destruct Htask; [by eapply block_task_ready|by eapply mempool_task_ready]. }
  destruct Hok as [Hst Hc].
  split.
  - intros k a Ha. destruct (Hwf k a Ha) as (Huser & Hfits & Hkind). split; [done|].
    destruct a as [v| |[n|n]]; done.
  - destruct (ready_commit ts task p (st_max_rollbacks st) mempool_ts (st_db st))
      as (sh' & Happly & Hok' & Hc' & _); [done..|]. by exists sh'.
Qed.

(** ** [rollback_to_point] *)
Lemma rollback_to_point_ok ts p (st : Stage DB C) newer e older :
  storage_ok (st_db st) → commit_fresh ts (st_db st) →
  rb_points (st_rollback_buffer st) = newer ++ e :: older → pk_point e = p →
  Forall (λ x, pk_point x ≠ p) newer →
  ∃ st', rollback_to_point ts p st = Ok st' ∧ storage_ok (st_db st') ∧
    (∀ k, user_key k → data st' !! k = revert_all newer k (data st !! k)) ∧
    st_rollback_buffer st' = with_points (e :: older) (st_rollback_buffer st) ∧
    st_last_processed st' = p ∧ st_processed_mempool st' = false.
Proof.
  intros (Hfits & Hlow & _) Hfresh Hpts He Hn. unfold rollback_to_point, points_since, rb_rollback_to_point.
  rewrite (position_first p (st_rollback_buffer st) newer e older Hpts He Hn). rewrite Hpts.
  rewrite take_app_length, drop_app_length. cbn [or_panic map_err rbind].
  set (cts := commit_ts ts (st_db st)) in *.
  destruct (undo_batch_total newer (db_latest (sh_db (st_db st)))) as [s' Hs'].
  destruct (db_write_ok (sh_db (st_db st)) no_wal (as_u64 cts) (undo_batch newer) s') as (db' & Hw & Hlast & Hlow' & Hsnap).
  { apply Hfresh. }
  { rewrite db_snapshot_latest; [exact Hs'|]. apply N.lt_le_incl, Hfresh. }
  rewrite Hw. cbn [or_restart map_err rbind]. eexists. split; [reflexivity|].
  cbn [with_storage st_db st_rollback_buffer st_last_processed st_processed_mempool sh_db].
  split; [|split; [|done]].
  - pose proof (as_u64_fits cts) as Hf. destruct Hfresh as [_ Hle]. fold cts in Hle.
    unfold storage_ok. cbn [sh_db previous_timestamp]. rewrite Hlast, Hlow'. split; [done|]. split; [unfold fits in *; lia|done].
  - intros k Hk. unfold db_latest at 1. rewrite Hlast, Hsnap, N.leb_refl.
    by apply undo_batch_lookup.
Qed.

(** A point that is not in the buffer cannot be gone back to. *)
Lemma rollback_unknown_panics ts p (st : Stage DB C) :
  Forall (λ x, pk_point x ≠ p) (rb_points (st_rollback_buffer st)) → rollback_to_point ts p st = Err WorkerPanic.
Proof.
  intros Hn. unfold rollback_to_point, points_since. destruct (position p (st_rollback_buffer st)) as [n|] eqn:Hpos; [|done].
  apply position_inv in Hpos as (newer & e & older & Hpts & He & _). rewrite Forall_forall in Hn.
  destruct (Hn e); [rewrite Hpts; apply elem_of_app; right; by left|done].
Qed.

(** ** Blocks and mempool snapshots indexed since a state *)
Inductive indexed (st0 : Stage DB C) : list Point → Stage DB C → Prop :=
| indexed_nil : indexed st0 [] st0
| indexed_block ps st1 st2 now w point txs task cache :
    indexed st0 ps st1 → w_mutable w = true → block_task now w point txs st1 = Ok (task, cache) →
    keys_fit task → point_ok point → commit_fresh (clock_commit now) (st_db st1) →
    index_block now w point txs st1 = Ok st2 → indexed st0 (point :: ps) st2
| indexed_mempool ps st1 st2 now w info blocks task cache :
    indexed st0 ps st1 → mempool_task now w blocks st1 = Ok (task, cache) → keys_fit task →
    fits 64 (mempool_tip_height (st_last_processed st1) blocks) →
    length (point_hash (st_last_processed st1)) = 32 →
    commit_fresh (clock_commit now) (st_db st1) →
    index_mempool now w info blocks st1 = Ok st2 →
    indexed st0 (MkPoint u64_MAX (point_hash (st_last_processed st1)) :: ps) st2.

(** What the rollback buffer knows of them. *)
Definition undoable (st0 : Stage DB C) (ps : list Point) (st : Stage DB C) : Prop :=
  stage_ok st ∧ capacity (st_rollback_buffer st) = capacity (st_rollback_buffer st0) ∧
  ∃ newer, pk_point <$> newer = ps ∧
    rb_points (st_rollback_buffer st) =
      take (N.to_nat (capacity (st_rollback_buffer st0))) (newer ++ rb_points (st_rollback_buffer st0)) ∧
    ∀ k, user_key k → revert_all newer k (data st !! k) = data st0 !! k.

Lemma take_cons_take {A} n (x : A) l : take n (x :: take n l) = take n (x :: l).
Proof. destruct n as [|n]; [done|]. cbn [take]. f_equal. rewrite take_take. f_equal. lia. Qed.

Lemma committed_undoable st0 ps st1 st2 point last mempool :
  undoable st0 ps st1 → committed point last mempool st1 st2 → undoable st0 (point :: ps) st2.
Proof.
  intros (_ & Hcap & newer & <- & Hpts & Hrev) [Hok (o & Hrb & Ho) _ _].
  split; [exact Hok|]. split; [by rewrite Hrb|].
  exists (MkPointKVs point o :: newer). split; [done|]. split.
  - rewrite Hrb. unfold add_block, with_points. cbn [rb_points]. rewrite truncate_take.
    unfold capacity in *. rewrite Hcap, Hpts. apply take_cons_take.
  - intros k Hk. unfold revert_all. cbn [foldl pk_original_kvs]. rewrite Ho by done. by apply Hrev.
Qed.

Lemma indexed_undoable st0 ps st :
  stage_ok st0 → rb_bounded (st_rollback_buffer st0) → indexed st0 ps st → undoable st0 ps st.
Proof.
  intros Hok0 Hb. induction 1 as [|ps st1 st2 now w point txs task cache _ IH Hm Ht Hk Hp Hf Hi
                                  |ps st1 st2 now w info blocks task cache _ IH Ht Hk Hh Hl Hf Hi].
  - split; [done|]. split; [done|]. exists []. split; [done|]. split; [|done].
    rewrite take_ge; [done|]. unfold rb_bounded, rb_len in Hb. simpl. lia.
  - destruct IH as [Hok1 IH].
    destruct (commit_block_ok now w point txs st1 task cache) as (st' & Hst' & Hco); [done..|].
    rewrite Hi in Hst'. injection Hst' as <-. by eapply committed_undoable.
  - destruct IH as [Hok1 IH].
    destruct (commit_mempool_ok now w info blocks st1 task cache) as (st' & Hst' & Hco & _); [done..|].
    rewrite Hi in Hst'. injection Hst' as <-. by eapply committed_undoable.
Qed.

(** C3: A rollback restores the index.  From a state whose newest block is
    [p], whatever blocks and mempool snapshots are indexed next: when they are
    fewer than the rollback buffer holds, rolling back to [p] succeeds and
    leaves in the latest data every key of the index as it was at [p] (the
    records of the served timestamps and the rollback records are not among
    them), with [p] as the processed tip; when they are not, [p] has left the
    buffer and the stage panics. *)
Theorem rollback_restores (ts : u64) (st0 st : Stage DB C) (ps : list Point)
    (e : PointWithOriginalKVs) (older : list PointWithOriginalKVs) :
  stage_ok st0 → rb_bounded (st_rollback_buffer st0) → rb_points (st_rollback_buffer st0) = e :: older →
  indexed st0 ps st → pk_point e ∉ ps → commit_fresh ts (st_db st) →
  if (N.of_nat (length ps) <? capacity (st_rollback_buffer st0))%N then
    ∃ st', rollback_to_point ts (pk_point e) st = Ok st' ∧ stage_ok st' ∧
      same_data (data st') (data st0) ∧ st_last_processed st' = pk_point e ∧
      st_processed_mempool st' = false ∧
      ∃ kept, rb_points (st_rollback_buffer st') = e :: kept ∧ kept `prefix_of` older
  else rollback_to_point ts (pk_point e) st = Err WorkerPanic.
Proof.
  intros Hok0 Hb Hpts0 Hidx Hnot Hfresh.
  destruct (indexed_undoable st0 ps st Hok0 Hb Hidx) as ([Hst Hc] & Hcap & newer & <- & Hpts & Hrev).
  rewrite length_fmap. assert (Forall (λ x, pk_point x ≠ pk_point e) newer) as Hne.
  { apply Forall_forall. intros x Hx Heq. apply Hnot. rewrite <-Heq. by apply list_elem_of_fmap_2. }
  set (n := N.to_nat (capacity (st_rollback_buffer st0))) in *.
  destruct (N.ltb_spec (N.of_nat (length newer)) (capacity (st_rollback_buffer st0))) as [Hlen|Hlen].
  - assert (rb_points (st_rollback_buffer st) = newer ++ e :: take (n - length newer - 1) older) as Hpts'.
    { rewrite Hpts, Hpts0, take_app, take_ge by lia. f_equal.
      destruct (n - length newer) as [|m] eqn:Hm; [lia|]. cbn [take]. f_equal. f_equal. lia. }
    destruct (rollback_to_point_ok ts (pk_point e) st newer e (take (n - length newer - 1) older))
      as (st' & Hroll & Hst' & Hdata & Hrb & Hlast & Hmem); [done..|].
    assert (same_data (data st') (data st0)) as Hsame.
    { intros k Hk. by rewrite Hdata, Hrev. }
    exists st'. split_and!; [done| |done|done|done|].
    + split; [done|]. eapply counters_ok_same; [symmetry; exact Hsame|apply Hok0].
    + exists (take (n - length newer - 1) older). rewrite Hrb. split; [done|apply prefix_take].
  - apply rollback_unknown_panics. rewrite Hpts, take_app_le by lia. by apply Forall_take.
Qed.
End StageLaws.

(** ** Closed example: a block on top of block 1, then back *)
Module StageExamples.
Import Simple SimpleBitcoin.

Definition p1 : Point := MkPoint 1%N (replicate 32 x01).
Definition p2 : Point := MkPoint 2%N (replicate 32 x02).
Definition coinbase2 : TransactionWithId :=
  MkTxWithId (replicate 32 xc2) (MkSimpleTx [MkSimpleIn null_outpoint None] [MkSimpleOut 5000%N [x51]]).
Definition e1 : PointWithOriginalKVs := MkPointKVs p1 ∅.

Definition ex_stage : SimpleStage :=
  MkStage (MkStorage [] None false) [] Regtest (MkRollbackBuffer [e1] 18%N true) 16%N p1 false None None.
Definition ex_worker : Worker :=
  MkWorker [ITxCountByAddress MkTxCountByAddressIndexer; IUtxosByAddress MkUtxosByAddressIndexer] true.
Definition no_reading : nat → nat → MemoryReading := λ _ _, MkMemoryReading 0%N 0%N 1%N.
Definition ex_now : Clock := MkClock 100%N 100%N no_reading.

Definition ex_task : IndexingTask RefDB * option (UtxoCache SimpleCache) :=
  unwrap_or (begin_indexing_task true (st_db ex_stage), None) (block_task ex_now ex_worker p2 [coinbase2] ex_stage).
Definition ex_stage2 : SimpleStage :=
  unwrap_or ex_stage (index_block ex_now ex_worker p2 [coinbase2] ex_stage).

Lemma ex_stage_ok : stage_ok ex_stage.
Proof.
  split; [split_and!; [vm_compute; reflexivity|vm_compute; reflexivity|exact I]|].
  intros k v _ Hv. unfold db_latest in Hv. simpl in Hv. by rewrite lookup_empty in Hv.
Qed.

Lemma ex_indexed : indexed ex_stage [p2] ex_stage2.
Proof.
  apply (indexed_block _ [] ex_stage ex_stage2 ex_now ex_worker p2 [coinbase2] ex_task.1 ex_task.2).
  - constructor.
  - reflexivity.
  - rewrite <-surjective_pairing. apply is_ok_unwrap. vm_compute. reflexivity.
  - apply (bool_decide_unpack (set_Forall (λ k : RawKey, fits 64 (N.of_nat (length k)))
             (dom (write_buffer ex_task.1)))). vm_compute. reflexivity.
  - split; vm_compute; reflexivity.
  - apply refdb_fresh. vm_compute. reflexivity.
  - apply is_ok_unwrap. vm_compute. reflexivity.
Qed.

Lemma event_writes_are_typed_witness :
  (∀ k a, write_buffer ex_task.1 !! k = Some a →
    user_key k ∧
    match a with
    | Merge_ (Increment n) | Merge_ (Decrement n) => counter_key k ∧ fits 128 n
    | Set_ _ | Delete_ => ¬ counter_key k
    end) ∧
  ∃ sh', apply_indexing_task 100%N (finalize ex_task.1) p2 16%N None (st_db ex_stage) = Ok sh' ∧
    storage_ok sh' ∧ counters_ok (db_latest (sh_db sh')).
Proof.
  apply (event_writes_are_typed ex_now 100%N ex_worker p2 [coinbase2] [] ex_stage ex_task.1 ex_task.2 p2 None).
  - apply ex_stage_ok.
  - left. rewrite <-surjective_pairing. apply is_ok_unwrap. vm_compute. reflexivity.
  - apply (bool_decide_unpack (set_Forall (λ k : RawKey, fits 64 (N.of_nat (length k)))
             (dom (write_buffer ex_task.1)))). vm_compute. reflexivity.
  - split; vm_compute; reflexivity.
  - apply refdb_fresh. vm_compute. reflexivity.
Defined.

Example rollback_restores_witness :
  ∃ st', rollback_to_point 100%N p1 ex_stage2 = Ok st' ∧ stage_ok st' ∧
    same_data (db_latest (sh_db (st_db st'))) (db_latest (sh_db (st_db ex_stage))) ∧
    st_last_processed st' = p1 ∧ st_processed_mempool st' = false ∧
    ∃ kept, rb_points (st_rollback_buffer st') = e1 :: kept ∧ kept `prefix_of` [].
Proof.
  apply (rollback_restores 100%N ex_stage ex_stage2 [p2] e1 []).
  - apply ex_stage_ok.
  - vm_compute. discriminate.
  - reflexivity.
  - apply ex_indexed.
  - intros Hin. apply list_elem_of_singleton in Hin. discriminate Hin.
  - apply refdb_fresh. vm_compute. reflexivity.
Defined.
End StageExamples.
