(* ===== verification/RuneNames.v ===== *)
(** * Names of runes

    A name is given to one rune ([etched] and [create_rune_entry] of
    src/src/sync/stages/index/indexers/custom/runes/indexer.rs): once its entry
    is written it stays, through the transactions of the same block, commits
    and restarts, and no transaction etches the name again. *)
From S2P Require Import Prelude ByteOrder EncDec Timestamp Types MergeOperation Table Rocks.
From S2P Require Import CoreTables KvStore KvStoreLaws Commit RollbackBuffer Bitcoin Context.
From S2P Require Import AddressIndexers RunesTables Runes Charms Indexers Stage Instances StageLaws.

Section RuneNames.
Context {DB : Type} `{RocksDBOk DB} `{HashOrderOk} `{Ordinals} `{!CharmsLib} `{!Machine}.
Context {Ext : Type} `{!IndexMap TransactionIndexer (list byte) Ext}.
Context {C : Type} `{!MokaCache (Utxo Ext) C}.

Abbreviation name_key rune := (encode_key RuneIdByNameKV rune).














(** ** Once *)





End RuneNames.

(** ** An etching, a commit, and the name again in the next block *)
Module RuneNamesExamples.
Import Simple SimpleBitcoin.






End RuneNamesExamples.
