(* ===== verification/Chain.v ===== *)
(** * The processed chain

    src/src/sync/stages/index/indexers/core/hash_by_height.rs
    ([intersect_options]) and the chain checks of the index stage: blocks are
    stored by height, a restart resumes at the stored tip, and the peer is
    offered points of the stored chain, denser near the tip. *)
From S2P Require Import Prelude ByteOrder EncDec Timestamp Types MergeOperation Table Rocks.
From S2P Require Import CoreTables KvStore KvStoreLaws Commit RollbackBuffer Bitcoin Context.
From S2P Require Import AddressIndexers RunesTables Runes Charms Indexers Stage Instances.
From S2P Require Import StageLaws.

(** ** [intersect_options] *)

(** The loop that picks heights below the tip: one by one at first, then in
    steps that double.  Each round appends a height. *)
Fixpoint intersect_heights (fuel : nat) (indexes : list u64) (step index : u64) : option (list u64) :=
  match fuel with
  | O => None
  | S fuel =>
      let indexes := indexes ++ [index] in
      let step := if (10 <=? N.of_nat (length indexes))%N then (step * 2) mod 2 ^ 64 else step in
      let index := saturating_sub index step in
      if (index =? 0)%N then Some indexes else intersect_heights fuel indexes step index
  end%N.

(** Seventy-two rounds are enough: see [intersect_heights_terminates]. *)
Definition intersect_fuel : nat := 72.

Section IntersectOptions.
Context {DB : Type} `{RocksDB DB}.

Definition intersect_point (reader : Reader DB) (out : list Point) (height : u64) : Res Error (list Point) :=
  hash ← reader_get HashByHeightKV reader height;
  hash ← expect hash "missing hash by height kv";
  Ok (out ++ [MkPoint height hash]).

(** [None]: the loop did not end within the fuel. *)
Definition intersect_options (reader : Reader DB) (genesis_hash : BlockHash) :
    option (Res Error (list Point)) :=
  let range := encode_range HashByHeightKV (None : option unit) (None : option unit) in
  match iter_kvs HashByHeightKV reader range true with
  | [] => Some (Ok [MkPoint 0 genesis_hash])
  | res :: _ =>
      match res with
      | Ok (tip_height, _) =>
          match intersect_heights intersect_fuel [] 1 tip_height with
          | Some indexes =>
              Some (out ← for_each indexes [] (intersect_point reader);
                    Ok (out ++ [MkPoint 0 genesis_hash]))
          | None => None
          end
      | Err e => Some (Err e)
      | Panic why => Some (Panic why)
      end
  end.
End IntersectOptions.

(** ** Termination and shape of the loop *)
Section Heights.
(** What the loop adds: decreasing heights that start with [index]. *)
Definition descends (index : N) (l : list N) : Prop :=
  ∃ tail, l = index :: tail ∧ StronglySorted (flip N.lt) l ∧ Forall (N.lt 0) tail.

Lemma descends_cons index index' l :
  (index' < index)%N → (0 < index')%N → descends index' l → descends index (index :: l).
Proof.
  intros Hlt Hpos (tail & -> & Hs & Hf). exists (index' :: tail). split; [done|]. split.
  - constructor; [done|]. apply StronglySorted_inv in Hs as [_ Hall].
    constructor; [exact Hlt|]. eapply Forall_impl; [exact Hall|]. unfold flip. intros x Hx. lia.
  - by constructor.
Qed.

Lemma intersect_heights_S fuel indexes step index :
  intersect_heights (S fuel) indexes step index =
  let step := if (10 <=? N.of_nat (length indexes + 1))%N then ((step * 2) mod 2 ^ 64)%N else step in
  let index' := saturating_sub index step in
  if (index' =? 0)%N then Some (indexes ++ [index])
  else intersect_heights fuel (indexes ++ [index]) step index'.
Proof. cbn [intersect_heights]. rewrite length_app. done. Qed.

Lemma descends_one index : descends index [index].
Proof. exists []. split; [done|]. split; repeat constructor. Qed.

(** From the tenth height on the steps double, up to [2^63]; the loop ends by
    the length [m] when [index] is small enough for it. *)
Lemma intersect_heights_doubling m k n indexes index :
  length indexes = n → (n + k = m)%nat → (9 <= n)%nat → (m <= 71)%nat →
  (index + 2 ^ N.of_nat (n - 8) < 2 ^ N.of_nat (m - 7))%N →
  ∃ l, intersect_heights (S k) indexes (2 ^ N.of_nat (n - 9)) index = Some (indexes ++ l) ∧
    descends index l ∧ length l <= S k.
Proof.
  revert n indexes index. induction k as [|k IH]; intros n indexes index Hlen Hk Hn Hm Hidx;
    rewrite intersect_heights_S, Hlen; rewrite (proj2 (N.leb_le 10 (N.of_nat (n + 1)))) by lia; cbv zeta;
    (assert (2 ^ N.of_nat (n - 9) * 2 = 2 ^ N.of_nat (S n - 9))%N as ->;
     [replace (S n - 9)%nat with (S (n - 9)) by lia; rewrite Nat2N.inj_succ, N.pow_succ_r'; lia|]);
    rewrite N.mod_small by (apply N.pow_lt_mono_r; lia); unfold saturating_sub.
  - replace (m - 7)%nat with (S (S n - 9)) in Hidx by lia. rewrite Nat2N.inj_succ, N.pow_succ_r' in Hidx.
    replace (n - 8)%nat with (S n - 9)%nat in Hidx by lia.
    rewrite (proj2 (N.eqb_eq _ 0)) by lia. exists [index]. split_and!; [done|apply descends_one|done].
  - destruct (N.eqb_spec (index - 2 ^ N.of_nat (S n - 9)) 0) as [Hz|Hnz].
    { exists [index]. split_and!; [done|apply descends_one|simpl; lia]. }
    destruct (IH (S n) (indexes ++ [index]) (index - 2 ^ N.of_nat (S n - 9))%N) as (l & Hl & Hd & Hll).
    { rewrite length_app, Hlen. simpl. lia. }
    { lia. }
    { lia. }
    { done. }
    { replace (S n - 8)%nat with (S (S n - 9)) by lia. rewrite Nat2N.inj_succ, N.pow_succ_r'.
      replace (n - 8)%nat with (S n - 9)%nat in Hidx by lia. lia. }
    exists (index :: l). split_and!; [etransitivity; [exact Hl|]; by rewrite <-app_assoc| |simpl; lia].
    pose proof (pow2_pos (N.of_nat (S n - 9))). eapply descends_cons; [| |exact Hd]; lia.
Qed.

(** The first nine heights are consecutive. *)
Lemma intersect_heights_single m k n indexes index :
  length indexes = n → (n + k = 9)%nat → (9 <= m <= 71)%nat → (index + N.of_nat n < 2 ^ N.of_nat (m - 7))%N →
  ∃ l, intersect_heights (k + (m - 8)) indexes 1 index = Some (indexes ++ l) ∧ descends index l ∧
    length l <= k + (m - 8).
Proof.
  revert n indexes index. induction k as [|k IH]; intros n indexes index Hlen Hk Hm Hidx.
  - assert (n = 9%nat) as -> by lia. cbn [plus]. replace (m - 8) with (S (m - 9)) by lia.
    apply (intersect_heights_doubling m (m - 9) 9); [done|lia|lia|lia|].
    change (2 ^ N.of_nat (9 - 8))%N with 2%N. lia.
  - cbn [plus]. rewrite intersect_heights_S, Hlen.
    rewrite (proj2 (N.leb_gt 10 (N.of_nat (n + 1)))) by lia. cbv zeta.
    unfold saturating_sub. destruct (N.eqb_spec (index - 1) 0) as [Hz|Hnz].
    { exists [index]. split_and!; [done|apply descends_one|simpl; lia]. }
    destruct (IH (S n) (indexes ++ [index]) (index - 1)%N) as (l & Hl & Hd & Hll).
    { rewrite length_app, Hlen. simpl. lia. }
    { lia. }
    { done. }
    { lia. }
    exists (index :: l). split_and!; [etransitivity; [exact Hl|]; by rewrite <-app_assoc| |simpl; lia].
    eapply descends_cons; [| |exact Hd]; lia.
Qed.

Lemma intersect_heights_mono fuel fuel' indexes step index l :
  intersect_heights fuel indexes step index = Some l → fuel <= fuel' →
  intersect_heights fuel' indexes step index = Some l.
Proof.
  revert fuel' indexes step index. induction fuel as [|fuel IH]; intros [|fuel'] indexes step index Hi Hle;
    [done|done|lia|]. rewrite intersect_heights_S in *. cbv zeta in *.
  destruct (_ =? 0)%N; [done|]. apply IH; [done|lia].
Qed.

(** A tip on [b] bits costs at most [b + 8] rounds, and as many heights. *)
Lemma intersect_heights_bits (b : nat) (tip_height : N) :
  (2 <= b <= 64)%nat → fits (N.of_nat b) tip_height →
  ∃ l, intersect_heights intersect_fuel [] 1 tip_height = Some l ∧ descends tip_height l ∧ length l <= b + 8.
Proof.
  intros Hb Hfits. destruct (intersect_heights_single (b + 7) 9 0 [] tip_height) as (l & Hl & Hd & Hll).
  - done.
  - done.
  - lia.
  - unfold fits in Hfits. replace (b + 7 - 7)%nat with b by lia. simpl N.of_nat. lia.
  - exists l. split_and!; [|done|lia]. eapply intersect_heights_mono; [exact Hl|]. unfold intersect_fuel. lia.
Qed.
End Heights.

(** C29: The loop that picks the points to offer to a peer ends within 72
    rounds for every 64-bit height, before its step can overflow, and picks
    strictly decreasing heights from the tip down, none of them zero but a tip
    at height zero. *)
Theorem intersect_heights_terminates (tip_height : u64) :
  fits 64 tip_height →
  ∃ l tail, intersect_heights intersect_fuel [] 1 tip_height = Some l ∧ l = tip_height :: tail ∧
    StronglySorted (flip N.lt) l ∧ Forall (N.lt 0) tail.
Proof.
  intros Hfits. destruct (intersect_heights_bits 64 tip_height) as (l & Hl & (tail & -> & Hs & Hf) & _).
  - lia.
  - exact Hfits.
  - exists (tip_height :: tail), tail. by split_and!.
Qed.

Example intersect_heights_terminates_witness :
  ∃ l tail, intersect_heights intersect_fuel [] 1 (2 ^ 64 - 1)%N = Some l ∧ l = (2 ^ 64 - 1)%N :: tail ∧
    StronglySorted (flip N.lt) l ∧ Forall (N.lt 0) tail.
Proof. apply intersect_heights_terminates. vm_compute. reflexivity. Defined.

(** ** The chain in the store *)
Definition hash_prefix : list byte := [CORE_INDEXER_TAG; core_indexer_id HashByHeightTag].
Lemma hash_table_at : table_at HashByHeightKV hash_prefix.
Proof. exact (core_table_at (K:=u64) (u8arr 32) x48). Qed.

(** The hashes of the processed blocks, from height 1 on, by height. *)
Definition chain_records (chain : list BlockHash) : list (u64 * u8arr 32) :=
  imap (λ i hash, ((N.of_nat i + 1)%N, hash)) chain.

(** The store holds this chain, and no other block. *)
Definition chain_stored (chain : list BlockHash) (s : Snapshot) : Prop :=
  table_holds HashByHeightKV hash_prefix (chain_records chain) s.

Definition chain_ok (chain : list BlockHash) : Prop :=
  Forall (λ h : BlockHash, length h = 32) chain ∧ fits 64 (N.of_nat (length chain)).

Section ChainStored.
Lemma elem_of_chain_records (chain : list BlockHash) (h : u64) (hash : BlockHash) :
  (h, hash) ∈ chain_records chain ↔ (0 < h)%N ∧ chain !! N.to_nat (h - 1) = Some hash.
Proof.
  unfold chain_records. rewrite list_elem_of_lookup. setoid_rewrite list_lookup_imap_Some. split.
  - intros (i & x & Hx & Heq). injection Heq as -> ->. split; [lia|].
    by replace (N.to_nat (N.of_nat i + 1 - 1)) with i by lia.
  - intros [Hpos Hl]. exists (N.to_nat (h - 1)), hash. split; [done|]. f_equal. lia.
Qed.

Lemma chain_records_valid chain :
  chain_ok chain → Forall (λ r : u64 * u8arr 32, valid r.1 ∧ valid r.2) (chain_records chain).
Proof.
  intros [Hh Hn]. apply Forall_forall. intros [h hash] Hin. apply elem_of_chain_records in Hin as [Hpos Hl].
  pose proof (lookup_lt_Some _ _ _ Hl) as Hlt. split.
  - change (h < 2 ^ 64)%N. unfold fits in Hn. lia.
  - rewrite Forall_forall in Hh. apply list_elem_of_lookup_2 in Hl. by apply Hh.
Qed.

Lemma chain_records_snoc chain (hash : BlockHash) :
  chain_records (chain ++ [hash]) = chain_records chain ++ [((N.of_nat (length chain) + 1)%N, hash)].
Proof. unfold chain_records. rewrite imap_app. simpl. by rewrite Nat.add_0_r. Qed.

Lemma chain_records_sorted chain :
  chain_ok chain → StronglySorted lex_lt ((λ r, encode_key HashByHeightKV r.1) <$> chain_records chain).
Proof.
  induction chain as [|hash chain IH] using rev_ind; intros [Hh Hn]; [constructor|].
  rewrite length_app in Hn. simpl in Hn. apply Forall_app in Hh as [Hh Hhash].
  rewrite chain_records_snoc, fmap_app. apply StronglySorted_app. split; [|split].
  - intros x1 x2 H1 H2. apply list_elem_of_fmap in H1 as ([h1 hash1] & -> & H1).
    csimpl in H2. apply list_elem_of_singleton in H2 as ->.
    apply elem_of_chain_records in H1 as [Hpos Hl]. apply lookup_lt_Some in Hl.
    rewrite !(table_encode_key _ _ hash_table_at), lex_lt_app. cbn [fst].
    apply (uint_encode_lt_iff 64); unfold fits in *; lia.
  - apply IH. split; [done|]. unfold fits in *. lia.
  - repeat constructor.
Qed.
End ChainStored.

Section ChainTheorems.
Context {DB : Type} `{RocksDBOk DB}.

Lemma chain_scan chain (sh : StorageHandler DB) :
  storage_ok sh → chain_ok chain → chain_stored chain (db_latest (sh_db sh)) →
  iter_kvs HashByHeightKV (reader latest_ts sh)
    (encode_range HashByHeightKV (None : option unit) (None : option unit)) true =
  Ok <$> reverse (chain_records chain).
Proof.
  intros Hsh Hok Hst. apply (table_scan _ _ hash_table_at _ sh true Hsh Hst).
  - by apply chain_records_valid.
  - by apply chain_records_sorted.
Qed.

Lemma chain_get chain (sh : StorageHandler DB) (h : u64) (hash : BlockHash) :
  storage_ok sh → chain_ok chain → chain_stored chain (db_latest (sh_db sh)) →
  (0 < h)%N → chain !! N.to_nat (h - 1) = Some hash →
  reader_get HashByHeightKV (reader latest_ts sh) h = Ok (Some hash).
Proof.
  intros Hsh Hok Hst Hpos Hl. pose proof (storage_last_latest _ Hsh) as Hlast.
  assert ((h, hash) ∈ chain_records chain) as Hin by by apply elem_of_chain_records.
  rewrite reader_get_eq by by apply storage_low_latest.
  cbn [reader reader_db reader_timestamp]. rewrite db_snapshot_latest by exact Hlast.
  destruct (proj2 (Hst (encode_key HashByHeightKV h) (encode hash))) as [_ Hs].
  { by exists (h, hash). }
  fold (db_latest (sh_db sh)). rewrite Hs. unfold decode_value.
  pose proof (chain_records_valid _ Hok) as Hv. rewrite Forall_forall in Hv. destruct (Hv _ Hin) as [_ Hvh].
  by rewrite decode_or_encode.
Qed.

(** The point of the chain at a height. *)
Definition chain_point (chain : list BlockHash) (h : u64) : Point :=
  MkPoint h (default ([] : BlockHash) (chain !! N.to_nat (h - 1))).

Lemma intersect_points chain (sh : StorageHandler DB) :
  storage_ok sh → chain_ok chain → chain_stored chain (db_latest (sh_db sh)) →
  ∀ (l : list u64) out, Forall (λ h, 0 < h <= N.of_nat (length chain))%N l →
    for_each l out (intersect_point (reader latest_ts sh)) = Ok (out ++ (chain_point chain <$> l)).
Proof.
  intros Hsh Hok Hst l. induction l as [|h l IH]; intros out Hl; [by rewrite app_nil_r|].
  apply Forall_cons in Hl as [Hh Hl]. cbn [for_each].
  destruct (lookup_lt_is_Some_2 chain (N.to_nat (h - 1))) as [hash Hhash]; [lia|].
  unfold intersect_point at 1. rewrite (chain_get chain sh h hash); [|done..|lia|done].
  cbn [rbind expect]. rewrite IH by done. rewrite <-app_assoc. cbn [fmap list_fmap].
  assert (chain_point chain h = MkPoint h hash) as -> by (unfold chain_point; by rewrite Hhash). done.
Qed.

(** The points offered are those of the stored chain at the chosen heights. *)
Lemma intersect_options_chain (b : nat) (chain : list BlockHash) (sh : StorageHandler DB) (genesis : BlockHash) :
  storage_ok sh → chain_ok chain → chain_stored chain (db_latest (sh_db sh)) →
  (2 <= b <= 64)%nat → fits (N.of_nat b) (N.of_nat (length chain)) →
  ∃ l, intersect_options (reader latest_ts sh) genesis = Some (Ok ((chain_point chain <$> l) ++ [MkPoint 0 genesis])) ∧
    Forall (λ h, 0 < h <= N.of_nat (length chain))%N l ∧ length l <= b + 8 ∧
    (chain ≠ [] → descends (N.of_nat (length chain)) l) ∧ (chain = [] → l = []).
Proof.
  intros Hsh Hok Hst Hb Hfits. unfold intersect_options. rewrite (chain_scan chain sh Hsh Hok Hst).
  destruct (decide (chain = [])) as [->|Hne]; [by exists []; split_and!; [|constructor|simpl; lia|done|]|].
  destruct (exists_last Hne) as (chain' & tip & Heq).
  assert (chain_records chain = _) as -> by (rewrite Heq; apply chain_records_snoc). rewrite reverse_snoc.
  cbn [fmap list_fmap]. assert (N.of_nat (length chain') + 1 = N.of_nat (length chain))%N as ->.
  { rewrite Heq, length_app. simpl. lia. }
  destruct (intersect_heights_bits b _ Hb Hfits) as (l & -> & Hd & Hll).
  assert (Forall (λ h, 0 < h <= N.of_nat (length chain))%N l) as Hrange.
  { destruct Hd as (tail & -> & Hs & Hpos).
    constructor; [destruct chain; simpl in *; [done|lia]|].
    apply StronglySorted_inv in Hs as [_ Hlt]. apply Forall_forall. intros h Hh.
    rewrite Forall_forall in Hpos, Hlt. specialize (Hpos h Hh). specialize (Hlt h Hh). unfold flip in Hlt. lia. }
  exists l. rewrite (intersect_points chain sh Hsh Hok Hst l [] Hrange). by split_and!.
Qed.

Lemma chain_point_stored (chain : list BlockHash) (h : u64) :
  (0 < h <= N.of_nat (length chain))%N → chain !! N.to_nat (h - 1) = Some (point_hash (chain_point chain h)).
Proof.
  intros Hh. simpl. destruct (lookup_lt_is_Some_2 chain (N.to_nat (h - 1))) as [hash Hhash]; [lia|]. by rewrite Hhash.
Qed.

(** C28: What a peer is offered is on the stored chain: the tip first, then
    blocks at strictly decreasing heights, each with the hash stored for its
    height, and the genesis block last. *)
Theorem intersect_options_on_chain (chain : list BlockHash) (sh : StorageHandler DB) (genesis : BlockHash) :
  storage_ok sh → chain_ok chain → chain_stored chain (db_latest (sh_db sh)) → chain ≠ [] →
  ∃ points, intersect_options (reader latest_ts sh) genesis = Some (Ok (points ++ [MkPoint 0 genesis])) ∧
    head (point_height <$> points) = Some (N.of_nat (length chain)) ∧
    StronglySorted (flip N.lt) (point_height <$> points) ∧
    Forall (λ p, chain !! N.to_nat (point_height p - 1) = Some (point_hash p)) points.
Proof.
  intros Hsh Hok Hst Hne.
  destruct (intersect_options_chain 64 chain sh genesis) as (l & -> & Hrange & _ & Hd & _); [done..|lia|apply Hok|].
  specialize (Hd Hne). destruct Hd as (tail & -> & Hs & Hpos). eexists. split; [reflexivity|].
  rewrite <-list_fmap_compose. rewrite (list_fmap_ext _ id), list_fmap_id by done.
  split_and!; [done|done|]. apply Forall_fmap. eapply Forall_impl; [exact Hrange|].
  intros h Hh. by apply chain_point_stored.
Qed.
End ChainTheorems.

(** ** The stage and the chain *)
Section StageChain.
Context {DB : Type} `{RocksDBOk DB} `{HashOrderOk} `{Ordinals} `{!CharmsLib} `{!Machine}.
Context {Ext : Type} `{!IndexMap TransactionIndexer (list byte) Ext}.
Context {C : Type} `{!MokaCache (Utxo Ext) C}.

Abbreviation data st := (db_latest (sh_db (st_db st))).

(** A restart resumes at the tip of the stored chain, or at the genesis
    block when no block was stored. *)
Theorem restart_resumes_at_tip (chain : list BlockHash) (sh : StorageHandler DB) (network : Network) :
  storage_ok sh → chain_ok chain → chain_stored chain (db_latest (sh_db sh)) →
  last_processed_point (reader (from_u64 u64_MAX) sh) network =
  Ok (match last chain with
      | Some tip => MkPoint (N.of_nat (length chain)) tip
      | None => MkPoint 0 (genesis_hash network)
      end).
Proof.
  intros Hsh Hok Hst. unfold last_processed_point. fold latest_ts. rewrite (chain_scan chain sh Hsh Hok Hst).
  destruct chain as [|tip chain _] using rev_ind; [done|].
  rewrite chain_records_snoc, reverse_snoc, last_snoc. cbn [fmap list_fmap rbind].
  f_equal. f_equal. rewrite length_app. simpl. lia.
Qed.

(** The checks on a received block: one at or below the processed tip is
    skipped and changes nothing, one that leaves a gap stops the worker, and
    so does one whose parent is not the processed tip. *)
Theorem roll_forward_guards (now : Clock) (w : Worker) (point : Point) (header : Header) (txs : BlockTxs)
    (tip : Point) (st : Stage DB C) :
  st_processed_mempool st = false → fits 64 (point_height (st_last_processed st) + 1) →
  ((point_height point <= point_height (st_last_processed st))%N →
     roll_forward now w point header txs tip st = Ok (w, st)) ∧
  ((point_height (st_last_processed st) + 1 < point_height point)%N →
     roll_forward now w point header txs tip st = Err WorkerPanic) ∧
  (point_height point = (point_height (st_last_processed st) + 1)%N →
     prev_blockhash header ≠ point_hash (st_last_processed st) →
     roll_forward now w point header txs tip st = Err WorkerPanic).
Proof.
  intros Hm Hfits. unfold roll_forward. rewrite Hm. cbn [rbind]. cbv zeta.
  rewrite (wrapping_add_exact 64 _ 1) by exact Hfits. split; [|split].
  - intros Hle. by rewrite (proj2 (N.ltb_lt _ _)) by lia.
  - intros Hgt. rewrite (proj2 (N.ltb_ge _ _)) by lia. by rewrite (proj2 (N.ltb_lt _ _)) by lia.
  - intros -> Hprev. rewrite N.ltb_irrefl. by rewrite decide_True.
Qed.

(** What indexing a block leaves in the store. *)
Lemma index_block_data now w point txs (st : Stage DB C) task cache :
  stage_ok st → block_task now w point txs st = Ok (task, cache) → keys_fit task → point_ok point →
  commit_fresh (clock_commit now) (st_db st) →
  ∃ st', index_block now w point txs st = Ok st' ∧ stage_ok st' ∧ st_last_processed st' = point ∧
    st_processed_mempool st' = st_processed_mempool st ∧ st_utxo_cache st' = cache ∧
    ∀ k, user_key k → effect (write_buffer task) (data st) k = Some (data st' !! k).
Proof.
  intros [Hst Hc] Htask Hk Hp Hfresh. pose proof (block_task_steps _ _ _ _ _ _ Htask) as Hsteps.
  assert (task_wf task) as Hwf by (eapply task_steps_wf; [exact Hsteps|apply begin_wf]).
  assert (task_ready task (st_db st)) as Hready.
  { eapply steps_ready; [exact Hsteps|by apply begin_readable|apply begin_wf|apply begin_originals
                        |by apply begin_snapshot|done|done]. }
  destruct (ready_commit (clock_commit now) task point (st_max_rollbacks st) None (st_db st))
    as (sh' & Happly & Hok' & Hc' & _ & Hres); [done..|].
  unfold index_block. rewrite Htask. cbn [rbind]. unfold commit_block. cbv zeta.
  rewrite Happly. cbn [or_restart map_err rbind]. eexists. split; [reflexivity|].
  split_and!; [by split|done|done|done|]. intros k Huk.
  exact (br_data _ _ _ _ _ _ _ (cr_batch _ _ _ _ _ _ _ Hres) k Huk).
Qed.

Lemma hash_key_user k : hash_prefix `prefix_of` k → user_key k ∧ ¬ tx_key k.
Proof.
  intros [r ->]. split.
  - split; intros [r' Heq]; discriminate Heq.
  - intros [[r' Heq]|[r' Heq]]; discriminate Heq.
Qed.

(** The only action of a block on the table of hashes. *)
Lemma block_task_hash {now : Clock} w point txs (st : Stage DB C) task cache k :
  block_task now w point txs st = Ok (task, cache) → hash_prefix `prefix_of` k →
  write_buffer task !! k =
  if decide (k = encode_key HashByHeightKV (point_height point))
  then Some (Set_ (encode (point_hash point))) else None.
Proof.
  intros (t1 & t2 & Ht1 & Ht2 & Ht3)%block_task_inv Hk. destruct (hash_key_user k Hk) as [_ Hnot].
  apply task_set_inv, buffered_wb in Ht3. rewrite Ht3, lookup_insert.
  destruct (decide (encode_key HashByHeightKV (point_height point) = k)) as [<-|Hne].
  { by rewrite decide_True. }
  rewrite decide_False by congruence.
  apply task_set_inv, buffered_wb in Ht2. rewrite Ht2, lookup_insert_ne.
  - rewrite (task_steps_untouched _ _ _ _ Ht1 Hnot). cbn [begin_indexing_task write_buffer]. apply lookup_empty.
  - intros <-. destruct Hk as [r Heq]. discriminate Heq.
Qed.

Lemma chain_stored_snoc (chain : list BlockHash) (hash : BlockHash) (s s' : Snapshot) :
  chain_ok (chain ++ [hash]) → chain_stored chain s →
  (∀ k, hash_prefix `prefix_of` k →
     s' !! k = if decide (k = encode_key HashByHeightKV (N.of_nat (length chain) + 1)%N)
               then Some (encode hash) else s !! k) →
  chain_stored (chain ++ [hash]) s'.
Proof.
  intros Hok Hst Heff k v. rewrite chain_records_snoc.
  set (new := encode_key HashByHeightKV (N.of_nat (length chain) + 1)%N) in *.
  assert (∀ h hsh, (h, hsh) ∈ chain_records chain → encode_key HashByHeightKV h ≠ new) as Hfresh.
  { intros h hsh Hin Heq. apply elem_of_chain_records in Hin as [Hpos Hl]. apply lookup_lt_Some in Hl.
    destruct Hok as [_ Hf]. rewrite length_app in Hf. unfold fits in Hf. simpl in Hf.
    assert (h = (N.of_nat (length chain) + 1)%N) as ->; [|lia].
    apply (encode_key_inj _ _ hash_table_at); [| |exact Heq]; change (fits 64 ?x) with (x < 2 ^ 64)%N;
      unfold valid, u64_codec, fits; lia. }
  split.
  - intros [Hk Hv]. rewrite (Heff k Hk) in Hv. case_decide as Hnew.
    + injection Hv as <-. eexists (_, hash). split; [apply elem_of_app; right; by left|done].
    + destruct (proj1 (Hst k v) (conj Hk Hv)) as (r & Hr & -> & ->).
      exists r. split; [apply elem_of_app; by left|done].
  - intros (r & Hr & -> & ->). apply elem_of_app in Hr as [Hr|Hr].
    + destruct (proj2 (Hst (encode_key HashByHeightKV r.1) (encode r.2))) as [Hk Hv]; [by exists r|].
      split; [done|]. rewrite (Heff _ Hk). destruct r as [h hsh]. by rewrite decide_False by (by eapply Hfresh).
    + apply list_elem_of_singleton in Hr as ->. cbn [fst snd].
      assert (hash_prefix `prefix_of` new) as Hk.
      { unfold new. rewrite (table_encode_key _ _ hash_table_at). by apply prefix_app_r. }
      split; [exact Hk|]. etransitivity; [exact (Heff new Hk)|]. by rewrite decide_True.
Qed.

(** A block that extends the processed tip is indexed: the stored chain
    grows by exactly that block at the next height, which becomes the
    processed tip, and rollback data is kept from then on when the block is
    within the rollback depth of the tip the node announced. *)
Theorem roll_forward_extends_chain (now : Clock) (w : Worker) (point : Point) (header : Header)
    (txs : BlockTxs) (tip : Point) (st : Stage DB C) (chain : list BlockHash)
    (task : IndexingTask DB) (cache : option (UtxoCache C)) :
  stage_ok st → st_processed_mempool st = false →
  chain_stored chain (data st) → chain_ok (chain ++ [point_hash point]) →
  point_height (st_last_processed st) = N.of_nat (length chain) →
  point_height point = (N.of_nat (length chain) + 1)%N →
  prev_blockhash header = point_hash (st_last_processed st) →
  let w' := MkWorker (w_indexers w)
    (w_mutable w || (point_height tip - st_max_rollbacks st <? point_height point)%N) in
  block_task now w' point txs st = Ok (task, cache) → keys_fit task →
  commit_fresh (clock_commit now) (st_db st) →
  ∃ st', roll_forward now w point header txs tip st = Ok (w', st') ∧ stage_ok st' ∧
    chain_stored (chain ++ [point_hash point]) (data st') ∧ st_last_processed st' = point ∧
    st_processed_mempool st' = false.
Proof.
  intros Hok Hm Hchain Hcok Hlast Hh Hprev w' Htask Hk Hfresh.
  assert (point_ok point) as Hp.
  { destruct Hcok as [Hl Hn]. rewrite length_app in Hn. simpl in Hn. split.
    - unfold fits in *. lia.
    - apply Forall_app in Hl as [_ Hl]. by rewrite Forall_singleton in Hl. }
  destruct (index_block_data now w' point txs st task cache) as (st' & Hidx & Hok' & Hl' & Hm' & _ & Hdata); [done..|].
  exists st'. split_and!; [|done| |done|by rewrite Hm'].
  - unfold roll_forward. rewrite Hm. cbn [rbind]. cbv zeta. rewrite Hlast.
    rewrite (wrapping_add_exact 64 _ 1) by (pose proof (proj1 Hp) as Hpf; rewrite Hh in Hpf; exact Hpf).
    rewrite Hh, N.ltb_irrefl, <-Hh. rewrite decide_False by tauto. unfold saturating_sub. fold w'.
    rewrite Hidx. done.
  - apply (chain_stored_snoc _ _ (data st)); [done|done|]. intros k Hpk.
    destruct (hash_key_user k Hpk) as [Huk _]. specialize (Hdata k Huk). unfold effect in Hdata.
    rewrite (block_task_hash _ _ _ _ _ _ k Htask Hpk), Hh in Hdata.
    case_decide; cbn [action_value] in Hdata; by injection Hdata.
Qed.
End StageChain.

(** ** Closed examples *)
Module ChainExamples.
Import Simple SimpleBitcoin StageExamples.

Definition header_after (prev : BlockHash) : Header (Bitcoin := simple_bitcoin) := prev.
Definition ex_chain : list BlockHash := [point_hash p1].
Definition ex_chain_storage : StorageHandler RefDB :=
  MkStorage [(5%N, record_map HashByHeightKV (chain_records ex_chain))] (Some (from_u64 5%N)) false.
Definition ex_chain_stage : SimpleStage :=
  MkStage ex_chain_storage [] Regtest (MkRollbackBuffer [e1] 18%N true) 16%N p1 false None None.

Lemma ex_chain_ok : chain_ok ex_chain.
Proof. split; [by apply Forall_singleton|vm_compute; reflexivity]. Qed.
Lemma ex_chain_storage_ok : storage_ok ex_chain_storage.
Proof. split_and!; [vm_compute; reflexivity|vm_compute; reflexivity|split; [vm_compute; reflexivity|apply N.le_0_l]]. Qed.
Lemma ex_chain_stored : chain_stored ex_chain (db_latest (sh_db ex_chain_storage)).
Proof. exact (record_map_holds _ _ hash_table_at _ (chain_records_sorted _ ex_chain_ok)). Qed.
Lemma ex_chain_stage_ok : stage_ok ex_chain_stage.
Proof.
  split; [apply ex_chain_storage_ok|]. intros k v Hk Hv. revert k v Hv Hk.
  apply (bool_decide_unpack (map_Forall (λ (k : RawKey) (v : RawValue),
    counter_key k → is_Some (ok (decode_all v : Res DecodingError u128))) (db_latest (sh_db ex_chain_storage)))).
  vm_compute. reflexivity.
Qed.

Example intersect_options_on_chain_witness :
  ∃ points, intersect_options (reader latest_ts ex_chain_storage) (replicate 32 x00) =
      Some (Ok (points ++ [MkPoint 0 (replicate 32 x00)])) ∧
    head (point_height <$> points) = Some 1%N ∧
    StronglySorted (flip N.lt) (point_height <$> points) ∧
    Forall (λ p, ex_chain !! N.to_nat (point_height p - 1) = Some (point_hash p)) points.
Proof.
  apply (intersect_options_on_chain ex_chain ex_chain_storage (replicate 32 x00)
           ex_chain_storage_ok ex_chain_ok ex_chain_stored). discriminate.
Defined.

Example restart_resumes_at_tip_witness :
  last_processed_point (reader (from_u64 u64_MAX) ex_chain_storage) Regtest = Ok p1.
Proof.
  exact (restart_resumes_at_tip ex_chain ex_chain_storage Regtest
           ex_chain_storage_ok ex_chain_ok ex_chain_stored).
Defined.

Example roll_forward_guards_witness :
  roll_forward ex_now ex_worker p1 (header_after (replicate 32 x00)) [] p2 ex_chain_stage =
    Ok (ex_worker, ex_chain_stage) ∧
  roll_forward ex_now ex_worker (MkPoint 3%N (replicate 32 x03)) (header_after (replicate 32 x02)) [] p2
    ex_chain_stage = Err WorkerPanic ∧
  roll_forward ex_now ex_worker p2 (header_after (replicate 32 x07)) [] p2 ex_chain_stage = Err WorkerPanic.
Proof.
  split_and!.
  - refine (proj1 (roll_forward_guards ex_now ex_worker p1 (header_after (replicate 32 x00)) [] p2
             ex_chain_stage _ _) _); [reflexivity|vm_compute; reflexivity|discriminate].
  - refine (proj1 (proj2 (roll_forward_guards ex_now ex_worker (MkPoint 3%N (replicate 32 x03))
             (header_after (replicate 32 x02)) [] p2 ex_chain_stage _ _)) _); [reflexivity|vm_compute; reflexivity|reflexivity].
  - refine (proj2 (proj2 (roll_forward_guards ex_now ex_worker p2 (header_after (replicate 32 x07)) [] p2
             ex_chain_stage _ _)) _ _); [reflexivity|vm_compute; reflexivity|reflexivity|discriminate].
Defined.

Definition ex_chain_task : IndexingTask RefDB * option (UtxoCache SimpleCache) :=
  unwrap_or (begin_indexing_task true ex_chain_storage, None)
    (block_task ex_now ex_worker p2 [coinbase2] ex_chain_stage).

Example roll_forward_extends_chain_witness :
  ∃ st', roll_forward ex_now ex_worker p2 (header_after (point_hash p1)) [coinbase2] p2 ex_chain_stage = Ok (ex_worker, st') ∧
    stage_ok st' ∧ chain_stored [point_hash p1; point_hash p2] (db_latest (sh_db (st_db st'))) ∧
    st_last_processed st' = p2 ∧ st_processed_mempool st' = false.
Proof.
  apply (roll_forward_extends_chain ex_now ex_worker p2 (header_after (point_hash p1)) [coinbase2] p2 ex_chain_stage
           ex_chain ex_chain_task.1 ex_chain_task.2).
  - apply ex_chain_stage_ok.
  - reflexivity.
  - apply ex_chain_stored.
  - split; [by repeat (apply Forall_cons; split)|vm_compute; reflexivity].
  - reflexivity.
  - reflexivity.
  - reflexivity.
  - rewrite <-surjective_pairing. apply is_ok_unwrap. vm_compute. reflexivity.
  - apply (bool_decide_unpack (set_Forall (λ k : RawKey, fits 64 (N.of_nat (length k)))
             (dom (write_buffer ex_chain_task.1)))). vm_compute. reflexivity.
  - apply refdb_fresh. vm_compute. reflexivity.
Defined.
End ChainExamples.
