(* ===== verification/UtxoSet.v ===== *)
(** * The set of unspent outputs

    What src/src/sync/stages/index/worker/context.rs and
    core/utxo_by_txo_ref.rs promise together: whatever mix of cache, buffered
    writes and in-block chaining they use, indexing a block changes the table
    of unspent outputs the way the block changes the set of unspent outputs.
    [apply_block] is that set's transition function. *)
From S2P Require Import Prelude ByteOrder EncDec Timestamp Types MergeOperation Table Rocks.
From S2P Require Import CoreTables KvStore KvStoreLaws Commit RollbackBuffer Bitcoin Context.
From S2P Require Import AddressIndexers RunesTables Runes Charms Indexers Stage Instances StageLaws Chain.

(** ** The abstract set *)

(** What the chain says of an output: its attachments left out. *)
Definition base {Ext} (u : Utxo Ext) : Utxo unit := MkUtxo (satoshis u) (script u) (height u) tt.

Abbreviation UtxoSet := (gmap TxoRef (Utxo unit)).

Section UtxoSet.
Context `{Bitcoin}.

Definition spend_inputs (inputs : list TxIn) (U : UtxoSet) : UtxoSet :=
  foldl (λ U i, delete (input_ref i) U) U inputs.

Definition create_output (h : BlockHeight) (t : TransactionWithId) (U : UtxoSet) (o : nat * TxOut) : UtxoSet :=
  if is_op_return (script_pubkey o.2) then U
  else <[output_ref t o.1 := MkUtxo (value_to_sat o.2) (script_pubkey o.2) h tt]> U.
Definition create_outputs (h : BlockHeight) (t : TransactionWithId) (U : UtxoSet) : UtxoSet :=
  foldl (create_output h t) U (enumerate (tx_output (tx t))).

Definition apply_tx (h : BlockHeight) (U : UtxoSet) (t : TransactionWithId) : UtxoSet :=
  create_outputs h t (spend_inputs (tx_input (tx t)) U).
Definition apply_block (h : BlockHeight) (txs : BlockTxs) (U : UtxoSet) : UtxoSet := foldl (apply_tx h) U txs.

(** ** Valid blocks *)

(** Each transaction spends outputs that are unspent when its turn comes. *)
Fixpoint spends (h : BlockHeight) (U : UtxoSet) (txs : BlockTxs) : Prop :=
  match txs with
  | [] => True
  | t :: txs => Forall (λ i, is_Some (U !! input_ref i)) (tx_input (tx t)) ∧ spends h (apply_tx h U t) txs
  end.

(** A leading coinbase spends nothing that exists. *)
Definition block_spends (h : BlockHeight) (U : UtxoSet) (txs : BlockTxs) : Prop :=
  match txs with
  | t :: rest =>
      if is_coinbase (tx t)
      then Forall (λ i, U !! input_ref i = None) (tx_input (tx t)) ∧ spends h (apply_tx h U t) rest
      else spends h U txs
  | [] => True
  end.

(** Sizes of the fields as the protocol has them. *)
Definition tx_wf (t : TransactionWithId) : Prop :=
  length (tx_id t) = 32 ∧ Forall (λ i, valid (input_ref i)) (tx_input (tx t)) ∧
  Forall (λ o, fits 64 (value_to_sat o)) (tx_output (tx t)).

Record valid_block (h : BlockHeight) (U : UtxoSet) (txs : BlockTxs) : Prop := {
  vb_wf : Forall tx_wf txs;
  vb_nodup : NoDup (tx_id <$> txs);
  vb_fresh : ∀ r, is_Some (U !! r) → tx_hash r ∉ tx_id <$> txs;
  vb_spends : block_spends h U txs;
}.

(** ** What a block does to one reference *)
Lemma spend_inputs_lookup inputs U r :
  spend_inputs inputs U !! r = if decide (r ∈ input_ref <$> inputs) then None else U !! r.
Proof.
  unfold spend_inputs. revert U. induction inputs as [|i inputs IH]; intros U; [done|].
  cbn [foldl fmap list_fmap]. rewrite IH. destruct (decide (r ∈ input_ref <$> inputs)).
  - by rewrite decide_True by (by right).
  - destruct (decide (r = input_ref i)) as [->|Hne].
    + rewrite decide_True by (by left). apply lookup_delete_eq.
    + rewrite decide_False by (by apply not_elem_of_cons). by apply lookup_delete_ne.
Qed.

Lemma create_outputs_other h t U r : tx_hash r ≠ tx_id t → create_outputs h t U !! r = U !! r.
Proof.
  intros Hr. unfold create_outputs. generalize (enumerate (tx_output (tx t))). intros l. revert U.
  induction l as [|o l IH]; intros U; [done|]. cbn [foldl]. rewrite IH. unfold create_output.
  destruct (is_op_return _); [done|]. apply lookup_insert_ne. by intros <-.
Qed.

Lemma apply_tx_other h t U r :
  tx_hash r ≠ tx_id t → apply_tx h U t !! r = if decide (r ∈ input_ref <$> tx_input (tx t)) then None else U !! r.
Proof. intros Hr. unfold apply_tx. by rewrite create_outputs_other, spend_inputs_lookup. Qed.

Lemma apply_tx_some h t U r :
  is_Some (apply_tx h U t !! r) → tx_hash r ≠ tx_id t → is_Some (U !! r).
Proof. intros Hs Hr. rewrite apply_tx_other in Hs by done. case_decide; [by destruct Hs|done]. Qed.

Definition inputs_of (txs : BlockTxs) : list TxoRef := txs ≫= λ x, input_ref <$> tx_input (tx x).

Lemma apply_block_none h txs U r :
  U !! r = None → tx_hash r ∉ tx_id <$> txs → apply_block h txs U !! r = None.
Proof.
  revert U. induction txs as [|t txs IH]; intros U Hr Hh; [done|]. cbn [apply_block foldl].
  apply not_elem_of_cons in Hh as [Hne Hh]. apply IH; [|done].
  rewrite apply_tx_other by done. by case_decide.
Qed.

(** What a block spends is unspent no more. *)
Lemma spends_spent h txs U r :
  NoDup (tx_id <$> txs) → spends h U txs → (is_Some (U !! r) → tx_hash r ∉ tx_id <$> txs) →
  r ∈ inputs_of txs → apply_block h txs U !! r = None.
Proof.
  revert U. induction txs as [|t txs IH]; intros U Hnd Hsp Hfresh Hr; [by apply elem_of_nil in Hr|].
  destruct Hsp as [Hin Hsp]. cbn [fmap list_fmap] in Hnd. apply NoDup_cons in Hnd as [Hnew Hnd].
  cbn [apply_block foldl]. destruct (decide (r ∈ input_ref <$> tx_input (tx t))) as [Hrt|Hrt].
  - apply list_elem_of_fmap in Hrt as Hi. destruct Hi as (i & -> & Hi).
    rewrite Forall_forall in Hin. destruct (not_elem_of_cons (tx_id <$> txs) (tx_hash (input_ref i)) (tx_id t)) as [Hc _].
    destruct (Hc (Hfresh (Hin i Hi))) as [Hne Hnot].
    apply apply_block_none; [|done]. by rewrite apply_tx_other, decide_True by done.
  - apply IH; [done|done| |].
    + intros Hs Hmem. destruct (decide (tx_hash r = tx_id t)) as [Heq|Hne]; [by rewrite Heq in Hmem|].
      apply apply_tx_some in Hs; [|done]. by apply (Hfresh Hs); right.
    + unfold inputs_of in Hr. cbn [mbind list_bind] in Hr. by apply elem_of_app in Hr as [?|?].
Qed.

(** What a block spends without having created it was unspent before. *)
Lemma spends_before h txs U r :
  spends h U txs → r ∈ inputs_of txs → tx_hash r ∉ tx_id <$> txs → is_Some (U !! r).
Proof.
  revert U. induction txs as [|t txs IH]; intros U Hsp Hr Hh; [by apply elem_of_nil in Hr|].
  destruct Hsp as [Hin Hsp]. apply not_elem_of_cons in Hh as [Hne Hh].
  unfold inputs_of in Hr. cbn [mbind list_bind] in Hr. apply elem_of_app in Hr as [Hr|Hr].
  - apply list_elem_of_fmap in Hr as (i & -> & Hi). rewrite Forall_forall in Hin. by apply Hin.
  - eapply apply_tx_some; [by eapply IH|done].
Qed.

(** The same for a block with its coinbase. *)
Lemma elem_of_block_input_refs txs r : r ∈ block_input_refs txs ↔ r ∈ inputs_of (skip_coinbase txs).
Proof. apply elem_of_list_to_set. Qed.

Lemma block_spent h U txs r :
  valid_block h U txs → r ∈ block_input_refs txs → apply_block h txs U !! r = None.
Proof.
  intros [_ Hnd Hfresh Hsp] Hr. rewrite elem_of_block_input_refs in Hr.
  destruct txs as [|t txs]; [by apply elem_of_nil in Hr|]. cbn [skip_coinbase block_spends] in *.
  destruct (is_coinbase (tx t)); [|eapply spends_spent; [exact Hnd|exact Hsp|exact (Hfresh r)|exact Hr]].
  destruct Hsp as [_ Hsp]. cbn [fmap list_fmap] in Hnd. apply NoDup_cons in Hnd as [Hnew Hnd].
  cbn [apply_block foldl]. apply spends_spent; [done|done| |done].
  intros Hs Hmem. destruct (decide (tx_hash r = tx_id t)) as [Heq|Hne]; [by rewrite Heq in Hmem|].
  apply apply_tx_some in Hs; [|done]. by apply (Hfresh r Hs); right.
Qed.

Lemma block_needs h U txs r :
  valid_block h U txs → r ∈ block_input_refs txs → tx_hash r ∉ tx_id <$> txs → is_Some (U !! r).
Proof.
  intros [_ _ _ Hsp] Hr Hh. rewrite elem_of_block_input_refs in Hr.
  destruct txs as [|t txs]; [by apply elem_of_nil in Hr|]. cbn [skip_coinbase block_spends] in *.
  destruct (is_coinbase (tx t)); [|by eapply spends_before].
  destruct Hsp as [_ Hsp]. apply not_elem_of_cons in Hh as [Hne Hh].
  eapply apply_tx_some; [by eapply spends_before|done].
Qed.
End UtxoSet.

(** ** Validity can be computed *)
Section Decide.
Context `{Bitcoin}.

#[export] Instance tx_wf_dec t : Decision (tx_wf t).
Proof. unfold tx_wf. cbn. repeat (apply and_dec || (apply Forall_dec; intros ?) || apply fits_dec || apply _). Defined.
#[export] Instance spends_dec h U txs : Decision (spends h U txs).
Proof. revert U. induction txs as [|t txs IH]; intros U; cbn [spends]; apply _. Defined.
#[export] Instance block_spends_dec h U txs : Decision (block_spends h U txs).
Proof. destruct txs as [|t txs]; cbn [block_spends]; [apply _|]. destruct (is_coinbase (tx t)); apply _. Defined.

Lemma valid_block_decide h U txs :
  bool_decide (Forall tx_wf txs) && bool_decide (NoDup (tx_id <$> txs)) &&
  bool_decide (set_Forall (λ r, tx_hash r ∉ tx_id <$> txs) (dom U)) && bool_decide (block_spends h U txs) = true →
  valid_block h U txs.
Proof.
  rewrite !andb_true_iff, !bool_decide_eq_true. intros [[[Hwf Hnd] Hfresh] Hsp]. split; [done|done| |done].
  intros r Hr. by apply Hfresh, elem_of_dom.
Qed.
End Decide.
