(* ===== verification/UtxoLaws.v ===== *)
(** * Indexing a block refines the set of unspent outputs

    The simulation between [apply_block] and the code: the cache, the table
    and the outputs chained inside the block together hold the abstract set.
    A cache is coherent when every output it holds is the stored one. *)
From S2P Require Import Prelude ByteOrder EncDec Timestamp Types MergeOperation Table Rocks.
From S2P Require Import CoreTables KvStore KvStoreLaws Commit RollbackBuffer Bitcoin Context.
From S2P Require Import AddressIndexers RunesTables Runes Charms Indexers Stage Instances StageLaws Chain.
From S2P Require Import UtxoSet.

(** ** The table holds the set *)
Section Table.
Context {Ext : Type} `{!IndexMap TransactionIndexer (list byte) Ext}.
Context `{!IndexMapOk TransactionIndexer (list byte) Ext}.

Definition utxo_raw (r : TxoRef) : RawKey := encode_key (UtxoByTxoRefKV (Ext:=Ext)) r.

Lemma utxo_raw_inj r r' : valid r → valid r' → utxo_raw r = utxo_raw r' → r = r'.
Proof. apply (encode_key_inj _ _ (core_table_at (Utxo Ext) (core_indexer_id UtxoByTxoRefTag))). Qed.

Definition stored (s : Snapshot) (r : TxoRef) (x : Utxo Ext) : Prop :=
  s !! utxo_raw r = Some (encode x) ∧ valid x.

Definition utxo_set_stored (U : UtxoSet) (s : Snapshot) : Prop :=
  ∀ r, valid r →
    match U !! r with
    | Some u => ∃ x, stored s r x ∧ base x = u
    | None => s !! utxo_raw r = None
    end.

Lemma stored_base U s r x : utxo_set_stored U s → valid r → stored s r x → U !! r = Some (base x).
Proof.
  intros HU Hr [Hs Hx]. specialize (HU r Hr). destruct (U !! r) as [u|]; [|congruence].
  destruct HU as (y & [Hy Hvy] & <-). rewrite Hs in Hy. injection Hy as Hy.
  by rewrite (encode_inj x y Hx Hvy Hy).
Qed.
End Table.

(** ** [resolve_inputs] *)
Section Resolve.
Context {DB : Type} `{RocksDBOk DB} `{HashOrderOk} `{Bitcoin}.
Context {Ext : Type} `{!IndexMap TransactionIndexer (list byte) Ext}.
Context `{!IndexMapOk TransactionIndexer (list byte) Ext}.
Context {C : Type} `{!MokaCache (Utxo Ext) C, !MokaCacheOk (Utxo Ext) C}.

(** The cache holds an output as it is stored. A rollback leaves the cache
    alone, so that it may also hold outputs that are not stored any more. *)
Definition agrees_with (s : Snapshot) (r : TxoRef) (x : Utxo Ext) : Prop :=
  is_Some (s !! utxo_raw (Ext:=Ext) r) → stored s r x.
Definition cache_coherent (s : Snapshot) (cache : option (UtxoCache C)) : Prop :=
  ∀ c r x, cache = Some c → utxo_cache_get c r = Some x → valid r ∧ agrees_with s r x.

(** The first loop, after the references [seen]. *)
Record resolving (tx_ids : gset Txid) (s : Snapshot) (seen : gset TxoRef) (st : ResolveState) : Prop := {
  rv_chained r : r ∈ rs_chained st ↔ r ∈ seen ∧ tx_hash r ∈ tx_ids;
  rv_fetch r : r ∈ rs_fetch_from_db st → r ∈ seen ∧ tx_hash r ∉ tx_ids;
  rv_resolver r x : rs_resolver st !! r = Some x → (r ∈ seen) ∧ (tx_hash r ∉ tx_ids) ∧ agrees_with s r x;
  rv_all r : r ∈ seen → tx_hash r ∉ tx_ids → (r ∈ rs_fetch_from_db st) ∨ is_Some (rs_resolver st !! r);
  rv_cache c r x : rs_cache st = Some c → utxo_cache_get c r = Some x →
    valid r ∧ agrees_with s r x ∧ (r ∈ seen → tx_hash r ∈ tx_ids);
}.

(** The cache's answer and what it keeps. *)
Lemma cache_remove_spec (r : TxoRef) (cache cache' : option (UtxoCache C)) (found : option (Utxo Ext)) :
  match cache with
  | Some c => let '(found, c) := utxo_cache_remove r c in (found, Some c)
  | None => (None, None)
  end = (found, cache') →
  (∀ x, found = Some x → ∃ c, cache = Some c ∧ utxo_cache_get c r = Some x) ∧
  (∀ c' r' x, cache' = Some c' → utxo_cache_get c' r' = Some x →
     r' ≠ r ∧ ∃ c, cache = Some c ∧ utxo_cache_get c r' = Some x).
Proof.
  destruct cache as [c|]; cbn; intros Heq; injection Heq as <- <-; split; [eauto| |done|done].
  intros c' r' x Hc Hg. injection Hc as <-. apply moka_get_invalidate in Hg as [Hne Hg]. eauto.
Qed.

(** [set_solver] without the facts about every output. *)
Ltac seen_solver :=
  repeat match goal with H : ∀ _ : TxoRef, _ |- _ => clear H | H : ∀ _ : UtxoCache C, _ |- _ => clear H end;
  set_solver.

Lemma resolve_cached_step tx_ids s seen st r :
  resolving tx_ids s seen st → resolving tx_ids s ({[r]} ∪ seen) (resolve_cached tx_ids st r).
Proof.
  intros [Hch Hf Hres Hall Hc]. unfold resolve_cached. destruct (decide (tx_hash r ∈ tx_ids)) as [Hin|Hout].
  { split; cbn.
    - intros r'. rewrite elem_of_union, elem_of_singleton, Hch. seen_solver.
    - intros r' Hr'. apply Hf in Hr'. seen_solver.
    - intros r' x Hr'. apply Hres in Hr'. seen_solver.
    - intros r' Hr' Hh. apply Hall; [|done]. apply elem_of_union in Hr' as [->%elem_of_singleton|?]; done.
    - intros c r' x Heq Hg. destruct (Hc c r' x Heq Hg) as (? & ? & ?). seen_solver. }
  destruct (match rs_cache st with Some _ => _ | None => _ end) as [found cache] eqn:Hrm.
  apply cache_remove_spec in Hrm as [Hfound Hkept].
  assert (∀ c r' x, cache = Some c → utxo_cache_get c r' = Some x →
            valid r' ∧ agrees_with s r' x ∧ (r' ∈ {[r]} ∪ seen → tx_hash r' ∈ tx_ids)) as Hcache.
  { intros c r' x Heq Hg. destruct (Hkept c r' x Heq Hg) as (Hne & c0 & Hc0 & Hg0).
    destruct (Hc c0 r' x Hc0 Hg0) as (? & ? & ?). seen_solver. }
  destruct found as [x|].
  - destruct (Hfound x eq_refl) as (c & Hcc & Hg). destruct (Hc c r x Hcc Hg) as (_ & Hst & _).
    split; cbn; [..|exact Hcache].
    + intros r'. rewrite Hch. seen_solver.
    + intros r' Hr'. apply Hf in Hr'. seen_solver.
    + intros r' x' Hr'. rewrite lookup_insert in Hr'. case_decide as Heq.
      * subst r'. injection Hr' as <-. seen_solver.
      * apply Hres in Hr'. seen_solver.
    + intros r' Hr' Hh. rewrite lookup_insert. case_decide as Heq; [by right|].
      apply Hall; [|done]. seen_solver.
  - split; cbn; [..|exact Hcache].
    + intros r'. rewrite Hch. seen_solver.
    + intros r' [Hr'|Hr']%elem_of_app.
      * apply Hf in Hr'. seen_solver.
      * apply list_elem_of_singleton in Hr' as ->. seen_solver.
    + intros r' x' Hr'. apply Hres in Hr'. seen_solver.
    + intros r' Hr' Hh. apply elem_of_union in Hr' as [->%elem_of_singleton|Hr'].
      * left. apply elem_of_app. right. by apply list_elem_of_singleton.
      * destruct (Hall r' Hr' Hh) as [?|?]; [left; apply elem_of_app; by left|by right].
Qed.

Lemma resolve_cached_all tx_ids s l seen st :
  resolving tx_ids s seen st → resolving tx_ids s (list_to_set l ∪ seen) (foldl (resolve_cached tx_ids) st l).
Proof.
  revert seen st. induction l as [|r l IH]; intros seen st Hst; cbn [foldl list_to_set].
  - by rewrite union_empty_l_L.
  - rewrite <-(union_assoc_L {[r]}), (union_comm_L {[r]}), <-union_assoc_L, (union_comm_L seen).
    apply IH. by apply resolve_cached_step.
Qed.

(** The second loop. *)
Lemma resolve_fetched_all (f : TxoRef → option (Utxo Ext)) out (resolver : gmap TxoRef (Utxo Ext)) :
  (∀ r o, (r, o) ∈ out → o = f r ∧ is_Some o) →
  ∃ res, for_each out resolver resolve_fetched = Ok res ∧
    ∀ r, res !! r = if decide (r ∈ out.*1) then f r else resolver !! r.
Proof.
  revert resolver. induction out as [|[r o] out IH]; intros resolver Hout; [by exists resolver|].
  destruct (Hout r o) as [-> [x Hx]]; [by left|].
  destruct (IH (<[r := x]> resolver)) as (res & Hres & Hl); [intros r' o' Hin; apply Hout; by right|].
  exists res. split; [cbn [for_each]; unfold resolve_fetched at 1; cbn [fst snd]; by rewrite Hx|].
  intros r'. rewrite Hl. cbn [fmap list_fmap fst]. destruct (decide (r' ∈ out.*1)) as [Hin|Hnot].
  - by rewrite decide_True by (by right).
  - rewrite lookup_insert. destruct (decide (r = r')) as [<-|Hne].
    + by rewrite decide_True by (by left).
    + rewrite decide_False; [done|]. apply not_elem_of_cons. auto.
Qed.
(** A stored output is read as it was written. *)
Lemma task_get_stored (task : IndexingTask DB) r x :
  readable task → write_buffer task = ∅ → stored (task_snapshot task) r x →
  task_get UtxoByTxoRefKV task r = Ok (Some x).
Proof.
  intros Hr Hwb [Hs Hx]. rewrite (task_get_effect _ _ _ (Some (encode x))).
  - cbn [decode_value]. by rewrite decode_or_encode.
  - exact Hr.
  - intros k a Ha. by rewrite Hwb, lookup_empty in Ha.
  - unfold effect. rewrite Hwb, lookup_empty. by f_equal.
Qed.

Lemma fetch_all (task : IndexingTask DB) fetch (resolver : gmap TxoRef (Utxo Ext)) :
  readable task → write_buffer task = ∅ → (∀ r, r ∈ fetch → ∃ x, stored (task_snapshot task) r x) →
  ∃ res, (match fetch with
          | [] => Ok resolver
          | r :: l => fetched ← multi_get UtxoByTxoRefKV task (r :: l); for_each fetched resolver resolve_fetched
          end : Res Error (gmap TxoRef (Utxo Ext))) = Ok res ∧
    (∀ r, r ∈ fetch → ∃ x, res !! r = Some x ∧ stored (task_snapshot task) r x) ∧
    ∀ r, r ∉ fetch → res !! r = resolver !! r.
Proof.
  intros Hr Hwb Hall. destruct fetch as [|r0 fetch].
  { exists resolver. split_and!; [done|by intros r ?%elem_of_nil|done]. }
  set (fs := r0 :: fetch) in *. set (f r := unwrap_or None (task_get UtxoByTxoRefKV task r) : option (Utxo Ext)).
  assert (∀ r, r ∈ fs → ∃ x, task_get UtxoByTxoRefKV task r = Ok (f r) ∧ f r = Some x ∧
            stored (task_snapshot task) r x) as Hf.
  { intros r (x & Hx)%Hall. exists x. unfold f. by rewrite (task_get_stored task r x Hr Hwb Hx). }
  destruct (multi_get_gets UtxoByTxoRefKV task fs f Hr) as (out & Hout & Hperm).
  { intros r (x & Hx & _)%Hf. exact Hx. }
  assert (∀ r, r ∈ out.*1 ↔ r ∈ fs) as Hkeys.
  { intros r. rewrite Hperm, <-list_fmap_compose, list_elem_of_fmap. cbn. naive_solver. }
  destruct (resolve_fetched_all f out resolver) as (res & Hres & Hl).
  { intros r o Hin. rewrite Hperm in Hin. apply list_elem_of_fmap in Hin as (r' & Heq & Hr').
    injection Heq as -> ->. destruct (Hf r' Hr') as (x & _ & -> & _). eauto. }
  exists res. split; [cbn [rbind]; rewrite Hout; exact Hres|]. split.
  - intros r Hin. destruct (Hf r Hin) as (x & _ & Hx & Hs). exists x.
    rewrite Hl, decide_True by (by apply Hkeys). done.
  - intros r Hnot. rewrite Hl, decide_False; [done|]. by rewrite Hkeys.
Qed.

(** Every input the block does not create is resolved to the stored output,
    whether the cache holds it or not. *)
Lemma resolve_inputs_ok (task : IndexingTask DB) (txs : BlockTxs) (cache : option (UtxoCache C)) :
  let s := task_snapshot task in let ids := tx_id <$> txs in let refs := block_input_refs txs in
  readable task → write_buffer task = ∅ → cache_coherent s cache →
  (∀ r, r ∈ refs → tx_hash r ∉ ids → ∃ x, stored s r x) →
  ∃ res cache', resolve_inputs task txs cache = Ok (res, cache') ∧
    (∀ r, r ∈ ru_chained_txos res ↔ r ∈ refs ∧ tx_hash r ∈ ids) ∧
    (∀ r, r ∈ refs → tx_hash r ∉ ids → ∃ x, ru_resolver res !! r = Some x ∧ stored s r x) ∧
    (∀ r, r ∉ refs ∨ tx_hash r ∈ ids → ru_resolver res !! r = None) ∧
    cache_coherent s cache' ∧
    (∀ c r x, cache' = Some c → utxo_cache_get c r = Some x → r ∈ refs → tx_hash r ∈ ids).
Proof.
  intros s ids refs Hr Hwb Hcc Hall. unfold resolve_inputs.
  pose proof (resolve_cached_all (block_tx_ids txs) s (hs_iter refs) ∅ (MkResolveState ∅ [] ∅ 0%N cache)) as Hst.
  destruct Hst as [Hch Hf Hres Hcov Hc].
  { split; cbn; [set_solver|by intros r ?%elem_of_nil|by intros r x ?%lookup_empty_Some|set_solver|].
    intros c r x Hc Hg. destruct (Hcc c r x Hc Hg). set_solver. }
  fold refs. set (st := foldl _ _ _) in *. rewrite union_empty_r_L in *.
  assert (∀ r, r ∈ list_to_set (C:=gset TxoRef) (hs_iter refs) ↔ r ∈ refs) as Hseen.
  { intros r. by rewrite elem_of_list_to_set, elem_of_hs_iter. }
  assert (∀ h, h ∈ block_tx_ids txs ↔ h ∈ ids) as Hids by (intros h; apply elem_of_list_to_set).
  setoid_rewrite Hseen in Hch. setoid_rewrite Hids in Hch.
  destruct (fetch_all task (rs_fetch_from_db st) (rs_resolver st) Hr Hwb) as (res & Hok & Hin & Hother).
  { intros r [Hs%Hseen Hh]%Hf. apply Hall; [done|]. by rewrite <-Hids. }
  exists (MkResolved res (rs_chained st) (rs_cache_hits st)), (rs_cache st). cbv zeta. rewrite Hok. cbn.
  split_and!; [done|exact Hch| | | |].
  - intros r Href Hh. destruct (decide (r ∈ rs_fetch_from_db st)) as [Hfetch|Hnot]; [by apply Hin|].
    rewrite (Hother r Hnot). destruct (Hcov r) as [?|[x Hx]]; [by apply Hseen|by rewrite Hids|done|].
    exists x. split; [done|]. apply Hres in Hx as (_ & _ & Hx). destruct (Hall r Href Hh) as (y & Hy & _). by apply Hx; exists (encode y).
  - intros r Hnot. rewrite Hother.
    + destruct (rs_resolver st !! r) as [x|] eqn:Hx; [|done].
      apply Hres in Hx as (Hs%Hseen & Hh & _). rewrite Hids in Hh. tauto.
    + intros [Hs%Hseen Hh]%Hf. rewrite Hids in Hh. tauto.
  - intros c r x Heq Hg. by destruct (Hc c r x Heq Hg) as (? & ? & _).
  - intros c r x Heq Hg Href. apply Hids. apply (Hc c r x Heq Hg), Hseen, Href.
Qed.
End Resolve.

(** ** One transaction *)
Section Simulate.
Context {DB : Type} `{RocksDBOk DB} `{HashOrderOk} `{Ordinals} `{!CharmsLib} `{!Machine}.
Context {Ext : Type} `{!IndexMap TransactionIndexer (list byte) Ext}.
Context `{!IndexMapOk TransactionIndexer (list byte) Ext}.
Context {C : Type} `{!MokaCache (Utxo Ext) C, !MokaCacheOk (Utxo Ext) C}.

(** The value of a reference once the task is committed. *)
Abbreviation outcome task r := (effect (write_buffer task) (task_snapshot task) (utxo_raw (Ext:=Ext) r)).

(** The task leaves output [x] under [r]; [x] can be read back, or will be
    once it is known that what the task writes has a length. *)
Definition leaves (task : IndexingTask DB) (r : TxoRef) (x : Utxo Ext) : Prop :=
  outcome task r = Some (Some (encode x)) ∧
  (valid x ∨ fits 64 (satoshis x) ∧ fits 64 (height x) ∧
             write_buffer task !! utxo_raw (Ext:=Ext) r = Some (Set_ (encode x))).

(** The references spent in the block, and the height it has. *)
Context (ids : list Txid) (refs chained : gset TxoRef) (h : BlockHeight).
Hypothesis (chained_iff : ∀ r, r ∈ chained ↔ r ∈ refs ∧ tx_hash r ∈ ids).
Hypothesis (h_fits : fits 64 h).

Record simulates (U : UtxoSet) (task : IndexingTask DB) (ctx : IndexingContext Ext)
    (cache : option (UtxoCache C)) : Prop := {
  sim_mempool : task_mempool task = false;
  sim_readable : readable task;
  sim_chained : ctx_chained_txos ctx = chained;
  sim_height : block_height ctx = h;
  sim_table r : valid r →
    match (if decide (r ∈ chained) then None else U !! r) with
    | Some u => ∃ x, leaves task r x ∧ base x = u
    | None => outcome task r = Some None
    end;
  sim_resolver r : r ∈ refs → base <$> ctx_resolver ctx !! r = U !! r;
  sim_cache c r x : cache = Some c → utxo_cache_get c r = Some x →
    valid r ∧ (outcome task r = Some None ∨ (r ∉ refs) ∧ leaves task r x);
}.

(** A write to another key changes nothing for [r]. *)
Lemma buffered_other (t t' : IndexingTask DB) r r' a :
  buffered (utxo_raw (Ext:=Ext) r) a t t' → valid r → valid r' → r ≠ r' →
  outcome t' r' = outcome t r' ∧ ∀ x, leaves t r' x → leaves t' r' x.
Proof.
  intros Hb Hr Hr' Hne.
  assert (utxo_raw (Ext:=Ext) r ≠ utxo_raw (Ext:=Ext) r') as Hk by (by intros ?%utxo_raw_inj).
  assert (outcome t' r' = outcome t r') as Ho by (by rewrite (buffered_effect _ _ _ _ _ Hb), decide_False).
  split; [exact Ho|]. intros x [Hx Hv]. split; [by rewrite Ho|].
  by rewrite (buffered_wb _ _ _ _ Hb), lookup_insert_ne.
Qed.

(** What is cached about another output stays right. *)
Lemma kept_other (t t' : IndexingTask DB) r r' a x :
  buffered (utxo_raw (Ext:=Ext) r) a t t' → valid r → valid r' → r ≠ r' →
  outcome t r' = Some None ∨ (r' ∉ refs) ∧ leaves t r' x → outcome t' r' = Some None ∨ (r' ∉ refs) ∧ leaves t' r' x.
Proof.
  intros Hb Hr Hr' Hne Hx. destruct (buffered_other _ _ _ _ _ Hb Hr Hr' Hne) as [Ho Hl].
  destruct Hx as [Hx|[Hnot Hx]]; [left; by rewrite Ho|right; auto].
Qed.

Lemma consume_input_sim U task ctx cache i :
  simulates U task ctx cache → valid (input_ref i) → (input_ref i ∈ refs) ∨ U !! input_ref i = None →
  ∃ ctx' task', consume_input (ctx, task) i = Ok (ctx', task') ∧
    simulates (delete (input_ref i) U) task' ctx' cache.
Proof.
  intros Hsim Hr Hspend.
  destruct (task_delete_ok (UtxoByTxoRefKV (Ext:=Ext)) (input_ref i) task (sim_readable _ _ _ _ Hsim))
    as (task' & Hdel & Hb).
  unfold consume_input. fold (input_ref i). rewrite (sim_mempool _ _ _ _ Hsim), Hdel. cbn [rbind].
  eexists _, task'. split; [reflexivity|]. fold (utxo_raw (Ext:=Ext) (input_ref i)) in Hb.
  pose proof (buffered_same _ _ _ _ Hb) as Hsame.
  split; cbn [ctx_chained_txos ctx_resolver].
  - destruct Hsame as (_ & _ & <- & _). apply Hsim.
  - eapply same_task_readable; [exact Hsame|apply Hsim].
  - apply Hsim.
  - apply Hsim.
  - intros r Hr'. destruct (decide (input_ref i = r)) as [<-|Hne].
    + rewrite lookup_delete_eq.
      replace (if decide (input_ref i ∈ chained) then None else None) with (@None (Utxo unit)) by (by case_decide).
      by rewrite (buffered_effect _ _ _ _ _ Hb), decide_True.
    + rewrite lookup_delete_ne by done. destruct (buffered_other _ _ _ _ _ Hb Hr Hr' Hne) as [Ho Hl].
      pose proof (sim_table _ _ _ _ Hsim r Hr') as Ht. destruct (if decide (r ∈ chained) then _ else _) as [u|].
      * destruct Ht as (x & Hx & Hbase). exists x. auto.
      * by rewrite Ho.
  - intros r Href. destruct (decide (input_ref i = r)) as [<-|Hne].
    + unfold input_ref. by rewrite !lookup_delete_eq.
    + rewrite (lookup_delete_ne U), (lookup_delete_ne (ctx_resolver ctx)) by done. by apply Hsim.
  - intros c r x Hc Hg. destruct (sim_cache _ _ _ _ Hsim c r x Hc Hg) as (Hr' & Hx). split; [done|].
    destruct (decide (input_ref i = r)) as [<-|Hne]; [left; by rewrite (buffered_effect _ _ _ _ _ Hb), decide_True|].
    by apply (kept_other _ _ _ _ _ _ Hb).
Qed.
Lemma consume_inputs_sim inputs U task ctx cache :
  simulates U task ctx cache →
  Forall (λ i, valid (input_ref i) ∧ ((input_ref i ∈ refs) ∨ U !! input_ref i = None)) inputs →
  ∃ ctx' task', for_each inputs (ctx, task) consume_input = Ok (ctx', task') ∧
    simulates (spend_inputs inputs U) task' ctx' cache.
Proof.
  revert U task ctx. induction inputs as [|i inputs IH]; intros U task ctx Hsim Hin; [by eexists _, _|].
  apply Forall_cons in Hin as [[Hv Hs] Hin].
  destruct (consume_input_sim U task ctx cache i Hsim Hv Hs) as (ctx1 & task1 & Hc & Hsim1).
  cbn [for_each]. rewrite Hc. cbn [rbind]. apply (IH _ _ _ Hsim1).
  eapply Forall_impl; [exact Hin|]. intros i' [Hv' [?|Hs']]; split; [done|by left|done|right].
  by apply lookup_delete_None; right.
Qed.

Lemma output_ref_valid t j : length (tx_id t) = 32 → valid (output_ref t j).
Proof.
  intros Hl. split; [done|]. unfold fits. cbn [txo_index output_ref]. apply N.mod_lt. done.
Qed.

(** The cache after the memory was looked at: as it was, or empty. *)
Lemma cache_wipe_sim (r : MemoryReading) (c : UtxoCache C) txo x :
  utxo_cache_get (wipe_if_mem_usage_high r c) txo = Some x → utxo_cache_get c txo = Some x.
Proof.
  unfold wipe_if_mem_usage_high. destruct (_ <? _)%N; [done|]. destruct (mem_usage_high _ _); [|done].
  unfold utxo_cache_get. cbn [uc_cache]. by rewrite moka_get_new.
Qed.

(** The cache after an output was stored. *)
Lemma cache_insert_sim (c : UtxoCache C) r x r' x' :
  utxo_cache_get (utxo_cache_insert r x c) r' = Some x' →
  (r' = r ∧ x' = x) ∨ (r' ≠ r ∧ utxo_cache_get c r' = Some x').
Proof. apply moka_get_insert. Qed.

Lemma produce_output_sim t U (s : UpdateState DB Ext C) o :
  length (tx_id t) = 32 → tx_id t ∈ ids → fits 64 (value_to_sat o.2) →
  simulates U (us_task s) (us_ctx s) (us_cache s) →
  ∃ s', produce_output t s o = Ok s' ∧
    simulates (create_output h t U o) (us_task s') (us_ctx s') (us_cache s').
Proof.
  destruct o as [j o], s as [ctx task cache n]. cbn [us_task us_ctx us_cache fst snd].
  intros Hl Hid Hsat Hsim. unfold produce_output, create_output. cbn [fst snd us_ctx us_task us_cache].
  destruct (is_op_return (script_pubkey o)); [by eexists|].
  set (r := output_ref t j). assert (valid r) as Hr by (by apply output_ref_valid).
  rewrite (sim_height _ _ _ _ Hsim). set (u := MkUtxo _ _ _ (default _ _)).
  cbn [ctx_chained_txos ctx_point ctx_resolver ctx_utxo_metadata ctx_network].
  rewrite (sim_chained _ _ _ _ Hsim). destruct (decide (r ∈ chained)) as [Hch|Hch].
  - eexists. split; [reflexivity|]. cbn [us_task us_ctx us_cache].
    split; cbn [ctx_chained_txos ctx_resolver]; [apply Hsim|apply Hsim|done|apply Hsim| | |].
    + intros r' Hr'. pose proof (sim_table _ _ _ _ Hsim r' Hr') as Ht.
      destruct (decide (r' ∈ chained)) as [?|Hnot]; [exact Ht|]. rewrite lookup_insert_ne; [exact Ht|].
      by intros <-.
    + intros r' Href. destruct (decide (r = r')) as [<-|Hne].
      * by rewrite (lookup_insert_eq U), (lookup_insert_eq (ctx_resolver ctx)).
      * rewrite (lookup_insert_ne U), (lookup_insert_ne (ctx_resolver ctx)) by done. by apply Hsim.
    + apply Hsim.
  - assert (r ∉ refs) as Hnref by (intros Href; apply Hch, chained_iff; by split).
    destruct (task_set_ok (UtxoByTxoRefKV (Ext:=Ext)) r u task (sim_readable _ _ _ _ Hsim)) as (task' & Hset & Hb).
    rewrite Hset. cbn [rbind]. eexists. split; [reflexivity|]. cbn [us_task us_ctx us_cache].
    fold (utxo_raw (Ext:=Ext) r) in Hb. pose proof (buffered_same _ _ _ _ Hb) as Hsame.
    assert (leaves task' r u) as Hu.
    { split; [by rewrite (buffered_effect _ _ _ _ _ Hb), decide_True|]. right. split_and!; [done|done|].
      by rewrite (buffered_wb _ _ _ _ Hb), lookup_insert_eq. }
    split; cbn [ctx_chained_txos ctx_resolver]; [..|].
    + destruct Hsame as (_ & _ & <- & _). apply Hsim.
    + eapply same_task_readable; [exact Hsame|apply Hsim].
    + done.
    + apply Hsim.
    + intros r' Hr'. destruct (decide (r = r')) as [<-|Hne].
      * rewrite decide_False, lookup_insert_eq by done. by exists u.
      * rewrite lookup_insert_ne by done. destruct (buffered_other _ _ _ _ _ Hb Hr Hr' Hne) as [Ho Hlv].
        pose proof (sim_table _ _ _ _ Hsim r' Hr') as Ht. destruct (if decide (r' ∈ chained) then _ else _) as [u'|].
        -- destruct Ht as (x & Hx & Hbase). exists x. auto.
        -- by rewrite Ho.
    + intros r' Href. rewrite (lookup_insert_ne U) by (by intros <-). by apply Hsim.
    + intros c r' x Hc Hg. rewrite (sim_mempool _ _ _ _ Hsim) in Hc. destruct cache as [c0|]; [|done].
      injection Hc as <-. apply cache_insert_sim in Hg as [[-> ->]|[Hne Hg]]; [split; [done|by right]|].
      destruct (sim_cache _ _ _ _ Hsim c0 r' x eq_refl Hg) as (Hr' & Hx). split; [done|].
      by apply (kept_other _ _ r r' _ _ Hb Hr Hr' ltac:(congruence)).
Qed.

Lemma produce_outputs_sim t U (s : UpdateState DB Ext C) outs :
  length (tx_id t) = 32 → tx_id t ∈ ids → Forall (λ o, fits 64 (value_to_sat o.2)) outs →
  simulates U (us_task s) (us_ctx s) (us_cache s) →
  ∃ s', for_each outs s (produce_output t) = Ok s' ∧
    simulates (foldl (create_output h t) U outs) (us_task s') (us_ctx s') (us_cache s').
Proof.
  intros Hl Hid. revert U s. induction outs as [|o outs IH]; intros U s Hf Hsim; [by exists s|].
  apply Forall_cons in Hf as [Hsat Hf].
  destruct (produce_output_sim t U s o Hl Hid Hsat Hsim) as (s1 & Hs1 & Hsim1).
  cbn [for_each foldl]. rewrite Hs1. by apply IH.
Qed.

Lemma enumerate_values {A} (P : A → Prop) (l : list A) : Forall P l → Forall (λ o, P o.2) (enumerate l).
Proof.
  intros Hl. apply Forall_forall. intros [j x] Hin. apply elem_of_lookup_imap in Hin as (i & y & Heq & Hy).
  injection Heq as _ ->. rewrite Forall_lookup in Hl. by eapply Hl.
Qed.

(** A transaction's effect on the set. *)
Lemma update_utxo_set_sim {reading : MemoryReading} t U task ctx cache :
  tx_wf t → tx_id t ∈ ids → simulates U task ctx cache →
  Forall (λ i, (input_ref i ∈ refs) ∨ U !! input_ref i = None) (tx_input (tx t)) →
  ∃ u, update_utxo_set reading t ctx task cache = Ok u ∧
    simulates (apply_tx h U t) (us_task u) (us_ctx u) (us_cache u).
Proof.
  intros (Hl & Hin & Hout) Hid Hsim Hspend.
  destruct (consume_inputs_sim (tx_input (tx t)) U task ctx cache Hsim) as (ctx1 & task1 & Hc & Hsim1).
  { apply Forall_and. by split. }
  destruct (produce_outputs_sim t (spend_inputs (tx_input (tx t)) U) (MkUpdate ctx1 task1 cache 0%N) (enumerate (tx_output (tx t))) Hl Hid)
    as (s & Hs & Hsim2); 
    [exact (enumerate_values (λ o, fits 64 (value_to_sat o)) _ Hout)|exact Hsim1|].
  unfold update_utxo_set. rewrite Hc. cbn [rbind]. rewrite Hs. cbn [rbind]. eexists. split; [reflexivity|].
  cbn [us_task us_ctx us_cache]. destruct Hsim2. split; [done..|].
  intros c r x Heq Hg. destruct (us_cache s) as [c0|]; [|done]. injection Heq as <-.
  apply cache_wipe_sim in Hg. by eapply sim_cache0.
Qed.
End Simulate.
