(* ===== verification/UtxoBlock.v ===== *)
(** * Indexing a block refines the set of unspent outputs: whole blocks

    From the start of a block's task to its commit, with the indexers that run
    in between; the theorems speak of the store a reader sees. *)
From S2P Require Import Prelude ByteOrder EncDec Timestamp Types MergeOperation Table Rocks.
From S2P Require Import CoreTables KvStore KvStoreLaws Commit RollbackBuffer Bitcoin Context.
From S2P Require Import AddressIndexers RunesTables Runes Charms Indexers Stage Instances StageLaws Chain.
From S2P Require Import UtxoSet UtxoLaws.

(** ** An output whose encoding has a length can be decoded *)
Section Lengths.
Context {Ext : Type} `{!IndexMap TransactionIndexer (list byte) Ext}.
Context `{!IndexMapOk TransactionIndexer (list byte) Ext}.

Lemma length_encode_bytes (l : list byte) : length l ≤ length (encode l).
Proof.
  unfold encode, vec_encode. rewrite length_app. enough (length (concat_encode l) = length l) by lia.
  unfold concat_encode. induction l as [|b l IH]; [done|]. cbn [mbind list_bind]. by rewrite length_app, IH.
Qed.

Lemma length_encode_items (l : list (TransactionIndexer * list byte)) :
  length l ≤ length (l ≫= λ '(k, v), encode k ++ encode v) ∧
  Forall (λ kv, length kv.2 ≤ length (l ≫= λ '(k, v), encode k ++ encode v)) l.
Proof.
  induction l as [|[k v] l [IH1 IH2]]; [by split|]. cbn [mbind list_bind].
  assert (length (encode k) = 1) as Hk by (by destruct k). pose proof (length_encode_bytes v) as Hv.
  rewrite !length_app, Hk. cbn [length]. split; [lia|]. apply Forall_cons. cbn [snd]. split; [lia|].
  eapply Forall_impl; [exact IH2|]. intros kv. cbn. lia.
Qed.

Lemma utxo_valid_of_length (x : Utxo Ext) :
  fits 64 (N.of_nat (length (encode x))) → fits 64 (satoshis x) → fits 64 (height x) → valid x.
Proof.
  intros Hl Hs Hh. destruct x as [sats scr hgt ext]. cbn [satoshis height] in *.
  change (encode (MkUtxo sats scr hgt ext)) with
    (((encode sats ++ encode scr) ++ encode hgt) ++ extended_encode ext) in Hl.
  rewrite !length_app in Hl.
  pose proof (length_encode_bytes scr) as Hscr.
  destruct (length_encode_items (im_iter ext)) as [Hn Hitems].
  assert (length (im_iter ext ≫= λ '(k, v), encode k ++ encode v) ≤ length (extended_encode ext)) as Hext.
  { unfold extended_encode, indexmap_encode. rewrite length_app. apply Nat.le_add_l. }
  assert (∀ n : nat, n ≤ length (encode scr) + length (extended_encode ext) → fits 64 (N.of_nat n)) as Hfits.
  { intros n Hle. unfold fits in *. lia. }
  split; [exact Hs|]. split; [split; [apply Hfits; cbn [script]; lia|by apply Forall_true]|]. split; [exact Hh|].
  split; [apply Hfits; cbn [extended]; lia|]. eapply Forall_impl; [exact Hitems|].
  intros [k v] Hv. cbn [fst snd] in *. split; [done|]. split; [apply Hfits; lia|by apply Forall_true].
Qed.
End Lengths.

(** What a task writes has a length. *)
Definition values_fit {DB} (task : IndexingTask DB) : Prop :=
  ∀ k v, write_buffer task !! k = Some (Set_ v) → fits 64 (N.of_nat (length v)).

Section Block.
Context {DB : Type} `{RocksDBOk DB} `{HashOrderOk} `{Ordinals} `{!CharmsLib} `{!Machine}.
Context {Ext : Type} `{!IndexMap TransactionIndexer (list byte) Ext}.
Context `{!IndexMapOk TransactionIndexer (list byte) Ext}.
Context {C : Type} `{!MokaCache (Utxo Ext) C, !MokaCacheOk (Utxo Ext) C}.

Abbreviation data st := (db_latest (sh_db (st_db st))).
Abbreviation raw := (utxo_raw (Ext:=Ext)).

Lemma utxo_raw_key r : utxo_key (raw r) ∧ user_key (raw r) ∧ ¬ custom_key (raw r).
Proof.
  destruct (utxo_table (Ext:=Ext) r) as (Hu & _ & Hk). split_and!; [exact Hk|exact Hu|].
  intros [p Hp]. destruct Hk as [q Hq]. fold (raw r) in Hq. rewrite Hq in Hp. discriminate.
Qed.

(** *** The indexers leave the set alone *)
Lemma run_indexers_context indexers t n (task task' : IndexingTask DB) (ctx ctx' : IndexingContext Ext) :
  task_wf task → run_indexers indexers t n (task, ctx) = Ok (task', ctx') →
  task_steps custom_key task task' ∧ same_context ctx ctx'.
Proof.
  intros Hwf. apply (for_each_inv (λ s, task_steps custom_key task s.1 ∧ same_context ctx s.2)); [|done].
  intros i [t1 c1] [t2 c2] _ [Ht1 Hc1] Hp. cbn [fst snd] in *.
  apply (process_tx_ok i) in Hp as [Hp Hc]; [split; by etransitivity|by eapply task_steps_wf].
Qed.

Section Steps.
Context (ids : list Txid) (refs chained : gset TxoRef) (h : BlockHeight).
Hypothesis (chained_iff : ∀ r, r ∈ chained ↔ r ∈ refs ∧ tx_hash r ∈ ids).
Hypothesis (h_fits : fits 64 h).
Abbreviation sim := (simulates (DB:=DB) (Ext:=Ext) (C:=C) refs chained h).

Lemma steps_sim P U (task task' : IndexingTask DB) ctx ctx' cache :
  task_steps P task task' → (∀ r, ¬ P (raw r)) → same_context ctx ctx' →
  sim U task ctx cache → sim U task' ctx' cache.
Proof.
  intros Hs HP (Hpt & Hres & Hch & _) Hsim. pose proof (task_steps_same _ _ _ Hs) as Hsame.
  assert (∀ r, effect (write_buffer task') (task_snapshot task') (raw r) =
               effect (write_buffer task) (task_snapshot task) (raw r)) as Ho.
  { intros r. rewrite <-(task_snapshot_proper _ _ Hsame). unfold effect.
    by rewrite (task_steps_untouched _ _ _ _ Hs (HP r)). }
  assert (∀ r x, leaves task r x → leaves task' r x) as Hl.
  { intros r x [Hx Hv]. split; [by rewrite Ho|]. by rewrite (task_steps_untouched _ _ _ _ Hs (HP r)). }
  split.
  - destruct Hsame as (_ & _ & <- & _). apply Hsim.
  - eapply same_task_readable; [exact Hsame|apply Hsim].
  - rewrite Hch. apply Hsim.
  - unfold block_height. rewrite Hpt. apply Hsim.
  - intros r Hr. pose proof (sim_table _ _ _ _ _ _ _ Hsim r Hr) as Ht.
    destruct (if decide (r ∈ chained) then _ else _) as [u|]; [|by rewrite Ho].
    destruct Ht as (x & Hx & Hb). exists x. auto.
  - rewrite Hres. apply Hsim.
  - intros c r x Hc Hg. destruct (sim_cache _ _ _ _ _ _ _ Hsim c r x Hc Hg) as [Hr Hx]. split; [done|].
    rewrite Ho. destruct Hx as [?|[? ?]]; [by left|right; auto].
Qed.

(** *** The transactions in turn *)
Lemma index_tx_sim {readings : nat → MemoryReading} indexers U task ctx cache j t task' ctx' cache' :
  task_wf task → sim U task ctx cache → tx_wf t → tx_id t ∈ ids →
  Forall (λ i, (input_ref i ∈ refs) ∨ U !! input_ref i = None) (tx_input (tx t)) →
  index_tx readings indexers (task, ctx, cache) (j, t) = Ok (task', ctx', cache') →
  task_wf task' ∧ sim (apply_tx h U t) task' ctx' cache'.
Proof.
  intros Hwf Hsim Ht Hid Hin Hi. apply res_bind_ok in Hi as ([task1 ctx1] & Hrun & Hi).
  apply run_indexers_context in Hrun as [Hs Hc]; [|done].
  assert (sim U task1 ctx1 cache) as Hsim1.
  { eapply steps_sim; [exact Hs| |exact Hc|exact Hsim]. intros r. apply utxo_raw_key. }
  apply res_bind_ok in Hi as (u & Hu & Hi). injection Hi as <- <- <-.
  destruct (update_utxo_set_sim (reading:=readings j) ids refs chained h chained_iff h_fits t U task1 ctx1 cache)
    as (u' & Hu' & Hsim2); [done..|].
  rewrite Hu in Hu'. injection Hu' as <-. split; [|exact Hsim2].
  eapply task_steps_wf; [by eapply update_utxo_set_steps|]. by eapply task_steps_wf.
Qed.

Lemma index_txs_sim {readings : nat → MemoryReading} indexers l U task ctx cache task' ctx' cache' :
  task_wf task → sim U task ctx cache →
  Forall (λ t, tx_wf t ∧ tx_id t ∈ ids ∧ Forall (λ i, input_ref i ∈ refs) (tx_input (tx t))) l.*2 →
  for_each l (task, ctx, cache) (index_tx readings indexers) = Ok (task', ctx', cache') →
  task_wf task' ∧ sim (apply_block h l.*2 U) task' ctx' cache'.
Proof.
  revert U task ctx cache. induction l as [|[j t] l IH]; intros U task ctx cache Hwf Hsim Hall Hf.
  { cbn [for_each] in Hf. injection Hf as <- <- <-. by split. }
  cbn [fmap list_fmap snd] in Hall. apply Forall_cons in Hall as [(Ht & Hid & Hin) Hall].
  cbn [for_each] in Hf. apply res_bind_ok in Hf as ([[task1 ctx1] cache1] & Hi & Hf).
  eapply index_tx_sim in Hi as [Hwf1 Hsim1]; [|done..|].
  - by eapply IH.
  - eapply Forall_impl; [exact Hin|]. intros i ?. by left.
Qed.
End Steps.
(** *** The start of a block *)
Definition block_chained (txs : BlockTxs) : gset TxoRef :=
  filter (λ r, tx_hash r ∈ tx_id <$> txs) (block_input_refs txs).

Lemma block_chained_iff txs r : r ∈ block_chained txs ↔ r ∈ block_input_refs txs ∧ tx_hash r ∈ tx_id <$> txs.
Proof. unfold block_chained. rewrite elem_of_filter. tauto. Qed.

Lemma block_refs_valid h U txs r : valid_block h U txs → r ∈ block_input_refs txs → valid r.
Proof.
  intros Hv Hr. rewrite elem_of_block_input_refs in Hr. apply list_elem_of_bind in Hr as (t & Hr & Ht).
  apply list_elem_of_fmap in Hr as (i & -> & Hi).
  assert (t ∈ txs) as Htxs.
  { destruct txs as [|t0 txs]; [done|]. cbn [skip_coinbase] in Ht. destruct (is_coinbase (tx t0)); [by right|done]. }
  pose proof (vb_wf _ _ _ Hv) as Hwf. rewrite Forall_forall in Hwf. destruct (Hwf t Htxs) as (_ & Hin & _).
  rewrite Forall_forall in Hin. by apply Hin.
Qed.

Lemma context_new_sim U (task : IndexingTask DB) txs point network cache :
  let s := task_snapshot task in
  readable task → task_mempool task = false → write_buffer task = ∅ → cache_coherent s cache →
  utxo_set_stored U s → valid_block (point_height point) U txs →
  ∃ ctx cache', context_new task txs point network cache = Ok (ctx, cache') ∧
    simulates (block_input_refs txs) (block_chained txs) (point_height point) U task ctx cache'.
Proof.
  intros s Hr Hm Hwb Hcc HU Hv.
  assert (∀ r, r ∈ block_input_refs txs → tx_hash r ∈ tx_id <$> txs → U !! r = None) as Hnew.
  { intros r _ Hh. destruct (U !! r) as [u|] eqn:Hu; [|done]. by destruct (vb_fresh _ _ _ Hv r). }
  assert (∀ r x, stored s r x → valid r → r ∈ block_input_refs txs → tx_hash r ∉ tx_id <$> txs) as Hold.
  { intros r x Hx Hvr Href Hh. pose proof (stored_base _ _ _ _ HU Hvr Hx) as Heq. by rewrite Hnew in Heq. }
  destruct (resolve_inputs_ok task txs cache Hr Hwb Hcc) as (res & cache' & Hok & Hch & Hin & Hout & Hcc' & Hgone).
  { intros r Href Hh. pose proof (block_refs_valid _ _ _ r Hv Href) as Hvr.
    destruct (block_needs _ _ _ _ Hv Href Hh) as [u Hu]. specialize (HU r Hvr). rewrite Hu in HU.
    destruct HU as (x & Hx & _). by exists x. }
  eexists _, cache'. unfold context_new. rewrite Hok. split; [reflexivity|].
  assert (∀ r, effect (write_buffer task) (task_snapshot task) (raw r) = Some (s !! raw r)) as Heff.
  { intros r. unfold effect. by rewrite Hwb, lookup_empty. }
  split; cbn [ctx_chained_txos ctx_resolver]; [done|done| |done| | |].
  - apply set_eq. intros r. by rewrite Hch, block_chained_iff.
  - intros r Hvr. specialize (HU r Hvr). case_decide as Hc.
    + apply block_chained_iff in Hc as [Href Hh]. rewrite (Hnew r Href Hh) in HU. by rewrite Heff, HU.
    + destruct (U !! r) as [u|]; [|by rewrite Heff, HU]. destruct HU as (x & [Hx Hvx] & Hb).
      exists x. split; [|done]. split; [by rewrite Heff, Hx|by left].
  - intros r Href. destruct (decide (tx_hash r ∈ tx_id <$> txs)) as [Hh|Hh].
    + rewrite Hout by (by right). by rewrite Hnew.
    + destruct (Hin r Href Hh) as (x & -> & Hx). symmetry. eapply stored_base; [exact HU| |exact Hx].
      by eapply block_refs_valid.
  - intros c r x Hc Hg. destruct (Hcc' c r x Hc Hg) as [Hvr Hx]. split; [done|]. rewrite Heff. unfold agrees_with in Hx. fold s in Hx.
    destruct (s !! raw r) as [b|] eqn:Hb; [right|by left]. specialize (Hx ltac:(by eexists)). split.
    + intros Href. by apply (Hold r x Hx Hvr Href), (Hgone c r x).
    + destruct Hx as [Hx Hvx]. split; [rewrite Heff; f_equal; exact Hx|by left].
Qed.

(** *** Its transactions *)
Lemma tx_refs_spent txs t i : t ∈ skip_coinbase txs → i ∈ tx_input (tx t) → input_ref i ∈ block_input_refs txs.
Proof.
  intros Ht Hi. apply elem_of_block_input_refs, list_elem_of_bind. exists t. split; [|done].
  by apply list_elem_of_fmap_2.
Qed.

Lemma imap_pair_snd {A} (f : nat → nat) (l : list A) : (imap (pair (B:=A) ∘ f) l).*2 = l.
Proof. rewrite fmap_imap. etransitivity; [exact (imap_const id l)|apply list_fmap_id]. Qed.

Lemma static_inputs txs l :
  (∀ t, t ∈ l → t ∈ txs ∧ t ∈ skip_coinbase txs) → Forall tx_wf txs →
  Forall (λ t, tx_wf t ∧ tx_id t ∈ tx_id <$> txs ∧
               Forall (λ i, input_ref i ∈ block_input_refs txs) (tx_input (tx t))) l.
Proof.
  intros Hl Hwf. apply Forall_forall. intros t [Ht Hs]%Hl. rewrite Forall_forall in Hwf.
  split_and!; [by apply Hwf|by apply list_elem_of_fmap_2|].
  apply Forall_forall. intros i Hi. by eapply tx_refs_spent.
Qed.

(** The inputs of the first transaction, and of the others. *)
Lemma first_inputs h U t txs :
  valid_block h U (t :: txs) →
  Forall (λ i, (input_ref i ∈ block_input_refs (t :: txs)) ∨ U !! input_ref i = None) (tx_input (tx t)).
Proof.
  intros Hv. pose proof (vb_spends _ _ _ Hv) as Hsp. cbn [block_spends] in Hsp.
  apply Forall_forall. intros i Hin. destruct (is_coinbase (tx t)) eqn:Hcb.
  - right. destruct Hsp as [Hsp _]. rewrite Forall_forall in Hsp. by apply Hsp.
  - left. apply (tx_refs_spent _ t); [|done]. cbn [skip_coinbase]. rewrite Hcb. by left.
Qed.

Lemma rest_static t txs :
  Forall tx_wf (t :: txs) →
  Forall (λ t', tx_wf t' ∧ tx_id t' ∈ tx_id <$> t :: txs ∧
                Forall (λ i, input_ref i ∈ block_input_refs (t :: txs)) (tx_input (tx t'))) txs.
Proof.
  intros Hall. apply static_inputs; [|done]. intros t' Ht'. split; [by right|].
  cbn [skip_coinbase]. destruct (is_coinbase (tx t)); [done|by right].
Qed.

Lemma block_txs_sim {readings : nat → MemoryReading} indexers U txs (task : IndexingTask DB) ctx cache h task' ctx' cache' :
  fits 64 h → valid_block h U txs → task_wf task →
  simulates (block_input_refs txs) (block_chained txs) h U task ctx cache →
  index_txs readings indexers txs (task, ctx, cache) = Ok (task', ctx', cache') →
  simulates (block_input_refs txs) (block_chained txs) h (apply_block h txs U) task' ctx' cache'.
Proof.
  intros Hh Hv Hwf Hsim Hi. destruct txs as [|t txs]; [by injection Hi as <- <- <-|].
  unfold index_txs, enumerate in Hi. rewrite imap_cons in Hi.
  set (all := t :: txs) in *. pose proof (vb_wf _ _ _ Hv) as Hall. cbn [for_each] in Hi.
  apply res_bind_ok in Hi as ([[task1 ctx1] cache1] & Hi & Hrest).
  eapply (index_tx_sim (tx_id <$> all)) in Hi as [Hwf1 Hsim1];
    [|by apply block_chained_iff|done|done|exact Hsim|by apply Forall_cons in Hall as [? _]|by left|by eapply first_inputs].
  eapply (index_txs_sim (tx_id <$> all)) in Hrest as [_ Hfinal];
    [|by apply block_chained_iff|done|done|exact Hsim1|rewrite (imap_pair_snd S); by apply rest_static].
  by rewrite (imap_pair_snd S) in Hfinal.
Qed.

(** *** Its task *)
Lemma set_core_sim {K V} `{Encode K, Encode V} refs chained h U id (key : K) (value : V)
    (task task' : IndexingTask DB) (ctx : IndexingContext Ext) (cache : option (UtxoCache C)) :
  id ≠ x52 → id ≠ x54 → id ≠ core_indexer_id UtxoByTxoRefTag →
  task_set (core_table V id) key value task = Ok task' →
  simulates refs chained h U task ctx cache → simulates refs chained h U task' ctx cache.
Proof.
  intros Hr Ht Hu Hs. eapply steps_sim; [|intros r|reflexivity].
  - exact (task_set_steps _ _ _ _ _ _ (core_index_table (K:=K) (V:=V) id Hr Ht) Hs).
  - intros Hp. destruct (utxo_raw_key r) as [Hk _]. apply Hu.
    pose proof (prefix_disjoint [CORE_INDEXER_TAG; id] [CORE_INDEXER_TAG; core_indexer_id UtxoByTxoRefTag]
      (raw r) eq_refl Hp Hk) as Heq. by injection Heq.
Qed.

Lemma block_task_sim {now : Clock} w point txs (st : Stage DB C) task cache U :
  stage_ok st → fits 64 (point_height point) → valid_block (point_height point) U txs →
  utxo_set_stored U (data st) → cache_coherent (data st) (st_utxo_cache st) →
  block_task now w point txs st = Ok (task, cache) →
  ∃ ctx, simulates (block_input_refs txs) (block_chained txs) (point_height point)
           (apply_block (point_height point) txs U) task ctx cache.
Proof.
  intros [Hst _] Hh Hv HU Hcc Hb.
  set (task0 := begin_indexing_task (w_mutable w) (st_db st)).
  assert (task_snapshot task0 = data st) as Hsnap by (by apply begin_snapshot).
  destruct (context_new_sim U task0 txs point (st_network st) (st_utxo_cache st))
    as (ctx & cache1 & Hctx & Hsim); [by apply begin_readable|done|done|by rewrite Hsnap|by rewrite Hsnap|done|].
  unfold block_task in Hb. fold task0 in Hb. rewrite Hctx in Hb. cbn [or_restart map_err rbind] in Hb.
  apply res_bind_ok in Hb as ([[t1 ctx1] c2] & Ht1%or_restart_ok & Hb).
  apply res_bind_ok in Hb as (t2 & Ht2%or_restart_ok & Hb).
  apply res_bind_ok in Hb as (t3 & Ht3%or_restart_ok & Hb). injection Hb as <- <-.
  exists ctx1. eapply (set_core_sim _ _ _ _ x48); [done|done|done|exact Ht3|].
  eapply (set_core_sim _ _ _ _ x49); [done|done|done|exact Ht2|].
  by eapply block_txs_sim; [done|done|apply begin_wf|exact Hsim|exact Ht1].
Qed.

(** Outputs the task leaves are stored once it is committed. *)
Lemma leaves_stored (task : IndexingTask DB) s r (x : Utxo Ext) :
  values_fit task → effect (write_buffer task) (task_snapshot task) (raw r) = Some (s !! raw r) →
  leaves task r x → stored s r x.
Proof.
  intros Hvals Heff [Ho Hx]. rewrite Heff in Ho. injection Ho as Ho. split; [done|].
  destruct Hx as [?|(Hs & Hh & Hwb)]; [done|]. apply utxo_valid_of_length; [by eapply Hvals|done|done].
Qed.

Lemma index_block_utxo_set (now : Clock) (w : Worker) (point : Point) (txs : BlockTxs)
    (st : Stage DB C) (U : UtxoSet) (task : IndexingTask DB) (cache : option (UtxoCache C)) :
  stage_ok st → point_ok point → commit_fresh (clock_commit now) (st_db st) →
  utxo_set_stored (Ext:=Ext) U (data st) → cache_coherent (data st) (st_utxo_cache st) →
  valid_block (point_height point) U txs →
  block_task now w point txs st = Ok (task, cache) → keys_fit task → values_fit task →
  ∃ st', index_block now w point txs st = Ok st' ∧
    utxo_set_stored (Ext:=Ext) (apply_block (point_height point) txs U) (data st') ∧
    cache_coherent (data st') (st_utxo_cache st').
Proof.
  intros Hok Hp Hfresh HU Hcc Hv Htask Hk Hvals.
  destruct (block_task_sim _ _ _ _ _ _ _ Hok (proj1 Hp) Hv HU Hcc Htask) as (ctx & Hsim).
  destruct (index_block_data now w point txs st task cache Hok Htask Hk Hp Hfresh)
    as (st' & Hidx & _ & _ & _ & Hcache & Hdata).
  assert (∀ r, effect (write_buffer task) (task_snapshot task) (raw r) = Some (data st' !! raw r)) as Heff.
  { intros r. rewrite <-Hdata by apply utxo_raw_key. f_equal.
    rewrite <-(task_snapshot_proper _ _ (task_steps_same _ _ _ (block_task_steps _ _ _ _ _ _ Htask))).
    apply begin_snapshot, Hok. }
  exists st'. split; [exact Hidx|]. split.
  - intros r Hr. pose proof (sim_table _ _ _ _ _ _ _ Hsim r Hr) as Ht. case_decide as Hch.
    + rewrite (block_spent _ _ _ r Hv) by (by apply block_chained_iff in Hch as [? _]).
      rewrite Heff in Ht. by injection Ht.
    + destruct (apply_block _ _ _ !! r) as [u|].
      * destruct Ht as (x & Hx & Hb). exists x. split; [by eapply leaves_stored|done].
      * rewrite Heff in Ht. by injection Ht.
  - rewrite Hcache. intros c r x Hc Hg. destruct (sim_cache _ _ _ _ _ _ _ Hsim c r x Hc Hg) as [Hr Hx].
    split; [done|]. intros [b Hb]. destruct Hx as [Hx|[_ Hx]]; [|by eapply leaves_stored].
    rewrite Heff, Hb in Hx. done.
Qed.

(** C8: Indexing a block refines the transition of the set of unspent outputs.
    From a store that holds the set [U] and a cache that agrees with it, the
    commit of a valid block leaves a store that holds [apply_block] of [U] and
    a cache that agrees with it, whatever was cached, evicted, left in the
    cache by a rollback, chained inside the block or attached to the outputs
    by the indexers. *)
Theorem index_block_refines_utxo_set (now : Clock) (w : Worker) (point : Point) (txs : BlockTxs)
    (st : Stage DB C) (U : UtxoSet) (task : IndexingTask DB) (cache : option (UtxoCache C)) :
  stage_ok st → point_ok point → commit_fresh (clock_commit now) (st_db st) →
  utxo_set_stored (Ext:=Ext) U (data st) → cache_coherent (data st) (st_utxo_cache st) →
  valid_block (point_height point) U txs →
  block_task now w point txs st = Ok (task, cache) → keys_fit task → values_fit task →
  ∃ st', index_block now w point txs st = Ok st' ∧
    utxo_set_stored (Ext:=Ext) (apply_block (point_height point) txs U) (data st') ∧
    cache_coherent (data st') (st_utxo_cache st').
Proof. exact (index_block_utxo_set now w point txs st U task cache). Qed.
End Block.

(** ** A block that spends a cached output and chains another *)
Module UtxoExamples.
Import Simple SimpleBitcoin StageExamples.

Definition r0 : TxoRef := MkTxoRef (replicate 32 xa0) 0%N.
Definition u0 : Utxo SimpleExt := MkUtxo 700%N [x51] 1%N im_new.
Definition ex_utxos : UtxoSet := {[r0 := base u0]}.
Definition ex_utxo_stage : SimpleStage :=
  MkStage (MkStorage [(5%N, {[utxo_raw (Ext:=SimpleExt) r0 := encode u0]})] (Some (from_u64 5%N)) false)
    [] Regtest (MkRollbackBuffer [e1] 18%N true) 16%N p1 false (Some (MkUtxoCache {[r0 := u0]} 0%N 0%N)) None.

(** [txa] spends [r0]; [txb] spends an output of [txa]. *)
Definition txa : TransactionWithId :=
  MkTxWithId (replicate 32 xa1)
    (MkSimpleTx [MkSimpleIn (MkOutPoint (replicate 32 xa0) 0%N) None]
       [MkSimpleOut 300%N [x52]; MkSimpleOut 400%N [x53]]).
Definition txb : TransactionWithId :=
  MkTxWithId (replicate 32 xb1)
    (MkSimpleTx [MkSimpleIn (MkOutPoint (replicate 32 xa1) 1%N) None] [MkSimpleOut 400%N [x54]; MkSimpleOut 0%N [x6a]]).
Definition ex_txs : @BlockTxs simple_bitcoin := [coinbase2; txa; txb].

Lemma ex_utxo_stage_ok : stage_ok ex_utxo_stage.
Proof.
  split; [split_and!; [vm_compute; reflexivity|vm_compute; reflexivity|split; [vm_compute; reflexivity|apply N.le_0_l]]|].
  intros k v Hk Hv. revert k v Hv Hk. apply (bool_decide_unpack (map_Forall (λ (k : RawKey) (v : RawValue),
    counter_key k → is_Some (ok (decode_all v : Res DecodingError u128))) (db_latest (sh_db (st_db ex_utxo_stage))))).
  vm_compute. reflexivity.
Qed.

Lemma ex_u0_valid : valid u0.
Proof.
  apply utxo_valid_of_length; vm_compute; reflexivity.
Qed.
Lemma ex_r0_valid : valid r0.
Proof. split; vm_compute; reflexivity. Qed.

Lemma ex_stored : stored (db_latest (sh_db (st_db ex_utxo_stage))) r0 u0.
Proof. split; [apply lookup_singleton_eq|exact ex_u0_valid]. Qed.

Lemma ex_utxos_stored : utxo_set_stored (Ext:=SimpleExt) ex_utxos (db_latest (sh_db (st_db ex_utxo_stage))).
Proof.
  intros r Hr. unfold ex_utxos. destruct (decide (r0 = r)) as [<-|Hne].
  - rewrite lookup_singleton_eq. exists u0. split; [apply ex_stored|done].
  - rewrite lookup_singleton_ne by done. apply lookup_singleton_ne. intros Heq. apply Hne.
    eapply utxo_raw_inj; [apply ex_r0_valid|exact Hr|exact Heq].
Qed.

Lemma ex_cache_coherent :
  cache_coherent (db_latest (sh_db (st_db ex_utxo_stage))) (st_utxo_cache ex_utxo_stage).
Proof.
  intros c r x Hc Hg. injection Hc as <-. unfold utxo_cache_get in Hg. cbn in Hg.
  apply lookup_singleton_Some in Hg as [<- <-]. split; [apply ex_r0_valid|]. intros _. apply ex_stored.
Qed.

Lemma ex_block_valid : valid_block (point_height p2) ex_utxos ex_txs.
Proof. apply valid_block_decide. vm_compute. reflexivity. Qed.

Definition ex_utxo_task : IndexingTask RefDB * option (UtxoCache SimpleCache) :=
  unwrap_or (begin_indexing_task true (st_db ex_utxo_stage), None) (block_task ex_now ex_worker p2 ex_txs ex_utxo_stage).

Definition set_fits (a : StorageAction) : Prop :=
  match a with Set_ v => fits 64 (N.of_nat (length v)) | _ => True end.
#[export] Instance set_fits_dec a : Decision (set_fits a).
Proof. destruct a; cbn; apply _. Defined.

Example index_block_refines_utxo_set_witness :
  ∃ st', index_block ex_now ex_worker p2 ex_txs ex_utxo_stage = Ok st' ∧
    utxo_set_stored (Ext:=SimpleExt) (apply_block (point_height p2) ex_txs ex_utxos) (db_latest (sh_db (st_db st'))) ∧
    cache_coherent (db_latest (sh_db (st_db st'))) (st_utxo_cache st').
Proof.
  apply (index_block_refines_utxo_set ex_now ex_worker p2 ex_txs ex_utxo_stage ex_utxos
           ex_utxo_task.1 ex_utxo_task.2).
  - apply ex_utxo_stage_ok.
  - split; vm_compute; reflexivity.
  - apply refdb_fresh. vm_compute. reflexivity.
  - apply ex_utxos_stored.
  - apply ex_cache_coherent.
  - apply ex_block_valid.
  - rewrite <-surjective_pairing. apply is_ok_unwrap. vm_compute. reflexivity.
  - apply (bool_decide_unpack (set_Forall (λ k : RawKey, fits 64 (N.of_nat (length k)))
             (dom (write_buffer ex_utxo_task.1)))). vm_compute. reflexivity.
  - intros k v Hv. revert v Hv. enough (∀ a, write_buffer ex_utxo_task.1 !! k = Some a → set_fits a) as Hall
      by (intros v Hv; exact (Hall _ Hv)).
    revert k. apply (bool_decide_unpack (map_Forall (λ (_ : RawKey) (a : StorageAction), set_fits a)
             (write_buffer ex_utxo_task.1))). vm_compute. reflexivity.
Defined.
End UtxoExamples.
