(* ===== verification/BlockTotal.v ===== *)
(** * A valid block is indexed

    With the indexers of addresses, the task of a valid block never fails: the
    outputs an indexer asks for are resolved, because the resolver agrees with
    the set of unspent outputs at every transaction of the block. *)
From S2P Require Import Prelude ByteOrder EncDec Timestamp Types MergeOperation Table Rocks.
From S2P Require Import CoreTables KvStore KvStoreLaws Commit RollbackBuffer Bitcoin Context.
From S2P Require Import AddressIndexers RunesTables Runes Charms Indexers Stage Instances StageLaws Chain.
From S2P Require Import UtxoSet UtxoLaws UtxoBlock.

Section Total.
Context {DB : Type} `{RocksDBOk DB} `{HashOrderOk} `{Ordinals} `{!CharmsLib} `{!Machine}.
Context {Ext : Type} `{!IndexMap TransactionIndexer (list byte) Ext}.
Context `{!IndexMapOk TransactionIndexer (list byte) Ext}.
Context {C : Type} `{!MokaCache (Utxo Ext) C, !MokaCacheOk (Utxo Ext) C}.

Abbreviation data st := (db_latest (sh_db (st_db st))).

(** *** The indexers of addresses *)
Definition address_indexer (i : AnyIndexer) : Prop :=
  match i with ITxCountByAddress _ | IUtxosByAddress _ => True | _ => False end.

(** Every output the transaction spends can be resolved. *)
Definition resolvable (t : TransactionWithId) (ctx : IndexingContext Ext) : Prop :=
  is_coinbase (tx t) = true ∨ Forall (λ i, is_Some (resolve_input ctx (input_ref i))) (tx_input (tx t)).

Lemma merge_op_total {K V} (T : Table K V) key op (t : IndexingTask DB) :
  readable t → (∀ v, write_buffer t !! encode_key T key ≠ Some (Set_ v)) → ∃ t', merge_op T key op t = Ok t'.
Proof.
  intros Hr Hset. unfold merge_op. destruct (maybe_store_original_kv_ok (encode_key T key) t Hr) as (t1 & -> & Hwb & _).
  cbn [rbind]. rewrite Hwb. destruct (write_buffer t !! encode_key T key) as [[v| |op0]|]; [by destruct (Hset v)|eauto..].
Qed.

Lemma increment_total (scr : ScriptPubKey) (t : IndexingTask DB) :
  readable t → task_wf t →
  ∃ t', increment TxCountByAddressKV scr (1%N : u64) t = Ok t' ∧ readable t' ∧ task_wf t'.
Proof.
  intros Hr Hwf. destruct (merge_op_total TxCountByAddressKV scr (Increment (as_u128 (1%N : u64))) t Hr) as (t' & Ht').
  - intros v Hv. destruct (Hwf _ _ Hv) as (_ & _ & Hnc). apply Hnc. apply indexer_table_key.
  - exists t'. pose proof (increment_steps scr t t' Hwf Ht') as Hs. split_and!; [exact Ht'| |by eapply task_steps_wf].
    eapply same_task_readable; [by eapply task_steps_same|exact Hr].
Qed.

Lemma seen_inputs_total (ctx : IndexingContext Ext) (inputs : list TxIn) (seen : gset ScriptPubKey) :
  Forall (λ i, is_Some (resolve_input ctx (input_ref i))) inputs →
  ∃ seen', for_each inputs seen (seen_input ctx) = Ok seen'.
Proof.
  intros Hin.
  destruct (for_each_total (λ l (_ : gset ScriptPubKey), Forall (λ i, is_Some (resolve_input ctx (input_ref i))) l)
              (seen_input ctx)) with (l := inputs) (s := seen) as (s' & Hs' & _); [|exact Hin|eauto].
  intros i l s [[u Hu] Hl]%Forall_cons. unfold seen_input. fold (input_ref i). rewrite Hu. cbn. eauto.
Qed.

Lemma seen_scripts_total t (ctx : IndexingContext Ext) : resolvable t ctx → ∃ seen, seen_scripts ctx t = Ok seen.
Proof.
  intros Hres. unfold seen_scripts. destruct Hres as [->|Hin]; [cbn [rbind]; eauto|].
  destruct (is_coinbase (tx t)); [cbn [rbind]; eauto|].
  destruct (seen_inputs_total ctx _ ∅ Hin) as (s & ->). cbn [rbind]. eauto.
Qed.

Lemma tx_count_total t (task : IndexingTask DB) (ctx : IndexingContext Ext) :
  readable task → task_wf task → resolvable t ctx → ∃ task', tx_count_process_tx t (task, ctx) = Ok (task', ctx).
Proof.
  intros Hr Hwf Hres. unfold tx_count_process_tx. destruct (seen_scripts_total t ctx Hres) as (seen & ->). cbn [rbind].
  destruct (for_each_total (λ (_ : list ScriptPubKey) (t : IndexingTask DB), readable t ∧ task_wf t)
              (λ task scr, increment TxCountByAddressKV scr (1%N : u64) task)) with (l := hs_iter seen) (s := task)
    as (task' & -> & _); [|done|cbn [rbind]; eauto].
  intros scr l t1 [Hr1 Hwf1]. destruct (increment_total scr t1 Hr1 Hwf1) as (t2 & ? & ? & ?). eauto.
Qed.

Lemma utxos_by_address_total t (task : IndexingTask DB) (ctx : IndexingContext Ext) :
  readable task → resolvable t ctx → ∃ task', utxos_by_address_process_tx t (task, ctx) = Ok (task', ctx).
Proof.
  intros Hr Hres. unfold utxos_by_address_process_tx.
  assert (∃ t1, (if is_coinbase (tx t) then Ok task
                 else for_each (tx_input (tx t)) task (delete_consumed ctx)) = Ok t1 ∧ readable t1)
    as (t1 & -> & Hr1).
  { destruct Hres as [->|Hin]; [eauto|]. destruct (is_coinbase (tx t)); [eauto|].
    destruct (for_each_total (λ l (t : IndexingTask DB), readable t ∧
                Forall (λ i, is_Some (resolve_input ctx (input_ref i))) l) (delete_consumed ctx))
      with (l := tx_input (tx t)) (s := task) as (t1 & Ht1 & Hr1 & _); [|done|eauto].
    intros i l t1 [Hr1 [[u Hu] Hl]%Forall_cons]. unfold delete_consumed. fold (input_ref i). rewrite Hu. cbn [expect rbind].
    destruct (task_delete_ok UtxosByAddressKV (MkUtxosByAddressKey (script u) (height u) (input_ref i)) t1 Hr1)
      as (t2 & Ht2 & Hb).
    exists t2. split; [exact Ht2|]. split; [|done]. by eapply same_task_readable, Hr1; apply Hb. }
  cbn [rbind].
  destruct (for_each_total (λ (_ : list (nat * TxOut)) (t : IndexingTask DB), readable t) (set_produced t ctx))
    with (l := enumerate (tx_output (tx t))) (s := t1) as (t2 & -> & _); [|done|cbn [rbind]; eauto].
  intros [j o] l t3 Hr3. unfold set_produced.
  destruct (task_set_ok UtxosByAddressKV (MkUtxosByAddressKey (script_pubkey o) (block_height ctx) (output_ref t j)) tt t3 Hr3)
    as (t4 & Ht4 & Hb).
  exists t4. split; [exact Ht4|]. by eapply same_task_readable, Hr3; apply Hb.
Qed.

Lemma run_indexers_total (indexers : list AnyIndexer) t n (task : IndexingTask DB) (ctx : IndexingContext Ext) :
  Forall address_indexer indexers → readable task → task_wf task → resolvable t ctx →
  ∃ s', run_indexers indexers t n (task, ctx) = Ok s'.
Proof.
  intros Hall Hr Hwf Hres. unfold run_indexers.
  destruct (for_each_total (λ l (s : IndexerState DB Ext), Forall address_indexer l ∧ readable s.1 ∧ task_wf s.1 ∧ resolvable t s.2)
              (λ s i, process_tx i t n s)) with (l := indexers) (s := (task, ctx)) as (s' & Hs' & _);
    [|by split_and!|by exists s'].
  intros i l [t1 c1] ([Hi Hl]%Forall_cons & Hr1 & Hwf1 & Hres1). cbn [fst snd] in *.
  assert (∃ t2, process_tx i t n (t1, c1) = Ok (t2, c1)) as (t2 & Ht2).
  { destruct i as [i|i|i|i]; [by apply tx_count_total|done|by apply utxos_by_address_total|done]. }
  pose proof (process_tx_ok i _ _ _ _ _ _ Hwf1 Ht2) as [Hs _]. exists (t2, c1). split; [exact Ht2|]. cbn [fst snd].
  split_and!; [done| |by eapply task_steps_wf|done].
  eapply same_task_readable; [by eapply task_steps_same|exact Hr1].
Qed.
(** *** The transactions *)
Section Steps.
Context (indexers : list AnyIndexer) (Hindexers : Forall address_indexer indexers).
Context (ids : list Txid) (refs chained : gset TxoRef) (h : BlockHeight).
Hypothesis (chained_iff : ∀ r, r ∈ chained ↔ r ∈ refs ∧ tx_hash r ∈ ids).
Hypothesis (h_fits : fits 64 h).
Abbreviation sim := (simulates (DB:=DB) (Ext:=Ext) (C:=C) refs chained h).

Lemma sim_resolvable U (task : IndexingTask DB) ctx cache t :
  sim U task ctx cache →
  Forall (λ i, (input_ref i ∈ refs) ∧ is_Some (U !! input_ref i)) (tx_input (tx t)) → resolvable t ctx.
Proof.
  intros Hsim Hin. right. eapply Forall_impl; [exact Hin|]. intros i [Href [u Hu]].
  pose proof (sim_resolver _ _ _ _ _ _ _ Hsim _ Href) as Hres. rewrite Hu in Hres.
  unfold resolve_input. by destruct (ctx_resolver ctx !! input_ref i).
Qed.

Lemma index_tx_total {readings : nat → MemoryReading} U task ctx cache j t :
  task_wf task → sim U task ctx cache → tx_wf t → tx_id t ∈ ids → resolvable t ctx →
  Forall (λ i, (input_ref i ∈ refs) ∨ U !! input_ref i = None) (tx_input (tx t)) →
  ∃ task' ctx' cache', index_tx readings indexers (task, ctx, cache) (j, t) = Ok (task', ctx', cache') ∧
    task_wf task' ∧ sim (apply_tx h U t) task' ctx' cache'.
Proof.
  intros Hwf Hsim Ht Hid Hres Hin.
  destruct (run_indexers_total indexers t (N.of_nat j) task ctx Hindexers (sim_readable _ _ _ _ _ _ _ Hsim) Hwf Hres)
    as ([task1 ctx1] & Hrun).
  pose proof (run_indexers_context _ _ _ _ _ _ _ Hwf Hrun) as [Hs Hc].
  assert (sim U task1 ctx1 cache) as Hsim1.
  { eapply steps_sim; [exact Hs| |exact Hc|exact Hsim]. intros r. apply utxo_raw_key. }
  destruct (update_utxo_set_sim (reading:=readings j) ids refs chained h chained_iff h_fits t U task1 ctx1 cache) as (u & Hu & _); [done..|].
  assert (index_tx readings indexers (task, ctx, cache) (j, t) = Ok (us_task u, us_ctx u, us_cache u)) as Hi.
  { unfold index_tx. rewrite Hrun. cbn [rbind]. by rewrite Hu. }
  eexists _, _, _. split; [exact Hi|].
  by eapply (index_tx_sim ids); [..|exact Hi].
Qed.

Lemma index_txs_total {readings : nat → MemoryReading} l U task ctx cache :
  task_wf task → sim U task ctx cache → spends h U l.*2 →
  Forall (λ t, tx_wf t ∧ tx_id t ∈ ids ∧ Forall (λ i, input_ref i ∈ refs) (tx_input (tx t))) l.*2 →
  ∃ s', for_each l (task, ctx, cache) (index_tx readings indexers) = Ok s'.
Proof.
  revert U task ctx cache. induction l as [|[j t] l IH]; intros U task ctx cache Hwf Hsim Hsp Hall; [by eexists|].
  cbn [fmap list_fmap snd] in Hall, Hsp. apply Forall_cons in Hall as [(Ht & Hid & Hin) Hall].
  destruct Hsp as [Hun Hsp].
  destruct (index_tx_total (readings:=readings) U task ctx cache j t) as (t1 & c1 & ca1 & Hi & Hwf1 & Hsim1); [done..| | |].
  - eapply sim_resolvable; [exact Hsim|]. apply Forall_and. by split.
  - eapply Forall_impl; [exact Hin|]. intros i ?. by left.
  - cbn [for_each]. rewrite Hi. cbn [rbind]. by eapply IH.
Qed.
End Steps.

Lemma block_txs_total {readings : nat → MemoryReading} indexers U txs (task : IndexingTask DB) ctx (cache : option (UtxoCache C)) h :
  Forall address_indexer indexers → fits 64 h → valid_block h U txs → task_wf task →
  simulates (block_input_refs txs) (block_chained txs) h U task ctx cache →
  ∃ s', index_txs readings indexers txs (task, ctx, cache) = Ok s'.
Proof.
  intros Hind Hh Hv Hwf Hsim. destruct txs as [|t txs]; [by eexists|].
  unfold index_txs, enumerate. rewrite imap_cons. set (all := t :: txs) in *.
  pose proof (vb_wf _ _ _ Hv) as Hall. pose proof (vb_spends _ _ _ Hv) as Hsp.
  unfold all in Hsp. cbn [block_spends] in Hsp.
  destruct (index_tx_total (readings:=readings) indexers Hind (tx_id <$> all) (block_input_refs all) (block_chained all) h
              (block_chained_iff all) Hh U task ctx cache 0 t) as (t1 & c1 & ca1 & Hi & Hwf1 & Hsim1);
    [done|done|by apply Forall_cons in Hall as [? _]|by left| | |].
  - destruct (is_coinbase (tx t)) eqn:Hcb; [by left|]. eapply sim_resolvable; [exact Hsim|].
    apply Forall_and. split; [|apply Hsp]. apply Forall_forall. intros i Hin.
    apply (tx_refs_spent all t); [|done]. unfold all. cbn [skip_coinbase]. rewrite Hcb. by left.
  - by eapply first_inputs.
  - cbn [for_each]. rewrite Hi. cbn [rbind]. eapply (index_txs_total indexers Hind (tx_id <$> all)); [by apply block_chained_iff|done|exact Hwf1|exact Hsim1| |].
    + rewrite (imap_pair_snd S). destruct (is_coinbase (tx t)); apply Hsp.
    + rewrite (imap_pair_snd S). by apply rest_static.
Qed.

(** No input is missing from the resolver, in either indexer, and no step fails. *)
Lemma block_task_total {now : Clock} (w : Worker) (point : Point) (txs : BlockTxs) (st : Stage DB C) (U : UtxoSet) :
  Forall address_indexer (w_indexers w) → stage_ok st → fits 64 (point_height point) →
  utxo_set_stored (Ext:=Ext) U (data st) → cache_coherent (data st) (st_utxo_cache st) →
  valid_block (point_height point) U txs →
  ∃ task cache, block_task now w point txs st = Ok (task, cache).
Proof.
  intros Hind [Hst _] Hh HU Hcc Hv. set (task0 := begin_indexing_task (w_mutable w) (st_db st)).
  assert (task_snapshot task0 = data st) as Hsnap by (by apply begin_snapshot).
  assert (readable task0) as Hr0 by (by apply begin_readable).
  destruct (context_new_sim U task0 txs point (st_network st) (st_utxo_cache st))
    as (ctx & cache1 & Hctx & Hsim); [done|done|done|by rewrite Hsnap|by rewrite Hsnap|done|].
  destruct (block_txs_total (readings:=clock_memory now 0) (w_indexers w) U txs task0 ctx cache1 (point_height point)) as ([[t1 ctx1] c1] & Ht1);
    [done|done|done|apply begin_wf|done|].
  assert (readable t1) as Hr1.
  { eapply same_task_readable; [eapply task_steps_same, index_txs_steps, Ht1; apply begin_wf|exact Hr0]. }
  unfold block_task. fold task0. rewrite Hctx. cbn [or_restart map_err rbind]. rewrite Ht1. cbn [or_restart map_err rbind].
  unfold set_info.
  destruct (task_set_ok IndexerInfoKV tt (indexer_info_new (point_height point) (point_hash point) false) t1 Hr1)
    as (t2 & -> & Hb2). cbn [or_restart map_err rbind].
  assert (readable t2) as Hr2 by (by eapply same_task_readable, Hr1; apply Hb2).
  destruct (task_set_ok HashByHeightKV (point_height point) (point_hash point) t2 Hr2) as (t3 & -> & _).
  cbn [or_restart map_err rbind]. eauto.
Qed.
End Total.
