(* ===== verification/RunesLaws.v ===== *)
(** * Laws of the runes indexer

    No rune is created or lost while the balances of a transaction are
    distributed: what the inputs, a mint and a premine bring is what the
    outputs get, but for what is burned.  A mint stays within its terms.  The
    names of runes are in RuneNames.v. *)
From S2P Require Import Prelude ByteOrder EncDec Timestamp Types MergeOperation Table Rocks.
From S2P Require Import CoreTables KvStore KvStoreLaws Commit Bitcoin Context AddressIndexers.
From S2P Require Import RunesTables Runes Charms Indexers Stage Instances.

(** ** Balances *)
Definition balance (id : RuneId) (m : Balances) : N := default (0%N : u128) (m !! id).
Definition allocated_total (id : RuneId) (allocated : list Balances) : N :=
  foldr N.add 0%N (balance id <$> allocated).
(** What there is of a rune, given out or not. *)
Definition supply (id : RuneId) (unallocated : Balances) (allocated : list Balances) : N :=
  (balance id unallocated + allocated_total id allocated)%N.

Lemma balance_add (id id' : RuneId) (amount : u128) (m : Balances) :
  fits 128 (balance id m + amount) →
  balance id' (add_balance id amount m) = if decide (id = id') then (balance id m + amount)%N else balance id' m.
Proof.
  intros Hf. unfold add_balance, balance in *. rewrite lookup_insert. case_decide; [|done].
  apply wrapping_add_exact. exact Hf.
Qed.

Lemma balance_insert (id id' : RuneId) (b : u128) (m : Balances) :
  balance id' (<[id := b]> m) = if decide (id = id') then b else balance id' m.
Proof. unfold balance. rewrite lookup_insert. by case_decide. Qed.

Lemma balance_empty (id : RuneId) : balance id ∅ = 0%N.
Proof. unfold balance. by rewrite lookup_empty. Qed.

Lemma allocated_total_cons id m (a : list Balances) :
  allocated_total id (m :: a) = (balance id m + allocated_total id a)%N.
Proof. done. Qed.

Lemma allocated_total_lookup id (allocated : list Balances) i m :
  allocated !! i = Some m → (balance id m <= allocated_total id allocated)%N.
Proof.
  revert i. induction allocated as [|m0 a IH]; intros i Hi; [done|]. rewrite allocated_total_cons.
  destruct i as [|i]; [injection Hi as ->; lia|]. specialize (IH i Hi). lia.
Qed.

Lemma allocated_total_insert id (allocated : list Balances) i m m' :
  allocated !! i = Some m →
  (allocated_total id (<[i := m']> allocated) + balance id m = allocated_total id allocated + balance id m')%N.
Proof.
  revert i. induction allocated as [|m0 a IH]; intros i Hi; [done|]. destruct i as [|i].
  - injection Hi as ->. change (<[0 := m']> (m :: a)) with (m' :: a). rewrite !allocated_total_cons. lia.
  - change (<[S i := m']> (m0 :: a)) with (m0 :: <[i := m']> a). specialize (IH i Hi).
    rewrite !allocated_total_cons. lia.
Qed.

Lemma allocated_total_empty id n : allocated_total id (replicate n ∅) = 0%N.
Proof. induction n as [|n IH]; [done|]. exact IH. Qed.

(** Only the balances of [id] change, by [amount]. *)
Definition credited (id : RuneId) (amount : N) (a a' : list Balances) : Prop :=
  length a' = length a ∧
  ∀ id', allocated_total id' a' = (allocated_total id' a + if decide (id = id') then amount else 0)%N.

Lemma credited_refl id a : credited id 0 a a.
Proof. split; [done|]. intros id'. case_decide; lia. Qed.

Lemma credited_trans id x y a1 a2 a3 :
  credited id x a1 a2 → credited id y a2 a3 → credited id (x + y) a1 a3.
Proof.
  intros [Hl1 H1] [Hl2 H2]. split; [congruence|]. intros id'. rewrite H2, H1. case_decide; lia.
Qed.

Lemma credit_output_ok output id amount (a : list Balances) :
  output < length a → fits 128 (allocated_total id a + amount) →
  ∃ a', credit_output output id amount a = Ok a' ∧ credited id amount a a'.
Proof.
  intros Hlt Hf. destruct (lookup_lt_is_Some_2 a output Hlt) as [m Hm].
  unfold credit_output. rewrite Hm. cbn [expect rbind]. eexists. split; [reflexivity|].
  split; [by rewrite length_insert|]. intros id'.
  pose proof (allocated_total_insert id' a output m (add_balance id amount m) Hm) as Hsum.
  pose proof (allocated_total_lookup id a output m Hm) as Hle.
  rewrite balance_add in Hsum by (eapply fits_le, Hf; lia). case_decide; [subst id'|]; lia.
Qed.

Lemma allocate_ok id (b : u128) a (amount : u128) output :
  output < length a → (amount <= b)%N → fits 128 (b + allocated_total id a) →
  ∃ a', allocate id (b, a) amount output = Ok ((b - amount)%N, a') ∧ credited id amount a a'.
Proof.
  intros Hlt Hle Hf. unfold allocate. destruct (N.ltb_spec 0 amount) as [Hpos|Hz].
  - destruct (credit_output_ok output id amount a Hlt) as (a' & -> & Hc).
    { eapply fits_le, Hf. lia. }
    cbn [rbind]. exists a'. split; [|done]. f_equal. f_equal. apply wrapping_sub_exact; [exact Hle|].
    eapply fits_le, Hf. lia.
  - assert (amount = 0%N) as -> by lia. exists a. rewrite N.sub_0_r. split; [done|apply credited_refl].
Qed.

(** ** Edicts *)

(** Some of a balance was moved to the outputs. *)
Definition moved (id : RuneId) (b : u128) (a : list Balances) (s' : u128 * list Balances) : Prop :=
  ∃ amount, (amount <= b)%N ∧ s'.1 = (b - amount)%N ∧ credited id amount a s'.2.

Lemma moved_refl id (b : u128) a : moved id b a (b, a).
Proof. exists 0%N. rewrite N.sub_0_r. split_and!; [lia|done|apply credited_refl]. Qed.

Lemma moved_fits id b a s' :
  moved id b a s' → fits 128 (b + allocated_total id a) → fits 128 (s'.1 + allocated_total id s'.2).
Proof.
  intros (amount & Hle & -> & [_ Hc]) Hf. rewrite Hc, decide_True by done. eapply fits_le, Hf. lia.
Qed.

Lemma moved_trans id b a s1 s2 : moved id b a s1 → moved id s1.1 s1.2 s2 → moved id b a s2.
Proof.
  intros (x & Hx & H1 & Hc1) (y & Hy & H2 & Hc2). exists (x + y)%N. rewrite H2, H1 in *.
  split_and!; [lia|lia|by eapply credited_trans].
Qed.

Lemma moved_length id b a s' : moved id b a s' → length s'.2 = length a.
Proof. by intros (? & _ & _ & [? _]). Qed.

(** A division into equal shares, the first [remainder] of them one larger. *)
Definition share (id : RuneId) (q : u128) (remainder : nat) (s : u128 * list Balances) (e : nat * nat) :=
  allocate id s (if (e.1 <? remainder)%nat then wrapping_add 128 q 1 else q) e.2.

Lemma split_shares id (q : u128) remainder i l (b : u128) a :
  Forall (λ o, o < length a) l → remainder - i ≤ length l →
  b = (N.of_nat (length l) * q + N.of_nat (remainder - i))%N → fits 128 (b + allocated_total id a) →
  ∃ a', for_each (imap (λ k, pair (i + k)) l) (b, a) (share id q remainder) = Ok (0%N, a') ∧ credited id b a a'.
Proof.
  revert i b a. induction l as [|o l IH]; intros i b a Hl Hr Hb Hf.
  { cbn in Hr, Hb. exists a. assert (b = 0%N) as -> by lia. split; [done|apply credited_refl]. }
  apply Forall_cons in Hl as [Ho Hl]. cbn [length] in *. rewrite imap_cons. cbn [for_each].
  rewrite Nat.add_0_r. set (amount := if (i <? remainder)%nat then wrapping_add 128 q 1 else q).
  change (share id q remainder (b, a) (i, o)) with (allocate id (b, a) amount o).
  assert (amount = if (i <? remainder)%nat then q + 1 else q)%N as Hamount.
  { unfold amount. destruct (Nat.ltb_spec i remainder); [|done]. apply wrapping_add_exact. eapply fits_le, Hf. nia. }
  assert (amount <= b)%N as Hle by (rewrite Hamount, Hb; destruct (Nat.ltb_spec i remainder); nia).
  destruct (allocate_ok id b a amount o Ho Hle Hf) as (a1 & -> & Hc1). cbn [rbind].
  destruct (IH (S i) (b - amount)%N a1) as (a2 & Ha2 & Hc2).
  - eapply Forall_impl; [exact Hl|]. intros o' Ho'. by rewrite (proj1 Hc1).
  - lia.
  - rewrite Hamount, Hb. destruct (Nat.ltb_spec i remainder); nia.
  - rewrite (proj2 Hc1), decide_True by done. eapply fits_le, Hf. lia.
  - exists a2. split.
    + etransitivity; [|exact Ha2]. f_equal. apply imap_ext. intros k x _. cbn. by rewrite Nat.add_succ_r.
    + replace b with (amount + (b - amount))%N by lia. by eapply credited_trans.
Qed.

(** An amount for each destination, as long as the balance lasts. *)
Lemma spread_amount id (amount : u128) l (b : u128) a :
  Forall (λ o, o < length a) l → fits 128 (b + allocated_total id a) →
  ∃ s', for_each l (b, a) (λ s output, allocate id s (N.min amount s.1) output) = Ok s' ∧ moved id b a s'.
Proof.
  revert b a. induction l as [|o l IH]; intros b a Hl Hf; [eexists; split; [reflexivity|apply moved_refl]|].
  apply Forall_cons in Hl as [Ho Hl]. cbn [for_each fst].
  destruct (allocate_ok id b a (N.min amount b) o Ho) as (a1 & -> & Hc1); [lia|done|]. cbn [rbind].
  assert (moved id b a ((b - N.min amount b)%N, a1)) as Hm.
  { exists (N.min amount b). split_and!; [lia|done|done]. }
  destruct (IH (b - N.min amount b)%N a1) as (s' & Hs' & Hm').
  - eapply Forall_impl; [exact Hl|]. intros o' Ho'. by rewrite (proj1 Hc1).
  - exact (moved_fits _ _ _ _ Hm Hf).
  - exists s'. split; [exact Hs'|]. by eapply moved_trans; [exact Hm|].
Qed.

Lemma allocate_all_ok id (amount : u128) l (b : u128) a :
  Forall (λ o, o < length a) l → fits 128 (b + allocated_total id a) →
  ∃ s', allocate_all id amount l (b, a) = Ok s' ∧ moved id b a s'.
Proof.
  intros Hl Hf. unfold allocate_all. destruct (N.eqb_spec amount 0) as [Hz|Hnz]; [|by apply spread_amount].
  destruct l as [|o l]; [eexists; split; [reflexivity|apply moved_refl]|]. set (dests := o :: l) in *.
  cbn [fst]. set (n := N.of_nat (length dests)).
  assert (n ≠ 0%N) as Hn by (unfold n, dests; cbn [length]; lia).
  pose proof (N.Div0.div_mod b n) as Hdm. pose proof (N.mod_lt b n Hn) as Hmod.
  destruct (split_shares id (b / n)%N (N.to_nat (b mod n)) 0 dests b a Hl) as (a' & Ha' & Hc).
  - unfold n in *. lia.
  - rewrite Nat.sub_0_r, N2Nat.id. exact Hdm.
  - exact Hf.
  - exists (0%N, a'). split.
    + etransitivity; [|exact Ha']. apply for_each_ext. by intros s [i output].
    + exists b. rewrite N.sub_diag. split_and!; [lia|done|done].
Qed.

(** The state of the loop over the edicts. *)
Definition supply_fits (u : Balances) (a : list Balances) : Prop := ∀ id, fits 128 (supply id u a).

Lemma moved_supply id (u : Balances) (b : u128) a s' id' :
  u !! id = Some b → moved id b a s' → supply id' (<[id := s'.1]> u) s'.2 = supply id' u a.
Proof.
  intros Hu (amount & Hle & Hb & [_ Hc]). unfold supply. rewrite balance_insert, Hc.
  destruct (decide (id = id')) as [<-|Hne]; [|lia]. assert (balance id u = b) as -> by (unfold balance; by rewrite Hu). rewrite Hb. lia.
Qed.

Lemma apply_edict_ok n l etched (u : Balances) a e :
  (edict_output e <= N.of_nat n)%N → length a = n → Forall (λ o, o < n) l → supply_fits u a →
  ∃ u' a', apply_edict n l etched (u, a) e = Ok (u', a') ∧ length a' = n ∧ ∀ id, supply id u' a' = supply id u a.
Proof.
  intros Hout Hlen Hl Hf. unfold apply_edict. rewrite (proj2 (N.leb_le _ _) Hout). cbn [assert rbind].
  destruct (if decide _ then _ else _) as [id|]; [|by eauto]. destruct (u !! id) as [b|] eqn:Hu; [|by eauto].
  assert (fits 128 (b + allocated_total id a)) as Hfb.
  { specialize (Hf id). unfold supply, balance in Hf. by rewrite Hu in Hf. }
  assert (∃ s', (if (edict_output e =? N.of_nat n)%N then allocate_all id (edict_amount e) l (b, a)
                 else allocate id (b, a) (if (edict_amount e =? 0)%N then b else N.min (edict_amount e) b)
                        (N.to_nat (edict_output e))) = Ok s' ∧ moved id b a s') as ([b' a'] & -> & Hm).
  { destruct (N.eqb_spec (edict_output e) (N.of_nat n)) as [Heq|Hne].
    - apply allocate_all_ok; [by rewrite Hlen|exact Hfb].
    - set (amount := if (edict_amount e =? 0)%N then b else N.min (edict_amount e) b).
      assert (amount <= b)%N as Hle by (unfold amount; destruct (edict_amount e =? 0)%N; lia).
      destruct (allocate_ok id b a amount (N.to_nat (edict_output e))) as (a' & -> & Hc); [lia|done|done|].
      eexists. split; [reflexivity|]. by exists amount. }
  cbn [rbind]. eexists _, _. split; [reflexivity|]. split; [by rewrite <-Hlen; apply (moved_length _ _ _ _ Hm)|].
  intros id'. exact (moved_supply id u b a (b', a') id' Hu Hm).
Qed.

(** Edicts move runes and neither create nor destroy any. Whatever edicts a
    transaction carries, for one output or split over all of them, with a
    positive amount or zero, each rune's unallocated balance and the balances of
    the outputs add up to what they were, and no output index is out of
    range. *)
Lemma edicts_conserve (edicts : list Edict) (n : nat) (l : list nat) (etched : option (RuneId * u128))
    (u : Balances) (a : list Balances) :
  Forall (λ e, (edict_output e <= N.of_nat n)%N) edicts → Forall (λ o, o < n) l → length a = n →
  (∀ id, fits 128 (supply id u a)) →
  ∃ u' a', for_each edicts (u, a) (apply_edict n l etched) = Ok (u', a') ∧ length a' = n ∧
    ∀ id, supply id u' a' = supply id u a.
Proof.
  intros He Hl Hlen Hf. revert u a Hlen Hf. induction He as [|e edicts Hout He IH]; intros u a Hlen Hf; [by eauto|].
  destruct (apply_edict_ok n l etched u a e Hout Hlen Hl Hf) as (u1 & a1 & Hok & Hlen1 & Hs1).
  cbn [for_each]. rewrite Hok. cbn [rbind].
  destruct (IH u1 a1 Hlen1) as (u2 & a2 & Hok2 & Hlen2 & Hs2); [intros id; by rewrite Hs1|].
  exists u2, a2. split_and!; [done|done|]. intros id. by rewrite Hs2, Hs1.
Qed.

(** ** What is left goes to one output *)
Lemma assign_rest_all vout l (a : list Balances) :
  NoDup l.*1 → vout < length a →
  (∀ id, fits 128 (allocated_total id a + default (0%N : u128) (alist_get id l))) →
  ∃ a', for_each l a (assign_rest vout) = Ok a' ∧ length a' = length a ∧
    ∀ id, allocated_total id a' = (allocated_total id a + default (0%N : u128) (alist_get id l))%N.
Proof.
  revert a. induction l as [|[id b] l IH]; intros a Hnd Hlt Hf.
  { exists a. split_and!; [done|done|]. intros id. cbn. lia. }
  cbn [fmap list_fmap fst] in Hnd. apply NoDup_cons in Hnd as [Hnew Hnd]. cbn [alist_get fst] in Hf |- *.
  assert (∃ a1, assign_rest vout a (id, b) = Ok a1 ∧ credited id b a a1) as (a1 & Ha1 & Hlen & Hc).
  { unfold assign_rest. destruct (N.ltb_spec 0 b) as [Hpos|Hz].
    - apply credit_output_ok; [done|]. specialize (Hf id). by rewrite decide_True in Hf by done.
    - exists a. split; [done|]. assert (b = (0%N : u128)) as -> by lia. apply credited_refl. }
  assert (∀ id', (allocated_total id' a1 + default (0%N : u128) (alist_get id' l) =
                  allocated_total id' a + default (0%N : u128) (if decide (id' = id) then Some b else alist_get id' l))%N)
    as Hsum.
  { intros id'. rewrite Hc. destruct (decide (id' = id)) as [->|Hne].
    - rewrite decide_True by done. rewrite (proj2 (alist_get_None id l) Hnew). cbn. lia.
    - rewrite decide_False by done. lia. }
  destruct (IH a1 Hnd) as (a2 & Ha2 & Hlen2 & Hc2).
  - by rewrite Hlen.
  - intros id'. by rewrite Hsum.
  - exists a2. cbn [for_each]. rewrite Ha1. cbn [rbind]. split_and!; [exact Ha2|congruence|].
    intros id'. by rewrite Hc2, Hsum.
Qed.

Section Transaction.
Context {DB : Type} `{RocksDBOk DB} `{HashOrderOk} `{Ordinals}.
Context {Ext : Type} `{!IndexMap TransactionIndexer (list byte) Ext}.

Lemma destinations_lt (t : Transaction) : Forall (λ o, o < length (tx_output t)) (destinations t).
Proof.
  apply Forall_forall. intros i Hi. apply elem_of_filter_map in Hi as ([j o] & Hin & Hf).
  apply elem_of_lookup_imap in Hin as (k & x & Heq & Hk). injection Heq as -> ->.
  destruct (is_op_return _); [done|]. injection Hf as ->. by eapply lookup_lt_Some.
Qed.

(** The output that takes the rest: the pointer, or the first output that can
    be spent. *)
Definition takes_rest (t : Transaction) (pointer : option u32) (vout : nat) : Prop :=
  rest_output t pointer = Ok (Some vout) ∧ vout < length (tx_output t).

Lemma takes_rest_pointer t (p : u32) :
  (p < N.of_nat (length (tx_output t)))%N → takes_rest t (Some p) (N.to_nat p).
Proof. intros Hp. unfold takes_rest, rest_output. rewrite (proj2 (N.ltb_lt _ _) Hp). split; [done|]. cbn. lia. Qed.

Lemma takes_rest_first t i o :
  list_find (λ o, is_op_return (script_pubkey o) = false) (tx_output t) = Some (i, o) → takes_rest t None i.
Proof.
  intros Hf. unfold takes_rest, rest_output. rewrite Hf. split; [done|].
  apply list_find_Some in Hf as (Hi & _). by eapply lookup_lt_Some.
Qed.

Lemma assign_unallocated_ok t (artifact : option Artifact) (u : Balances) (a : list Balances) vout :
  match artifact with
  | Some (ArtifactCenotaph _) => False
  | Some (ArtifactRunestone r) => takes_rest t (rs_pointer r) vout
  | None => takes_rest t None vout
  end →
  length a = length (tx_output t) → (∀ id, fits 128 (supply id u a)) →
  ∃ a', assign_unallocated t artifact u a = Ok a' ∧ length a' = length a ∧
    ∀ id, allocated_total id a' = supply id u a.
Proof.
  intros Hv Hlen Hf.
  assert (∀ id, (allocated_total id a + default (0%N : u128) (alist_get id (hm_iter u)) = supply id u a)%N) as Hsup.
  { intros id. rewrite alist_get_hm_iter. unfold supply, balance. lia. }
  assert (vout < length a → ∃ a', for_each (hm_iter u) a (assign_rest vout) = Ok a' ∧ length a' = length a ∧
            ∀ id, allocated_total id a' = supply id u a) as Hgo.
  { intros Hlt. destruct (assign_rest_all vout (hm_iter u) a) as (a' & Ha' & Hl' & Hc); [apply hm_iter_nodup|done| |].
    - intros id. by rewrite Hsup.
    - exists a'. split_and!; [done|done|]. intros id. by rewrite Hc, Hsup. }
  unfold assign_unallocated. destruct artifact as [[r|c]|]; [|done|];
    destruct Hv as [-> Hlt]; cbn [rbind]; apply Hgo; by rewrite Hlen.
Qed.

(** What is left when no output takes it: there is no pointer and every output
    is an OP_RETURN. *)
Definition burned (t : Transaction) (pointer : option u32) (u : Balances) (id : RuneId) : N :=
  match rest_output t pointer with Ok None => balance id u | _ => 0%N end.

Lemma assign_or_burn t (r : Runestone) (u : Balances) (a : list Balances) :
  match rs_pointer r with Some p => (p < N.of_nat (length (tx_output t)))%N | None => True end →
  length a = length (tx_output t) → (∀ id, fits 128 (supply id u a)) →
  ∃ a', assign_unallocated t (Some (ArtifactRunestone r)) u a = Ok a' ∧ length a' = length a ∧
    ∀ id, (allocated_total id a' + burned t (rs_pointer r) u id)%N = supply id u a.
Proof.
  intros Hp Hlen Hf.
  assert ((∃ vout, takes_rest t (rs_pointer r) vout) ∨ rest_output t (rs_pointer r) = Ok None) as [[vout Hv]|Hnone].
  { destruct (rs_pointer r) as [p|]; [left; eexists; by apply takes_rest_pointer|].
    destruct (list_find (λ o, is_op_return (script_pubkey o) = false) (tx_output t)) as [[i o]|] eqn:Hfind.
    - left. eexists. by eapply takes_rest_first.
    - right. unfold rest_output. by rewrite Hfind. }
  - destruct (assign_unallocated_ok t (Some (ArtifactRunestone r)) u a vout Hv Hlen Hf) as (a' & Ha' & Hl & Hsum).
    exists a'. split_and!; [done|done|]. intros id. unfold burned. rewrite (proj1 Hv), Hsum. lia.
  - exists a. unfold assign_unallocated, burned. rewrite Hnone. split_and!; [done|done|]. intros id. unfold supply. lia.
Qed.

(** ** The runes of the inputs *)
Definition amount_of (id : RuneId) (runes : UtxoRunes) : N :=
  foldr (λ (e : RuneId * u128) total, (if decide (e.1 = id) then e.2 else 0%N) + total)%N 0%N runes.

(** What the output an input spends holds of a rune, and what all of them
    hold. *)
Definition input_holds (resolver : gmap TxoRef (Utxo Ext)) (id : RuneId) (input : TxIn) : N :=
  if is_null (previous_output input) then 0%N
  else match resolver !! txo_ref_from (previous_output input) with
       | Some utxo => match utxo_runes utxo with Ok runes => amount_of id runes | _ => 0%N end
       | None => 0%N
       end.
Definition inputs_hold (resolver : gmap TxoRef (Utxo Ext)) (inputs : list TxIn) (id : RuneId) : N :=
  foldr (λ input total, input_holds resolver id input + total)%N 0%N inputs.

Lemma balance_fold (runes : UtxoRunes) (m : Balances) :
  (∀ id, fits 128 (balance id m + amount_of id runes)) →
  ∀ id, balance id (foldl (λ m '(id, b), add_balance id b m) m runes) = (balance id m + amount_of id runes)%N.
Proof.
  revert m. induction runes as [|[id0 b] runes IH]; intros m Hf id; [unfold amount_of; cbn; lia|].
  assert (∀ id', amount_of id' ((id0, b) :: runes) = ((if decide (id0 = id') then b else 0) + amount_of id' runes)%N)
    as Hcons by done.
  assert (fits 128 (balance id0 m + b)) as Hf0.
  { specialize (Hf id0). rewrite Hcons, decide_True in Hf by done. eapply fits_le, Hf. lia. }
  assert (∀ id', (balance id' (add_balance id0 b m) + amount_of id' runes)%N =
                 (balance id' m + amount_of id' ((id0, b) :: runes))%N) as Hsum.
  { intros id'. rewrite Hcons, balance_add by done. case_decide; [subst id'|]; lia. }
  cbn [foldl]. rewrite IH; [apply Hsum|]. intros id'. rewrite Hsum. apply Hf.
Qed.

(** The balances a transaction starts from are those its inputs hold. *)
Lemma unallocated_holds (resolver : gmap TxoRef (Utxo Ext)) inputs (task task' : IndexingTask DB) (m u : Balances) :
  for_each inputs (task, m) (unallocated_input resolver) = Ok (task', u) →
  (∀ id, fits 128 (balance id m + inputs_hold resolver inputs id)) →
  ∀ id, balance id u = (balance id m + inputs_hold resolver inputs id)%N.
Proof.
  revert task m. induction inputs as [|i inputs IH]; intros task m Hu Hf id.
  { injection Hu as _ ->. unfold inputs_hold. cbn. lia. }
  cbn [for_each] in Hu. apply res_bind_ok in Hu as ([t1 m1] & Hi & Hu).
  assert (∀ id', inputs_hold resolver (i :: inputs) id' = (input_holds resolver id' i + inputs_hold resolver inputs id')%N)
    as Hcons by done.
  assert (∀ id', balance id' m1 = (balance id' m + input_holds resolver id' i)%N) as Hm1.
  { intros id'. unfold unallocated_input in Hi. unfold input_holds. destruct (is_null (previous_output i)) eqn:Hnull.
    { injection Hi as _ ->. lia. }
    apply res_bind_ok in Hi as (utxo & Hx & Hi). destruct (resolver !! _) as [utxo'|] eqn:Hres; [|done].
    injection Hx as ->. apply res_bind_ok in Hi as (runes & Hr & Hi). rewrite Hr.
    apply res_bind_ok in Hi as (t2 & _ & Hi). injection Hi as _ <-. apply balance_fold. intros id2.
    specialize (Hf id2). rewrite Hcons in Hf. unfold input_holds in Hf at 1. rewrite Hnull, Hres, Hr in Hf.
    eapply fits_le, Hf. lia. }
  rewrite (IH t1 m1 Hu), Hm1, Hcons; [lia|]. intros id'. rewrite Hm1. specialize (Hf id'). rewrite Hcons in Hf.
  eapply fits_le, Hf. lia.
Qed.

(** ** A whole runestone *)

(** What a mint and a premine bring of a rune. *)
Definition minted (mint_id : option RuneId) (amount : option u128) (id : RuneId) : N :=
  match mint_id, amount with
  | Some id', Some amount => if decide (id' = id) then amount else 0%N
  | _, _ => 0%N
  end.
Definition premined (r : Runestone) (e : option (RuneId * u128)) (id : RuneId) : N :=
  match e with
  | Some (id', _) =>
      if decide (id' = id)
      then default (0%N : u128) (match rs_etching r with Some e => etching_premine e | None => None end) else 0%N
  | None => 0%N
  end.

Lemma etched_etching (task : IndexingTask DB) (resolver : gmap TxoRef (Utxo Ext)) n t r h network c e :
  etched task resolver n t (ArtifactRunestone r) h network c = Ok (Some e) → is_Some (rs_etching r).
Proof.
  unfold etched. destruct (assert _ _) as [[]| |]; cbn [rbind]; [|done|done].
  destruct (rs_etching r); [by eexists|done].
Qed.

Lemma create_rune_entry_total (task : IndexingTask DB) r txid id rune h :
  readable task → is_Some (rs_etching r) → ∃ task', create_rune_entry task (ArtifactRunestone r) txid id rune h = Ok task'.
Proof.
  intros Hr [e He]. unfold create_rune_entry.
  destruct (task_set_ok RuneIdByNameKV rune id task Hr) as (t1 & -> & Hb). cbn [rbind]. rewrite He. cbn [expect rbind].
  assert (readable t1) as Hr1 by (by eapply same_task_readable, Hr; apply Hb).
  match goal with |- ∃ _, task_set _ _ ?info _ = _ => destruct (task_set_ok RuneInfoByIdKV id info t1 Hr1) as (t2 & -> & _) end.
  eauto.
Qed.

Lemma balance_add_minted m (amount : u128) (u : Balances) id :
  fits 128 (balance m u + amount) →
  balance id (add_balance m amount u) = (balance id u + if decide (m = id) then amount else 0)%N.
Proof. intros Hf. rewrite balance_add by done. case_decide; [by subst|lia]. Qed.
End Transaction.

Section Runestone.
Context {DB : Type} `{RocksDBOk DB} `{HashOrderOk} `{Ordinals}.
Context {Ext : Type} `{!IndexMap TransactionIndexer (list byte) Ext}.
Context (ri : RunesIndexer) (t : TransactionWithId) (n : usize) (ctx : IndexingContext Ext) (r : Runestone).

Abbreviation outputs := (length (tx_output (tx t))).

(** The balances after the mint and after the premine of a transaction. *)
Lemma mint_balances (task task1 : IndexingTask DB) (amount : option u128) (u : Balances) :
  readable task →
  match rs_mint r with
  | Some id => mint task id (block_height ctx) = Ok (task1, amount)
  | None => task1 = task ∧ amount = None
  end →
  (∀ id, fits 128 (balance id u + minted (rs_mint r) amount id)) →
  ∃ u1, (match rs_mint r with
         | Some id => '(task, amount) ← mint task id (block_height ctx);
             Ok (task, match amount with Some amount => add_balance id amount u | None => u end)
         | None => Ok (task, u)
         end : Res Error (IndexingTask DB * Balances)) = Ok (task1, u1) ∧ readable task1 ∧
    ∀ id, balance id u1 = (balance id u + minted (rs_mint r) amount id)%N.
Proof.
  intros Hr Hmint Hfits. destruct (rs_mint r) as [id|].
  - rewrite Hmint. cbn [rbind]. eexists. split; [reflexivity|]. split.
    + eapply same_task_readable; [by eapply task_steps_same, mint_steps|exact Hr].
    + intros id'. destruct amount as [x|]; cbn [minted]; [|lia]. apply balance_add_minted.
      specialize (Hfits id). cbn [minted] in Hfits. by rewrite decide_True in Hfits.
  - destruct Hmint as [-> ->]. exists u. split_and!; [done|done|]. intros id. cbn [minted]. lia.
Qed.

Lemma premine_balances (task1 : IndexingTask DB) (e : option (RuneId * u128)) (u1 : Balances) :
  etched task1 (ctx_resolver ctx) n (tx t) (ArtifactRunestone r) (block_height ctx) (ctx_network ctx)
    (ri_commitment_confirmations ri) = Ok e →
  (∀ id, fits 128 (balance id u1 + premined r e id)) →
  ∃ u2, match e with
        | Some (id, _) => e ← expect (rs_etching r) "unwrap";
            Ok (add_balance id (default (0%N : u128) (etching_premine e)) u1)
        | None => Ok u1
        end = Ok u2 :> Res Error Balances ∧
    ∀ id, balance id u2 = (balance id u1 + premined r e id)%N.
Proof.
  intros Hetched Hfits. destruct e as [[id rune]|]; [|exists u1; split; [done|]; intros id; cbn [premined]; lia].
  destruct (etched_etching _ _ _ _ _ _ _ _ _ Hetched) as [et Het]. rewrite Het. cbn [expect rbind].
  eexists. split; [reflexivity|]. intros id'. unfold premined. rewrite Het.
  apply balance_add_minted. specialize (Hfits id). unfold premined in Hfits. rewrite Het in Hfits.
  by rewrite decide_True in Hfits.
Qed.

(** C13: Every rune of a transaction with a runestone is accounted for. Let the
    edicts and the pointer of the runestone name outputs of the transaction, as
    in every runestone that is deciphered, let its mint and the check of its
    etching, which read records and the outputs it spends, succeed, and let the
    sums fit 128 bits. Then the rest of indexing it does not fail, and of each
    rune, what its outputs receive and what is burned is what the outputs it
    spends held, plus what it mints and what it premines. Only what no edict
    gave away is burned, and only when no output can take it: without a
    pointer, when every output is an OP_RETURN. *)
Theorem runestone_conserves_runes (task0 task task1 : IndexingTask DB) (u : Balances) (amount : option u128)
    (e : option (RuneId * u128)) :
  readable task0 → unallocated task0 (tx t) (ctx_resolver ctx) = Ok (task, u) →
  match rs_mint r with
  | Some id => mint task id (block_height ctx) = Ok (task1, amount)
  | None => task1 = task ∧ amount = None
  end →
  etched task1 (ctx_resolver ctx) n (tx t) (ArtifactRunestone r) (block_height ctx) (ctx_network ctx)
    (ri_commitment_confirmations ri) = Ok e →
  Forall (λ e, (edict_output e <= N.of_nat outputs)%N) (rs_edicts r) →
  match rs_pointer r with Some p => (p < N.of_nat outputs)%N | None => True end →
  let brought id :=
    (inputs_hold (ctx_resolver ctx) (tx_input (tx t)) id + minted (rs_mint r) amount id + premined r e id)%N in
  (∀ id, fits 128 (brought id)) →
  ∃ task' u' a' a'',
    process_artifact ri t n ctx (ArtifactRunestone r) task u (replicate outputs ∅) = Ok (task', u', a') ∧
    assign_unallocated (tx t) (Some (ArtifactRunestone r)) u' a' = Ok a'' ∧ length a'' = outputs ∧
    ∀ id, (allocated_total id a'' + burned (tx t) (rs_pointer r) u' id)%N = brought id.
Proof.
  intros Hr0 Hunalloc Hmint Hetched Hedicts Hpointer brought Hfits.
  assert (readable task) as Hr by (eapply same_task_readable, Hr0; by eapply task_steps_same, unallocated_steps).
  assert (∀ id, balance id u = inputs_hold (ctx_resolver ctx) (tx_input (tx t)) id) as Hu.
  { intros id. rewrite (unallocated_holds _ _ _ _ ∅ u Hunalloc); [by rewrite balance_empty|]. intros id'.
    rewrite balance_empty. eapply fits_le, (Hfits id'). unfold brought. lia. }
  destruct (mint_balances task task1 amount u Hr Hmint) as (u1 & Hm & Hr1 & Hu1);
    [intros id; rewrite Hu; eapply fits_le, (Hfits id); unfold brought; lia|].
  destruct (premine_balances task1 e u1 Hetched) as (u2 & Hp & Hu2); [intros id; rewrite Hu1, Hu; apply Hfits|].
  (* the edicts *)
  assert (∀ id, supply id u2 (replicate outputs ∅) = brought id)
    as Hsup by (intros id; unfold supply, brought; rewrite allocated_total_empty, Hu2, Hu1, Hu; lia).
  destruct (edicts_conserve (rs_edicts r) outputs (destinations (tx t)) e u2 (replicate outputs ∅))
    as (u3 & a3 & Hed & Hlen3 & Hs3); [done|apply destinations_lt|apply length_replicate|intros id; by rewrite Hsup|].
  (* the entry of a new rune *)
  assert (∃ task2, match e with
                   | Some (id, rune) => create_rune_entry task1 (ArtifactRunestone r) (tx_id t) id rune (block_height ctx)
                   | None => Ok task1
                   end = Ok task2) as (task2 & Ht2).
  { destruct e as [[id rune]|]; [|eauto]. apply create_rune_entry_total; [done|by eapply etched_etching]. }
  destruct (assign_or_burn (tx t) r u3 a3) as (a4 & Ha4 & Hlen4 & Hs4);
    [done|done|intros id; rewrite Hs3, Hsup; apply Hfits|].
  exists task2, u3, a3, a4. split_and!; [|done|congruence|intros id; by rewrite Hs4, Hs3, Hsup].
  unfold process_artifact. cbn [artifact_mint]. cbv zeta. rewrite Hm. cbn [rbind]. rewrite Hetched. cbn [rbind].
  eapply rbind_ok; [eapply rbind_ok; [exact Hp|exact Hed]|]. cbn beta iota. eapply rbind_ok; [exact Ht2|done].
Qed.
End Runestone.

(** ** Mints *)
Section Mint.
Context {DB : Type} `{RocksDBOk DB} `{HashOrderOk} `{Ordinals}.

(** The terms allow a mint at this height, after [mints] of them. *)
Definition mint_open (terms : RuneTerms) (height : BlockHeight) (mints : u128) : Prop :=
  (∀ start, terms_start_height terms = Some start → (start <= height)%N) ∧
  (∀ stop, terms_end_height terms = Some stop → (height < stop)%N) ∧
  (mints < default (0%N : u128) (terms_cap terms))%N.

Lemma mint_open_iff (terms : RuneTerms) (height : BlockHeight) (count : u128) :
  mint_open terms height count ↔
  (match terms_start_height terms with Some start => (height <? start)%N | None => false end) = false ∧
  (match terms_end_height terms with Some stop => (stop <=? height)%N | None => false end) = false ∧
  (default (0%N : u128) (terms_cap terms) <=? count)%N = false.
Proof.
  unfold mint_open. rewrite N.leb_gt.
  destruct (terms_start_height terms) as [start|], (terms_end_height terms) as [stop|];
    rewrite ?N.ltb_ge, ?N.leb_gt; naive_solver.
Qed.

(** C31: A mint gives the amount of the terms exactly when the block's height is
    in the terms' window and the cap is not reached, and then it is counted, so
    that the count never exceeds the cap; otherwise nothing changes. *)
Theorem mint_within_terms (task : IndexingTask DB) (id : RuneId) (height : BlockHeight) (info : option RuneInfo)
    (mints : option u128) :
  readable task → buffer_fits (write_buffer task) →
  task_get RuneInfoByIdKV task id = Ok info → task_get RuneMintsByIdKV task id = Ok mints →
  let count := default (0%N : u128) mints in
  match (match info with Some i => info_terms i | None => None end) with
  | None => mint task id height = Ok (task, None)
  | Some terms =>
      fits 128 (default (0%N : u128) (terms_cap terms)) →
      (mint_open terms height count →
         ∃ task', mint task id height = Ok (task', Some (default (0%N : u128) (terms_amount terms))) ∧
           task_get RuneMintsByIdKV task' id = Ok (Some (count + 1)%N) ∧
           (count + 1 <= default (0%N : u128) (terms_cap terms))%N) ∧
      (¬ mint_open terms height count → mint task id height = Ok (task, None))
  end.
Proof.
  intros Hr Hbf Hinfo Hmints count. unfold mint. rewrite Hinfo. cbn [rbind].
  destruct (match info with Some i => info_terms i | None => None end) as [terms|]; [|done].
  intros Hcap. rewrite mint_open_iff.
  destruct (match terms_start_height terms with Some _ => _ | None => _ end); [split; [naive_solver|done]|].
  destruct (match terms_end_height terms with Some _ => _ | None => _ end); [split; [naive_solver|done]|].
  rewrite Hmints. cbn [rbind]. cbv zeta. set (cap := default (0%N : u128) (terms_cap terms)) in *.
  repeat match goal with
  | |- context [from_option ?f ?d mints] => change (from_option f d mints) with count
  | |- context [from_option ?f ?d (terms_cap terms)] => change (from_option f d (terms_cap terms)) with cap
  end.
  destruct (N.leb_spec cap count) as [Hle|Hlt];
    [split; [naive_solver|done]|]. split; [|naive_solver]. intros _.
  assert (fits 128 (count + 1)) as Hone by (eapply fits_le, Hcap; lia).
  rewrite checked_add_exact by exact Hone. cbn [expect rbind].
  destruct (task_set_ok RuneMintsByIdKV id ((count + 1)%N : u128) task Hr) as (task' & -> & Hb). cbn [rbind].
  exists task'. split_and!; [done| |lia].
  rewrite (task_get_buffered RuneMintsByIdKV _ _ _ _ _ (Some (encode ((count + 1)%N : u128))) Hr Hb);
    [|done|done|by rewrite decide_True].
  cbn [decode_value]. by rewrite decode_or_encode.
Qed.

End Mint.

(** ** A mint and edicts, evaluated *)
Module RunesExamples.
Import Simple SimpleBitcoin.

Definition rune : RuneId := MkRuneId 7 1.
Definition info : RuneInfo :=
  MkRuneInfo 99%N (Some (MkRuneTerms (Some 10%N) (Some 2%N) (Some 5%N) (Some 50%N))) None x00 7%N
    (replicate 32 x0f) 0%N 0%N.
Definition task0 : IndexingTask RefDB := begin_indexing_task true (MkStorage [] None false).
Definition task1 : IndexingTask RefDB := unwrap_or task0 (task_set RuneInfoByIdKV rune info task0).
Lemma task1_readable : readable task1.
Proof. apply N.le_0_l. Qed.
#[local] Instance op_fits_dec a : Decision (op_fits a).
Proof. destruct a; cbn; [left; exact I|left; exact I|apply fits_dec]. Defined.
Lemma task1_fits : buffer_fits (write_buffer task1).
Proof.
  apply (bool_decide_unpack (map_Forall (λ (_ : RawKey) (a : StorageAction), op_fits a) (write_buffer task1))).
  vm_compute. reflexivity.
Qed.

Example mint_within_terms_witness :
  ∃ task', mint task1 rune 20%N = Ok (task', Some 10%N) ∧
    task_get RuneMintsByIdKV task' rune = Ok (Some 1%N) ∧ (1 <= 2)%N.
Proof.
  refine (proj1 (mint_within_terms task1 rune 20%N (Some info) None task1_readable task1_fits _ _ _) _).
  - vm_compute. reflexivity.
  - vm_compute. reflexivity.
  - vm_compute. reflexivity.
  - split_and!; [intros start Heq; injection Heq as <-; vm_compute; discriminate
                |intros stop Heq; injection Heq as <-; vm_compute; reflexivity|vm_compute; reflexivity].
Defined.

Definition ri : RunesIndexer := MkRunesIndexer 0%N true None.
(** An output that holds 100 of the rune is spent, 10 are minted. *)
Definition spent : OutPoint := MkOutPoint (replicate 32 x44) 0%N.
Definition utxo : Utxo SimpleExt :=
  MkUtxo 546%N [x53] 18%N (im_insert Runes (encode ([(rune, 100%N)] : UtxoRunes)) im_new).
Definition ctx : IndexingContext SimpleExt :=
  MkContext (MkPoint 20%N (replicate 32 x20)) {[txo_ref_from spent := utxo]} ∅ ∅ Regtest.
Definition runestone : Runestone :=
  MkRunestone [MkEdict rune 30%N 1%N; MkEdict rune 0%N 3%N] None (Some rune) None.
Definition t : TransactionWithId :=
  MkTxWithId (replicate 32 x33)
    (MkSimpleTx [MkSimpleIn spent None] [MkSimpleOut 0%N [x6a]; MkSimpleOut 1%N [x51]; MkSimpleOut 2%N [x52]]).
Definition spent_task : IndexingTask RefDB * Balances :=
  unwrap_or (task1, ∅) (unallocated task1 (tx t) (ctx_resolver ctx)).
Definition minted_task : IndexingTask RefDB * option u128 :=
  unwrap_or (spent_task.1, Some (10%N : u128)) (mint spent_task.1 rune 20%N).

Lemma ex_inputs_hold id : inputs_hold (ctx_resolver ctx) (tx_input (tx t)) id = if decide (rune = id) then 100%N else 0%N.
Proof.
  assert (utxo_runes utxo = Ok [(rune, 100%N)]) as Hu by (vm_compute; reflexivity).
  change (inputs_hold (ctx_resolver ctx) (tx_input (tx t)) id) with (input_holds (ctx_resolver ctx) id (MkSimpleIn spent None) + 0)%N.
  unfold input_holds. change (is_null _) with false. cbn match.
  assert (ctx_resolver ctx !! txo_ref_from (previous_output (MkSimpleIn spent None : TxIn)) = Some utxo) as ->
    by apply lookup_singleton_eq.
  rewrite Hu. cbn. case_decide; lia.
Qed.

Example runestone_conserves_runes_witness :
  ∃ task' u' a' a'',
    process_artifact ri t 0%N ctx (ArtifactRunestone runestone) spent_task.1 spent_task.2 (replicate 3 ∅) =
      Ok (task', u', a') ∧
    assign_unallocated (tx t) (Some (ArtifactRunestone runestone)) u' a' = Ok a'' ∧ length a'' = 3 ∧
    ∀ id, (allocated_total id a'' + burned (tx t) None u' id)%N =
      (inputs_hold (ctx_resolver ctx) (tx_input (tx t)) id + minted (Some rune) (Some 10%N) id +
       premined runestone None id)%N.
Proof.
  apply (runestone_conserves_runes ri t 0%N ctx runestone task1 spent_task.1 minted_task.1 spent_task.2 (Some 10%N) None).
  - apply task1_readable.
  - rewrite <-surjective_pairing. apply is_ok_unwrap. vm_compute. reflexivity.
  - transitivity (Ok minted_task : Res Error _); [apply is_ok_unwrap; vm_compute; reflexivity|].
    rewrite (surjective_pairing minted_task) at 1. do 2 f_equal.
  - vm_compute. reflexivity.
  - repeat (apply Forall_cons; split; [vm_compute; discriminate|]). constructor.
  - exact I.
  - intros id. rewrite ex_inputs_hold. unfold minted, premined. cbn [rs_mint runestone].
    destruct (decide (rune = id)); vm_compute; reflexivity.
Defined.
End RunesExamples.
