(* ===== verification/AddressLaws.v ===== *)
(** * Laws of the indexers of addresses

    The table of unspent outputs by address follows the outputs the
    transactions create and spend; the counter of an address grows by one for
    each transaction that names it, however often. *)
From S2P Require Import Prelude ByteOrder EncDec Timestamp Types MergeOperation Table Rocks.
From S2P Require Import CoreTables KvStore KvStoreLaws Commit RollbackBuffer Bitcoin Context.
From S2P Require Import AddressIndexers RunesTables Runes Charms Indexers Stage Instances StageLaws Chain.
From S2P Require Import UtxoSet UtxoLaws UtxoBlock BlockTotal.

#[export] Instance utxos_by_address_key_eq_dec : EqDecision UtxosByAddressKey.
Proof.
  intros [s1 h1 r1] [s2 h2 r2].
  destruct (decide (s1 = s2)), (N.eq_dec h1 h2), (decide (r1 = r2)); (by left; congruence) || (right; congruence).
Defined.

(** ** Unspent outputs by address *)
Section UtxosByAddress.
Context {DB : Type} `{RocksDBOk DB} `{HashOrderOk} `{Bitcoin}.
Context {Ext : Type} `{!IndexMap TransactionIndexer (list byte) Ext}.

(** What the table lists: each output with its script and height. *)
Abbreviation Listing := (gmap TxoRef (ScriptPubKey * BlockHeight)).

Definition listed (V : Listing) (k : UtxosByAddressKey) : Prop :=
  V !! uba_txo_ref k = Some (uba_script k, uba_produced_height k).

Definition listing_valid (V : Listing) : Prop :=
  ∀ r s h, V !! r = Some (s, h) → valid (MkUtxosByAddressKey s h r).

Abbreviation at_raw task k := (effect (write_buffer task) (task_snapshot task) k).
Abbreviation at_key task k := (at_raw task (encode_key UtxosByAddressKV k)).

(** The keys of the table. *)
Definition address_prefix : list byte := indexer_table_prefix (unique_id UtxosByAddress) x00.

Record lists (V : Listing) (task : IndexingTask DB) : Prop := {
  ls_valid : listing_valid V;
  ls_readable : readable task;
  ls_in k : valid k → listed V k → at_key task k = Some (Some (encode tt));
  ls_out k : valid k → ¬ listed V k → at_key task k = Some None;
  ls_only raw : address_prefix `prefix_of` raw → (∀ k, valid k → raw ≠ encode_key UtxosByAddressKV k) →
    at_raw task raw = Some None;
}.

Lemma address_key_inj k k' :
  valid k → valid k' → encode_key UtxosByAddressKV k = encode_key UtxosByAddressKV k' → k = k'.
Proof. apply (encode_key_inj _ _ (indexer_table_at unit (unique_id UtxosByAddress) x00)). Qed.

(** The transition: the outputs a transaction spends leave the listing (not
    those of a coinbase), the ones it creates enter it. *)
Definition unlist (inputs : list TxIn) (V : Listing) : Listing := foldl (λ V i, delete (input_ref i) V) V inputs.
Definition enlist (t : TransactionWithId) (h : BlockHeight) (V : Listing) (o : nat * TxOut) : Listing :=
  <[output_ref t o.1 := (script_pubkey o.2, h)]> V.
Definition list_tx (h : BlockHeight) (V : Listing) (t : TransactionWithId) : Listing :=
  foldl (enlist t h) (if is_coinbase (tx t) then V else unlist (tx_input (tx t)) V) (enumerate (tx_output (tx t))).

Lemma at_key_buffered (t t' : IndexingTask DB) k a k' :
  buffered (encode_key UtxosByAddressKV k) a t t' → valid k → valid k' →
  at_key t' k' = if decide (k = k') then action_value a (task_snapshot t !! encode_key UtxosByAddressKV k) else at_key t k'.
Proof.
  intros Hb Hk Hk'. rewrite (buffered_effect _ _ _ _ _ Hb).
  destruct (decide (encode_key UtxosByAddressKV k = encode_key UtxosByAddressKV k')) as [Heq|Hne].
  - by rewrite (address_key_inj k k' Hk Hk' Heq), decide_True.
  - rewrite decide_False; [done|]. by intros ->.
Qed.

(** A write to an entry leaves the keys that are no entries. *)
Lemma buffered_only (t t' : IndexingTask DB) k a raw :
  buffered (encode_key UtxosByAddressKV k) a t t' → valid k →
  (∀ k, valid k → raw ≠ encode_key UtxosByAddressKV k) → at_raw t' raw = at_raw t raw.
Proof. intros Hb Hk Hraw. rewrite (buffered_effect _ _ _ _ _ Hb), decide_False; [done|]. intros <-. by apply (Hraw k). Qed.

Lemma delete_consumed_lists V task (ctx : IndexingContext Ext) i u :
  lists V task → resolve_input ctx (input_ref i) = Some u →
  valid (MkUtxosByAddressKey (script u) (height u) (input_ref i)) →
  V !! input_ref i = Some (script u, height u) ∨ V !! input_ref i = None →
  ∃ task', delete_consumed ctx task i = Ok task' ∧ lists (delete (input_ref i) V) task'.
Proof.
  intros [Hv Hr Hin Hout Honly] Hu Hk HV. set (k := MkUtxosByAddressKey (script u) (height u) (input_ref i)) in *.
  destruct (task_delete_ok UtxosByAddressKV k task Hr) as (task' & Hdel & Hb).
  exists task'. split; [unfold delete_consumed; fold (input_ref i); by rewrite Hu|].
  split.
  - intros r s h Hl. apply lookup_delete_Some in Hl as [_ Hl]. by apply Hv.
  - by eapply same_task_readable, Hr; apply Hb.
  - intros k' Hk' Hl. unfold listed in Hl. apply lookup_delete_Some in Hl as [Hne Hl].
    rewrite (at_key_buffered _ _ _ _ k' Hb Hk Hk'), decide_False; [by apply Hin|]. by intros <-.
  - intros k' Hk' Hl. rewrite (at_key_buffered _ _ _ _ k' Hb Hk Hk').
    case_decide as Heq; [done|]. apply Hout; [done|]. intros Hl'. apply Hl. unfold listed in *.
    rewrite lookup_delete_ne; [done|]. intros Href. apply Heq. rewrite <-Href in Hl'.
    destruct HV as [HV|HV]; rewrite HV in Hl'; [|done]. injection Hl' as Hs Hh. unfold k. rewrite Hs, Hh, Href. by destruct k'.
  - intros raw Hp Hraw. rewrite (buffered_only _ _ _ _ _ Hb Hk Hraw). by apply Honly.
Qed.

Lemma set_produced_lists V task (ctx : IndexingContext Ext) t o :
  lists V task → valid (MkUtxosByAddressKey (script_pubkey o.2) (block_height ctx) (output_ref t o.1)) →
  V !! output_ref t o.1 = None →
  ∃ task', set_produced t ctx task o = Ok task' ∧ lists (enlist t (block_height ctx) V o) task'.
Proof.
  destruct o as [j o]. cbn [fst snd]. intros [Hv Hr Hin Hout Honly] Hk Hnew.
  set (k := MkUtxosByAddressKey (script_pubkey o) (block_height ctx) (output_ref t j)) in *.
  destruct (task_set_ok UtxosByAddressKV k tt task Hr) as (task' & Hset & Hb).
  exists task'. split; [exact Hset|]. unfold enlist. cbn [fst snd].
  split.
  - intros r s h Hl. apply lookup_insert_Some in Hl as [[<- Heq]|[_ Hl]]; [by injection Heq as <- <-|by apply Hv].
  - by eapply same_task_readable, Hr; apply Hb.
  - intros k' Hk' Hl. rewrite (at_key_buffered _ _ _ _ k' Hb Hk Hk'). case_decide as Heq; [done|].
    apply Hin; [done|]. unfold listed in *. apply lookup_insert_Some in Hl as [[Href Hl]|[_ Hl]]; [|done].
    exfalso. apply Heq. injection Hl as Hs Hh. unfold k. rewrite Hs, Hh, Href. by destruct k'.
  - intros k' Hk' Hl. rewrite (at_key_buffered _ _ _ _ k' Hb Hk Hk').
    case_decide as Heq; [exfalso; apply Hl; subst k'; unfold listed; cbn; by rewrite lookup_insert_eq|].
    apply Hout; [done|]. intros Hl'. apply Hl. unfold listed in *. rewrite lookup_insert_ne; [done|].
    intros Href. by rewrite <-Href, Hnew in Hl'.
  - intros raw Hp Hraw. rewrite (buffered_only _ _ _ _ _ Hb Hk Hraw). by apply Honly.
Qed.

Lemma unlist_subset (inputs : list TxIn) (V : Listing) r p : unlist inputs V !! r = Some p → V !! r = Some p.
Proof.
  unfold unlist. revert V. induction inputs as [|i inputs IH]; intros V Hp; [done|]. cbn [foldl] in Hp.
  apply IH in Hp. by apply lookup_delete_Some in Hp as [_ Hp].
Qed.

Lemma output_refs_nodup t :
  fits 32 (N.of_nat (length (tx_output (tx t)))) → NoDup ((λ o, output_ref t o.1) <$> enumerate (tx_output (tx t))).
Proof.
  intros Hn. unfold enumerate. rewrite fmap_imap. apply NoDup_alt. intros i j r Hi Hj.
  rewrite list_lookup_imap in Hi, Hj.
  destruct (tx_output (tx t) !! i) as [x|] eqn:Hxi; [|done]. destruct (tx_output (tx t) !! j) as [y|] eqn:Hyj; [|done].
  injection Hi as Hi. injection Hj as Hj. rewrite <-Hj in Hi. injection Hi as Heq.
  apply lookup_lt_Some in Hxi, Hyj. unfold fits in Hn. rewrite !N.mod_small in Heq by lia. lia.
Qed.

Lemma delete_consumed_all V task (ctx : IndexingContext Ext) (inputs : list TxIn) :
  lists V task →
  Forall (λ i, ∃ u, resolve_input ctx (input_ref i) = Some u ∧
                    valid (MkUtxosByAddressKey (script u) (height u) (input_ref i)) ∧
                    (V !! input_ref i = Some (script u, height u) ∨ V !! input_ref i = None)) inputs →
  ∃ task', for_each inputs task (delete_consumed ctx) = Ok task' ∧ lists (unlist inputs V) task'.
Proof.
  revert V task. induction inputs as [|i inputs IH]; intros V task Hls Hin; [by exists task|].
  apply Forall_cons in Hin as [(u & Hu & Hk & HV) Hin].
  destruct (delete_consumed_lists V task ctx i u Hls Hu Hk HV) as (task1 & Hd & Hls1).
  cbn [for_each]. rewrite Hd. cbn [rbind]. apply IH; [exact Hls1|].
  eapply Forall_impl; [exact Hin|]. intros i' (u' & Hu' & Hk' & HV'). exists u'. split_and!; [done|done|].
  rewrite lookup_delete. case_decide; [by right|exact HV'].
Qed.

Lemma set_produced_all V task (ctx : IndexingContext Ext) t outs :
  lists V task → NoDup ((λ o, output_ref t o.1) <$> outs) →
  Forall (λ o, valid (MkUtxosByAddressKey (script_pubkey o.2) (block_height ctx) (output_ref t o.1)) ∧
               V !! output_ref t o.1 = None) outs →
  ∃ task', for_each outs task (set_produced t ctx) = Ok task' ∧
    lists (foldl (enlist t (block_height ctx)) V outs) task'.
Proof.
  revert V task. induction outs as [|o outs IH]; intros V task Hls Hnd Hall; [by exists task|].
  apply Forall_cons in Hall as [[Hk Hnew] Hall]. cbn [fmap list_fmap] in Hnd. apply NoDup_cons in Hnd as [Hno Hnd].
  destruct (set_produced_lists V task ctx t o Hls Hk Hnew) as (task1 & Hs & Hls1).
  cbn [for_each foldl]. rewrite Hs. cbn [rbind]. apply IH; [exact Hls1|exact Hnd|].
  apply Forall_forall. intros o' Ho'. rewrite Forall_forall in Hall. destruct (Hall o' Ho') as [Hk' Hnew'].
  split; [done|]. unfold enlist. rewrite lookup_insert_ne; [done|]. intros Heq. apply Hno. rewrite Heq.
  apply list_elem_of_fmap. by exists o'.
Qed.

(** The table of outputs by address lists exactly the outputs that were created
    and not spent, each under the script and the height it was created with.
    Indexing a transaction whose inputs are resolved as they were listed takes
    what it spends off the list, unless it is a coinbase, and puts all it
    creates on it, with no other change. *)
Lemma utxos_by_address_lists (V : Listing) (t : TransactionWithId) (task : IndexingTask DB)
    (ctx : IndexingContext Ext) :
  lists V task →
  (is_coinbase (tx t) = false →
     Forall (λ i, ∃ u, resolve_input ctx (input_ref i) = Some u ∧ V !! input_ref i = Some (script u, height u))
       (tx_input (tx t))) →
  (∀ r, is_Some (V !! r) → tx_hash r ≠ tx_id t) → length (tx_id t) = 32 → fits 64 (block_height ctx) →
  fits 32 (N.of_nat (length (tx_output (tx t)))) → Forall (λ o, valid (script_pubkey o)) (tx_output (tx t)) →
  ∃ task', utxos_by_address_process_tx t (task, ctx) = Ok (task', ctx) ∧ lists (list_tx (block_height ctx) V t) task'.
Proof.
  intros Hls Hin Hnew Hid Hh Hn Hout. unfold utxos_by_address_process_tx, list_tx.
  set (V1 := if is_coinbase (tx t) then V else unlist (tx_input (tx t)) V).
  assert (∃ t1, (if is_coinbase (tx t) then Ok task else for_each (tx_input (tx t)) task (delete_consumed ctx)) = Ok t1 ∧
            lists V1 t1) as (t1 & -> & Hls1).
  { unfold V1. destruct (is_coinbase (tx t)); [by exists task|]. apply delete_consumed_all; [done|].
    eapply Forall_impl; [by apply Hin|]. intros i (u & Hu & HV). exists u. split_and!; [done| |by left].
    by apply (ls_valid _ _ Hls). }
  cbn [rbind].
  destruct (set_produced_all V1 t1 ctx t (enumerate (tx_output (tx t))) Hls1) as (t2 & -> & Hls2).
  - apply output_refs_nodup. exact Hn.
  - apply Forall_forall. intros [j o] Ho. apply elem_of_lookup_imap in Ho as (j' & o' & Heq & Ho).
    injection Heq as -> ->. cbn [fst snd]. rewrite Forall_lookup in Hout. split.
    + split; [by eapply Hout|]. split; [exact Hh|]. by apply output_ref_valid.
    + destruct (V1 !! output_ref t j') as [p|] eqn:Hp; [|done]. exfalso.
      apply (Hnew (output_ref t j')); [|done]. unfold V1 in Hp. destruct (is_coinbase (tx t)); [by eexists|].
      apply unlist_subset in Hp. by eexists.
  - cbn [rbind]. by exists t2.
Qed.
End UtxosByAddress.

(** ** Transactions by address *)
Section TxCount.
Context {DB : Type} `{RocksDBOk DB} `{HashOrderOk} `{Bitcoin}.
Context {Ext : Type} `{!IndexMap TransactionIndexer (list byte) Ext}.

Abbreviation count_key s := (encode_key TxCountByAddressKV s).

(** The counters a task will leave; what is pending on a counter is an
    increment. *)
Record counts (f : ScriptPubKey → N) (task : IndexingTask DB) : Prop := {
  cn_readable : readable task;
  cn_fits : buffer_fits (write_buffer task);
  cn_counter (s : ScriptPubKey) : valid s → counter task (count_key s) = Some (f s);
  cn_pending (s : ScriptPubKey) :
    match write_buffer task !! count_key s with Some (Merge_ (Increment _)) | None => True | _ => False end;
}.

Lemma count_key_inj s s' : valid s → valid s' → count_key s = count_key s' → s = s'.
Proof. apply (encode_key_inj _ _ (indexer_table_at u64 (unique_id TxCountByAddress) x00)). Qed.

(** A pending increment that did not saturate folds exactly. *)
Lemma pending_exact f task s :
  counts f task → valid s → fits 64 (f s + 1) → combine_exact task (count_key s).
Proof.
  intros Hc Hs Hf. pose proof (cn_counter _ _ Hc s Hs) as Hcount. pose proof (cn_pending _ _ Hc s) as Hp.
  pose proof (cn_fits _ _ Hc (count_key s)) as Hfits. unfold combine_exact. unfold counter, effect in Hcount.
  destruct (write_buffer task !! count_key s) as [[v| |op]|]; [done..| |done].
  destruct op as [a|a]; [|done]. intros x Hx.
  specialize (Hfits _ eq_refl). cbn [op_fits op_amount] in Hfits.
  rewrite (action_value_merge _ (Increment a) x Hfits Hx) in Hcount.
  assert (fits 128 x) as Hxf.
  { destruct (task_snapshot task !! count_key s); [by eapply decode_u128_fits|]. injection Hx as <-. apply fits_0. }
  rewrite decode_all_encode in Hcount by (apply apply_operand_fits; exact Hxf). cbn [ok] in Hcount.
  injection Hcount as Hcount. split; [|exact Hxf]. cbn [exact]. unfold apply_operand, saturating_add in Hcount.
  unfold fits in *. unfold MAX in Hcount. assert (2 ^ 64 < 2 ^ 128)%N by reflexivity. lia.
Qed.

Lemma increment_counts f task s :
  counts f task → valid s → fits 64 (f s + 1) →
  ∃ task', increment TxCountByAddressKV s (1%N : u64) task = Ok task' ∧
    counts (λ s', if decide (s' = s) then (f s + 1)%N else f s') task'.
Proof.
  intros Hc Hs Hf. unfold increment. set (op := Increment (as_u128 (1%N : u64))).
  assert (fits 128 (op_amount op)) as Hop by reflexivity.
  assert (not_deleted task (count_key s)) as Hnd.
  { intros Hd. pose proof (cn_pending _ _ Hc s) as Hp. by rewrite Hd in Hp. }
  destruct (merge_op_effect TxCountByAddressKV task s op (f s) (cn_readable _ _ Hc) Hop (cn_fits _ _ Hc) Hnd
              (pending_exact f task s Hc Hs Hf) (cn_counter _ _ Hc s Hs)) as (task' & a & Hm & Hb & Ha & Hval).
  exists task'. split; [exact Hm|].
  destruct (merge_op_buffered _ _ _ _ _ Hm) as (a' & Hb' & Hshape).
  assert (a' = a) as ->.
  { pose proof (f_equal (lookup (count_key s)) (buffered_wb _ _ _ _ Hb)) as Hl.
    rewrite (buffered_wb _ _ _ _ Hb'), !lookup_insert_eq in Hl. by injection Hl. }
  assert (saturating_add 128 (f s) 1 = f s + 1)%N as Hsat.
  { apply saturating_add_exact. by eapply fits_mono, Hf. }
  split.
  - eapply same_task_readable; [apply Hb|apply Hc].
  - by eapply buffered_fits, Hc.
  - intros s' Hs'. unfold counter. rewrite (buffered_effect _ _ _ _ _ Hb).
    destruct (decide (s' = s)) as [->|Hne].
    + rewrite decide_True by done. rewrite Hval. rewrite decode_all_encode; [cbn [ok]; by f_equal|].
      apply apply_operand_fits. apply (fits_mono 64); [done|]. eapply fits_le, Hf. lia.
    + rewrite decide_False; [by apply Hc|]. intros Heq. apply Hne. symmetry. by apply count_key_inj.
  - intros s'. rewrite (buffered_wb _ _ _ _ Hb), lookup_insert. case_decide as Heq; [|apply Hc].
    pose proof (cn_pending _ _ Hc s) as Hp. destruct (write_buffer task !! count_key s) as [[v| |[b|b]]|]; try done.
    all: by rewrite Hshape.
Qed.

(** One increment for each script of a list without repetition. *)
Lemma increments_count f task (l : list ScriptPubKey) :
  NoDup l → counts f task → Forall valid l → (∀ s, fits 64 (f s + 1)) →
  ∃ task', for_each l task (λ task s, increment TxCountByAddressKV s (1%N : u64) task) = Ok task' ∧
    counts (λ s, f s + if decide (s ∈ l) then 1 else 0)%N task'.
Proof.
  intros Hnd Hc Hv Hf.
  enough (∀ l g, NoDup l → counts g task → Forall valid l → (∀ s, s ∈ l → fits 64 (g s + 1)) →
    ∃ task', for_each l task (λ task s, increment TxCountByAddressKV s (1%N : u64) task) = Ok task' ∧
      counts (λ s, g s + if decide (s ∈ l) then 1 else 0)%N task') as Hgo by (by apply Hgo).
  clear l f Hnd Hc Hv Hf. intros l. revert task. induction l as [|s l IH]; intros task g Hnd Hc Hv Hf.
  { exists task. split; [done|]. destruct Hc as [Hr Hb Hcount Hp]. split; [done|done| |done].
    intros s Hs. rewrite decide_False by (by apply not_elem_of_nil). by rewrite N.add_0_r, Hcount. }
  apply NoDup_cons in Hnd as [Hnew Hnd]. apply Forall_cons in Hv as [Hs Hv].
  destruct (increment_counts g task s Hc Hs) as (task1 & Hi & Hc1); [apply Hf; by left|].
  cbn [for_each]. rewrite Hi. cbn [rbind]. destruct (IH task1 _ Hnd Hc1 Hv) as (task2 & Ht2 & Hc2).
  { intros s' Hs'. rewrite decide_False by (by intros ->). apply Hf. by right. }
  exists task2. split; [exact Ht2|]. destruct Hc2 as [Hr2 Hb2 Hcount2 Hp2]. split; [done|done| |done].
  intros s' Hs'. rewrite (Hcount2 s' Hs'). f_equal. destruct (decide (s' = s)) as [->|Hne].
  - rewrite (decide_False (P := s ∈ l)) by done. rewrite decide_True by (by left). lia.
  - destruct (decide (s' ∈ l)) as [Hin|Hnot].
    + by rewrite decide_True by (by right).
    + by rewrite decide_False by (by apply not_elem_of_cons).
Qed.

(** The scripts a transaction names. *)
Definition names (t : TransactionWithId) (ctx : IndexingContext Ext) (s : ScriptPubKey) : Prop :=
  (is_coinbase (tx t) = false ∧
   ∃ i u, i ∈ tx_input (tx t) ∧ resolve_input ctx (input_ref i) = Some u ∧ script u = s) ∨
  ∃ o, o ∈ tx_output (tx t) ∧ script_pubkey o = s.

Lemma seen_outputs (l : list TxOut) (seen : gset ScriptPubKey) s :
  s ∈ foldl (λ (seen : gset ScriptPubKey) output, {[script_pubkey output]} ∪ seen) seen l ↔
  s ∈ seen ∨ ∃ o, o ∈ l ∧ script_pubkey o = s.
Proof.
  revert seen. induction l as [|o l IH]; intros seen; cbn [foldl].
  - split; [by left|]. intros [?|(o & Ho & _)]; [done|by apply elem_of_nil in Ho].
  - rewrite IH, elem_of_union, elem_of_singleton. setoid_rewrite elem_of_cons. naive_solver.
Qed.

Lemma seen_inputs (ctx : IndexingContext Ext) (l : list TxIn) (seen seen' : gset ScriptPubKey) s :
  for_each l seen (seen_input ctx) = Ok seen' →
  s ∈ seen' ↔ s ∈ seen ∨ ∃ i u, i ∈ l ∧ resolve_input ctx (input_ref i) = Some u ∧ script u = s.
Proof.
  revert seen. induction l as [|i l IH]; intros seen Hf.
  - injection Hf as <-. split; [by left|]. intros [?|(i & u & Hi & _)]; [done|by apply elem_of_nil in Hi].
  - cbn [for_each] in Hf. apply res_bind_ok in Hf as (seen1 & Hs & Hf). unfold seen_input in Hs.
    fold (input_ref i) in Hs. destruct (resolve_input ctx (input_ref i)) as [u|] eqn:Hu; [|done].
    cbn [ok_or rbind] in Hs. injection Hs as <-. rewrite (IH _ Hf), elem_of_union, elem_of_singleton.
    setoid_rewrite elem_of_cons. split.
    + intros [[->|?]|?]; [right; by exists i, u; auto|by left|naive_solver].
    + intros [?|(i' & u' & [->|Hi'] & Hu' & Hs')]; [by left; right| |naive_solver].
      rewrite Hu in Hu'. injection Hu' as ->. left. by left.
Qed.

Lemma seen_scripts_names t (ctx : IndexingContext Ext) seen s :
  seen_scripts ctx t = Ok seen → s ∈ seen ↔ names t ctx s.
Proof.
  unfold seen_scripts, names. intros Hs. apply res_bind_ok in Hs as (seen1 & Hs1 & Hs). injection Hs as <-.
  rewrite seen_outputs. destruct (is_coinbase (tx t)).
  - injection Hs1 as <-. rewrite elem_of_empty. naive_solver.
  - rewrite (seen_inputs _ _ _ _ _ Hs1), elem_of_empty. naive_solver.
Qed.

(** C30: The counter of an address counts transactions: indexing a transaction whose
    inputs are resolved adds one to the counter of every script among the
    outputs it spends and creates, however often the script occurs, and leaves
    every other counter as it was. A coinbase counts its outputs only. *)
Theorem tx_count_counts_once (f : ScriptPubKey → N) (t : TransactionWithId) (task : IndexingTask DB)
    (ctx : IndexingContext Ext) :
  counts f task → (∀ s, fits 64 (f s + 1)) → resolvable t ctx →
  (∀ i u, resolve_input ctx (input_ref i) = Some u → valid (script u)) →
  Forall (λ o, valid (script_pubkey o)) (tx_output (tx t)) →
  ∃ task' (seen : gset ScriptPubKey), tx_count_process_tx t (task, ctx) = Ok (task', ctx) ∧
    (∀ s, s ∈ seen ↔ names t ctx s) ∧ counts (λ s, f s + if decide (s ∈ seen) then 1 else 0)%N task'.
Proof.
  intros Hc Hf Hres Hin Hout. destruct (seen_scripts_total t ctx Hres) as (seen & Hseen).
  assert (∀ s, s ∈ seen ↔ names t ctx s) as Hnames by (intros s; by apply seen_scripts_names).
  unfold tx_count_process_tx. rewrite Hseen. cbn [rbind].
  destruct (increments_count f task (hs_iter seen)) as (task' & Ht' & Hc').
  - rewrite hs_iter_perm. apply NoDup_elements.
  - exact Hc.
  - apply Forall_forall. intros s Hs. apply elem_of_hs_iter, Hnames in Hs.
    destruct Hs as [(_ & i & u & _ & Hu & <-)|(o & Ho & <-)]; [by eapply Hin|].
    rewrite Forall_forall in Hout. by apply Hout.
  - exact Hf.
  - exists task', seen. rewrite Ht'. split_and!; [done|exact Hnames|].
    destruct Hc' as [Hr Hb Hcount Hp]. split; [done|done| |done]. intros s Hs. rewrite (Hcount s Hs). f_equal. f_equal.
    apply decide_ext. apply elem_of_hs_iter.
Qed.
End TxCount.

Module AddressExamples.
Import Simple SimpleBitcoin StageExamples UtxoExamples.

Definition ex_ctx : IndexingContext SimpleExt := MkContext p2 {[r0 := u0]} ∅ ∅ Regtest.
Definition listed0 : UtxosByAddressKey := MkUtxosByAddressKey [x51] 1%N r0.
Definition ex_listing : gmap TxoRef (ScriptPubKey * BlockHeight) := {[r0 := ([x51], 1%N : u64)]}.
Definition listed_task : IndexingTask RefDB :=
  MkTask [(5%N, {[encode_key UtxosByAddressKV listed0 := encode tt]})] latest_ts ∅ (Some ∅) false.

Lemma listed0_valid : valid listed0.
Proof. split; [|split; [|apply ex_r0_valid]]; [split; [vm_compute; reflexivity|by repeat constructor]|vm_compute; reflexivity]. Qed.

Lemma ex_lists : lists ex_listing listed_task.
Proof.
  split.
  - intros r s h Hl. unfold ex_listing in Hl. apply lookup_singleton_Some in Hl as [<- Heq]. injection Heq as <- <-. apply listed0_valid.
  - apply N.le_0_l.
  - intros [s h r] _ Hl. unfold listed, ex_listing in Hl. apply lookup_singleton_Some in Hl as [Hr Heq]. cbn in Hr. subst r. injection Heq as <- <-.
    exact (f_equal Some (lookup_singleton_eq _ _)).
  - intros k Hk Hl.
    assert (encode_key UtxosByAddressKV listed0 ≠ encode_key UtxosByAddressKV k) as Hne.
    { intros Heq. apply Hl. rewrite <-(address_key_inj _ _ listed0_valid Hk Heq).
      apply (lookup_singleton_eq r0 ([x51], 1%N : u64)). }
    exact (f_equal Some (lookup_singleton_ne _ _ _ Hne)).
  - intros raw _ Hraw. refine (f_equal Some (lookup_singleton_ne _ _ _ _)). intros <-. by apply (Hraw _ listed0_valid).
Qed.

Example utxos_by_address_lists_witness :
  ∃ task', utxos_by_address_process_tx txa (listed_task, ex_ctx) = Ok (task', ex_ctx) ∧
    lists (list_tx 2%N ex_listing txa) task'.
Proof.
  apply (utxos_by_address_lists ex_listing txa listed_task ex_ctx ex_lists).
  - intros _. apply Forall_singleton. exists u0. split; apply lookup_singleton_eq.
  - intros r [p Hp]. unfold ex_listing in Hp. apply lookup_singleton_Some in Hp as [<- _]. intros Heq. discriminate Heq.
  - reflexivity.
  - vm_compute. reflexivity.
  - vm_compute. reflexivity.
  - repeat (apply Forall_cons; split; [split; [vm_compute; reflexivity|by repeat constructor]|]). constructor.
Defined.

Definition count_task : IndexingTask RefDB := MkTask [] latest_ts ∅ (Some ∅) false.

Lemma ex_counts : counts (λ _, 0%N) count_task.
Proof.
  split; [apply N.le_0_l|intros k a Ha; cbn in Ha; by rewrite lookup_empty in Ha| |].
  - intros s _. unfold counter, effect. cbn [write_buffer count_task]. rewrite lookup_empty.
    change (task_snapshot count_task) with (∅ : Snapshot). by rewrite lookup_empty.
  - intros s. cbn [write_buffer count_task]. by rewrite lookup_empty.
Qed.

Example tx_count_counts_once_witness :
  ∃ task' (seen : gset ScriptPubKey), tx_count_process_tx txa (count_task, ex_ctx) = Ok (task', ex_ctx) ∧
    (∀ s, s ∈ seen ↔ names txa ex_ctx s) ∧ counts (λ s, 0 + if decide (s ∈ seen) then 1 else 0)%N task'.
Proof.
  apply (tx_count_counts_once (λ _, 0%N) txa count_task ex_ctx ex_counts).
  - intros _. vm_compute. reflexivity.
  - right. apply Forall_singleton. eexists. apply lookup_singleton_eq.
  - intros i u Hu. unfold resolve_input in Hu. cbn [ctx_resolver ex_ctx] in Hu. apply lookup_singleton_Some in Hu as [_ <-]. split; [vm_compute; reflexivity|by repeat constructor].
  - repeat (apply Forall_cons; split; [split; [vm_compute; reflexivity|by repeat constructor]|]). constructor.
Defined.
End AddressExamples.
