(* ===== verification/AddressTable.v ===== *)
(** * The table of outputs by address, block by block

    src/src/sync/stages/index/indexers/custom/utxos_by_address.rs inside the
    worker: with whatever other indexers run before and after it, the table
    and the set of unspent outputs stay in agreement through every valid
    block, so that the entries of a script are its unspent outputs. *)
From S2P Require Import Prelude ByteOrder EncDec Timestamp Types MergeOperation Table Rocks.
From S2P Require Import CoreTables KvStore KvStoreLaws Commit RollbackBuffer Bitcoin Context.
From S2P Require Import AddressIndexers RunesTables Runes Charms Indexers Stage Instances StageLaws Chain.
From S2P Require Import UtxoSet UtxoLaws UtxoBlock BlockTotal AddressLaws.

Abbreviation Listing := (gmap TxoRef (ScriptPubKey * BlockHeight)).

(** ** The listing and the set

    The table also lists the outputs that can never be spent, which are not in
    the set. *)
Section Agreement.
Context `{Bitcoin}.

Definition place (u : Utxo unit) : ScriptPubKey * BlockHeight := (script u, height u).

Definition agrees (V : Listing) (U : UtxoSet) : Prop := ∀ r,
  match V !! r with
  | Some (s, h) => if is_op_return s then U !! r = None else place <$> U !! r = Some (s, h)
  | None => U !! r = None
  end.

Lemma agrees_listed V U r u : agrees V U → U !! r = Some u → V !! r = Some (place u) ∧ is_op_return (script u) = false.
Proof.
  intros HV Hu. specialize (HV r). rewrite Hu in HV. destruct (V !! r) as [[s h]|]; [|done].
  destruct (is_op_return s) eqn:Hs; [done|]. cbn [fmap option_fmap option_map] in HV. injection HV as <- <-. done.
Qed.

Lemma unlist_lookup (inputs : list TxIn) (V : Listing) r :
  unlist inputs V !! r = if decide (r ∈ input_ref <$> inputs) then None else V !! r.
Proof.
  unfold unlist. revert V. induction inputs as [|i inputs IH]; intros V; [done|].
  cbn [foldl fmap list_fmap]. rewrite IH. destruct (decide (r ∈ input_ref <$> inputs)).
  - by rewrite decide_True by (by right).
  - destruct (decide (r = input_ref i)) as [->|Hne].
    + rewrite decide_True by (by left). apply lookup_delete_eq.
    + rewrite decide_False by (by apply not_elem_of_cons). by apply lookup_delete_ne.
Qed.

Lemma agrees_spent V U inputs : agrees V U → agrees (unlist inputs V) (spend_inputs inputs U).
Proof. intros HV r. rewrite unlist_lookup, spend_inputs_lookup. case_decide; [done|apply HV]. Qed.

(** A coinbase spends nothing that is there. *)
Lemma agrees_unspent V U inputs :
  agrees V U → Forall (λ i, U !! input_ref i = None) inputs → agrees V (spend_inputs inputs U).
Proof.
  intros HV Hin r. rewrite spend_inputs_lookup. specialize (HV r). case_decide as Hr; [|exact HV].
  apply list_elem_of_fmap in Hr as (i & -> & Hi). rewrite Forall_forall in Hin. by rewrite (Hin i Hi) in HV.
Qed.

Lemma agrees_created V U t h (outs : list (nat * TxOut)) :
  agrees V U → NoDup ((λ o, output_ref t o.1) <$> outs) → Forall (λ o, V !! output_ref t o.1 = None) outs →
  agrees (foldl (enlist t h) V outs) (foldl (create_output h t) U outs).
Proof.
  revert V U. induction outs as [|o outs IH]; intros V U HV Hnd Hnew; [done|]. csimpl.
  apply NoDup_cons in Hnd as [Ho Hnd]. apply Forall_cons in Hnew as [Hnone Hnew]. apply IH; [|exact Hnd|].
  - intros r. unfold enlist, create_output. rewrite lookup_insert. case_decide as Hr.
    + subst r. specialize (HV (output_ref t o.1)). rewrite Hnone in HV.
      destruct (is_op_return (script_pubkey o.2)); [exact HV|]. by rewrite lookup_insert_eq.
    + specialize (HV r). destruct (is_op_return (script_pubkey o.2)); [exact HV|]. by rewrite lookup_insert_ne.
  - apply Forall_forall. intros o' Ho'. rewrite Forall_forall in Hnew. unfold enlist.
    rewrite lookup_insert_ne; [by apply Hnew|]. intros Heq. apply Ho. rewrite Heq. apply list_elem_of_fmap. by exists o'.
Qed.

Lemma enlisted_lookup t h (outs : list (nat * TxOut)) (V : Listing) r :
  is_Some (foldl (enlist t h) V outs !! r) → tx_hash r = tx_id t ∨ is_Some (V !! r).
Proof.
  revert V. induction outs as [|o outs IH]; intros V Hr; [by right|]. cbn [foldl] in Hr.
  apply IH in Hr as [?|Hr]; [by left|]. unfold enlist in Hr. apply lookup_insert_is_Some in Hr as [<-|[_ Hr]]; [by left|by right].
Qed.

Definition list_block (h : BlockHeight) (txs : BlockTxs) (V : Listing) : Listing := foldl (list_tx h) V txs.

Lemma list_tx_lookup h V t r : is_Some (list_tx h V t !! r) → tx_hash r = tx_id t ∨ is_Some (V !! r).
Proof.
  unfold list_tx. intros [?|Hr]%enlisted_lookup; [by left|right]. destruct (is_coinbase (tx t)); [done|].
  rewrite unlist_lookup in Hr. case_decide; [by destruct Hr|done].
Qed.

(** Sizes of the outputs, as keys of the table need them. *)
Definition tx_listable (t : TransactionWithId) : Prop :=
  fits 32 (N.of_nat (length (tx_output (tx t)))) ∧ Forall (λ o, valid (script_pubkey o)) (tx_output (tx t)).

(** What a transaction spends when its turn comes. *)
Definition spends_listed (U : UtxoSet) (t : TransactionWithId) : Prop :=
  if is_coinbase (tx t) then Forall (λ i, U !! input_ref i = None) (tx_input (tx t))
  else Forall (λ i, is_Some (U !! input_ref i)) (tx_input (tx t)).

Lemma agrees_tx V U h t :
  agrees V U → spends_listed U t → tx_listable t → (∀ r, is_Some (V !! r) → tx_hash r ≠ tx_id t) →
  agrees (list_tx h V t) (apply_tx h U t).
Proof.
  intros HV Hsp [Hn _] Hnew. unfold list_tx, apply_tx, create_outputs. unfold spends_listed in Hsp. apply agrees_created.
  - destruct (is_coinbase (tx t)); [by apply agrees_unspent|by apply agrees_spent].
  - by apply output_refs_nodup.
  - apply Forall_forall. intros o _. apply eq_None_not_Some. intros Hs. apply (Hnew (output_ref t o.1)); [|done].
    destruct (is_coinbase (tx t)); [done|]. rewrite unlist_lookup in Hs. case_decide; [by destruct Hs|done].
Qed.
End Agreement.

(** ** The simulation *)
Section AddressTable.
Context {DB : Type} `{RocksDBOk DB} `{HashOrderOk} `{Ordinals} `{!CharmsLib} `{!Machine}.
Context {Ext : Type} `{!IndexMap TransactionIndexer (list byte) Ext}.
Context `{!IndexMapOk TransactionIndexer (list byte) Ext}.
Context {C : Type} `{!MokaCache (Utxo Ext) C, !MokaCacheOk (Utxo Ext) C}.

Abbreviation data st := (db_latest (sh_db (st_db st))).

(** Writes elsewhere leave the table. *)
Lemma lists_steps P V (task task' : IndexingTask DB) :
  task_steps P task task' → (∀ k, address_prefix `prefix_of` k → ¬ P k) → lists V task → lists V task'.
Proof.
  intros Hs HP [Hv Hr Hin Hout Honly]. pose proof (task_steps_same _ _ _ Hs) as Hsame.
  assert (∀ k, address_prefix `prefix_of` k →
    effect (write_buffer task') (task_snapshot task') k = effect (write_buffer task) (task_snapshot task) k) as Heff.
  { intros k Hk. rewrite <-(task_snapshot_proper _ _ Hsame). unfold effect.
    by rewrite (task_steps_untouched _ _ _ _ Hs (HP k Hk)). }
  assert (∀ k : UtxosByAddressKey, address_prefix `prefix_of` encode_key UtxosByAddressKV k) as Hkey
    by (intros k; apply indexer_table_key).
  split; [done|by eapply same_task_readable| | |].
  - intros k Hk Hl. rewrite Heff by done. by apply Hin.
  - intros k Hk Hl. rewrite Heff by done. by apply Hout.
  - intros raw Hp Hraw. rewrite Heff by done. by apply Honly.
Qed.

Lemma address_prefix_own k i : address_prefix `prefix_of` k → i ≠ UtxosByAddress → ¬ own_key i k.
Proof. intros Hk Hi Hown. apply Hi. eapply own_key_owner; [exact Hown|]. by eapply (table_own_key UtxosByAddress x00). Qed.

Lemma address_prefix_core k id : address_prefix `prefix_of` k → ¬ [CORE_INDEXER_TAG; id] `prefix_of` k.
Proof. intros [r ->] [r' Heq]. discriminate Heq. Qed.

(** The worker runs the indexer of addresses, once. *)
Definition others (l : list AnyIndexer) : Prop := Forall (λ i, owner i ≠ UtxosByAddress) l.
Definition address_worker (indexers : list AnyIndexer) : Prop :=
  ∃ l i l', indexers = l ++ IUtxosByAddress i :: l' ∧ others l ∧ others l'.

Lemma run_others l V t n (task task' : IndexingTask DB) (ctx ctx' : IndexingContext Ext) :
  others l → task_wf task → lists V task → run_indexers l t n (task, ctx) = Ok (task', ctx') →
  task_wf task' ∧ lists V task' ∧ same_context ctx ctx'.
Proof.
  intros Hl Hwf HV Hrun.
  apply (for_each_inv (λ s, task_wf s.1 ∧ lists V s.1 ∧ same_context ctx s.2)) in Hrun; [exact Hrun| |by split_and!].
  intros i [t1 c1] [t2 c2] Hi (Hwf1 & HV1 & Hc1) Hp. cbn [fst snd] in *. unfold others in Hl. rewrite Forall_forall in Hl.
  pose proof (Hl i Hi) as Hne. destruct (process_tx_own i _ _ _ _ _ _ Hwf1 Hp) as [Hs Hc]. split_and!.
  - by eapply task_steps_wf.
  - eapply lists_steps; [exact Hs| |exact HV1]. intros k Hk. by apply address_prefix_own.
  - by etransitivity.
Qed.

Section Steps.
Context (indexers : list AnyIndexer) (Hworker : address_worker indexers).
Context (ids : list Txid) (refs chained : gset TxoRef) (h : BlockHeight).
Hypothesis (chained_iff : ∀ r, r ∈ chained ↔ r ∈ refs ∧ tx_hash r ∈ ids).
Hypothesis (h_fits : fits 64 h).
Abbreviation sim := (simulates (DB:=DB) (Ext:=Ext) (C:=C) refs chained h).

(** The table, the set and the cache in agreement, inside a block. *)
Record relates (V : Listing) (U : UtxoSet) (task : IndexingTask DB) (ctx : IndexingContext Ext)
    (cache : option (UtxoCache C)) : Prop := {
  re_wf : task_wf task;
  re_sim : sim U task ctx cache;
  re_lists : lists V task;
  re_agrees : agrees V U;
}.

Lemma listed_inputs V U (ctx : IndexingContext Ext) t :
  agrees V U → (∀ r, r ∈ refs → base <$> ctx_resolver ctx !! r = U !! r) → spends_listed U t →
  (is_coinbase (tx t) = false → Forall (λ i, input_ref i ∈ refs) (tx_input (tx t))) → is_coinbase (tx t) = false →
  Forall (λ i, ∃ u, resolve_input ctx (input_ref i) = Some u ∧ V !! input_ref i = Some (script u, height u)) (tx_input (tx t)).
Proof.
  intros HV Hres Hsp Hrefs Hcb. specialize (Hrefs Hcb). unfold spends_listed in Hsp. rewrite Hcb in Hsp.
  apply Forall_forall. intros i Hi. rewrite Forall_forall in Hsp, Hrefs. destruct (Hsp i Hi) as [u Hu].
  specialize (Hres _ (Hrefs i Hi)). rewrite Hu in Hres. unfold resolve_input.
  destruct (ctx_resolver ctx !! input_ref i) as [x|]; [|done]. injection Hres as Hx. exists x. split; [done|].
  destruct (agrees_listed _ _ _ _ HV Hu) as [-> _]. by rewrite <-Hx.
Qed.

Lemma index_tx_relates {readings : nat → MemoryReading} V U task ctx cache j t task' ctx' cache' :
  relates V U task ctx cache → tx_wf t → tx_listable t → tx_id t ∈ ids → spends_listed U t →
  (is_coinbase (tx t) = false → Forall (λ i, input_ref i ∈ refs) (tx_input (tx t))) →
  (∀ r, is_Some (V !! r) → tx_hash r ≠ tx_id t) →
  index_tx readings indexers (task, ctx, cache) (j, t) = Ok (task', ctx', cache') →
  relates (list_tx h V t) (apply_tx h U t) task' ctx' cache'.
Proof.
  intros [Hwf Hsim Hls Hag] Ht Hlist Hid Hsp Hrefs Hnew Hi. pose proof Hi as Hi0.
  eapply (index_tx_sim ids refs chained h chained_iff h_fits) in Hi0 as [Hwf' Hsim']; [|done..|].
  2: { unfold spends_listed in Hsp. destruct (is_coinbase (tx t)).
       - eapply Forall_impl; [exact Hsp|]. by right.
       - eapply Forall_impl; [by apply Hrefs|]. by left. }
  split; [done|done| |by apply agrees_tx].
  apply res_bind_ok in Hi as ([task3 ctx3] & Hrun & Hi). apply res_bind_ok in Hi as (u & Hu & Hi). injection Hi as <- _ _.
  destruct Hworker as (l & i & l' & -> & Hl & Hl'). unfold run_indexers in Hrun. rewrite for_each_app in Hrun.
  apply res_bind_ok in Hrun as ([task1 ctx1] & Hrun1 & Hrun). cbn [for_each] in Hrun.
  apply res_bind_ok in Hrun as ([task2 ctx2] & Hp & Hrun2).
  destruct (run_others _ _ _ _ _ _ _ _ Hl Hwf Hls Hrun1) as (Hwf1 & Hls1 & Hc1).
  assert (task_wf task2) as Hwf2.
  { eapply task_steps_wf; [|exact Hwf1]. by apply (process_tx_own (IUtxosByAddress i)) in Hp as [Hs _]. }
  destruct Hc1 as (Hpt & Hres & _).
  assert (block_height ctx1 = h) as Hh by (unfold block_height; rewrite Hpt; apply (sim_height _ _ _ _ _ _ _ Hsim)).
  destruct (utxos_by_address_lists V t task1 ctx1 Hls1) as (task2' & Hp' & Hls2).
  - eapply listed_inputs; [exact Hag| |exact Hsp|exact Hrefs]. rewrite Hres. apply Hsim.
  - exact Hnew.
  - apply Ht.
  - by rewrite Hh.
  - apply Hlist.
  - apply Hlist.
  - change (utxos_by_address_process_tx t (task1, ctx1) = Ok (task2, ctx2)) in Hp. rewrite Hp' in Hp. injection Hp as -> <-.
    rewrite Hh in Hls2. destruct (run_others _ _ _ _ _ _ _ _ Hl' Hwf2 Hls2 Hrun2) as (_ & Hls3 & _).
    eapply lists_steps; [by eapply update_utxo_set_steps| |exact Hls3]. intros k Hk. by apply address_prefix_core.
Qed.

Lemma index_txs_relates {readings : nat → MemoryReading} l V U task ctx cache task' ctx' cache' :
  relates V U task ctx cache →
  Forall (λ t, tx_wf t ∧ tx_id t ∈ ids ∧ Forall (λ i, input_ref i ∈ refs) (tx_input (tx t))) l.*2 →
  Forall (λ t, tx_listable t ∧ is_coinbase (tx t) = false) l.*2 →
  NoDup (tx_id <$> l.*2) → spends h U l.*2 → (∀ r, is_Some (V !! r) → tx_hash r ∉ tx_id <$> l.*2) →
  for_each l (task, ctx, cache) (index_tx readings indexers) = Ok (task', ctx', cache') →
  relates (list_block h l.*2 V) (apply_block h l.*2 U) task' ctx' cache'.
Proof.
  revert V U task ctx cache. induction l as [|[j t] l IH]; intros V U task ctx cache Hrel Hall Hlist Hnd Hsp Hnew Hf.
  { cbn [for_each] in Hf. by injection Hf as <- <- <-. }
  cbn [fmap list_fmap snd] in *. apply Forall_cons in Hall as [(Ht & Hid & Hin) Hall].
  apply Forall_cons in Hlist as [[Htl Hcb] Hlist]. apply NoDup_cons in Hnd as [Hfresh Hnd]. destruct Hsp as [Hun Hsp].
  cbn [for_each] in Hf. apply res_bind_ok in Hf as ([[task1 ctx1] cache1] & Hi & Hf).
  eapply index_tx_relates in Hi; [|exact Hrel|done|done|done|by unfold spends_listed; rewrite Hcb|done|].
  - eapply (IH (list_tx h V t)); [exact Hi|done|done|done|done| |exact Hf].
    intros r [Heq|Hr]%list_tx_lookup; [by rewrite Heq|]. specialize (Hnew r Hr). by apply not_elem_of_cons in Hnew as [_ ?].
  - intros r Hr. specialize (Hnew r Hr). by apply not_elem_of_cons in Hnew as [? _].
Qed.
End Steps.

(** What the table needs of a block: keys of a size, no other coinbase than
    the first transaction, and no transaction that was listed before. *)
Record listable_block (V : Listing) (txs : BlockTxs) : Prop := {
  lb_sizes : Forall tx_listable txs;
  lb_coinbase : Forall (λ t, is_coinbase (tx t) = false) (tail txs);
  lb_fresh : ∀ r, is_Some (V !! r) → tx_hash r ∉ tx_id <$> txs;
}.

Lemma block_txs_relates {readings : nat → MemoryReading} indexers V U txs (task : IndexingTask DB) ctx (cache : option (UtxoCache C)) h task' ctx' cache' :
  address_worker indexers → fits 64 h → valid_block h U txs → listable_block V txs →
  relates (block_input_refs txs) (block_chained txs) h V U task ctx cache →
  index_txs readings indexers txs (task, ctx, cache) = Ok (task', ctx', cache') →
  relates (block_input_refs txs) (block_chained txs) h (list_block h txs V) (apply_block h txs U) task' ctx' cache'.
Proof.
  intros Hw Hh Hv [Hsz Hcb Hfresh] Hrel Hi. destruct txs as [|t txs]; [by injection Hi as <- <- <-|].
  unfold index_txs, enumerate in Hi. rewrite imap_cons in Hi. set (all := t :: txs) in *.
  pose proof (vb_wf _ _ _ Hv) as Hall. pose proof (vb_spends _ _ _ Hv) as Hsp. pose proof (vb_nodup _ _ _ Hv) as Hnd.
  unfold all in Hsp, Hnd, Hfresh, Hsz, Hcb. cbn [block_spends fmap list_fmap tail] in Hsp, Hnd, Hfresh, Hcb.
  apply NoDup_cons in Hnd as [Hid Hnd]. apply Forall_cons in Hsz as [Ht Hsz].
  cbn [for_each] in Hi. apply res_bind_ok in Hi as ([[task1 ctx1] cache1] & Hi & Hrest).
  eapply (index_tx_relates indexers Hw (tx_id <$> all)) in Hi;
    [|by apply block_chained_iff|done|exact Hrel|by apply Forall_cons in Hall as [? _]|done|by left| | |].
  - pose proof (index_txs_relates (readings:=readings) indexers Hw (tx_id <$> all) _ _ h (block_chained_iff all) Hh (imap (pair ∘ S) txs)) as Hmore.
    rewrite (imap_pair_snd S) in Hmore. eapply Hmore; [exact Hi|by apply rest_static|by apply Forall_and|exact Hnd| | |exact Hrest].
    + destruct (is_coinbase (tx t)); apply Hsp.
    + intros r [Heq|Hr]%list_tx_lookup; [by rewrite Heq|]. specialize (Hfresh r Hr). by apply not_elem_of_cons in Hfresh as [_ ?].
  - unfold spends_listed. destruct (is_coinbase (tx t)); apply Hsp.
  - intros Hno. apply Forall_forall. intros i Hin. apply (tx_refs_spent _ t); [|done]. cbn [all skip_coinbase]. rewrite Hno. by left.
  - intros r Hr. specialize (Hfresh r Hr). by apply not_elem_of_cons in Hfresh as [? _].
Qed.

(** ** The store *)

(** The table holds an entry for each output of the listing, and nothing else. *)
Record address_table (V : Listing) (s : Snapshot) : Prop := {
  at_valid : listing_valid V;
  at_in k : valid k → listed V k → s !! encode_key UtxosByAddressKV k = Some (encode tt);
  at_out k : valid k → ¬ listed V k → s !! encode_key UtxosByAddressKV k = None;
  at_only raw : address_prefix `prefix_of` raw → (∀ k, valid k → raw ≠ encode_key UtxosByAddressKV k) → s !! raw = None;
}.

Lemma address_table_lists V (task : IndexingTask DB) s :
  readable task → write_buffer task = ∅ → task_snapshot task = s → address_table V s → lists V task.
Proof.
  intros Hr Hwb Hs [Hv Hin Hout Honly].
  assert (∀ k, effect (write_buffer task) (task_snapshot task) k = Some (s !! k)) as Heff
    by (intros k; unfold effect; by rewrite Hwb, lookup_empty, Hs).
  split; [done|done|..].
  - intros k Hk Hl. by rewrite Heff, Hin.
  - intros k Hk Hl. by rewrite Heff, Hout.
  - intros raw Hp Hraw. by rewrite Heff, Honly.
Qed.

Lemma lists_address_table V (task : IndexingTask DB) s :
  (∀ k, user_key k → effect (write_buffer task) (task_snapshot task) k = Some (s !! k)) → lists V task → address_table V s.
Proof.
  intros Heff [Hv _ Hin Hout Honly].
  assert (∀ k, address_prefix `prefix_of` k → user_key k) as Huser.
  { intros k Hk. eapply custom_user_key, own_custom. by eapply (table_own_key UtxosByAddress x00). }
  assert (∀ k : UtxosByAddressKey, address_prefix `prefix_of` encode_key UtxosByAddressKV k) as Hkey
    by (intros k; apply indexer_table_key).
  split; [done|..].
  - intros k Hk Hl. specialize (Hin k Hk Hl). rewrite Heff in Hin by auto. by injection Hin.
  - intros k Hk Hl. specialize (Hout k Hk Hl). rewrite Heff in Hout by auto. by injection Hout.
  - intros raw Hp Hraw. specialize (Honly raw Hp Hraw). rewrite Heff in Honly by auto. by injection Honly.
Qed.

(** The index of the unspent outputs [U] and the listing [V]: the state the
    worker keeps between blocks. *)
Record address_indexed (V : Listing) (U : UtxoSet) (st : Stage DB C) : Prop := {
  ix_stage : stage_ok st;
  ix_utxos : utxo_set_stored (Ext:=Ext) U (data st);
  ix_cache : cache_coherent (data st) (st_utxo_cache st);
  ix_table : address_table V (data st);
  ix_agrees : agrees V U;
}.

Lemma set_core_lists {K W} `{Encode K, Encode W} V id (key : K) (value : W) (task task' : IndexingTask DB) :
  id ≠ x52 → id ≠ x54 → task_set (core_table W id) key value task = Ok task' → lists V task → lists V task'.
Proof.
  intros Hr Ht Hs. eapply lists_steps; [exact (task_set_steps _ _ _ _ _ _ (core_index_table (K:=K) (V:=W) id Hr Ht) Hs)|].
  intros k Hk. by apply address_prefix_core.
Qed.

Lemma index_block_indexed now w point txs (st st' : Stage DB C) V U :
  address_indexed V U st → address_worker (w_indexers w) → point_ok point → valid_block (point_height point) U txs →
  listable_block V txs → commit_fresh (clock_commit now) (st_db st) →
  (∀ task cache, block_task now w point txs st = Ok (task, cache) → keys_fit task ∧ values_fit task) →
  index_block now w point txs st = Ok st' →
  address_indexed (list_block (point_height point) txs V) (apply_block (point_height point) txs U) st'.
Proof.
  intros [Hst HU Hcc Htab Hag] Hw Hp Hv Hlist Hfresh Hfit Hidx.
  assert (∃ task cache, block_task now w point txs st = Ok (task, cache)) as (task & cache & Htask).
  { unfold index_block in Hidx. apply res_bind_ok in Hidx as ([task cache] & Ht & _). eauto. }
  destruct (Hfit _ _ Htask) as [Hk Hvals].
  destruct (index_block_utxo_set now w point txs st U task cache) as (st1 & Hi1 & HU' & Hcc'); [done..|].
  destruct (index_block_data now w point txs st task cache) as (st2 & Hi2 & Hst' & _ & _ & _ & Hdata); [done..|].
  rewrite Hidx in Hi1, Hi2. injection Hi1 as <-. injection Hi2 as <-.
  set (task0 := begin_indexing_task (w_mutable w) (st_db st)).
  assert (task_snapshot task0 = data st) as Hsnap by (by apply begin_snapshot, Hst).
  assert (readable task0) as Hr0 by (by apply begin_readable, Hst).
  destruct (context_new_sim U task0 txs point (st_network st) (st_utxo_cache st)) as (ctx & cache1 & Hctx & Hsim);
    [done|done|done|by rewrite Hsnap|by rewrite Hsnap|done|].
  assert (lists V task0) as Hls0 by (by eapply address_table_lists).
  pose proof Htask as Hb. unfold block_task in Hb. fold task0 in Hb. rewrite Hctx in Hb. cbn [or_restart map_err rbind] in Hb.
  apply res_bind_ok in Hb as ([[t1 ctx1] c2] & Ht1%or_restart_ok & Hb).
  apply res_bind_ok in Hb as (t2 & Ht2%or_restart_ok & Hb). apply res_bind_ok in Hb as (t3 & Ht3%or_restart_ok & Hb).
  injection Hb as -> ->.
  eapply block_txs_relates in Ht1 as [_ _ Hls1 Hag']; [|done|apply Hp|done|exact Hlist|by split; [apply begin_wf|exact Hsim|..]].
  split; [done|done|done| |done]. apply (lists_address_table _ task).
  - intros k Hku. rewrite <-(Hdata k Hku). f_equal. rewrite <-Hsnap. symmetry.
    exact (task_snapshot_proper _ _ (task_steps_same _ _ _ (block_task_steps _ _ _ _ _ _ Htask))).
  - eapply (set_core_lists _ x48); [done|done|exact Ht3|]. by eapply (set_core_lists _ x49); [done|done|exact Ht2|].
Qed.
End AddressTable.
