(* ===== verification/CacheFlow.v ===== *)
(** * What an event may put into the cache of outputs

    src/src/sync/stages/index/worker/context.rs: resolving inputs only takes
    outputs out of the cache, a confirmed block adds outputs of its own
    transactions, a mempool snapshot adds none. So what a rollback leaves in
    the cache never contradicts a block that stays. *)
From S2P Require Import Prelude ByteOrder EncDec Timestamp Types MergeOperation Table Rocks.
From S2P Require Import CoreTables KvStore KvStoreLaws Commit RollbackBuffer Bitcoin Context.
From S2P Require Import AddressIndexers RunesTables Runes Charms Indexers Stage Instances StageLaws Chain.
From S2P Require Import UtxoSet UtxoLaws UtxoBlock.

Section CacheFlow.
Context {DB : Type} `{RocksDBOk DB} `{HashOrderOk} `{Ordinals} `{!CharmsLib} `{!Machine}.
Context {Ext : Type} `{!IndexMap TransactionIndexer (list byte) Ext}.
Context {C : Type} `{!MokaCache (Utxo Ext) C, !MokaCacheOk (Utxo Ext) C}.

(** All that is new in the cache are outputs of these transactions. *)
Definition grows (ids : list Txid) (cache cache' : option (UtxoCache C)) : Prop :=
  ∀ c' r x, cache' = Some c' → utxo_cache_get c' r = Some x →
    (∃ c, cache = Some c ∧ utxo_cache_get c r = Some x) ∨ (valid r ∧ tx_hash r ∈ ids).

#[export] Instance grows_refl ids : Reflexive (grows ids).
Proof. intros cache c r x Hc Hg. left. by exists c. Qed.
#[export] Instance grows_trans ids : Transitive (grows ids).
Proof.
  intros c1 c2 c3 H12 H23 c r x Hc Hg. destruct (H23 c r x Hc Hg) as [(c' & Hc' & Hg')|Hnew]; [|by right].
  by apply (H12 c').
Qed.

Lemma grows_mono ids ids' cache cache' : ids ⊆ ids' → grows ids cache cache' → grows ids' cache cache'.
Proof. intros Hsub Hg c r x Hc Hx. destruct (Hg c r x Hc Hx) as [?|[? ?]]; [by left|right; auto]. Qed.

(** A new cache holds nothing. *)
Lemma grows_none ids cache : grows ids cache None.
Proof. intros c' r x Hc. done. Qed.
Lemma grows_new ids cache size : grows ids cache (Some (utxo_cache_new size)).
Proof. intros c' r x Hc Hg. injection Hc as <-. unfold utxo_cache_get in Hg. cbn in Hg. by rewrite moka_get_new in Hg. Qed.

(** ** Resolving inputs *)
Lemma resolve_cached_grows ids tx_ids l (s : ResolveState) :
  grows ids (rs_cache s) (rs_cache (foldl (resolve_cached tx_ids) s l)).
Proof.
  revert s. induction l as [|r l IH]; intros s; [reflexivity|]. cbn [foldl]. etransitivity; [|apply IH].
  unfold resolve_cached. case_decide; [reflexivity|].
  destruct (match rs_cache s with Some _ => _ | None => _ end) as [found cache] eqn:Hrm.
  apply cache_remove_spec in Hrm as [_ Hkept].
  assert (grows ids (rs_cache s) cache) as Hg; [|by destruct found].
  intros c' r' x Hc Hx. destruct (Hkept c' r' x Hc Hx) as (_ & ?). by left.
Qed.

Lemma context_new_grows ids (task : IndexingTask DB) txs point network cache (ctx : IndexingContext Ext) cache' :
  context_new task txs point network cache = Ok (ctx, cache') → grows ids cache cache'.
Proof.
  intros Hctx. apply res_bind_ok in Hctx as ([r c] & Hr & Hctx). injection Hctx as _ <-.
  apply res_bind_ok in Hr as (m & _ & Hr). injection Hr as _ <-. apply (resolve_cached_grows ids _ _ (MkResolveState ∅ [] ∅ 0%N cache)).
Qed.

(** ** Transactions *)
Lemma produce_output_grows t (s s' : UpdateState DB Ext C) o :
  length (tx_id t) = 32 ∨ task_mempool (us_task s) = true → produce_output t s o = Ok s' →
  grows (if task_mempool (us_task s) then [] else [tx_id t]) (us_cache s) (us_cache s').
Proof.
  intros Hl Hp. destruct o as [j o], s as [ctx task cache n]. unfold produce_output in Hp. cbn [us_task us_cache us_ctx us_outs_written] in *.
  destruct (is_op_return _); [injection Hp as <-; reflexivity|].
  case_decide; [injection Hp as <-; reflexivity|].
  apply res_bind_ok in Hp as (task' & _ & Hp). injection Hp as <-. cbn [us_cache].
  destruct cache as [c|]; [|apply grows_none]. destruct (task_mempool task); [reflexivity|].
  destruct Hl as [Hl|]; [|done]. intros c' r x Hc Hg. injection Hc as <-.
  apply cache_insert_sim in Hg as [[-> ->]|[Hne Hg]]; [right|left; by exists c].
  split; [by apply output_ref_valid|by left].
Qed.

Lemma update_utxo_set_grows {reading : MemoryReading} t (ctx : IndexingContext Ext) (task : IndexingTask DB) (cache : option (UtxoCache C)) u :
  length (tx_id t) = 32 ∨ task_mempool task = true → update_utxo_set reading t ctx task cache = Ok u →
  grows (if task_mempool task then [] else [tx_id t]) cache (us_cache u).
Proof.
  unfold update_utxo_set. intros Hl Hu. apply res_bind_ok in Hu as ([c1 t1] & Ht1 & Hu).
  apply res_bind_ok in Hu as (s & Hs & Hu). injection Hu as <-. cbn [us_cache].
  assert (task_mempool t1 = task_mempool task) as Hm1.
  { revert Ht1. apply (for_each_inv (λ s, task_mempool s.2 = task_mempool task)); [|done].
    intros i [c2 t2] [c3 t3] _ Hm Hc. cbn [snd] in *. apply res_bind_ok in Hc as (t4 & Ht4 & Hc). injection Hc as _ <-.
    apply (task_delete_steps _ _ _ _ _ utxo_table) in Ht4. apply task_steps_same in Ht4 as (_ & _ & Heq & _). congruence. }
  assert (task_mempool (us_task s) = task_mempool task ∧
          grows (if task_mempool task then [] else [tx_id t]) cache (us_cache s)) as [_ Hg].
  { revert Hs. apply (for_each_inv (λ s, task_mempool (us_task s) = task_mempool task ∧
                        grows (if task_mempool task then [] else [tx_id t]) cache (us_cache s))); [|by split].
    intros o s1 s2 _ [Hm Hg] Hp. pose proof Hp as Hp0. split.
    - unfold produce_output in Hp. destruct o as [j o].
      destruct (is_op_return _); [by injection Hp as <-|]. case_decide; [by injection Hp as <-|].
      apply res_bind_ok in Hp as (t4 & Ht4 & Hp). injection Hp as <-. cbn [us_task].
      apply (task_set_steps _ _ _ _ _ _ utxo_table) in Ht4. apply task_steps_same in Ht4 as (_ & _ & Heq & _). congruence.
    - etransitivity; [exact Hg|]. rewrite <-Hm. apply (produce_output_grows t s1 s2 o); [by rewrite Hm|exact Hp0]. }
  destruct (us_cache s) as [c|]; [|apply grows_none]. cbn [option_map]. etransitivity; [exact Hg|].
  intros c' r x [= <-] Hx%cache_wipe_sim. left. by exists c.
Qed.

Lemma index_tx_grows {readings : nat → MemoryReading} indexers task (ctx : IndexingContext Ext) (cache : option (UtxoCache C)) j t task' ctx' cache' :
  task_wf task → length (tx_id t) = 32 ∨ task_mempool task = true →
  index_tx readings indexers (task, ctx, cache) (j, t) = Ok (task', ctx', cache') →
  task_wf task' ∧ task_mempool task' = task_mempool task ∧ grows (if task_mempool task then [] else [tx_id t]) cache cache'.
Proof.
  intros Hwf Hl Hi. apply res_bind_ok in Hi as ([task1 ctx1] & Hrun & Hi).
  apply run_indexers_context in Hrun as [Hs _]; [|done]. apply res_bind_ok in Hi as (u & Hu & Hi). injection Hi as <- _ <-.
  pose proof (task_steps_same _ _ _ Hs) as (_ & _ & Hm & _). pose proof (update_utxo_set_steps _ _ _ _ _ Hu) as Hsu.
  pose proof (task_steps_same _ _ _ Hsu) as (_ & _ & Hm' & _). split_and!.
  - eapply task_steps_wf; [exact Hsu|]. by eapply task_steps_wf.
  - congruence.
  - rewrite Hm in Hl |- *. by eapply update_utxo_set_grows.
Qed.

Lemma index_txs_grows {readings : nat → MemoryReading} indexers txs task (ctx : IndexingContext Ext) (cache : option (UtxoCache C)) task' ctx' cache' :
  task_wf task → Forall (λ t, length (tx_id t) = 32 ∨ task_mempool task = true) txs →
  index_txs readings indexers txs (task, ctx, cache) = Ok (task', ctx', cache') →
  task_wf task' ∧ task_mempool task' = task_mempool task ∧
  grows (if task_mempool task then [] else tx_id <$> txs) cache cache'.
Proof.
  intros Hwf Hl Hi. unfold index_txs in Hi. set (P (s : IndexingTask DB * IndexingContext Ext * option (UtxoCache C)) :=
    task_wf s.1.1 ∧ task_mempool s.1.1 = task_mempool task ∧ grows (if task_mempool task then [] else tx_id <$> txs) cache s.2).
  apply (for_each_inv P) in Hi; [exact Hi| |by split_and!].
  intros [j t] [[t1 c1] k1] [[t2 c2] k2] Hin (Hwf1 & Hm1 & Hg1) Hs. cbn [fst snd] in *.
  apply elem_of_lookup_imap in Hin as (i & t' & Heq & Ht). injection Heq as _ ->. apply list_elem_of_lookup_2 in Ht.
  rewrite Forall_forall in Hl. pose proof (Hl t' Ht) as Hlt. rewrite <-Hm1 in Hlt.
  destruct (index_tx_grows _ _ _ _ _ _ _ _ _ Hwf1 Hlt Hs) as (Hwf2 & Hm2 & Hg2). unfold P. cbn [fst snd]. split_and!; [done|congruence|].
  etransitivity; [exact Hg1|]. rewrite Hm1 in Hg2. eapply grows_mono; [|exact Hg2].
  destruct (task_mempool task); [done|]. intros i' [->|[]%not_elem_of_nil]%elem_of_cons. by apply list_elem_of_fmap_2.
Qed.

(** ** Events *)
Lemma block_task_grows {now : Clock} w point txs (st : Stage DB C) task cache :
  Forall tx_wf txs → block_task now w point txs st = Ok (task, cache) → grows (tx_id <$> txs) (st_utxo_cache st) cache.
Proof.
  intros Hall Hb. unfold block_task in Hb. apply res_bind_ok in Hb as ([ctx c1] & Hc1%or_restart_ok & Hb).
  apply res_bind_ok in Hb as ([[t1 ctx1] c2] & Ht1%or_restart_ok & Hb).
  apply res_bind_ok in Hb as (t2 & _ & Hb). apply res_bind_ok in Hb as (t3 & _ & Hb). injection Hb as _ <-.
  etransitivity; [by eapply context_new_grows|].
  eapply index_txs_grows in Ht1 as (_ & _ & Hg); [exact Hg|apply begin_wf|].
  eapply Forall_impl; [exact Hall|]. intros t (Hl & _). by left.
Qed.

Lemma mempool_task_grows {now : Clock} w blocks (st : Stage DB C) task cache :
  mempool_task now w blocks st = Ok (task, cache) → grows [] (st_utxo_cache st) cache.
Proof.
  intros Hb. unfold mempool_task in Hb. apply res_bind_ok in Hb as ([ctx c1] & Hc1%or_restart_ok & Hb).
  apply res_bind_ok in Hb as ([[t1 ctx1] c2] & Ht1%or_restart_ok & Hb). injection Hb as _ <-.
  etransitivity; [by eapply context_new_grows|].
  set (P (s : IndexingTask DB * IndexingContext Ext * option (UtxoCache C)) :=
    task_wf s.1.1 ∧ task_mempool s.1.1 = true ∧ grows [] c1 s.2).
  apply (for_each_inv P) in Ht1; [apply Ht1| |split_and!; [apply begin_mempool_wf|done|reflexivity]].
  intros [i txs] [[t2 x2] k2] [[t3 x3] k3] _ (Hwf & Hm & Hg) Hs. cbn [fst snd] in *.
  unfold index_mempool_block in Hs. apply res_bind_ok in Hs as ([[t4 x4] k4] & Hi & Hs).
  apply res_bind_ok in Hs as (t5 & Ht5 & Hs). injection Hs as <- _ <-.
  destruct (index_txs_grows _ _ _ _ _ _ _ _ Hwf (proj2 (Forall_forall _ _) (λ t _, or_intror Hm)) Hi) as (Hwf4 & Hm4 & Hg4).
  rewrite Hm in Hg4, Hm4. unfold P. cbn [fst snd]. split_and!; [| |by etransitivity].
  - eapply task_steps_wf; [|exact Hwf4]. eapply task_set_steps; [|exact Ht5]. by apply core_index_table.
  - apply task_set_inv, buffered_same in Ht5 as (_ & _ & Heq & _). congruence.
Qed.

Lemma index_mempool_grows now w info blocks (st st' : Stage DB C) :
  index_mempool now w info blocks st = Ok st' → grows [] (st_utxo_cache st) (st_utxo_cache st').
Proof.
  intros Hi. apply res_bind_ok in Hi as ([task cache] & Htask & Hi). unfold commit_mempool in Hi.
  apply res_bind_ok in Hi as (db & _ & Hi). injection Hi as <-. cbn. by eapply mempool_task_grows.
Qed.

Lemma index_block_grows now w point txs (st st' : Stage DB C) :
  Forall tx_wf txs → index_block now w point txs st = Ok st' → grows (tx_id <$> txs) (st_utxo_cache st) (st_utxo_cache st').
Proof.
  intros Hall Hi. apply res_bind_ok in Hi as ([task cache] & Htask & Hi). unfold commit_block in Hi.
  apply res_bind_ok in Hi as (db & _ & Hi). injection Hi as <-. cbn. by eapply block_task_grows.
Qed.

Lemma rollback_cache ts p (st st' : Stage DB C) : rollback_to_point ts p st = Ok st' → st_utxo_cache st' = st_utxo_cache st.
Proof. unfold rollback_to_point. intros Hr. inv_bind. by simplify_eq/=. Qed.
End CacheFlow.
