(* ===== verification/ChainUtxos.v ===== *)
(** * The unspent outputs of a chain

    What a chain of blocks comes to: its set of unspent outputs, the listing
    of outputs by address, and when the blocks are valid one after the other.
    [content] gives the transactions of a block by its hash. *)
From S2P Require Import Prelude ByteOrder EncDec Timestamp Types MergeOperation Table Rocks.
From S2P Require Import CoreTables KvStore KvStoreLaws Commit RollbackBuffer Bitcoin Context.
From S2P Require Import AddressIndexers RunesTables Runes Charms Indexers Stage Instances StageLaws Chain.
From S2P Require Import UtxoSet UtxoLaws UtxoBlock BlockTotal AddressLaws AddressTable.

Section ChainUtxos.
Context `{Bitcoin} (content : BlockHash → BlockTxs).

(** The blocks above the genesis block, from height 1 on; the outputs of the
    genesis block cannot be spent. *)
Definition over_chain {A} (block : BlockHeight → BlockTxs → A → A) (start : A) (chain : list BlockHash) : A :=
  foldl (λ a p, block (N.of_nat (S p.1)) (content p.2) a) start (imap pair chain).

Definition chain_utxos (chain : list BlockHash) : UtxoSet := over_chain apply_block ∅ chain.
Definition chain_listing (chain : list BlockHash) : Listing := over_chain list_block ∅ chain.
Definition chain_txids (chain : list BlockHash) : list Txid := chain ≫= λ h, tx_id <$> content h.

Lemma over_chain_snoc {A} (block : BlockHeight → BlockTxs → A → A) start chain h :
  over_chain block start (chain ++ [h]) = block (N.of_nat (length chain) + 1)%N (content h) (over_chain block start chain).
Proof.
  unfold over_chain. rewrite imap_app, foldl_app. cbn [imap foldl fst snd compose]. rewrite Nat.add_0_r.
  by replace (N.of_nat (S (length chain))) with (N.of_nat (length chain) + 1)%N by lia.
Qed.

Lemma chain_txids_app chain chain' : chain_txids (chain ++ chain') = chain_txids chain ++ chain_txids chain'.
Proof. apply bind_app. Qed.

(** The next block of a chain: valid, with keys of a size, its coinbase first,
    and transactions that the chain does not have yet. *)
Record next_block (chain : list BlockHash) (h : BlockHash) : Prop := {
  nb_valid : valid_block (N.of_nat (length chain) + 1) (chain_utxos chain) (content h);
  nb_sizes : Forall tx_listable (content h);
  nb_coinbase : Forall (λ t, is_coinbase (tx t) = false) (tail (content h));
  nb_fresh id : id ∈ tx_id <$> content h → id ∉ chain_txids chain;
}.

(** ** What is there was created by a block of the chain *)
Lemma created_lookup h t (outs : list (nat * TxOut)) (U : UtxoSet) r u :
  foldl (create_output h t) U outs !! r = Some u → (tx_hash r = tx_id t ∧ height u = h) ∨ U !! r = Some u.
Proof.
  revert U. induction outs as [|o outs IH]; intros U Hr; [by right|]. cbn [foldl] in Hr.
  apply IH in Hr as [?|Hr]; [by left|]. unfold create_output in Hr. destruct (is_op_return _); [by right|].
  apply lookup_insert_Some in Hr as [[<- <-]|[_ Hr]]; [by left|by right].
Qed.

Lemma apply_tx_lookup h U t r u :
  apply_tx h U t !! r = Some u → (tx_hash r = tx_id t ∧ height u = h) ∨ U !! r = Some u.
Proof.
  intros [?|Hr]%created_lookup; [by left|right]. rewrite spend_inputs_lookup in Hr. by case_decide.
Qed.

Lemma apply_block_lookup h txs U r u :
  apply_block h txs U !! r = Some u → (tx_hash r ∈ tx_id <$> txs ∧ height u = h) ∨ U !! r = Some u.
Proof.
  unfold apply_block. revert U. induction txs as [|t txs IH]; intros U Hr; [by right|]. cbn [foldl fmap list_fmap] in *.
  apply IH in Hr as [[? ?]|[[-> ?]|?]%apply_tx_lookup]; [left|left|by right]; (split; [|done]); [by right|by left].
Qed.

Lemma list_block_lookup h txs V r :
  is_Some (list_block h txs V !! r) → tx_hash r ∈ tx_id <$> txs ∨ is_Some (V !! r).
Proof.
  unfold list_block. revert V. induction txs as [|t txs IH]; intros V Hr; [by right|]. cbn [foldl fmap list_fmap] in *.
  apply IH in Hr as [?|[->|?]%list_tx_lookup]; [left|left|by right]; [by right|by left].
Qed.

Lemma chain_utxos_created chain r u :
  chain_utxos chain !! r = Some u → tx_hash r ∈ chain_txids chain ∧ (height u <= N.of_nat (length chain))%N.
Proof.
  induction chain as [|h chain IH] using rev_ind; [cbn; by rewrite lookup_empty|].
  unfold chain_utxos. rewrite over_chain_snoc, chain_txids_app, length_app. cbn [length].
  intros [[Hr ->]|Hr]%apply_block_lookup.
  - split; [|lia]. apply elem_of_app. right. unfold chain_txids. cbn [mbind list_bind]. by rewrite app_nil_r.
  - destruct (IH Hr) as [Hin Hle]. split; [apply elem_of_app; by left|lia].
Qed.

Lemma chain_listing_created chain r : is_Some (chain_listing chain !! r) → tx_hash r ∈ chain_txids chain.
Proof.
  induction chain as [|h chain IH] using rev_ind; [cbn; rewrite lookup_empty; by intros []|].
  unfold chain_listing. rewrite over_chain_snoc, chain_txids_app. intros [Hr|Hr]%list_block_lookup; apply elem_of_app.
  - right. unfold chain_txids. cbn [mbind list_bind]. by rewrite app_nil_r.
  - left. by apply IH.
Qed.

Lemma chain_txids_take n chain : chain_txids (take n chain) ⊆ chain_txids chain.
Proof. intros id Hid. rewrite <-(take_drop n chain), chain_txids_app. apply elem_of_app. by left. Qed.

Lemma next_block_listable chain h : next_block chain h → listable_block (chain_listing chain) (content h).
Proof.
  intros [_ Hs Hc Hf]. split; [done|done|]. intros r Hr Hin. by apply (Hf _ Hin), chain_listing_created.
Qed.
End ChainUtxos.
