(* ===== verification/History.v ===== *)
(** * Histories of the index worker

    src/src/sync/stages/index/worker/stage.rs, seen from outside: whatever
    blocks, rollbacks and mempool snapshots arrive, the worker behaves like an
    ideal one that keeps a copy of its data after each of the last blocks and
    goes back to a copy when it rolls back.  [Ideal] is that worker, [tracks]
    relates it to the state of the stage. *)
From S2P Require Import Prelude ByteOrder EncDec Timestamp Types MergeOperation Table Rocks.
From S2P Require Import CoreTables KvStore KvStoreLaws Commit RollbackBuffer Bitcoin Context.
From S2P Require Import AddressIndexers RunesTables Runes Charms Indexers Stage Instances StageLaws Chain.

(** ** The ideal worker *)
Record Ideal : Type := MkIdeal {
  id_chain : list BlockHash;               (* the blocks above the genesis block *)
  id_tip : Point;                          (* the last of them *)
  id_mempool : bool;                       (* a mempool snapshot is indexed on top of it *)
  id_copies : list (Point * Snapshot);     (* what can be gone back to, newest first *)
}.

(** The copies from the newest one of the point on. *)
Fixpoint back_to (p : Point) (copies : list (Point * Snapshot)) : option (list (Point * Snapshot)) :=
  match copies with
  | [] => None
  | c :: rest => if decide (c.1 = p) then Some (c :: rest) else back_to p rest
  end.

(** The entry of a mempool snapshot on a tip. *)
Definition mempool_point (tip : Point) : Point := MkPoint u64_MAX (point_hash tip).

Definition top (I : Ideal) : Point := if id_mempool I then mempool_point (id_tip I) else id_tip I.

(** Dropping the mempool snapshot, when there is one. *)
Definition settled (I : Ideal) : option (list (Point * Snapshot)) :=
  if id_mempool I then back_to (id_tip I) (id_copies I) else Some (id_copies I).

(** A copy is taken, and at most [size] are kept. *)
Definition keep (size : usize) (p : Point) (s : Snapshot) (copies : list (Point * Snapshot)) :=
  take (N.to_nat size) ((p, s) :: copies).

Lemma keep_head size p s copies c : head (keep size p s copies) = Some c → c.1 = p.
Proof. unfold keep. destruct (N.to_nat size); [done|]. intros Hc. by injection Hc as <-. Qed.

Section Ideal.
Context `{Bitcoin}.

(** One event: [s] is the data after it. *)
Inductive ideal_step (size : usize) (s : Snapshot) : ChainEvent → Ideal → Ideal → Prop :=
| ideal_skip point header txs tip I copies :
    settled I = Some copies → (point_height point <= point_height (id_tip I))%N →
    ideal_step size s (RollForward point header txs tip) I (MkIdeal (id_chain I) (id_tip I) false copies)
| ideal_forward point header txs tip I copies copies' :
    settled I = Some copies → point_height point = (point_height (id_tip I) + 1)%N →
    prev_blockhash header = point_hash (id_tip I) →
    copies' = keep size point s copies ∨ copies = [] ∧ copies' = [] →
    ideal_step size s (RollForward point header txs tip) I (MkIdeal (id_chain I ++ [point_hash point]) point false copies')
| ideal_back point I copies :
    back_to point (id_copies I) = Some copies →
    ideal_step size s (RollBack point) I (MkIdeal (take (N.to_nat (point_height point)) (id_chain I)) point false copies)
| ideal_mempool info blocks I copies :
    settled I = Some copies → snapshot_tip info = point_hash (id_tip I) →
    ideal_step size s (MempoolBlocks info blocks) I
      (MkIdeal (id_chain I) (id_tip I) true (keep size (mempool_point (id_tip I)) s copies))
| ideal_mempool_skip info blocks I copies :
    settled I = Some copies → snapshot_tip info ≠ point_hash (id_tip I) →
    ideal_step size s (MempoolBlocks info blocks) I (MkIdeal (id_chain I) (id_tip I) false copies).
End Ideal.

(** ** Chains and copies *)

(** The tip of a chain of blocks above the genesis block. *)
Definition chain_tip (genesis : BlockHash) (chain : list BlockHash) : Point :=
  match last chain with
  | Some tip => MkPoint (N.of_nat (length chain)) tip
  | None => MkPoint 0 genesis
  end.

(** The data has the chain, and the point is its tip. *)
Definition chain_at (genesis : BlockHash) (chain : list BlockHash) (p : Point) (s : Snapshot) : Prop :=
  chain_ok chain ∧ chain_stored chain s ∧ p = chain_tip genesis chain.

Lemma chain_tip_height genesis chain : point_height (chain_tip genesis chain) = N.of_nat (length chain).
Proof.
  unfold chain_tip. destruct (last chain) eqn:Hl; [done|]. apply last_None in Hl as ->. done.
Qed.

Lemma chain_tip_snoc genesis chain hash :
  chain_tip genesis (chain ++ [hash]) = MkPoint (N.of_nat (length chain) + 1) hash.
Proof. unfold chain_tip. rewrite last_snoc, length_app. f_equal. simpl. lia. Qed.

Lemma chain_at_ok genesis chain p s : length genesis = 32 → chain_at genesis chain p s → point_ok p.
Proof.
  intros Hg ([Hh Hn] & _ & ->). unfold chain_tip. destruct (last chain) eqn:Hl; [|by split].
  split; [exact Hn|]. rewrite Forall_forall in Hh. apply Hh. rewrite last_lookup in Hl. by eapply list_elem_of_lookup_2.
Qed.

Lemma chain_stored_ext chain s s' :
  (∀ k, hash_prefix `prefix_of` k → s !! k = s' !! k) → chain_stored chain s → chain_stored chain s'.
Proof.
  intros Heq Hst k v. rewrite <-(Hst k v). split; intros [Hk Hv]; (split; [done|]); by rewrite ?Heq, <-?Heq in *.
Qed.

Lemma chain_at_ext genesis chain p s s' :
  (∀ k, hash_prefix `prefix_of` k → s !! k = s' !! k) → chain_at genesis chain p s → chain_at genesis chain p s'.
Proof. intros Heq (Hok & Hst & ->). split_and!; [done| |done]. by eapply chain_stored_ext. Qed.

Lemma chain_at_height genesis chain p s : chain_at genesis chain p s → point_height p = N.of_nat (length chain).
Proof. intros (_ & _ & ->). apply chain_tip_height. Qed.

Lemma same_data_hash s s' : same_data s s' → ∀ k, hash_prefix `prefix_of` k → s !! k = s' !! k.
Proof. intros Heq k Hk. apply Heq, (hash_key_user k Hk). Qed.

(** What each entry of the rollback buffer undoes: from the copy taken after
    its block to the data before the block, which the next entry starts from. *)
Fixpoint restores (es : list PointWithOriginalKVs) (copies : list (Point * Snapshot)) (s : Snapshot) : Prop :=
  match es, copies with
  | [], [] => True
  | e :: es, (p, s0) :: copies =>
      p = pk_point e ∧ same_data s s0 ∧
      ∃ s', (∀ k, user_key k → revert (pk_original_kvs e) k (s0 !! k) = s' !! k) ∧ restores es copies s'
  | _, _ => False
  end.

Lemma restores_same es copies s s' : same_data s s' → restores es copies s → restores es copies s'.
Proof.
  intros Heq. destruct es as [|e es], copies as [|[p s0] copies]; try done.
  intros (-> & Hs0 & Hrest). split_and!; [done|by rewrite <-Heq|done].
Qed.

Lemma restores_take n es copies s : restores es copies s → restores (take n es) (take n copies) s.
Proof.
  revert n copies s. induction es as [|e es IH]; intros [|n] [|[p s0] copies] s; try done.
  intros (-> & Hs0 & s' & Hrev & Hrest). split_and!; [done|done|]. exists s'. split; [done|]. by apply IH.
Qed.

Lemma restores_nil copies s : restores [] copies s → copies = [].
Proof. by destruct copies. Qed.

(** Going back: the copies that stay, and the data the newest of them holds. *)
Lemma restores_back newer e older copies s s' :
  restores (newer ++ e :: older) copies s → Forall (λ x, pk_point x ≠ pk_point e) newer →
  (∀ k, user_key k → revert_all newer k (s !! k) = s' !! k) →
  ∃ s0 rest, back_to (pk_point e) copies = Some ((pk_point e, s0) :: rest) ∧
    same_data s' s0 ∧ restores (e :: older) ((pk_point e, s0) :: rest) s' ∧
    ((pk_point e, s0) :: rest) `suffix_of` copies.
Proof.
  revert copies s. induction newer as [|e0 newer IH]; intros [|[p s0] copies] s Hr Hn Hs'; try done.
  - destruct Hr as (-> & Hs0 & Hrest). exists s0, copies. cbn [back_to fst]. rewrite decide_True by done.
    assert (same_data s' s0) as Hs'0 by (intros k Hk; by rewrite <-Hs', <-Hs0).
    split_and!; [done|done| |done]. by split_and!.
  - destruct Hr as (-> & Hs0 & s1 & Hrev & Hrest). apply Forall_cons in Hn as [Hne Hn].
    destruct (IH copies s1 Hrest Hn) as (s2 & rest & Hback & Hs2 & Hr2 & Hsuf).
    { intros k Hk. rewrite <-Hrev, <-Hs0 by done. by apply Hs'. }
    exists s2, rest. cbn [back_to fst]. rewrite decide_False by done. split_and!; [done..|]. by apply suffix_cons_r.
Qed.

(** ** The stage *)
Section History.
Context {DB : Type} `{RocksDBOk DB} `{HashOrderOk} `{Ordinals} `{!CharmsLib} `{!Machine}.
Context {Ext : Type} `{!IndexMap TransactionIndexer (list byte) Ext}.
Context {C : Type} `{!MokaCache (Utxo Ext) C}.

Abbreviation data st := (db_latest (sh_db (st_db st))).
Abbreviation genesis st := (genesis_hash (st_network st)).

(** A copy holds numbers in its counters, and the chain up to its block. *)
Definition copy_ok (g : BlockHash) (chain : list BlockHash) (c : Point * Snapshot) : Prop :=
  counters_ok c.2 ∧
  (point_height c.1 ≠ u64_MAX →
   (point_height c.1 <= N.of_nat (length chain))%N ∧
   chain_at g (take (N.to_nat (point_height c.1)) chain) c.1 c.2).

Definition lower (a b : Point * Snapshot) : Prop := (point_height b.1 < point_height a.1)%N.

Record tracks (w : Worker) (st : Stage DB C) (I : Ideal) : Prop := {
  tk_ok : stage_ok st;
  tk_genesis : length (genesis st) = 32;
  tk_tip : id_tip I = st_last_processed st;
  tk_mempool : id_mempool I = st_processed_mempool st;
  tk_chain : chain_at (genesis st) (id_chain I) (id_tip I) (data st);
  tk_height : (point_height (id_tip I) < u64_MAX)%N;
  tk_restores : restores (rb_points (st_rollback_buffer st)) (id_copies I) (data st);
  tk_copies : Forall (copy_ok (genesis st) (id_chain I)) (id_copies I);
  tk_sorted : StronglySorted lower (id_copies I);
  tk_mutable : w_mutable w = false → id_copies I = [];
  tk_top c : head (id_copies I) = Some c → c.1 = top I;
}.

(** What no event changes. *)
Definition same_setup (st st' : Stage DB C) : Prop :=
  st_network st' = st_network st ∧ capacity (st_rollback_buffer st') = capacity (st_rollback_buffer st) ∧
  st_max_rollbacks st' = st_max_rollbacks st.
Lemma same_setup_trans st1 st2 st3 : same_setup st1 st2 → same_setup st2 st3 → same_setup st1 st3.
Proof. intros (? & ? & ?) (? & ? & ?). split_and!; congruence. Qed.

Lemma rollback_setup ts p (st st' : Stage DB C) : rollback_to_point ts p st = Ok st' → same_setup st st'.
Proof.
  unfold rollback_to_point, rb_rollback_to_point. intros Hr. inv_bind.
  destruct (position _ _); simplify_eq/=; by split_and!.
Qed.

(** *** Rollbacks *)
Lemma copy_ok_take (g : BlockHash) (chain : list BlockHash) (c c' : Point * Snapshot) :
  (point_height c'.1 <= point_height c.1)%N → copy_ok g chain c' →
  copy_ok g (take (N.to_nat (point_height c.1)) chain) c'.
Proof.
  intros Hle [Hcnt Hat]. split; [done|]. intros Hne. destruct (Hat Hne) as [Hlen Hch]. split; [rewrite length_take; lia|].
  rewrite take_take, Nat.min_l by lia. done.
Qed.

Lemma rollback_tracks ts w p (st st' : Stage DB C) (I : Ideal) :
  tracks w st I → commit_fresh ts (st_db st) → point_height p ≠ u64_MAX → rollback_to_point ts p st = Ok st' →
  ∃ copies, back_to p (id_copies I) = Some copies ∧
    tracks w st' (MkIdeal (take (N.to_nat (point_height p)) (id_chain I)) p false copies) ∧ same_setup st st'.
Proof.
  intros [Hok Hg Htip Hm Hch Hht Hres Hcop Hsort Hmut Htop] Hfresh Hp Hroll.
  pose proof (rollback_setup _ _ _ _ Hroll) as Hsetup.
  assert (∃ n, position p (st_rollback_buffer st) = Some n) as [n Hpos].
  { unfold rollback_to_point, points_since in Hroll. destruct (position _ _); [by eexists|done]. }
  apply position_inv in Hpos as (newer & e & older & Hpts & <- & _ & Hn).
  destruct (rollback_to_point_ok ts (pk_point e) st newer e older (so_storage _ Hok) Hfresh Hpts eq_refl Hn)
    as (st1 & Hroll1 & Hst1 & Hdata & Hrb & Hlast & Hmem).
  rewrite Hroll in Hroll1. injection Hroll1 as <-. rewrite Hpts in Hres.
  destruct (restores_back newer e older (id_copies I) (data st) (data st') Hres Hn) as (s0 & rest & Hback & Hs0 & Hr & Hsuf).
  { intros k Hk. symmetry. by apply Hdata. }
  exists ((pk_point e, s0) :: rest). split; [done|]. split; [|done]. destruct Hsetup as (Hnet & _).
  destruct Hsuf as [pre Hpre]. rewrite Hpre in Hcop, Hsort. apply Forall_app in Hcop as [_ Hcop].
  apply StronglySorted_app in Hsort as (_ & _ & Hsort). apply StronglySorted_inv in Hsort as Hlow. destruct Hlow as [_ Hlow].
  apply Forall_cons in Hcop as Hhead. destruct Hhead as [[Hcnt Hat] _]. cbn [fst snd] in *. destruct (Hat Hp) as [Hlen Hch0].
  assert (Hch' : chain_at (genesis st) (take (N.to_nat (point_height (pk_point e))) (id_chain I)) (pk_point e) (data st')).
  { eapply chain_at_ext; [|exact Hch0]. intros k Hk. symmetry. by apply same_data_hash. }
  split; cbn [id_chain id_tip id_mempool id_copies]; rewrite ?Hnet; try done.
  - split; [done|]. eapply counters_ok_same; [symmetry; exact Hs0|done].
  - destruct (chain_at_ok _ _ _ _ Hg Hch') as [Hf _]. unfold fits, u64_MAX in *. lia.
  - by rewrite Hrb.
  - apply Forall_cons in Hcop as [Hce Hcop]. constructor; [by apply (copy_ok_take _ _ (pk_point e, s0))|].
    rewrite Forall_forall in Hcop, Hlow |- *. intros c Hc. apply (copy_ok_take _ _ (pk_point e, s0)); [|by apply Hcop].
    apply N.lt_le_incl. by apply (Hlow c).
  - intros Hw. by rewrite (Hmut Hw) in Hback.
  - intros c Hc. by injection Hc as <-.
Qed.

(** *** Blocks *)
Lemma index_block_setup now w point txs (st st' : Stage DB C) :
  index_block now w point txs st = Ok st' → same_setup st st'.
Proof.
  unfold index_block, commit_block. intros Hi. inv_bind. simplify_eq/=. by destruct (original_kvs _).
Qed.

(** Before rollback data is kept the buffer stays as it is. *)
Lemma index_block_unkept now w point txs (st st' : Stage DB C) :
  w_mutable w = false → index_block now w point txs st = Ok st' →
  st_rollback_buffer st' = st_rollback_buffer st.
Proof.
  unfold index_block. intros Hw Hi. apply res_bind_ok in Hi as ([task cache] & Htask & Hi).
  pose proof (block_task_steps _ _ _ _ _ _ Htask) as Hsteps. rewrite Hw in Hsteps.
  destruct (task_steps_same _ _ _ Hsteps) as (_ & _ & _ & Hiff).
  unfold commit_block in Hi. apply res_bind_ok in Hi as (db & _ & Hi). injection Hi as <-. cbn.
  destruct (original_kvs task) as [o|]; [|done]. destruct (proj2 Hiff) as [o' Ho]; [by eexists|done].
Qed.

Lemma copy_ok_snoc (g : BlockHash) (chain : list BlockHash) hash c :
  copy_ok g chain c → copy_ok g (chain ++ [hash]) c.
Proof.
  intros [Hcnt Hat]. split; [done|]. intros Hne. destruct (Hat Hne) as [Hlen Hch]. rewrite length_app. split; [simpl; lia|].
  by rewrite take_app_le by lia.
Qed.

(** No copy is above the tip. *)
Lemma copies_below I :
  id_mempool I = false → StronglySorted lower (id_copies I) →
  (∀ c, head (id_copies I) = Some c → c.1 = top I) →
  Forall (λ c, (point_height c.1 <= point_height (id_tip I))%N) (id_copies I).
Proof.
  intros Hm Hs Htop. unfold top in Htop. rewrite Hm in Htop. destruct (id_copies I) as [|c copies]; [done|].
  pose proof (Htop c eq_refl) as Hc. apply StronglySorted_inv in Hs as [_ Hlow]. constructor; [by rewrite Hc|].
  eapply Forall_impl; [exact Hlow|]. intros c' Hc'. unfold lower in Hc'. rewrite Hc in Hc'. lia.
Qed.

Lemma keep_sorted size p s copies :
  StronglySorted lower copies → Forall (λ c, (point_height c.1 < point_height p)%N) copies →
  StronglySorted lower (keep size p s copies).
Proof.
  intros Hs Hlow. unfold keep. assert (StronglySorted lower ((p, s) :: copies)) as Hall by by constructor.
  rewrite <-(take_drop (N.to_nat size)) in Hall. by apply StronglySorted_app in Hall as (_ & Hall & _).
Qed.

(** One more block, and the copy taken after it. *)
Lemma chain_ok_snoc (chain : list BlockHash) (h : BlockHash) :
  chain_ok chain → length h = 32 → fits 64 (N.of_nat (length chain) + 1) → chain_ok (chain ++ [h]).
Proof.
  intros [Hall Hn] Hh Hfits. split; [apply Forall_app; split; [done|by apply Forall_singleton]|].
  rewrite length_app. simpl. unfold fits in *. lia.
Qed.

Lemma chain_at_snoc (g : BlockHash) (chain : list BlockHash) (p : Point) (s : Snapshot) :
  chain_ok (chain ++ [point_hash p]) → chain_stored (chain ++ [point_hash p]) s →
  point_height p = (N.of_nat (length chain) + 1)%N → chain_at g (chain ++ [point_hash p]) p s.
Proof. intros Hok Hst Hh. split_and!; [done|done|]. rewrite chain_tip_snoc. destruct p. simpl in *. f_equal. lia. Qed.

Lemma copy_of_tip (g : BlockHash) (chain : list BlockHash) (p : Point) (s : Snapshot) :
  counters_ok s → chain_at g chain p s → copy_ok g chain (p, s).
Proof.
  intros Hc Hat. split; [done|]. intros _. cbn [fst snd]. pose proof (chain_at_height _ _ _ _ Hat) as Hlen.
  rewrite Hlen. split; [done|]. by rewrite Nat2N.id, take_ge.
Qed.

(** A block on the tip, with no mempool snapshot in the way. *)
Lemma forward_tracks now w point header txs tip (st st' : Stage DB C) w' I :
  tracks w st I → id_mempool I = false → length (point_hash point) = 32 → (point_height point < u64_MAX)%N →
  commit_fresh (clock_commit now) (st_db st) →
  (∀ m task cache, block_task now (MkWorker (w_indexers w) m) point txs st = Ok (task, cache) → keys_fit task) →
  roll_forward now w point header txs tip st = Ok (w', st') →
  same_setup st st' ∧
  ((point_height point <= point_height (id_tip I))%N ∧ w' = w ∧ st' = st ∨
   point_height point = (point_height (id_tip I) + 1)%N ∧ prev_blockhash header = point_hash (id_tip I) ∧
   index_block now w' point txs st = Ok st' ∧ w_indexers w' = w_indexers w ∧ (w_mutable w' = false → id_copies I = []) ∧
   ∃ copies, (copies = keep (capacity (st_rollback_buffer st)) point (data st') (id_copies I) ∨
              id_copies I = [] ∧ copies = []) ∧
     tracks w' st' (MkIdeal (id_chain I ++ [point_hash point]) point false copies)).
Proof.
  intros [Hok Hg Htip Hm Hch Hht Hres Hcop Hsort Hmut Htop] Hmem Hlen Hph Hfresh Hkeys Hroll.
  assert (st_processed_mempool st = false) as Hm0 by congruence. pose proof Hroll as Hroll0.
  unfold roll_forward in Hroll. rewrite Hm0 in Hroll. cbn [rbind] in Hroll. cbv zeta in Hroll.
  rewrite wrapping_add_exact, <-Htip in Hroll by (rewrite <-Htip; unfold fits, u64_MAX in *; lia).
  destruct (N.ltb_spec (point_height point) (point_height (id_tip I) + 1)).
  { injection Hroll as <- <-. split; [by split_and!|]. left. split_and!; [lia|done|done]. }
  destruct (N.ltb_spec (point_height (id_tip I) + 1) (point_height point)); [done|].
  case_decide as Hprev; [done|].
  set (w1 := MkWorker _ _) in Hroll. apply res_bind_ok in Hroll as (st1 & Hidx & Hroll). injection Hroll as <- ->.
  pose proof (index_block_setup _ _ _ _ _ _ Hidx) as Hsetup. split; [done|]. right.
  assert (point_height point = point_height (id_tip I) + 1)%N as Hh by lia. split_and!; [done|done|done|done| |].
  { intros [Hw _]%orb_false_elim. by apply Hmut. }
  pose proof Hidx as Hi. unfold index_block in Hi. apply res_bind_ok in Hi as ([task cache] & Htask & _).
  pose proof (chain_at_height _ _ _ _ Hch) as Hcth. destruct Hch as (Hcok & Hst & Hct).
  assert (chain_ok (id_chain I ++ [point_hash point])) as Hcok'.
  { apply chain_ok_snoc; [done|done|]. unfold fits, u64_MAX in *. lia. }
  destruct (roll_forward_extends_chain now w point header txs tip st (id_chain I) task cache)
    as (st2 & Hst2 & Hok' & Hstored & Hlast & Hmem'); [done|done|done|done|congruence|congruence|congruence| | |done|].
  { rewrite <-Htask. unfold w1, saturating_sub. done. }
  { by eapply Hkeys. }
  assert (st2 = st') as -> by (rewrite Hst2 in Hroll0; by injection Hroll0).
  destruct Hsetup as (Hnet & Hcap & _).
  assert (Hat : chain_at (genesis st) (id_chain I ++ [point_hash point]) point (data st')) by (apply chain_at_snoc; [done..|lia]).
  pose proof (copy_of_tip _ _ _ _ (so_counters _ Hok') Hat) as Hcopy.
  pose proof (copies_below I Hmem Hsort Htop) as Hbelow.
  destruct (w_mutable w1) eqn:Hw1.
  - destruct (commit_block_ok now w1 point txs st task cache) as (st3 & Hst3 & Hco); [done|done|by eapply Hkeys|exact (chain_at_ok _ _ _ _ Hg Hat)|done|done|].
    rewrite Hidx in Hst3. injection Hst3 as <-. destruct Hco as [_ (o & Hrb & Hrev) _ _].
    eexists. split; [by left|]. split; cbn [id_chain id_tip id_mempool id_copies]; rewrite ?Hnet; try done.
    + rewrite Hrb. unfold add_block, with_points, keep. cbn [rb_points]. rewrite truncate_take. apply restores_take.
      split_and!; [done|done|]. by exists (data st).
    + apply Forall_take. constructor; [done|]. eapply Forall_impl; [exact Hcop|]. intros c. apply copy_ok_snoc.
    + apply keep_sorted; [done|]. eapply Forall_impl; [exact Hbelow|]. simpl. lia.
    + by rewrite Hw1.
    + intros c. apply keep_head.
  - pose proof (index_block_unkept _ _ _ _ _ _ Hw1 Hidx) as Hrb. apply orb_false_elim in Hw1 as [Hw _].
    rewrite (Hmut Hw) in Hres. exists []. split; [right; by rewrite Hmut|].
    split; cbn [id_chain id_tip id_mempool id_copies]; rewrite ?Hnet; try done; [|constructor]. rewrite Hrb. by destruct (rb_points _).
Qed.

(** *** Mempool snapshots *)
Lemma mempool_tip_fits last blocks : fits 64 (point_height last) → fits 64 (mempool_tip_height last blocks).
Proof. intros Hl. destruct blocks; [done|]. apply wrapping_add_fits. Qed.

Lemma mempool_task_hash {now : Clock} w blocks (st : Stage DB C) task cache k :
  mempool_task now w blocks st = Ok (task, cache) → hash_prefix `prefix_of` k → write_buffer task !! k = None.
Proof.
  intros Htask Hk. rewrite (task_steps_untouched _ _ _ k (mempool_task_steps _ _ _ _ _ Htask)).
  - apply lookup_empty.
  - destruct (hash_key_user k Hk) as [_ Hnot]. intros [?|[r' Heq]]; [done|]. destruct Hk as [r ->]. discriminate Heq.
Qed.

Lemma index_mempool_setup now w info blocks (st st' : Stage DB C) :
  index_mempool now w info blocks st = Ok st' → same_setup st st'.
Proof.
  unfold index_mempool, commit_mempool. intros Hi. inv_bind. simplify_eq/=. by destruct (original_kvs _).
Qed.

Lemma mempool_tracks now w info blocks (st st' : Stage DB C) I :
  tracks w st I → id_mempool I = false → id_copies I ≠ [] →
  commit_fresh (clock_commit now) (st_db st) →
  (∀ task cache, mempool_task now w blocks st = Ok (task, cache) → keys_fit task) →
  index_mempool now w info blocks st = Ok st' →
  tracks w st' (MkIdeal (id_chain I) (id_tip I) true
    (keep (capacity (st_rollback_buffer st)) (mempool_point (id_tip I)) (data st') (id_copies I))).
Proof.
  intros [Hok Hg Htip Hm Hch Hht Hres Hcop Hsort Hmut Htop] Hmem Hne Hfresh Hkeys Hidx.
  pose proof (index_mempool_setup _ _ _ _ _ _ Hidx) as (Hnet & Hcap & _).
  pose proof (chain_at_ok _ _ _ _ Hg Hch) as [Hf Hl]. rewrite Htip in Hf, Hl.
  pose proof Hidx as Hi. unfold index_mempool in Hi. apply res_bind_ok in Hi as ([task cache] & Htask & _).
  destruct (commit_mempool_ok now w info blocks st task cache) as (st1 & Hst1 & Hco & Hdata);
    [done|done|by eapply Hkeys|by apply mempool_tip_fits|done|done|].
  rewrite Hidx in Hst1. injection Hst1 as <-. destruct Hco as [Hok' (o & Hrb & Hrev) Hlast Hmem'].
  assert (Hat : chain_at (genesis st) (id_chain I) (id_tip I) (data st')).
  { eapply chain_at_ext; [|exact Hch]. intros k Hk. destruct (hash_key_user k Hk) as [Huk _].
    specialize (Hdata k Huk). rewrite effect_untouched in Hdata; [by injection Hdata|].
    apply not_elem_of_dom. by eapply mempool_task_hash. }
  pose proof (copies_below I Hmem Hsort Htop) as Hbelow.
  split; cbn [id_chain id_tip id_mempool id_copies]; rewrite ?Hnet; try done.
  - by rewrite Hlast.
  - rewrite Hrb, Htip. unfold add_block, with_points, keep. cbn [rb_points]. rewrite truncate_take. apply restores_take.
    split_and!; [done|done|]. by exists (data st).
  - apply Forall_take. constructor; [|done]. split; [apply Hok'|]. by intros [].
  - apply keep_sorted; [done|]. eapply Forall_impl; [exact Hbelow|]. cbn [mempool_point point_height]. lia.
  - intros Hw. by destruct Hne; apply Hmut.
  - intros c. apply keep_head.
Qed.

(** *** Events *)

(** A property that every change of the stage keeps up, next to [tracks];
    [after] is what may be assumed of the stage after a commit, [good] of a
    block that is indexed on a chain. *)
Record preserved (P : Stage DB C → Ideal → Prop) (after : Stage DB C → Prop)
    (good : Clock → list BlockHash → Stage DB C → list AnyIndexer → Point → BlockTxs → Prop) : Prop := {
  pr_back ts w p st st' I copies :
    tracks w st I → P st I → commit_fresh ts (st_db st) → point_height p ≠ u64_MAX →
    rollback_to_point ts p st = Ok st' → back_to p (id_copies I) = Some copies →
    let I' := MkIdeal (take (N.to_nat (point_height p)) (id_chain I)) p false copies in
    tracks w st' I' → P st' I';
  pr_block now w w' point txs st st' I copies :
    tracks w st I → P st I → id_mempool I = false → w_indexers w' = w_indexers w →
    (w_mutable w' = false → id_copies I = []) →
    length (point_hash point) = 32 → point_height point = (point_height (id_tip I) + 1)%N →
    commit_fresh (clock_commit now) (st_db st) →
    (∀ task cache, block_task now w' point txs st = Ok (task, cache) → keys_fit task) →
    index_block now w' point txs st = Ok st' → after st' → good now (id_chain I) st (w_indexers w) point txs →
    copies = keep (capacity (st_rollback_buffer st)) point (data st') (id_copies I) ∨ id_copies I = [] ∧ copies = [] →
    P st' (MkIdeal (id_chain I ++ [point_hash point]) point false copies);
  pr_mempool now w info blocks st st' I :
    tracks w st I → P st I → id_mempool I = false → id_copies I ≠ [] →
    commit_fresh (clock_commit now) (st_db st) →
    (∀ task cache, mempool_task now w blocks st = Ok (task, cache) → keys_fit task) →
    index_mempool now w info blocks st = Ok st' → after st' →
    P st' (MkIdeal (id_chain I) (id_tip I) true
      (keep (capacity (st_rollback_buffer st)) (mempool_point (id_tip I)) (data st') (id_copies I)));
}.

(** The stage once the event has undone what it undoes first. *)
Definition undone (now : Clock) (st st1 : Stage DB C) : Prop :=
  st1 = st ∨ rollback_to_point (clock_undo now) (st_last_processed st) st = Ok st1.

(** The surroundings of an event: its commits are newer than the ones before,
    hashes have their length, heights stay below the pseudo height of the
    mempool, and keys are shorter than the address space. *)
Definition event_ok (now : Clock) (w : Worker) (event : ChainEvent) (st : Stage DB C) : Prop :=
  commit_fresh (clock_undo now) (st_db st) ∧
  match event with
  | RollForward point header txs tip =>
      length (point_hash point) = 32 ∧ (point_height point < u64_MAX)%N ∧
      ∀ st1, undone now st st1 → commit_fresh (clock_commit now) (st_db st1) ∧
        ∀ m task cache, block_task now (MkWorker (w_indexers w) m) point txs st1 = Ok (task, cache) → keys_fit task
  | RollBack point => point_height point ≠ u64_MAX
  | MempoolBlocks info blocks =>
      ∀ st1, undone now st st1 → commit_fresh (clock_commit now) (st_db st1) ∧
        ∀ task cache, mempool_task now w blocks st1 = Ok (task, cache) → keys_fit task
  end.

Section Events.
Context (P : Stage DB C → Ideal → Prop) (after : Stage DB C → Prop).
Context (good : Clock → list BlockHash → Stage DB C → list AnyIndexer → Point → BlockTxs → Prop) (HP : preserved P after good).

(** The block of an event is good, on the chain once its event has undone what
    it undoes first. *)
Definition event_good (now : Clock) (w : Worker) (event : ChainEvent) (st : Stage DB C) (chain : list BlockHash) : Prop :=
  match event with
  | RollForward point _ txs _ => ∀ st1, undone now st st1 → good now chain st1 (w_indexers w) point txs
  | _ => True
  end.

Lemma settled_same w st I :
  tracks w st I → id_mempool I = false →
  settled I = Some (id_copies I) ∧ MkIdeal (id_chain I) (id_tip I) false (id_copies I) = I.
Proof. intros HI Hm. unfold settled. rewrite Hm. split; [done|]. rewrite <-Hm. by destruct I. Qed.

Lemma tip_chain w (st : Stage DB C) I :
  tracks w st I → take (N.to_nat (point_height (id_tip I))) (id_chain I) = id_chain I.
Proof. intros HI. rewrite (chain_at_height _ _ _ _ (tk_chain _ _ _ HI)), Nat2N.id. by apply take_ge. Qed.

(** Undoing the mempool snapshot goes back to the tip. *)
Lemma undo_mempool_tracks now w (st st1 : Stage DB C) I :
  tracks w st I → P st I → commit_fresh (clock_undo now) (st_db st) → id_mempool I = true →
  rollback_to_point (clock_undo now) (st_last_processed st) st = Ok st1 →
  ∃ copies, settled I = Some copies ∧ copies ≠ [] ∧
    let I1 := MkIdeal (id_chain I) (id_tip I) false copies in tracks w st1 I1 ∧ P st1 I1 ∧ same_setup st st1.
Proof.
  intros HI HPI Hfresh Hm Hroll. unfold settled. rewrite Hm, <-(tk_tip _ _ _ HI) in *.
  assert (Hne : point_height (id_tip I) ≠ u64_MAX) by (pose proof (tk_height _ _ _ HI); lia).
  destruct (rollback_tracks _ _ _ _ _ _ HI Hfresh Hne Hroll) as (copies & Hback & HI1 & Hsetup).
  pose proof (pr_back _ _ _ HP _ _ _ _ _ _ _ HI HPI Hfresh Hne Hroll Hback HI1) as HP1. cbv zeta in HP1.
  rewrite (tip_chain _ _ _ HI) in HI1, HP1. exists copies. split_and!; [done| |done|done|done].
  intros ->. clear -Hback. induction (id_copies I) as [|c l IH]; [done|]. cbn [back_to] in Hback. by case_decide; [|auto].
Qed.

(** What a mempool event finds to undo: its own earlier snapshot. *)
Lemma mempool_settle_tracks now w (st st1 : Stage DB C) I newer :
  tracks w st I → P st I → commit_fresh (clock_undo now) (st_db st) →
  points_since (st_last_processed st) (st_rollback_buffer st) = Ok newer →
  (match newer with
   | [] => Ok st
   | _ => rollback_to_point (clock_undo now) (st_last_processed st) st
   end) = Ok st1 →
  undone now st st1 ∧ ∃ copies, settled I = Some copies ∧ copies ≠ [] ∧
    let I1 := MkIdeal (id_chain I) (id_tip I) false copies in tracks w st1 I1 ∧ P st1 I1 ∧ same_setup st st1.
Proof.
  intros HI HPI Hfresh Hsince Hundo. unfold points_since in Hsince.
  destruct (position _ _) as [n|] eqn:Hpos; [|done]. injection Hsince as <-.
  apply position_inv in Hpos as (newer & e & older & Hpts & He & -> & Hn). rewrite Hpts, take_app_length in Hundo.
  pose proof (tk_restores _ _ _ HI) as Hres. pose proof (tk_top _ _ _ HI) as Htop. rewrite Hpts in Hres.
  destruct newer as [|e0 newer]; [injection Hundo as <-|].
  - split; [by left|]. destruct (id_copies I) as [|[p s0] rest] eqn:Hcop; [done|]. destruct Hres as (-> & _).
    specialize (Htop _ eq_refl). cbn [fst] in Htop. unfold top in Htop. destruct (id_mempool I) eqn:Hm.
    { exfalso. pose proof (tk_height _ _ _ HI) as Hh. rewrite (tk_tip _ _ _ HI), <-He, Htop in Hh. simpl in Hh. lia. }
    destruct (settled_same _ _ _ HI Hm) as [Hset Heq]. rewrite Hcop in Hset, Heq.
    eexists. split; [exact Hset|]. split; [done|]. cbv zeta. rewrite Heq. by split_and!.
  - split; [by right|]. destruct (id_mempool I) eqn:Hm; [by apply (undo_mempool_tracks now)|].
    exfalso. destruct (id_copies I) as [|[p s0] rest]; [done|]. destruct Hres as (-> & _).
    specialize (Htop _ eq_refl). unfold top in Htop. rewrite Hm, (tk_tip _ _ _ HI) in Htop.
    apply Forall_cons in Hn as [Hne _]. by destruct Hne.
Qed.

Lemma roll_forward_undone now w point header txs tip (st st1 : Stage DB C) :
  st_processed_mempool st = true → rollback_to_point (clock_undo now) (st_last_processed st) st = Ok st1 →
  st_processed_mempool st1 = false →
  roll_forward now w point header txs tip st = roll_forward now w point header txs tip st1.
Proof. intros Hm Hr Hm1. unfold roll_forward at 1. rewrite Hm, Hr. unfold roll_forward. by rewrite Hm1. Qed.

(** A block event, once the mempool snapshot is undone. *)
Lemma forward_settle_tracks now w point header txs tip (st st' : Stage DB C) w' I :
  tracks w st I → P st I → commit_fresh (clock_undo now) (st_db st) →
  roll_forward now w point header txs tip st = Ok (w', st') →
  ∃ st1 copies, undone now st st1 ∧ settled I = Some copies ∧
    (let I1 := MkIdeal (id_chain I) (id_tip I) false copies in tracks w st1 I1 ∧ P st1 I1 ∧ same_setup st st1) ∧
    roll_forward now w point header txs tip st1 = Ok (w', st').
Proof.
  intros HI HPI Hfresh Hroll. destruct (id_mempool I) eqn:Hm.
  - pose proof Hm as Hm0. rewrite (tk_mempool _ _ _ HI) in Hm0.
    assert (∃ st1, rollback_to_point (clock_undo now) (st_last_processed st) st = Ok st1) as [st1 Hr].
    { unfold roll_forward in Hroll. rewrite Hm0 in Hroll. apply res_bind_ok in Hroll as (st1 & Hr & _). by exists st1. }
    destruct (undo_mempool_tracks _ _ _ _ _ HI HPI Hfresh Hm Hr) as (copies & Hset & _ & HI1 & Hrest).
    exists st1, copies. split; [by right|]. split; [exact Hset|]. split; [by split|].
    rewrite <-Hroll. symmetry. apply roll_forward_undone; [done|done|]. by rewrite <-(tk_mempool _ _ _ HI1).
  - destruct (settled_same _ _ _ HI Hm) as [Hset Heq]. exists st, (id_copies I). rewrite Heq.
    split; [by left|]. split; [exact Hset|]. split; [|exact Hroll]. by split_and!.
Qed.

Lemma forward_simulates now w point header txs tip (st st' : Stage DB C) w' I :
  tracks w st I → P st I → event_ok now w (RollForward point header txs tip) st →
  roll_forward now w point header txs tip st = Ok (w', st') → after st' →
  event_good now w (RollForward point header txs tip) st (id_chain I) →
  ∃ I', ideal_step (capacity (st_rollback_buffer st)) (data st') (RollForward point header txs tip) I I' ∧
    tracks w' st' I' ∧ P st' I' ∧ same_setup st st'.
Proof.
  intros HI HPI (Hfresh & Hlen & Hph & Hst1) Hroll Hafter Hgood.
  destruct (forward_settle_tracks _ _ _ _ _ _ _ _ _ _ HI HPI Hfresh Hroll)
    as (st1 & copies & Hun & Hset & (HI1 & HPI1 & Hsetup) & Hroll1).
  destruct (Hst1 st1 Hun) as [Hfresh1 Hkeys1].
  destruct (forward_tracks now w point header txs tip st1 st' w' _ HI1 eq_refl Hlen Hph Hfresh1 Hkeys1 Hroll1)
    as [Hsetup1 [(Hle & -> & ->)|(Hh & Hprev & Hidx & Hwi & Hwm & copies' & Hcopies & HI')]]; cbn [id_chain id_tip id_copies] in *.
  - eexists. split; [by apply ideal_skip|]. by split_and!.
  - assert (P st' (MkIdeal (id_chain I ++ [point_hash point]) point false copies')) as HP'.
    { eapply (pr_block _ _ _ HP now w w' point txs st1 st' _ copies' HI1 HPI1); try done; [|by apply Hgood].
      intros task cache Htask. apply (Hkeys1 (w_mutable w') task cache). rewrite <-Hwi. by destruct w'. }
    eexists. split; [apply (ideal_forward _ _ _ _ _ _ _ copies copies'); [done|done|done|]|split_and!; [done|done|by eapply same_setup_trans]].
    destruct Hsetup as (_ & Hcap & _). by rewrite Hcap in Hcopies.
Qed.

Lemma mempool_simulates now w info blocks (st st' : Stage DB C) I :
  tracks w st I → P st I → event_ok now w (MempoolBlocks info blocks) st →
  mempool_blocks now w info blocks st = Ok st' → after st' →
  ∃ I', ideal_step (capacity (st_rollback_buffer st)) (data st') (MempoolBlocks info blocks) I I' ∧
    tracks w st' I' ∧ P st' I' ∧ same_setup st st'.
Proof.
  intros HI HPI (Hfresh & Hst1) Hmb Hafter. unfold mempool_blocks in Hmb. cbv zeta in Hmb.
  apply res_bind_ok in Hmb as (newer & Hsince & Hmb). apply or_panic_ok in Hsince.
  apply res_bind_ok in Hmb as (st1 & Hundo & Hmb).
  destruct (mempool_settle_tracks now w st st1 I newer HI HPI Hfresh Hsince Hundo)
    as (Hun & copies & Hset & Hne & HI1 & HPI1 & Hsetup). destruct (Hst1 st1 Hun) as [Hfresh1 Hkeys1].
  pose proof (tk_tip _ _ _ HI1) as Htip. cbn [id_tip] in Htip. rewrite <-Htip in Hmb. case_decide as Htipd.
  - injection Hmb as <-. eexists. split; [by apply ideal_mempool_skip|]. by split_and!.
  - pose proof (index_mempool_setup _ _ _ _ _ _ Hmb) as Hsetup1.
    pose proof (mempool_tracks now w info blocks st1 st' _ HI1 eq_refl Hne Hfresh1 Hkeys1 Hmb) as HI'.
    pose proof (pr_mempool _ _ _ HP now w info blocks st1 st' _ HI1 HPI1 eq_refl Hne Hfresh1 Hkeys1 Hmb Hafter) as HP'.
    cbn [id_chain id_tip id_copies] in HI', HP'. destruct Hsetup as (Hnet & Hcap & Hmax). rewrite Hcap in HI', HP'.
    eexists. split; [by apply ideal_mempool|]. split; [done|]. split; [done|]. by eapply same_setup_trans; [split_and!|].
Qed.

Lemma execute_preserves now w event (st st' : Stage DB C) w' I :
  tracks w st I → P st I → event_ok now w event st → execute now w event st = Ok (w', st') → after st' →
  event_good now w event st (id_chain I) →
  ∃ I', ideal_step (capacity (st_rollback_buffer st)) (data st') event I I' ∧ tracks w' st' I' ∧ P st' I' ∧
    same_setup st st'.
Proof.
  intros HI HPI Hev Hx Hafter Hgood. destruct event as [point header txs tip|point|info blocks]; cbn [execute] in Hx.
  - by apply (forward_simulates now w point header txs tip st st' w' I).
  - apply res_bind_ok in Hx as (st1 & Hroll & Hx). injection Hx as <- <-. destruct Hev as [Hfresh Hp].
    destruct (rollback_tracks _ _ _ _ _ _ HI Hfresh Hp Hroll) as (copies & Hback & HI' & Hsetup).
    eexists. split; [by apply ideal_back|]. split_and!; [done| |done..]. by eapply (pr_back _ _ _ HP).
  - apply res_bind_ok in Hx as (st1 & Hmb & Hx). injection Hx as <- <-. by apply (mempool_simulates now).
Qed.
End Events.

(** Nothing is asked of a block. *)
Definition any_block : Clock → list BlockHash → Stage DB C → list AnyIndexer → Point → BlockTxs → Prop := λ _ _ _ _ _ _, True.
Lemma any_block_good now w event st chain : event_good any_block now w event st chain.
Proof. by destruct event. Qed.

Lemma preserved_nothing : preserved (λ _ _, True) (λ _, True) any_block.
Proof. by split. Qed.

Lemma execute_simulates now w event (st st' : Stage DB C) w' I :
  tracks w st I → event_ok now w event st → execute now w event st = Ok (w', st') →
  ∃ I', ideal_step (capacity (st_rollback_buffer st)) (data st') event I I' ∧ tracks w' st' I' ∧ same_setup st st'.
Proof.
  intros HI Hev Hx.
  destruct (execute_preserves _ _ _ preserved_nothing _ _ _ _ _ _ _ HI Logic.I Hev Hx Logic.I (any_block_good _ _ _ _ _)) as (I' & Hstep & HI' & _ & Hs).
  by exists I'.
Qed.

(** C4: One event: the stage does what the ideal worker does.  A block on the
    tip extends the chain and a copy of the data is kept (once rollback data
    is kept); a rollback goes back to the copy taken after its block, whatever
    happened since; a mempool snapshot is indexed on top of the tip and undone
    before anything else is done; a block that is not new changes nothing. *)
Theorem execute_refines_ideal (now : Clock) (w : Worker) (event : ChainEvent) (st st' : Stage DB C)
    (w' : Worker) (I : Ideal) :
  tracks w st I → event_ok now w event st → execute now w event st = Ok (w', st') →
  ∃ I', ideal_step (capacity (st_rollback_buffer st)) (data st') event I I' ∧ tracks w' st' I' ∧ same_setup st st'.
Proof. exact (execute_simulates now w event st st' w' I). Qed.

(** The worker after a sequence of events. *)
Inductive worked : Worker → Stage DB C → list ChainEvent → Worker → Stage DB C → Prop :=
| worked_nil w st : worked w st [] w st
| worked_cons now w st event w1 st1 events w2 st2 :
    event_ok now w event st → execute now w event st = Ok (w1, st1) →
    worked w1 st1 events w2 st2 → worked w st (event :: events) w2 st2.

(** What a sequence of events makes of a chain. *)
Definition follow_event (chain : list BlockHash) (event : ChainEvent) : list BlockHash :=
  match event with
  | RollForward point _ _ _ =>
      if (N.of_nat (length chain) <? point_height point)%N then chain ++ [point_hash point] else chain
  | RollBack point => take (N.to_nat (point_height point)) chain
  | MempoolBlocks _ _ => chain
  end.

Lemma ideal_step_chain size s event w st I I' :
  tracks w st I → ideal_step size s event I I' → id_chain I' = follow_event (id_chain I) event.
Proof.
  intros HI Hstep. pose proof (chain_at_height _ _ _ _ (tk_chain _ _ _ HI)) as Hh.
  destruct Hstep; cbn [follow_event id_chain]; try done.
  - by rewrite (proj2 (N.ltb_ge _ _)) by lia.
  - by rewrite (proj2 (N.ltb_lt _ _)) by lia.
Qed.

Lemma worked_tracks w st events w' st' I :
  tracks w st I → worked w st events w' st' →
  ∃ I', tracks w' st' I' ∧ id_chain I' = foldl follow_event (id_chain I) events ∧ same_setup st st'.
Proof.
  intros HI Hw. revert I HI. induction Hw as [w st|now w st event w1 st1 events w2 st2 Hev Hx _ IH]; intros I HI.
  - exists I. by split_and!.
  - destruct (execute_simulates _ _ _ _ _ _ _ HI Hev Hx) as (I1 & Hstep & HI1 & Hset1).
    destruct (IH I1 HI1) as (I2 & HI2 & Hch & Hset2). exists I2. split_and!; [done| |by eapply same_setup_trans].
    rewrite Hch. cbn [foldl]. by rewrite (ideal_step_chain _ _ _ _ _ _ _ HI Hstep).
Qed.

(** Whatever events a worker is given, as long as it does not stop, the
    stored chain is the one the events describe (a block above the tip is
    added, a rollback cuts back to the height of its point, a mempool snapshot
    changes nothing), the processed tip is the last block of the stored chain,
    and a restart resumes at it. *)
Theorem worker_follows_events (w w' : Worker) (st st' : Stage DB C) (events : list ChainEvent) (chain : list BlockHash) :
  stage_ok st → length (genesis st) = 32 → chain_ok chain → chain_stored chain (data st) →
  (N.of_nat (length chain) < u64_MAX)%N → st_last_processed st = chain_tip (genesis st) chain →
  st_processed_mempool st = false → rb_points (st_rollback_buffer st) = [] →
  worked w st events w' st' →
  let chain' := foldl follow_event chain events in
  stage_ok st' ∧ chain_ok chain' ∧ chain_stored chain' (data st') ∧
  st_last_processed st' = chain_tip (genesis st) chain' ∧
  last_processed_point (reader (from_u64 u64_MAX) (st_db st')) (st_network st) = Ok (st_last_processed st').
Proof.
  intros Hok Hg Hcok Hst Hlen Htip Hmem Hrb Hw chain'.
  assert (tracks w st (MkIdeal chain (st_last_processed st) false [])) as HI.
  { split; cbn [id_chain id_tip id_mempool id_copies]; try done.
    - rewrite Htip, chain_tip_height. exact Hlen.
    - by rewrite Hrb.
    - constructor. }
  destruct (worked_tracks _ _ _ _ _ _ HI Hw) as (I' & HI' & Hch & Hnet & _). cbn [id_chain] in Hch. fold chain' in Hch.
  pose proof (tk_chain _ _ _ HI') as (Hcok' & Hst' & Htip'). rewrite Hch, Hnet in *.
  rewrite (tk_tip _ _ _ HI') in Htip'. split_and!; [apply HI'|done|done|done|].
  rewrite (restart_resumes_at_tip chain' (st_db st') (st_network st)); [|apply (tk_ok _ _ _ HI')|done|done].
  rewrite Htip'. unfold chain_tip. by destruct (last chain').
Qed.
End History.

(** ** Closed examples *)
Section EventCheck.
Context {DB : Type} `{RocksDBOk DB} `{HashOrderOk} `{Ordinals} `{!CharmsLib} `{!Machine}.
Context {Ext : Type} `{!IndexMap TransactionIndexer (list byte) Ext}.
Context {C : Type} `{!MokaCache (Utxo Ext) C}.

Definition fresh_check (ts : u64) (st : Stage DB C) : bool :=
  (db_last (sh_db (st_db st)) <? as_u64 (commit_ts ts (st_db st)))%N &&
  (db_low (sh_db (st_db st)) <=? as_u64 (commit_ts ts (st_db st)))%N.
Definition keys_check (r : Res WorkerError (IndexingTask DB * option (UtxoCache C))) : bool :=
  match r with
  | Ok (task, _) =>
      bool_decide (set_Forall (λ k : RawKey, fits 64 (N.of_nat (length k))) (dom (write_buffer task)))
  | _ => true
  end.
Definition undone_list (now : Clock) (st : Stage DB C) : list (Stage DB C) :=
  st :: match rollback_to_point (clock_undo now) (st_last_processed st) st with Ok st1 => [st1] | _ => [] end.

(** [event_ok], evaluated. *)
Definition event_check (now : Clock) (w : Worker) (event : ChainEvent) (st : Stage DB C) : bool :=
  fresh_check (clock_undo now) st &&
  match event with
  | RollForward point header txs tip =>
      Nat.eqb (length (point_hash point)) 32 && (point_height point <? u64_MAX)%N &&
      forallb (λ st1, fresh_check (clock_commit now) st1 &&
        forallb (λ m, keys_check (block_task now (MkWorker (w_indexers w) m) point txs st1)) [false; true])
        (undone_list now st)
  | RollBack point => negb (point_height point =? u64_MAX)%N
  | MempoolBlocks info blocks =>
      forallb (λ st1, fresh_check (clock_commit now) st1 && keys_check (mempool_task now w blocks st1)) (undone_list now st)
  end.

Lemma fresh_check_ok ts st : fresh_check ts st = true → commit_fresh ts (st_db st).
Proof. unfold fresh_check. intros [Hf%N.ltb_lt Hl%N.leb_le]%andb_prop. by split. Qed.

Lemma keys_check_ok r task cache : keys_check r = true → r = Ok (task, cache) → keys_fit task.
Proof. intros Hc ->. exact (bool_decide_eq_true_1 _ Hc). Qed.

Lemma undone_listed now st st1 : undone now st st1 → In st1 (undone_list now st).
Proof. intros [->|Hr]; [by left|]. right. rewrite Hr. by left. Qed.

Lemma event_check_ok now w event st : event_check now w event st = true → event_ok now w event st.
Proof.
  unfold event_check. intros [Hf He]%andb_prop. split; [by apply fresh_check_ok|].
  destruct event as [point header txs tip|point|info blocks].
  - apply andb_prop in He as [[Hl Hh]%andb_prop Hall]. split; [by apply Nat.eqb_eq|]. split; [by apply N.ltb_lt|].
    intros st1 Hst1%undone_listed. rewrite forallb_forall in Hall. specialize (Hall _ Hst1).
    apply andb_prop in Hall as [Hf1 Hk]. split; [by apply fresh_check_ok|]. intros m task cache.
    rewrite forallb_forall in Hk. apply keys_check_ok, Hk. destruct m; [right; by left|by left].
  - by apply negb_true_iff, N.eqb_neq in He.
  - intros st1 Hst1%undone_listed. rewrite forallb_forall in He. specialize (He _ Hst1).
    apply andb_prop in He as [Hf1 Hk]. split; [by apply fresh_check_ok|]. intros task cache. by apply keys_check_ok.
Qed.
End EventCheck.

Module HistoryExamples.
Import Simple SimpleBitcoin StageExamples ChainExamples.

Definition ex_data : Snapshot := db_latest (sh_db ex_chain_storage).
Definition ex_ideal : Ideal := MkIdeal ex_chain p1 false [(p1, ex_data)].

Lemma ex_tracks : tracks ex_worker ex_chain_stage ex_ideal.
Proof.
  assert (Hat : chain_at (replicate 32 x00) ex_chain p1 ex_data) by (split_and!; [apply ex_chain_ok|apply ex_chain_stored|done]).
  split; cbn [id_chain id_tip id_mempool id_copies ex_ideal]; try done.
  - apply ex_chain_stage_ok.
  - split_and!; [done|done|]. exists ex_data. split; [|done]. intros k _. unfold revert. cbn [pk_original_kvs e1]. by rewrite lookup_empty.
  - apply Forall_singleton. split; [apply (so_counters _ ex_chain_stage_ok)|]. intros _. by split.
  - repeat constructor.
  - intros c Hc. by injection Hc as <-.
Qed.

(** A mempool snapshot on block 1, then block 2, which undoes it, then back. *)
Definition ex_mempool : ChainEvent := MempoolBlocks (MkSnapshotInfo 7%N (point_hash p1)) [[]].
Definition ex_run (event : ChainEvent) (s : Worker * SimpleStage) : Worker * SimpleStage :=
  unwrap_or s (execute ex_now s.1 event s.2).

Example execute_refines_ideal_witness :
  let '(w', st') := ex_run ex_mempool (ex_worker, ex_chain_stage) in
  ∃ I', ideal_step 18 (db_latest (sh_db (st_db st'))) ex_mempool ex_ideal I' ∧ tracks w' st' I' ∧ same_setup ex_chain_stage st'.
Proof.
  destruct (ex_run ex_mempool (ex_worker, ex_chain_stage)) as [w' st'] eqn:Hrun.
  apply (execute_refines_ideal ex_now ex_worker ex_mempool ex_chain_stage st' w' ex_ideal).
  - apply ex_tracks.
  - apply event_check_ok. vm_compute. reflexivity.
  - rewrite <-Hrun. unfold ex_run. apply is_ok_unwrap. vm_compute. reflexivity.
Defined.

(** From a store with block 1 and no rollback data: block 2, a mempool
    snapshot, block 3 (which undoes it), and back to block 2. *)
Definition p3 : Point := MkPoint 3%N (replicate 32 x03).
Definition ex_start : SimpleStage :=
  MkStage ex_chain_storage [] Regtest (MkRollbackBuffer [] 18%N true) 16%N p1 false None None.
Definition ex_new_worker : Worker := MkWorker (w_indexers ex_worker) false.
Definition ex_events : list ChainEvent :=
  [RollForward p2 (header_after (point_hash p1)) [coinbase2] p3;
   MempoolBlocks (MkSnapshotInfo 7%N (point_hash p2)) [[]; []];
   RollForward p3 (header_after (point_hash p2)) [] p3;
   RollBack p2].
Definition ex_end : Worker * SimpleStage := foldl (flip ex_run) (ex_new_worker, ex_start) ex_events.

Fixpoint run_check (s : Worker * SimpleStage) (events : list ChainEvent) : bool :=
  match events with
  | [] => true
  | event :: events =>
      event_check ex_now s.1 event s.2 && is_ok (execute ex_now s.1 event s.2) && run_check (ex_run event s) events
  end.

Lemma run_check_ok s events :
  run_check s events = true →
  worked s.1 s.2 events (foldl (flip ex_run) s events).1 (foldl (flip ex_run) s events).2.
Proof.
  revert s. induction events as [|event events IH]; intros s Hc; [constructor|]. cbn [run_check] in Hc.
  apply andb_prop in Hc as [[Hev Hok]%andb_prop Hrest].
  eapply (worked_cons ex_now _ _ _ (ex_run event s).1 (ex_run event s).2); [by apply event_check_ok| |by apply IH].
  rewrite <-surjective_pairing. by apply is_ok_unwrap.
Qed.

Lemma ex_worked : worked ex_new_worker ex_start ex_events ex_end.1 ex_end.2.
Proof. apply (run_check_ok (ex_new_worker, ex_start)). vm_compute. reflexivity. Qed.

(** The start of the worker is in step with the chain of its store. *)
Definition ex_start_ideal : Ideal := MkIdeal ex_chain p1 false [].
Lemma ex_start_tracks : tracks ex_new_worker ex_start ex_start_ideal.
Proof.
  split; cbn [id_chain id_tip id_mempool id_copies ex_start_ideal]; try done.
  - destruct ex_chain_stage_ok as [Hsto Hcnt]. split; [exact Hsto|exact Hcnt].
  - split_and!; [apply ex_chain_ok|apply ex_chain_stored|done].
  - constructor.
Qed.

Example worker_follows_events_witness :
  stage_ok ex_end.2 ∧ chain_stored [point_hash p1; point_hash p2] (db_latest (sh_db (st_db ex_end.2))) ∧
  last_processed_point (reader (from_u64 u64_MAX) (st_db ex_end.2)) Regtest = Ok p2.
Proof.
  destruct (worker_follows_events ex_new_worker ex_end.1 ex_start ex_end.2 ex_events ex_chain)
    as (Hok & _ & Hst & Htip & Hlast).
  - destruct ex_chain_stage_ok as [Hsto Hcnt]. split; [exact Hsto|exact Hcnt].
  - reflexivity.
  - apply ex_chain_ok.
  - apply ex_chain_stored.
  - vm_compute. reflexivity.
  - reflexivity.
  - reflexivity.
  - reflexivity.
  - exact ex_worked.
  - split_and!; [exact Hok|exact Hst|]. refine (eq_trans Hlast _). rewrite Htip. reflexivity.
Defined.
End HistoryExamples.
