(* ===== verification/Persist.v ===== *)
(** * The undo records in the store

    Every commit writes the records of its block to the persistent rollback
    buffer and removes those that left the window; every rollback removes the
    records of the blocks it undoes.  [persisted] follows: the table always
    holds the records of a known list of blocks and nothing else. *)
From S2P Require Import Prelude ByteOrder EncDec Timestamp Types MergeOperation Table Rocks.
From S2P Require Import CoreTables KvStore KvStoreLaws Commit RollbackBuffer Bitcoin Context.
From S2P Require Import AddressIndexers RunesTables Runes Charms Indexers Stage Instances StageLaws Chain History.

(** The records of a block are of indexed data and can be encoded. *)
Record entry_ok (e : PointWithOriginalKVs) : Prop := {
  eo_point : point_ok (pk_point e);
  eo_kvs k pv : pk_original_kvs e !! k = Some pv → user_key k ∧ valid k ∧ valid pv;
}.

Definition record_key (p : Point) (key : RawKey) : RawKey :=
  encode_key RollbackBufferKV (MkRollbackKey (point_height p) (point_hash p) key).

Lemma record_valid e key pv :
  entry_ok e → pk_original_kvs e !! key = Some pv →
  valid (MkRollbackKey (point_height (pk_point e)) (point_hash (pk_point e)) key).
Proof. intros [[Hh Hl] Hkvs] Hkey. destruct (Hkvs _ _ Hkey) as (_ & Hk & _). split; [exact Hh|]. by split. Qed.

Lemma record_key_inj e1 e2 k1 k2 pv1 pv2 :
  entry_ok e1 → entry_ok e2 → pk_original_kvs e1 !! k1 = Some pv1 → pk_original_kvs e2 !! k2 = Some pv2 →
  record_key (pk_point e1) k1 = record_key (pk_point e2) k2 → pk_point e1 = pk_point e2 ∧ k1 = k2.
Proof.
  intros H1 H2 Hk1 Hk2 Heq.
  apply (encode_key_inj _ _ rollback_table_at) in Heq; [|by eapply record_valid..].
  destruct (pk_point e1), (pk_point e2). injection Heq as -> -> ->. done.
Qed.

Section Persist.
Context `{HashOrderOk}.

(** ** Commits *)

(** The blocks whose records stay after a commit. *)
Definition stays (fin : FinalizedTask) (p : Point) (max_rollback : u64) (e : PointWithOriginalKVs) : bool :=
  fin_mempool fin || (point_height p - max_rollback <=? point_height (pk_point e))%N.
Definition kept_blocks (fin : FinalizedTask) (p : Point) (max_rollback : u64)
    (blocks : list PointWithOriginalKVs) : list PointWithOriginalKVs :=
  filter (λ e, is_true (stays fin p max_rollback e)) blocks.

(** The blocks recorded after a commit. *)
Definition blocks_after (fin : FinalizedTask) (p : Point) (max_rollback : u64)
    (blocks : list PointWithOriginalKVs) : list PointWithOriginalKVs :=
  match fin_original_kvs fin with
  | Some o => MkPointKVs (MkPoint (record_height fin p) (point_hash p)) o :: kept_blocks fin p max_rollback blocks
  | None => blocks
  end.

Lemma elem_of_kept_blocks fin p max_rollback blocks e :
  e ∈ kept_blocks fin p max_rollback blocks ↔ e ∈ blocks ∧ stays fin p max_rollback e = true.
Proof. unfold kept_blocks. rewrite list_elem_of_filter. unfold is_true. tauto. Qed.

Section CommitRecords.
Context (fin : FinalizedTask) (p : Point) (max_rollback : u64) (mempool_ts : option u64) (ts : Timestamp).
Context (s s' : Snapshot) (blocks : list PointWithOriginalKVs).
Context (Hbatch : batch_result fin p max_rollback mempool_ts ts s s').
Context (Hblocks : ∀ e, e ∈ blocks → entry_ok e).
Context (Hfresh : ∀ e, e ∈ blocks → pk_point e ≠ MkPoint (record_height fin p) (point_hash p)).
Context (Hnew : ∀ o, fin_original_kvs fin = Some o →
  entry_ok (MkPointKVs (MkPoint (record_height fin p) (point_hash p)) o)).
Context (Hper : persisted blocks s).

(** A record of an older block, after the commit. *)
Lemma older_record e key pv :
  e ∈ blocks → pk_original_kvs e !! key = Some pv →
  s' !! record_key (pk_point e) key =
  match fin_original_kvs fin with
  | Some _ => if stays fin p max_rollback e then Some (encode pv) else None
  | None => Some (encode pv)
  end.
Proof.
  intros He Hkey. pose proof (Hblocks e He) as Hok.
  assert (s !! record_key (pk_point e) key = Some (encode pv)) as Hs.
  { destruct (proj2 (Hper (record_key (pk_point e) key) (encode pv))) as [_ Hv]; [|exact Hv]. by exists e, key, pv. }
  unfold record_key in *. rewrite (br_undo _ _ _ _ _ _ _ Hbatch) by by eapply record_valid.
  unfold buffer_after. destruct (fin_original_kvs fin) as [o|] eqn:Ho; [|exact Hs]. cbn [rk_height].
  unfold record_of. cbn [rk_height rk_hash]. rewrite (decide_False (P:=_ ∧ _)).
  2:{ intros [Hh Hl]. apply (Hfresh e He). destruct (pk_point e). simpl in *. by subst. }
  rewrite Hs. unfold stays. rewrite N.leb_antisym. by destruct (fin_mempool fin), (_ <? _)%N.
Qed.

(** A record of the commit. *)
Lemma own_record o key pv :
  fin_original_kvs fin = Some o → o !! key = Some pv →
  s' !! record_key (MkPoint (record_height fin p) (point_hash p)) key = Some (encode pv).
Proof.
  intros Ho Hkey. unfold record_key. rewrite (br_undo _ _ _ _ _ _ _ Hbatch).
  2:{ eapply (record_valid (MkPointKVs _ o)); [by apply Hnew|exact Hkey]. }
  unfold buffer_after. rewrite Ho. cbn [rk_height point_height point_hash]. unfold record_of. cbn [rk_height rk_hash rk_key].
  rewrite decide_True by done. rewrite Hkey. unfold record_height. destruct (fin_mempool fin); cbn [negb andb]; [done|].
  rewrite (proj2 (N.ltb_ge _ _)) by lia. done.
Qed.

Lemma persisted_commit : persisted (blocks_after fin p max_rollback blocks) s'.
Proof.
  intros k v. unfold blocks_after. split.
  - intros [Hk Hv]. destruct (br_kept _ _ _ _ _ _ _ Hbatch k v Hk Hv) as [(o & key & Ho & [pv Hkey]%elem_of_dom & ->)|Hs].
    + rewrite Ho. eexists (MkPointKVs _ o), key, pv. split_and!; [by left|done|reflexivity|].
      pose proof (own_record o key pv Ho Hkey) as Hown. unfold record_key in Hown. cbn [point_height point_hash] in Hown.
      rewrite Hown in Hv. by injection Hv.
    + destruct (proj1 (Hper k v) (conj Hk Hs)) as (e & key & pv & He & Hkey & -> & ->). clear Hs.
      pose proof (older_record e key pv He Hkey) as Hold. unfold record_key in Hold.
      cbn [block_key fst snd] in Hv. rewrite Hold in Hv. exists e, key, pv.
      remember (fin_original_kvs fin) as originals in *. destruct originals; [|by split_and!]. destruct (stays _ _ _ _) eqn:Hstays; [|done].
      split_and!; [right; by apply elem_of_kept_blocks|done..].
  - intros (e & key & pv & He & Hkey & -> & ->). split; [apply rollback_key_prefix|]. cbn [block_key fst snd].
    change (s' !! record_key (pk_point e) key = Some (encode pv)).
    remember (fin_original_kvs fin) as originals eqn:Ho in He. destruct originals as [o|]; symmetry in Ho.
    + apply elem_of_cons in He as [->|He]; [by apply (own_record o)|].
      apply elem_of_kept_blocks in He as [He Hstays]. by rewrite (older_record e key pv), Ho, Hstays.
    + rewrite (older_record e key pv) by done. by rewrite Ho.
Qed.
End CommitRecords.

(** ** Rollbacks *)
Lemma undo_batch_ops newer op :
  op ∈ undo_batch newer ↔
  ∃ e key pv, e ∈ newer ∧ pk_original_kvs e !! key = Some pv ∧
    (op = match pv with Present prev => Put key prev | NotPresent => Delete key end ∨
     op = Delete (record_key (pk_point e) key)).
Proof.
  unfold undo_batch. rewrite list_elem_of_bind. split.
  - intros (e & Hop & He). apply list_elem_of_bind in Hop as ([key pv] & Hop & Hkv). apply elem_of_hm_iter in Hkv.
    exists e, key, pv. split_and!; [done..|]. cbn [undo_kv] in Hop. by rewrite elem_of_cons, list_elem_of_singleton in Hop.
  - intros (e & key & pv & He & Hkv & Hop). exists e. split; [|done]. apply list_elem_of_bind. exists (key, pv).
    split; [|by apply elem_of_hm_iter]. cbn [undo_kv]. by rewrite elem_of_cons, list_elem_of_singleton.
Qed.

Lemma undo_batch_puts newer k :
  (∀ e, e ∈ newer → entry_ok e) → rollback_prefix `prefix_of` k →
  Forall (λ op, ¬ op_puts k op) (undo_batch newer).
Proof.
  intros Hok Hk. apply Forall_forall. intros op Hop. apply undo_batch_ops in Hop as (e & key & pv & He & Hkv & Hop).
  destruct (eo_kvs _ (Hok e He) _ _ Hkv) as ([Hu _] & _). destruct Hop as [->| ->]; [|by intros []].
  destruct pv; cbn [op_puts]; [|by intros []]. intros ->. by apply Hu.
Qed.

(** The records of the undone blocks are removed, and no other. *)
Lemma persisted_undo newer older s s' :
  apply_ops (undo_batch newer) s = Some s' →
  (∀ e, e ∈ newer ++ older → entry_ok e) → (∀ e e', e ∈ newer → e' ∈ older → pk_point e ≠ pk_point e') →
  ∀ blocks, blocks `prefix_of` newer ++ older → persisted blocks s → persisted (drop (length newer) blocks) s'.
Proof.
  intros Hops Hok Hne blocks Hpre Hper.
  assert (∀ e, e ∈ newer → entry_ok e) as Hok1 by (intros e He; apply Hok, elem_of_app; by left).
  assert (∀ e, e ∈ drop (length newer) blocks → e ∈ older) as Hold.
  { intros e He. destruct Hpre as [rest Hrest]. rewrite <-(drop_app_length newer older), Hrest, drop_app.
    apply elem_of_app. by left. }
  assert (∀ e, e ∈ blocks → e ∈ newer ∨ e ∈ drop (length newer) blocks) as Hcase.
  { intros e He. rewrite <-(take_drop (length newer) blocks) in He. apply elem_of_app in He as [He|He]; [left|by right].
    destruct Hpre as [rest Hrest]. rewrite <-(take_app_length newer older), Hrest, take_app. apply elem_of_app. by left. }
  intros k v. split.
  - intros [Hk Hv]. pose proof (apply_ops_kept _ _ _ _ _ (undo_batch_puts newer k Hok1 Hk) Hops Hv) as Hs.
    destruct (proj1 (Hper k v) (conj Hk Hs)) as (e & key & pv & He & Hkv & Heq & ->). exists e, key, pv. split_and!; [|done..].
    destruct (Hcase e He) as [Hin|]; [|done]. exfalso.
    erewrite (apply_ops_deleted _ _ _ k (undo_batch_puts newer k Hok1 Hk)) in Hv; [done| |exact Hops].
    apply undo_batch_ops. exists e, key, pv. split_and!; [done..|]. right. by rewrite Heq.
  - intros (e & key & pv & He & Hkv & Heq & ->). pose proof (Hold e He) as Heo.
    destruct (proj2 (Hper k (encode pv))) as [Hk Hs].
    { exists e, key, pv. split_and!; [|done..]. rewrite <-(take_drop (length newer) blocks). apply elem_of_app. by right. }
    split; [exact Hk|]. rewrite <-Hs. eapply apply_ops_untouched; [|exact Hops]. apply Forall_forall. intros op Hop.
    apply undo_batch_ops in Hop as (e' & key' & pv' & He' & Hkv' & [->| ->]).
    + destruct (eo_kvs _ (Hok1 e' He') _ _ Hkv') as ([Hu _] & _). destruct pv'; cbn [op_touches]; intros ->; by apply Hu.
    + cbn [op_touches]. rewrite Heq. intros Hrk. assert (entry_ok e) as Hoe by (apply Hok, elem_of_app; by right).
      destruct (record_key_inj e' e key' key pv' pv (Hok1 e' He') Hoe Hkv' Hkv Hrk) as [Hp _]. by eapply Hne.
Qed.
End Persist.

(** ** The stage *)
Section StagePersist.
Context {DB : Type} `{RocksDBOk DB} `{HashOrderOk} `{Ordinals} `{!CharmsLib} `{!Machine}.
Context {Ext : Type} `{!IndexMap TransactionIndexer (list byte) Ext}.
Context {C : Type} `{!MokaCache (Utxo Ext) C}.

Abbreviation data st := (db_latest (sh_db (st_db st))).

(** What a rollback writes. *)
Lemma rollback_to_point_data ts p (st st' : Stage DB C) newer :
  storage_ok (st_db st) → commit_fresh ts (st_db st) →
  points_since p (st_rollback_buffer st) = Ok newer → rollback_to_point ts p st = Ok st' →
  apply_ops (undo_batch newer) (data st) = Some (data st').
Proof.
  intros (Hfits & Hlow & _) Hfresh Hsince Hroll. unfold rollback_to_point in Hroll. rewrite Hsince in Hroll.
  cbn [or_panic map_err rbind] in Hroll. cbv zeta in Hroll. set (cts := commit_ts ts (st_db st)) in *.
  destruct (undo_batch_total newer (data st)) as [s' Hs'].
  destruct (db_write_ok (sh_db (st_db st)) no_wal (as_u64 cts) (undo_batch newer) s') as (db' & Hw & Hlast & _ & Hsnap).
  { apply Hfresh. }
  { rewrite db_snapshot_latest; [exact Hs'|]. apply N.lt_le_incl, Hfresh. }
  rewrite Hw in Hroll. cbn [or_restart map_err rbind] in Hroll. apply res_bind_ok in Hroll as ([x rb] & _ & Hroll).
  injection Hroll as <-. cbn [with_storage st_db sh_db]. unfold db_latest at 2. by rewrite Hlast, Hsnap, N.leb_refl.
Qed.

(** Values are shorter than the address space. *)
Definition values_small (s : Snapshot) : Prop :=
  ∀ k v, user_key k → s !! k = Some v → fits 64 (N.of_nat (length v)).

Lemma values_small_same s s' : same_data s s' → values_small s → values_small s'.
Proof. intros Heq Hs k v Hk Hv. apply (Hs k); [done|]. by rewrite (Heq k Hk). Qed.

(** The records a task keeps. *)
Lemma task_entry_ok (task : IndexingTask DB) (o : OriginalKVs) (sh : StorageHandler DB) (p : Point) :
  task_ready task sh → values_small (db_latest (sh_db sh)) → original_kvs task = Some o → point_ok p →
  entry_ok (MkPointKVs p o).
Proof.
  intros Hready Hsmall Ho Hp. split; [exact Hp|]. cbn [pk_original_kvs]. intros k pv Hk.
  pose proof (tr_originals _ _ Hready) as Horig. unfold originals_ok in Horig. rewrite Ho in Horig.
  rewrite Horig in Hk. case_decide as Hd; [|done]. injection Hk as <-.
  destruct (tr_keys _ _ Hready k Hd) as [Hu Hv]. split_and!; [done..|].
  rewrite (tr_snapshot _ _ Hready). destruct (db_latest (sh_db sh) !! k) as [v|] eqn:Hval; [|exact I].
  split; [by eapply Hsmall|]. by apply Forall_true.
Qed.
End StagePersist.
