(* ===== verification/Durable.v ===== *)
(** * What the store holds for a restart

    Besides the indexed data the store holds the undo records of the last
    blocks and the cursor, [IndexerInfoKV].  [durable] says what they are worth:
    the recorded blocks are the newest of the rollback buffer, all but the
    oldest at most, and the cursor names the tip.  Blocks, rollbacks and
    mempool snapshots keep it up. *)
From S2P Require Import Prelude ByteOrder EncDec Timestamp Types MergeOperation Table Rocks.
From S2P Require Import CoreTables KvStore KvStoreLaws Commit RollbackBuffer Bitcoin Context.
From S2P Require Import AddressIndexers RunesTables Runes Charms Indexers Stage Instances StageLaws Chain History Persist.

(** ** The cursor *)
Definition info_key : RawKey := encode_key IndexerInfoKV tt.
Definition info_of (p : Point) : IndexerInfo := indexer_info_new (point_height p) (point_hash p) false.

Lemma info_key_user : user_key info_key.
Proof. apply (bool_decide_eq_true_1 _). vm_compute. reflexivity. Qed.
Lemma info_key_not_tx : ¬ tx_key info_key.
Proof. intros [[r Heq]|[r Heq]]; discriminate Heq. Qed.

Section Cursor.
Context {DB : Type} `{RocksDBOk DB} `{HashOrderOk} `{Ordinals} `{!CharmsLib} `{!Machine}.
Context {Ext : Type} `{!IndexMap TransactionIndexer (list byte) Ext}.
Context {C : Type} `{!MokaCache (Utxo Ext) C}.

Abbreviation data st := (db_latest (sh_db (st_db st))).

(** A block sets the cursor to its point. *)
Lemma block_task_info {now : Clock} w point txs (st : Stage DB C) task cache :
  block_task now w point txs st = Ok (task, cache) → write_buffer task !! info_key = Some (Set_ (encode (info_of point))).
Proof.
  intros (t1 & t2 & _ & Ht2 & Ht3)%block_task_inv.
  apply task_set_inv, buffered_wb in Ht3. rewrite Ht3, lookup_insert_ne by (intros Heq; discriminate Heq).
  apply task_set_inv, buffered_wb in Ht2. rewrite Ht2. apply lookup_insert_eq.
Qed.

(** A mempool snapshot sets it to its last pseudo block, or writes nothing. *)
Lemma mempool_task_info {now : Clock} w blocks (st : Stage DB C) task cache :
  mempool_task now w blocks st = Ok (task, cache) →
  write_buffer task = ∅ ∨
  ∃ h, fits 64 h ∧ write_buffer task !! info_key =
    Some (Set_ (encode (indexer_info_new h (point_hash (st_last_processed st)) true))).
Proof.
  unfold mempool_task. intros Hb. apply res_bind_ok in Hb as ([ctx c1] & _ & Hb).
  apply res_bind_ok in Hb as ([[t1 ctx1] c2] & Ht1 & Hb). apply or_restart_ok in Ht1. injection Hb as <- _.
  destruct blocks as [|b blocks _] using rev_ind; [injection Ht1 as <- _ _; by left|right].
  unfold enumerate in Ht1. rewrite imap_app, for_each_app in Ht1. apply res_bind_ok in Ht1 as ([[t2 ctx2] c3] & _ & Ht1).
  cbn [imap for_each] in Ht1. unfold index_mempool_block in Ht1. apply res_bind_ok in Ht1 as (s3 & Hs3 & Hs3').
  apply res_bind_ok in Hs3 as ([[t4 ctx4] c5] & _ & Hs3). apply res_bind_ok in Hs3 as (t5 & Ht5 & Hs3).
  injection Hs3 as <-. injection Hs3' as <- _ _.
  apply task_set_inv, buffered_wb in Ht5. eexists. split; [|rewrite Ht5; apply lookup_insert_eq]. apply wrapping_add_fits.
Qed.

(** ** Commits of the stage *)
Lemma index_block_commit now w point txs (st st' : Stage DB C) :
  stage_ok st → (∀ task cache, block_task now w point txs st = Ok (task, cache) → keys_fit task) → point_ok point →
  commit_fresh (clock_commit now) (st_db st) → index_block now w point txs st = Ok st' →
  ∃ task cache, block_task now w point txs st = Ok (task, cache) ∧ task_ready task (st_db st) ∧
    task_mempool task = false ∧ (is_Some (original_kvs task) ↔ w_mutable w = true) ∧
    commit_result (clock_commit now) (finalize task) point (st_max_rollbacks st) None (st_db st) (st_db st') ∧
    st_rollback_buffer st' =
      match original_kvs task with
      | Some o => add_block point o (st_rollback_buffer st)
      | None => st_rollback_buffer st
      end.
Proof.
  intros [Hst Hc] Hk Hp Hfresh Hidx. pose proof Hidx as Hi. unfold index_block in Hi.
  apply res_bind_ok in Hi as ([task cache] & Htask & Hi). exists task, cache. split; [exact Htask|].
  pose proof (block_task_steps _ _ _ _ _ _ Htask) as Hsteps.
  assert (task_wf task) as Hwf by (eapply task_steps_wf; [exact Hsteps|apply begin_wf]).
  assert (task_ready task (st_db st)) as Hready.
  { eapply steps_ready; [exact Hsteps|by apply begin_readable|apply begin_wf|apply begin_originals
                        |by apply begin_snapshot|done|by eapply Hk]. }
  destruct (ready_commit (clock_commit now) task point (st_max_rollbacks st) None (st_db st))
    as (sh' & Happly & _ & _ & _ & Hres); [done..|].
  destruct (task_steps_same _ _ _ Hsteps) as (_ & _ & Hmem & Hiff).
  unfold commit_block in Hi. cbv zeta in Hi. rewrite Happly in Hi. injection Hi as <-.
  split; [done|]. split; [by rewrite <-Hmem|]. split; [|by split]. rewrite <-Hiff.
  cbn [begin_indexing_task original_kvs]. destruct (w_mutable w); split; intros Hx; try done; by apply is_Some_None in Hx.
Qed.

Lemma index_mempool_commit now w info blocks (st st' : Stage DB C) :
  stage_ok st → (∀ task cache, mempool_task now w blocks st = Ok (task, cache) → keys_fit task) →
  fits 64 (mempool_tip_height (st_last_processed st) blocks) → length (point_hash (st_last_processed st)) = 32 →
  commit_fresh (clock_commit now) (st_db st) → index_mempool now w info blocks st = Ok st' →
  ∃ task cache o, mempool_task now w blocks st = Ok (task, cache) ∧ task_ready task (st_db st) ∧
    task_mempool task = true ∧ original_kvs task = Some o ∧
    commit_result (clock_commit now) (finalize task)
      (MkPoint (mempool_tip_height (st_last_processed st) blocks) (point_hash (st_last_processed st)))
      (st_max_rollbacks st) (Some (snapshot_timestamp info)) (st_db st) (st_db st') ∧
    st_rollback_buffer st' = add_block (MkPoint u64_MAX (point_hash (st_last_processed st))) o (st_rollback_buffer st).
Proof.
  intros [Hst Hc] Hk Hh Hl Hfresh Hidx. pose proof Hidx as Hi. unfold index_mempool in Hi.
  apply res_bind_ok in Hi as ([task cache] & Htask & Hi).
  pose proof (mempool_task_steps _ _ _ _ _ Htask) as Hsteps.
  assert (task_wf task) as Hwf by (eapply task_steps_wf; [exact Hsteps|apply begin_mempool_wf]).
  assert (task_ready task (st_db st)) as Hready.
  { eapply steps_ready; [exact Hsteps|exact (begin_readable true _ Hst)|apply begin_mempool_wf| |by apply begin_mempool_snapshot|done|by eapply Hk].
    exact (begin_originals true (st_db st)). }
  destruct (ready_commit (clock_commit now) task
              (MkPoint (mempool_tip_height (st_last_processed st) blocks) (point_hash (st_last_processed st)))
              (st_max_rollbacks st) (Some (snapshot_timestamp info)) (st_db st))
    as (sh' & Happly & _ & _ & _ & Hres); [done..|].
  destruct (task_steps_same _ _ _ Hsteps) as (_ & _ & Hmem & Hiff). destruct (proj1 Hiff) as [o Ho]; [by eexists|].
  exists task, cache, o. unfold commit_mempool in Hi. cbv zeta in Hi. rewrite Happly in Hi.
  cbn [or_restart map_err rbind finalize fin_original_kvs] in Hi. rewrite Ho in Hi. injection Hi as <-.
  split; [done|]. split; [done|]. split; [by rewrite <-Hmem|]. by split_and!.
Qed.
End Cursor.

(** ** Lists of blocks *)

(** Consecutive heights, from the one given downwards. *)
Definition descend (top : N) (l : list PointWithOriginalKVs) : Prop :=
  ∀ i e, l !! i = Some e → (point_height (pk_point e) + N.of_nat i = top)%N.

Lemma descend_cons top e l :
  descend (top + 1) (e :: l) ↔ point_height (pk_point e) = (top + 1)%N ∧ descend top l.
Proof.
  split.
  - intros Hd. split; [specialize (Hd 0 e eq_refl); lia|]. intros i x Hx. specialize (Hd (S i) x Hx). lia.
  - intros [He Hd] [|i] x Hx; [injection Hx as <-; lia|]. specialize (Hd i x Hx). lia.
Qed.

Lemma descend_take n top l : descend top l → descend top (take n l).
Proof. intros Hd i e [He _]%lookup_take_Some. by apply Hd. Qed.

(** The blocks of a window are the newest of them. *)
Lemma window_take (n : nat) top l :
  descend top l → filter (λ e, is_true (top + 1 - N.of_nat n <=? point_height (pk_point e))%N) l = take n l.
Proof.
  revert n top. induction l as [|e l IH]; intros n top Hd; [by rewrite take_nil|].
  pose proof (Hd 0 e eq_refl) as He. simpl in He. rewrite filter_cons. unfold is_true.
  destruct n as [|n]; cbn [take].
  - rewrite decide_False by (rewrite N.leb_le; lia). apply elem_of_nil_inv.
    intros x [Hle [i Hx]%list_elem_of_lookup]%list_elem_of_filter. apply N.leb_le in Hle.
    specialize (Hd (S i) x Hx). lia.
  - rewrite decide_True by (apply N.leb_le; lia). f_equal. destruct l as [|e' l]; [by rewrite take_nil|].
    pose proof (Hd 1 e' eq_refl) as He'. simpl in He'. rewrite <-(IH n (top - 1)%N).
    + apply list_filter_iff. intros x. unfold is_true. rewrite !N.leb_le. lia.
    + intros i x Hx. specialize (Hd (S i) x Hx). lia.
Qed.

Lemma prefix_of_drop {A} n (l1 l2 : list A) : l1 `prefix_of` l2 → drop n l1 `prefix_of` drop n l2.
Proof. intros [k ->]. rewrite drop_app. by apply prefix_app_r. Qed.

Lemma prefix_of_take {A} n (l1 l2 : list A) : l1 `prefix_of` l2 → length l1 ≤ n → l1 `prefix_of` take n l2.
Proof. intros [k ->] Hn. rewrite take_app, take_ge by done. by apply prefix_app_r. Qed.

Lemma restores_points es copies s : restores es copies s → pk_point <$> es = copies.*1.
Proof.
  revert copies s. induction es as [|e es IH]; intros [|[p s0] copies] s; try done.
  intros (-> & _ & s' & _ & Hr). csimpl. f_equal. by eapply IH.
Qed.

Lemma points_sorted es copies :
  pk_point <$> es = copies.*1 → StronglySorted lower copies → StronglySorted higher es.
Proof.
  revert copies. induction es as [|e es IH]; intros [|[p s0] copies] Heq Hs; try done; [constructor|].
  csimpl in Heq. injection Heq as He Heq. apply StronglySorted_inv in Hs as [Hs Hlow]. constructor; [by eapply IH|].
  apply Forall_forall. intros x Hx. assert (pk_point x ∈ copies.*1) as (c & Hc & Hin)%list_elem_of_fmap.
  { rewrite <-Heq. by apply list_elem_of_fmap_2. }
  rewrite Forall_forall in Hlow. specialize (Hlow c Hin). unfold lower, higher in *. by rewrite He, Hc.
Qed.

Lemma back_to_suffix p copies rest : back_to p copies = Some rest → rest `suffix_of` copies.
Proof.
  induction copies as [|c copies IH]; [done|]. cbn [back_to]. case_decide; [by intros [= <-]|].
  intros Hb. by apply suffix_cons_r, IH.
Qed.

(** ** What the store holds for a restart *)
Section Durable.
Context {DB : Type} `{RocksDBOk DB} `{HashOrderOk} `{Ordinals} `{!CharmsLib} `{!Machine}.
Context {Ext : Type} `{!IndexMap TransactionIndexer (list byte) Ext}.
Context {C : Type} `{!MokaCache (Utxo Ext) C}.

Abbreviation data st := (db_latest (sh_db (st_db st))).
Abbreviation points st := (rb_points (st_rollback_buffer st)).

(** The recorded blocks without the mempool snapshot. *)
Definition confirmed (I : Ideal) (blocks : list PointWithOriginalKVs) : list PointWithOriginalKVs :=
  if id_mempool I then tail blocks else blocks.

(** The cursor in the store: the tip, or the mempool snapshot on it if that
    wrote anything. *)
Definition cursor_at_tip (I : Ideal) (s : Snapshot) : Prop :=
  id_chain I = [] ∧ s !! info_key = None ∨ s !! info_key = Some (encode (info_of (id_tip I))).
Definition cursor_ok (I : Ideal) (blocks : list PointWithOriginalKVs) (s : Snapshot) : Prop :=
  if id_mempool I then
    ∃ e rest, blocks = e :: rest ∧ pk_point e = mempool_point (id_tip I) ∧
      (pk_original_kvs e = ∅ ∧ cursor_at_tip I s ∨
       pk_original_kvs e ≠ ∅ ∧ ∃ h, fits 64 h ∧
         s !! info_key = Some (encode (indexer_info_new h (point_hash (id_tip I)) true)))
  else cursor_at_tip I s.

Definition copy_durable (c : Point * Snapshot) : Prop :=
  values_small c.2 ∧ (point_height c.1 ≠ u64_MAX → c.2 !! info_key = Some (encode (info_of c.1))).

(** The recorded blocks are the newest of the buffer, all but the oldest at
    most. *)
Record durable_at (blocks : list PointWithOriginalKVs) (st : Stage DB C) (I : Ideal) : Prop := {
  du_fits : fits 64 (st_max_rollbacks st + 2);
  du_capacity : capacity (st_rollback_buffer st) = (st_max_rollbacks st + 2)%N;
  du_entries : Forall entry_ok (points st);
  du_prefix : blocks `prefix_of` points st;
  du_short : length (points st) ≤ length blocks + 1;
  du_descend : descend (point_height (id_tip I)) (confirmed I blocks);
  du_window : (N.of_nat (length (confirmed I blocks)) <= st_max_rollbacks st + 1)%N;
  du_nonempty : Forall (λ e, pk_original_kvs e ≠ ∅) (confirmed I blocks);
  du_persisted : persisted blocks (data st);
  du_cursor : cursor_ok I blocks (data st);
  du_small : values_small (data st);
  du_copies : Forall copy_durable (id_copies I);
}.
Definition durable (st : Stage DB C) (I : Ideal) : Prop := ∃ blocks, durable_at blocks st I.
Definition small_after (st : Stage DB C) : Prop := values_small (data st).

Lemma tracks_points w (st : Stage DB C) I : tracks w st I → pk_point <$> points st = (id_copies I).*1.
Proof. intros HI. eapply restores_points, HI. Qed.

Lemma tracks_sorted w (st : Stage DB C) I : tracks w st I → StronglySorted higher (points st).
Proof. intros HI. eapply points_sorted; [by eapply tracks_points|apply HI]. Qed.

(** The snapshot on top is undone first. *)
Lemma confirmed_drop w (st : Stage DB C) I blocks newer e older :
  tracks w st I → durable_at blocks st I → points st = newer ++ e :: older → point_height (pk_point e) ≠ u64_MAX →
  ∃ n, drop (length newer) blocks = drop n (confirmed I blocks).
Proof.
  intros HI Hdu Hpts He. unfold confirmed. destruct (id_mempool I) eqn:Hm; [|by eexists].
  pose proof (du_cursor _ _ _ Hdu) as Hc. unfold cursor_ok in Hc. rewrite Hm in Hc.
  destruct Hc as (e0 & rest & -> & He0 & _). pose proof (du_prefix _ _ _ Hdu) as [k Hk]. rewrite Hpts in Hk.
  destruct newer as [|e1 newer]; [|by exists (length newer)].
  injection Hk as -> _. by rewrite He0 in He.
Qed.

Lemma rollback_durable ts w p (st st' : Stage DB C) I copies :
  tracks w st I → durable st I → commit_fresh ts (st_db st) → point_height p ≠ u64_MAX →
  rollback_to_point ts p st = Ok st' → back_to p (id_copies I) = Some copies →
  let I' := MkIdeal (take (N.to_nat (point_height p)) (id_chain I)) p false copies in
  tracks w st' I' → durable st' I'.
Proof.
  intros HI [blocks Hdu] Hfresh Hp Hroll Hback I' HI'. pose proof (rollback_setup _ _ _ _ Hroll) as (_ & Hcap & Hmax).
  assert (∃ n, position p (st_rollback_buffer st) = Some n) as [n Hpos].
  { unfold rollback_to_point, points_since in Hroll. destruct (position _ _); [by eexists|done]. }
  pose proof Hpos as Hpos0. apply position_inv in Hpos as (newer & e & older & Hpts & <- & -> & Hn).
  destruct (rollback_to_point_ok ts (pk_point e) st newer e older (so_storage _ (tk_ok _ _ _ HI)) Hfresh Hpts eq_refl Hn)
    as (st1 & Hroll1 & _ & _ & Hrb & _). rewrite Hroll in Hroll1. injection Hroll1 as <-.
  assert (points st' = e :: older) as Hpts' by (by rewrite Hrb).
  destruct (confirmed_drop _ _ _ _ _ _ _ HI Hdu Hpts Hp) as [m Hm].
  pose proof (tk_restores _ _ _ HI') as Hres. rewrite Hpts' in Hres. pose proof (back_to_suffix _ _ _ Hback) as [pre Hpre].
  destruct Hdu as [Hf Hc Hent Hprefix Hshort Hdesc Hwin Hne Hper Hcur Hsmall Hcop]. cbn [id_copies I'] in Hres.
  rewrite Hpre in Hcop. apply Forall_app in Hcop as [_ Hcop]. rewrite Hpts in Hprefix, Hshort, Hent.
  assert (drop (length newer) blocks `prefix_of` e :: older) as Hprefix'.
  { rewrite <-(drop_app_length newer (e :: older)). by apply prefix_of_drop. }
  destruct copies as [|[p0 s0] copies]; [done|]. destruct Hres as (-> & Hs0 & _).
  apply Forall_cons in Hcop as Hhead. destruct Hhead as [[Hsm0 Hinfo0] _]. cbn [fst snd] in *.
  exists (drop (length newer) blocks). split; rewrite ?Hmax, ?Hcap, ?Hpts'; cbn [confirmed I' id_mempool id_tip id_copies]; try done.
  - by apply Forall_app in Hent as [_ Hent].
  - rewrite length_app in Hshort. rewrite length_drop. simpl in *. lia.
  - rewrite Hm in *. destruct Hprefix' as [k Hk]. intros i x Hx.
    assert (∃ x0, drop m (confirmed I blocks) !! 0 = Some x0) as [x0 Hx0].
    { destruct (drop m (confirmed I blocks)); [done|by eexists]. }
    assert (x0 = e) as ->.
    { destruct (drop m (confirmed I blocks)) as [|y l]; [done|]. injection Hx0 as ->. by injection Hk. }
    rewrite lookup_drop in Hx, Hx0. apply Hdesc in Hx, Hx0. lia.
  - rewrite Hm, length_drop. lia.
  - rewrite Hm. by apply Forall_drop.
  - eapply (persisted_undo newer (e :: older)); [|rewrite <-Forall_forall; exact Hent| |exact Hprefix|exact Hper].
    + eapply rollback_to_point_data; [apply HI|done| |exact Hroll]. unfold points_since. rewrite Hpos0, Hpts.
      by rewrite take_app_length.
    + pose proof (tracks_sorted _ _ _ HI) as Hs. rewrite Hpts in Hs. apply StronglySorted_app in Hs as (Hs & _ & _).
      intros e1 e2 He1 He2 Heq. specialize (Hs e1 e2 He1 He2). unfold higher in Hs. rewrite Heq in Hs. lia.
  - right. rewrite (Hs0 info_key info_key_user). by apply Hinfo0.
  - by eapply values_small_same.
Qed.

Lemma kept_blocks_take fin p max_rollback top blocks :
  fin_mempool fin = false → descend top blocks → point_height p = (top + 1)%N →
  kept_blocks fin p max_rollback blocks = take (N.to_nat max_rollback) blocks.
Proof.
  intros Hm Hd Hp. rewrite <-(window_take (N.to_nat max_rollback) top blocks Hd), N2Nat.id, <-Hp.
  unfold kept_blocks, stays. rewrite Hm. done.
Qed.

(** The records of a task that wrote the cursor are not empty. *)
Lemma info_recorded (task : IndexingTask DB) sh o a :
  task_ready task sh → original_kvs task = Some o → write_buffer task !! info_key = Some a → o ≠ ∅.
Proof.
  intros Hready Ho Ha ->. pose proof (tr_originals _ _ Hready) as Horig. unfold originals_ok in Horig. rewrite Ho in Horig.
  specialize (Horig info_key). rewrite decide_True in Horig by (by eapply elem_of_dom_2). by rewrite lookup_empty in Horig.
Qed.

(** The cursor after a commit that wrote it. *)
Lemma info_after ts (task : IndexingTask DB) p max_rollback mempool_ts sh sh' v :
  commit_result ts (finalize task) p max_rollback mempool_ts sh sh' →
  write_buffer task !! info_key = Some (Set_ v) → db_latest (sh_db sh') !! info_key = Some v.
Proof.
  intros Hres Hw. pose proof (br_data _ _ _ _ _ _ _ (cr_batch _ _ _ _ _ _ _ Hres) info_key info_key_user) as Hd.
  unfold effect in Hd. cbn [finalize fin_write_buffer] in Hd. rewrite Hw in Hd. by injection Hd.
Qed.

(** A task that wrote nothing recorded nothing and leaves the cursor. *)
Lemma nothing_recorded (task : IndexingTask DB) sh o :
  task_ready task sh → original_kvs task = Some o → write_buffer task = ∅ → o = ∅.
Proof.
  intros Hready Ho Hw. pose proof (tr_originals _ _ Hready) as Horig. unfold originals_ok in Horig. rewrite Ho in Horig.
  apply map_empty. intros k. rewrite Horig, Hw, dom_empty_L. by rewrite decide_False by apply not_elem_of_empty.
Qed.

Lemma info_kept ts (task : IndexingTask DB) p max_rollback mempool_ts sh sh' :
  commit_result ts (finalize task) p max_rollback mempool_ts sh sh' →
  write_buffer task = ∅ → db_latest (sh_db sh') !! info_key = db_latest (sh_db sh) !! info_key.
Proof.
  intros Hres Hw. pose proof (br_data _ _ _ _ _ _ _ (cr_batch _ _ _ _ _ _ _ Hres) info_key info_key_user) as Hd.
  cbn [finalize fin_write_buffer] in Hd. rewrite effect_untouched in Hd by (rewrite Hw, dom_empty_L; set_solver). by injection Hd.
Qed.

(** The entries of a buffer with one more block. *)
Lemma add_block_points p o (rb : RollbackBuffer) :
  rb_points (add_block p o rb) = take (N.to_nat (rb_size rb)) (MkPointKVs p o :: rb_points rb).
Proof. unfold add_block, with_points. cbn [rb_points]. apply truncate_take. Qed.

(** One more entry, in the buffer and among the recorded blocks. *)
Lemma entry_added (e : PointWithOriginalKVs) (size : u64) (n : nat) (blocks pts : list PointWithOriginalKVs) :
  blocks `prefix_of` pts → length pts ≤ length blocks + 1 → fits 64 (size + 2) →
  (N.of_nat (length (take n blocks)) <= size + 1)%N → length blocks ≤ n ∨ n = N.to_nat size →
  let pts' := take (N.to_nat (size + 2)) (e :: pts) in
  e :: take n blocks `prefix_of` pts' ∧ length pts' ≤ length (e :: take n blocks) + 1.
Proof.
  intros Hpre Hshort _ Hlen Hn. cbn zeta. split.
  - apply prefix_of_take; [|simpl; lia]. apply prefix_cons. etrans; [apply prefix_take|exact Hpre].
  - rewrite length_take. cbn [length]. rewrite length_take. destruct Hn as [Hn|Hn]; lia.
Qed.

(** The buffer after an event that was recorded. *)
Lemma points_added (st st' : Stage DB C) p o :
  capacity (st_rollback_buffer st) = (st_max_rollbacks st + 2)%N →
  st_rollback_buffer st' = add_block p o (st_rollback_buffer st) →
  points st' = take (N.to_nat (st_max_rollbacks st + 2)) (MkPointKVs p o :: points st).
Proof. intros Hc Hrb. rewrite Hrb, add_block_points. unfold capacity in Hc. by rewrite Hc. Qed.

(** No recorded block is the point of an event above the tip. *)
Lemma above_recorded w (st : Stage DB C) I blocks p :
  tracks w st I → id_mempool I = false → blocks `prefix_of` points st →
  (point_height (id_tip I) < point_height p)%N → ∀ e, e ∈ blocks → pk_point e ≠ p.
Proof.
  intros HI Hm [k Hk] Hp e He Heq.
  assert (pk_point e ∈ (id_copies I).*1) as (c & Hc1 & Hc2)%list_elem_of_fmap.
  { rewrite <-(tracks_points _ _ _ HI), Hk. apply list_elem_of_fmap_2, elem_of_app. by left. }
  pose proof (copies_below I Hm (tk_sorted _ _ _ HI) (tk_top _ _ _ HI)) as Hbelow.
  rewrite Forall_forall in Hbelow. specialize (Hbelow c Hc2). rewrite <-Hc1, Heq in Hbelow. lia.
Qed.

Lemma recorded_ok (st : Stage DB C) blocks :
  Forall entry_ok (points st) → blocks `prefix_of` points st → ∀ e, e ∈ blocks → entry_ok e.
Proof. intros Hent [k Hk] e He. rewrite Forall_forall in Hent. apply Hent. rewrite Hk. apply elem_of_app. by left. Qed.

(** A mempool snapshot leaves the recorded blocks and adds itself. *)
Lemma mempool_blocks_after (task : IndexingTask DB) p max_rollback blocks o :
  fin_mempool (finalize task) = true → original_kvs task = Some o →
  blocks_after (finalize task) p max_rollback blocks = MkPointKVs (mempool_point p) o :: blocks.
Proof.
  intros Hm Ho. unfold blocks_after, kept_blocks, stays, record_height. cbn [finalize fin_original_kvs fin_mempool] in *.
  rewrite Ho, Hm. cbn [orb]. by rewrite filter_all.
Qed.

Lemma block_durable now w w' point txs (st st' : Stage DB C) I copies :
  tracks w st I → durable st I → id_mempool I = false → w_indexers w' = w_indexers w →
  (w_mutable w' = false → id_copies I = []) →
  length (point_hash point) = 32 → point_height point = (point_height (id_tip I) + 1)%N →
  commit_fresh (clock_commit now) (st_db st) →
  (∀ task cache, block_task now w' point txs st = Ok (task, cache) → keys_fit task) →
  index_block now w' point txs st = Ok st' → small_after st' →
  copies = keep (capacity (st_rollback_buffer st)) point (data st') (id_copies I) ∨ id_copies I = [] ∧ copies = [] →
  durable st' (MkIdeal (id_chain I ++ [point_hash point]) point false copies).
Proof.
  intros HI [blocks Hdu] Hm Hw Hmut Hl Hh Hfresh Hkeys Hidx Hsmall' Hcopies.
  pose proof (tk_height _ _ _ HI) as Htip.
  assert (point_ok point) as Hp by (split; [unfold fits, u64_MAX in *; lia|done]).
  destruct (index_block_setup _ _ _ _ _ _ Hidx) as (_ & Hcap & Hmax).
  destruct (index_block_commit now w' point txs st st') as (task & cache & Htask & Hready & Hmem & Hiff & Hres & Hrb);
    [apply HI|done..|].
  pose proof (block_task_info _ _ _ _ _ _ Htask) as Hinfo. pose proof (info_after _ _ _ _ _ _ _ _ Hres Hinfo) as Hcur'.
  pose proof (tracks_points _ _ _ HI) as Hpoints.
  destruct Hdu as [Hf Hc Hent Hprefix Hshort Hdesc Hwin Hne Hper Hcur Hsmall Hcop]. unfold confirmed in *. rewrite Hm in *.
  assert (Hnew : ∀ o, original_kvs task = Some o → entry_ok (MkPointKVs point o)) by (intros o Ho; by eapply task_entry_ok).
  assert (Hper' : persisted (blocks_after (finalize task) point (st_max_rollbacks st) blocks) (data st')).
  { assert (MkPoint (record_height (finalize task) point) (point_hash point) = point) as Hpt.
    { unfold record_height. cbn [finalize fin_mempool]. rewrite Hmem. by destruct point. }
    eapply persisted_commit; [apply Hres|by apply (recorded_ok st)| | |exact Hper]; rewrite Hpt; [|exact Hnew].
    eapply above_recorded; [exact HI|done|done|lia]. }
  assert (Forall copy_durable copies) as Hcop'.
  { destruct Hcopies as [->|[_ ->]]; [|constructor]. apply Forall_take. constructor; [|done]. by split. }
  exists (blocks_after (finalize task) point (st_max_rollbacks st) blocks). unfold blocks_after in *.
  cbn [finalize fin_original_kvs] in *. destruct (original_kvs task) as [o|] eqn:Ho.
  - rewrite (kept_blocks_take _ _ _ (point_height (id_tip I))) in * by done.
    unfold record_height in *. cbn [finalize fin_mempool] in *. rewrite Hmem in *.
    pose proof (points_added st st' point o Hc Hrb) as Hpts'.
    assert (MkPoint (point_height point) (point_hash point) = point) as Hpt by by destruct point. rewrite Hpt in *.
    destruct (entry_added (MkPointKVs point o) (st_max_rollbacks st) (N.to_nat (st_max_rollbacks st)) blocks (points st))
      as [Hpre' Hshort']; [done|done|done|rewrite length_take; lia|by right|]. rewrite <-Hpts' in Hpre', Hshort'.
    split; rewrite ?Hmax, ?Hcap; cbn [confirmed id_mempool id_tip id_copies]; try done.
    + rewrite Hpts'. apply Forall_take. constructor; [by apply Hnew|done].
    + rewrite Hh. apply descend_cons. split; [done|by apply descend_take].
    + simpl. rewrite length_take. lia.
    + constructor; [by eapply info_recorded|by apply Forall_take].
    + by right.
  - assert (id_copies I = []) as Hnil.
    { apply Hmut. destruct (w_mutable w'); [|done]. destruct (proj2 Hiff eq_refl) as [x Hx]. done. }
    rewrite Hnil in Hpoints. apply fmap_nil_inv in Hpoints. rewrite Hpoints in Hprefix.
    apply prefix_nil_inv in Hprefix as ->.
    split; rewrite ?Hmax, ?Hcap, ?Hrb, ?Hpoints; cbn [confirmed id_mempool id_tip id_copies]; try done; try (simpl; lia).
    by right.
Qed.

Lemma mempool_durable now w info mblocks (st st' : Stage DB C) I :
  tracks w st I → durable st I → id_mempool I = false → id_copies I ≠ [] →
  commit_fresh (clock_commit now) (st_db st) →
  (∀ task cache, mempool_task now w mblocks st = Ok (task, cache) → keys_fit task) →
  index_mempool now w info mblocks st = Ok st' → small_after st' →
  durable st' (MkIdeal (id_chain I) (id_tip I) true
    (keep (capacity (st_rollback_buffer st)) (mempool_point (id_tip I)) (data st') (id_copies I))).
Proof.
  intros HI [blocks Hdu] Hm _ Hfresh Hkeys Hidx Hsmall'. pose proof (tk_height _ _ _ HI) as Htip.
  destruct (chain_at_ok _ _ _ _ (tk_genesis _ _ _ HI) (tk_chain _ _ _ HI)) as [Hft Hlt].
  pose proof (tk_tip _ _ _ HI) as Hlast.
  destruct (index_mempool_setup _ _ _ _ _ _ Hidx) as (_ & Hcap & Hmax).
  destruct (index_mempool_commit now w info mblocks st st') as (task & cache & o & Htask & Hready & Hmem & Ho & Hres & Hrb);
    [apply HI|done|rewrite <-Hlast; by apply mempool_tip_fits|by rewrite <-Hlast|done|done|].
  rewrite <-Hlast in Hres, Hrb.
  set (mp := mempool_point (id_tip I)) in *.
  destruct Hdu as [Hf Hc Hent Hprefix Hshort Hdesc Hwin Hne Hper Hcur Hsmall Hcop]. unfold confirmed in *. rewrite Hm in *.
  assert (Hnew : entry_ok (MkPointKVs mp o)).
  { eapply task_entry_ok; [exact Hready|exact Hsmall|exact Ho|]. split; [vm_compute; reflexivity|exact Hlt]. }
  assert (Hper' : persisted (MkPointKVs mp o :: blocks) (data st')).
  { set (p := MkPoint _ (point_hash (id_tip I))) in Hres.
    assert (MkPoint (record_height (finalize task) p) (point_hash p) = mp) as Hpt.
    { unfold record_height. cbn [finalize fin_mempool]. by rewrite Hmem. }
    assert (blocks_after (finalize task) p (st_max_rollbacks st) blocks = MkPointKVs mp o :: blocks) as <-
      by exact (mempool_blocks_after task p (st_max_rollbacks st) blocks o Hmem Ho).
    eapply persisted_commit; [apply Hres|by apply (recorded_ok st)| | |exact Hper]; rewrite Hpt.
    - eapply above_recorded; [exact HI|done|done|exact Htip].
    - cbn [finalize fin_original_kvs]. rewrite Ho. intros o' Ho'. by injection Ho' as <-. }
  pose proof (points_added st st' mp o Hc Hrb) as Hpts'.
  destruct (entry_added (MkPointKVs mp o) (st_max_rollbacks st) (length blocks) blocks (points st))
    as [Hpre' Hshort']; [done|done|done|by rewrite take_ge|by left|].
  rewrite <-Hpts' in Hpre', Hshort'. rewrite take_ge in Hpre', Hshort' by done.
  exists (MkPointKVs mp o :: blocks).
  split; rewrite ?Hmax, ?Hcap; cbn [confirmed id_mempool id_tip id_copies tail]; try done.
  - rewrite Hpts'. apply Forall_take. by constructor.
  - exists (MkPointKVs mp o), blocks. split_and!; [done..|]. cbn [pk_original_kvs].
    destruct (mempool_task_info _ _ _ _ _ Htask) as [Hw|(h & Hh & Hw)].
    + left. split; [by eapply nothing_recorded|]. unfold cursor_ok in Hcur. rewrite Hm in Hcur. unfold cursor_at_tip in *.
      cbn [id_chain id_tip]. by rewrite (info_kept _ _ _ _ _ _ _ Hres Hw).
    + right. split; [by eapply info_recorded|]. exists h. split; [done|]. rewrite Hlast. by eapply info_after.
  - apply Forall_take. constructor; [|done]. split; [done|]. by intros [].
Qed.

Lemma durable_preserved : preserved durable small_after any_block.
Proof.
  split.
  - intros ts w p st st' I copies. apply rollback_durable.
  - intros now w w' point txs st st' I copies HI HD Hm Hi Hmut Hl Hh Hf Hk Hx Ha _. by eapply block_durable.
  - intros now w info blocks st st' I. apply mempool_durable.
Qed.
End Durable.
