(* ===== verification/Restart.v ===== *)
(** * Restarts

    [Stage::new] (src/src/sync/stages/index/worker/stage.rs) starts the worker
    from what the store holds: the chain, the undo records and the cursor.
    Whatever blocks, rollbacks, mempool snapshots and restarts came before, it
    starts, and the new worker follows the chain where the old one stopped.

    The write-ahead log is off, so a crash may lose the last commits; what is
    left is the data of an earlier commit, which is a state this file speaks
    of as well. *)
From S2P Require Import Prelude Float ByteOrder EncDec Timestamp Types MergeOperation Table Rocks.
From S2P Require Import CoreTables KvStore KvStoreLaws Commit RollbackBuffer Bitcoin Context.
From S2P Require Import AddressIndexers RunesTables Runes Charms Indexers Stage Instances StageLaws Chain History Persist Durable.

Definition undoes_something (e : PointWithOriginalKVs) : Prop := pk_original_kvs e ≠ ∅.
#[export] Instance undoes_something_dec e : Decision (undoes_something e).
Proof. unfold undoes_something. apply _. Defined.

Section Restart.
Context {DB : Type} `{RocksDBOk DB} `{HashOrderOk} `{Ordinals} `{!CharmsLib} `{!Machine}.
Context {Ext : Type} `{!IndexMap TransactionIndexer (list byte) Ext}.
Context {C : Type} `{!MokaCache (Utxo Ext) C}.

Abbreviation data st := (db_latest (sh_db (st_db st))).
Abbreviation points st := (rb_points (st_rollback_buffer st)).

(** ** Starting again *)

(** The database is opened again: it holds the same data, and this process
    has made no commit yet. *)
Definition reopened (sh sh' : StorageHandler DB) : Prop :=
  previous_timestamp sh' = None ∧ storage_ok sh' ∧ db_latest (sh_db sh') = db_latest (sh_db sh).

Lemma persisted_nonempty blocks s : persisted blocks s → persisted (filter undoes_something blocks) s.
Proof.
  intros Hper k v. rewrite (Hper k v). split; intros (e & key & pv & He & Hkey & Hrest); exists e, key, pv; (split; [|done]).
  - apply list_elem_of_filter. split; [|done]. unfold undoes_something. intros Heq. by rewrite Heq, lookup_empty in Hkey.
  - by apply list_elem_of_filter in He as [_ He].
Qed.

Lemma entry_block_ok e : entry_ok e → undoes_something e → block_ok e.
Proof. intros [Hp Hk] Hne. split; [done|done|]. intros k pv Hkey. by destruct (Hk k pv Hkey) as (_ & ?). Qed.

(** What the new buffer holds. *)
Lemma fetch_durable blocks w (st : Stage DB C) I sh max_rollback safe_mode :
  tracks w st I → durable_at blocks st I → reopened (st_db st) sh →
  st_max_rollbacks st = default DEFAULT_MAX_ROLLBACK max_rollback →
  fetch_from_storage max_rollback safe_mode sh =
  Ok (MkRollbackBuffer (filter undoes_something blocks) (st_max_rollbacks st + 2) (default false safe_mode)).
Proof.
  intros HI Hdu (_ & Hsh & Heq) Hmax. pose proof (tracks_sorted _ _ _ HI) as Hs.
  destruct Hdu as [Hf Hc Hent Hprefix Hshort Hdesc Hwin Hne Hper Hcur Hsmall Hcop].
  destruct Hprefix as [k Hk]. rewrite Hk in Hent, Hs. apply Forall_app in Hent as [Hent _].
  apply StronglySorted_app in Hs as (_ & Hs & _). rewrite Hmax in *.
  apply fetch_from_storage_points; [done| | |by rewrite Heq; apply persisted_nonempty|done|].
  - rewrite Forall_forall in Hent |- *. intros e [Hne' He]%list_elem_of_filter. apply entry_block_ok; [by apply Hent|done].
  - clear -Hs. induction Hs as [|e l Hs IH Hall]; [constructor|]. rewrite filter_cons. case_decide; [|done].
    constructor; [done|]. rewrite Forall_forall in Hall |- *. intros x [_ Hx]%list_elem_of_filter. by apply Hall.
  - assert (length (filter undoes_something blocks) ≤ length blocks) by apply length_filter.
    assert (length blocks ≤ length (confirmed I blocks) + 1); [|lia].
    unfold confirmed. destruct (id_mempool I); [|lia]. destruct blocks; simpl; lia.
Qed.

(** The newest recorded block is the tip. *)
Lemma confirmed_head w (st : Stage DB C) I blocks e rest :
  tracks w st I → durable_at blocks st I → confirmed I blocks = e :: rest → pk_point e = id_tip I.
Proof.
  intros HI Hdu He. pose proof (du_descend _ _ _ Hdu 0 e) as Hh. rewrite He in Hh. specialize (Hh eq_refl).
  assert (e ∈ points st) as Hin.
  { destruct (du_prefix _ _ _ Hdu) as [k ->]. apply elem_of_app. left. unfold confirmed in He.
    destruct (id_mempool I); [|rewrite He; by left]. destruct blocks as [|e0 blocks]; [done|]. simpl in He. subst blocks. by right; left. }
  assert (pk_point e ∈ (id_copies I).*1) as (c & Hc1 & Hc2)%list_elem_of_fmap.
  { rewrite <-(tracks_points _ _ _ HI). by apply list_elem_of_fmap_2. }
  pose proof (tk_copies _ _ _ HI) as Hcop. rewrite Forall_forall in Hcop. destruct (Hcop c Hc2) as [_ Hat].
  pose proof (tk_height _ _ _ HI) as Htip. rewrite <-Hc1 in Hat. destruct Hat as [_ (_ & _ & Heq)]; [lia|].
  pose proof (tk_chain _ _ _ HI) as Hch. pose proof (chain_at_height _ _ _ _ Hch) as Hl. destruct Hch as (_ & _ & Ht).
  rewrite Heq, Ht. by rewrite take_ge by lia.
Qed.

(** The ideal worker after a restart: without the oldest copy at most, and
    without a mempool snapshot that wrote nothing. *)
Record restarted (blocks : list PointWithOriginalKVs) (s : Snapshot) (I I' : Ideal) : Prop := {
  rs_chain : id_chain I' = id_chain I;
  rs_tip : id_tip I' = id_tip I;
  rs_restores : restores (filter undoes_something blocks) (id_copies I') s;
  rs_copies : id_copies I' `sublist_of` id_copies I;
  rs_top c : head (id_copies I') = Some c → c.1 = top I';
  rs_confirmed : confirmed I' (filter undoes_something blocks) = confirmed I blocks;
  rs_cursor : cursor_ok I' (filter undoes_something blocks) s;
  rs_mempool : id_mempool I' = id_mempool I ∨
    id_mempool I' = false ∧ ∃ e rest, blocks = e :: rest ∧ pk_original_kvs e = ∅;
}.

Lemma prefix_restores w (st : Stage DB C) I blocks :
  tracks w st I → blocks `prefix_of` points st → restores blocks (take (length blocks) (id_copies I)) (data st).
Proof.
  intros HI [k Hk]. pose proof (restores_take (length blocks) _ _ _ (tk_restores _ _ _ HI)) as Hr.
  by rewrite Hk, take_app_length in Hr.
Qed.

Lemma take_head {A} n (l : list A) c : head (take n l) = Some c → head l = Some c.
Proof. by destruct n, l. Qed.

(** With nothing to leave out. *)
Lemma restarted_same w (st : Stage DB C) I blocks :
  tracks w st I → durable_at blocks st I → Forall undoes_something blocks →
  restarted blocks (data st) I (MkIdeal (id_chain I) (id_tip I) (id_mempool I) (take (length blocks) (id_copies I))).
Proof.
  intros HI Hdu Hall. assert (filter undoes_something blocks = blocks) as Heq.
  { apply filter_all. by apply Forall_forall. }
  split; rewrite ?Heq; cbn [id_chain id_tip id_mempool id_copies]; try done.
  - eapply prefix_restores; [done|apply Hdu].
  - apply sublist_take.
  - intros c Hc%take_head. by apply (tk_top _ _ _ HI).
  - apply Hdu.
  - by left.
Qed.

(** Without the mempool snapshot. *)
Lemma restarted_settled w (st : Stage DB C) I e rest :
  tracks w st I → durable_at (e :: rest) st I → id_mempool I = true → pk_original_kvs e = ∅ → cursor_at_tip I (data st) →
  restarted (e :: rest) (data st) I (MkIdeal (id_chain I) (id_tip I) false (take (length rest) (tail (id_copies I)))).
Proof.
  intros HI Hdu Hm Hnil Hcur. pose proof (du_nonempty _ _ _ Hdu) as Hne. unfold confirmed in Hne. rewrite Hm in Hne.
  assert (filter undoes_something (e :: rest) = rest) as Heq.
  { rewrite filter_cons_False by (intros Hx; by apply Hx). apply filter_all. by apply Forall_forall. }
  assert (restores rest (take (length rest) (tail (id_copies I))) (data st)) as Hres.
  { pose proof (prefix_restores _ _ _ _ HI (du_prefix _ _ _ Hdu)) as Hr. cbn [length take] in Hr.
    destruct (id_copies I) as [|[p s0] copies]; [done|]. destruct Hr as (-> & Hs0 & s' & Hrev & Hr).
    eapply restores_same; [|exact Hr]. intros k Hk. rewrite Hs0, <-Hrev by done. unfold revert.
    by rewrite Hnil, lookup_empty. }
  split; rewrite ?Heq; cbn [id_chain id_tip id_mempool id_copies]; try done.
  - etrans; [apply sublist_take|]. destruct (id_copies I); [done|]. cbn [tail]. by apply sublist_cons.
  - intros c Hc. pose proof (restores_points _ _ _ Hres) as Hpts. destruct rest as [|e1 rest]; [done|].
    destruct (tail (id_copies I)) as [|c' l]; [done|]. injection Hc as ->. csimpl in Hpts. injection Hpts as <- _.
    apply (confirmed_head w st I (e :: e1 :: rest) e1 rest HI Hdu). unfold confirmed. by rewrite Hm.
  - unfold confirmed. rewrite Hm. done.
  - right. split; [done|]. by exists e, rest.
Qed.

Lemma restart_ideal w (st : Stage DB C) I blocks :
  tracks w st I → durable_at blocks st I → ∃ I', restarted blocks (data st) I I'.
Proof.
  intros HI Hdu. pose proof (du_cursor _ _ _ Hdu) as Hc. pose proof (du_nonempty _ _ _ Hdu) as Hne.
  unfold cursor_ok, confirmed in *. destruct (id_mempool I) eqn:Hm.
  - destruct Hc as (e & rest & -> & He & [[Hnil Hcur]|[Hsome _]]).
    + eexists. by eapply restarted_settled.
    + eexists. eapply restarted_same; [done..|]. by constructor.
  - eexists. by eapply restarted_same.
Qed.

(** The cursor read at the start. *)
Lemma info_read (sh : StorageHandler DB) (s : Snapshot) (i : option IndexerInfo) :
  storage_ok sh → db_latest (sh_db sh) = s → s !! info_key = encode <$> i → (∀ x, i = Some x → valid x) →
  reader_get IndexerInfoKV (reader (from_u64 u64_MAX) sh) tt = Ok i.
Proof.
  intros Hok Hs Hi Hv. pose proof (storage_last_latest _ Hok) as Hlast.
  fold latest_ts. rewrite reader_get_eq by by apply storage_low_latest.
  cbn [reader reader_db reader_timestamp].
  rewrite db_snapshot_latest by done. fold (db_latest (sh_db sh)). fold info_key. rewrite Hs, Hi.
  destruct i as [x|]; [|done]. cbn [fmap option_fmap option_map decode_value]. unfold decode_or.
  by rewrite decode_all_encode by by apply Hv.
Qed.

(** The cursor the ideal worker would have. *)
Lemma cursor_read (blocks : list PointWithOriginalKVs) (s : Snapshot) (I I' : Ideal) :
  restarted blocks s I I' → point_ok (id_tip I) →
  ∃ i, s !! info_key = encode <$> i ∧ (∀ x, i = Some x → valid x) ∧
    match i with Some x => info_mempool x | None => false end = id_mempool I' ∧
    (∀ x, i = Some x → last_point_hash x = point_hash (id_tip I)) ∧
    (∀ x, i = Some x → id_mempool I' = false → MkPoint (last_point_height x) (last_point_hash x) = id_tip I).
Proof.
  intros [Hch Htip _ _ _ _ Hcur _] [Hf Hl]. unfold cursor_ok, cursor_at_tip in Hcur. rewrite Htip, Hch in Hcur.
  destruct (id_mempool I') eqn:Hm.
  - destruct Hcur as (e & rest & Heq & _ & [[Hnil _]|(_ & h & Hh & Hinfo)]).
    { assert (undoes_something e) as Hu; [|done].
      assert (e ∈ filter undoes_something blocks) as Hin by (rewrite Heq; by left). by apply list_elem_of_filter in Hin as [? _]. }
    exists (Some (indexer_info_new h (point_hash (id_tip I)) true)). split; [done|].
    split; [by intros x [= <-]|]. split; [done|]. split; [by intros x [= <-]|done].
  - destruct Hcur as [[_ Hinfo]|Hinfo]; [by exists None|]. exists (Some (info_of (id_tip I))). split; [done|].
    split; [by intros x [= <-]|]. split; [done|]. split; [by intros x [= <-]|]. intros x [= <-] _. by destruct (id_tip I).
Qed.

Lemma stage_new_restart (config : Config) w (st : Stage DB C) I I' blocks sh :
  tracks w st I → durable_at blocks st I → restarted blocks (data st) I I' → reopened (st_db st) sh →
  st_network st = cfg_network config → st_max_rollbacks st = default DEFAULT_MAX_ROLLBACK (cfg_max_rollback config) →
  ∃ cache, stage_new config sh =
    Ok (MkStage sh (cfg_indexers config) (cfg_network config)
          (MkRollbackBuffer (filter undoes_something blocks) (st_max_rollbacks st + 2) (default false (cfg_safe_mode config)))
          (st_max_rollbacks st) (id_tip I) (id_mempool I') cache (cfg_stop_after config)).
Proof.
  intros HI Hdu Hre Hopen Hnet Hmax. pose proof (fetch_durable _ _ _ _ _ _ (cfg_safe_mode config) HI Hdu Hopen Hmax) as Hfetch.
  pose proof (chain_at_ok _ _ _ _ (tk_genesis _ _ _ HI) (tk_chain _ _ _ HI)) as Hp.
  destruct (cursor_read _ _ _ _ Hre Hp) as (i & Hi & Hvalid & Hmem & Hhash & Hpoint).
  destruct Hopen as (_ & Hsh & Hdata). pose proof (info_read sh _ i Hsh Hdata Hi Hvalid) as Hread.
  destruct (tk_chain _ _ _ HI) as (Hcok & Hst & Htip). rewrite <-Hdata in Hst.
  unfold stage_new. cbv zeta. rewrite Hfetch. cbn [rbind].
  rewrite (restart_resumes_at_tip (id_chain I) sh (cfg_network config) Hsh Hcok Hst). cbn [rbind].
  assert (match last (id_chain I) with
          | Some tip => MkPoint (N.of_nat (length (id_chain I))) tip
          | None => MkPoint 0 (genesis_hash (cfg_network config))
          end = id_tip I) as -> by (rewrite Htip, <-Hnet; unfold chain_tip; by destruct (last (id_chain I))).
  rewrite Hread. cbn [rbind]. rewrite Hmem, <-Hmax.
  assert (match i with
          | Some info => check_cursor info (MkRollbackBuffer (filter undoes_something blocks) (st_max_rollbacks st + 2)
                           (default false (cfg_safe_mode config))) (id_tip I)
          | None => Ok tt
          end = Ok tt) as ->; [|by eexists].
  destruct i as [x|]; [|done]. unfold check_cursor, latest. cbv zeta. cbn [rb_points].
  destruct (head (filter undoes_something blocks)) as [e|] eqn:Hhead; [|done].
  assert (pk_point e = top I') as Htop.
  { pose proof (restores_points _ _ _ (rs_restores _ _ _ _ Hre)) as Hpts. destruct (filter undoes_something blocks) as [|e' l]; [done|].
    injection Hhead as ->. destruct (id_copies I') as [|c copies] eqn:Hc; [done|]. csimpl in Hpts. injection Hpts as -> _.
    apply (rs_top _ _ _ _ Hre). by rewrite Hc. }
  unfold top in Htop. rewrite (rs_tip _ _ _ _ Hre) in Htop. rewrite Hmem. destruct (id_mempool I').
  - rewrite Htop, (Hhash x eq_refl). cbn [mempool_point point_hash]. by rewrite bool_decide_eq_true_2.
  - rewrite Htop, (Hpoint x eq_refl eq_refl). by rewrite bool_decide_eq_true_2.
Qed.

Lemma sublist_forall {A} (P : A → Prop) l1 l2 : l1 `sublist_of` l2 → Forall P l2 → Forall P l1.
Proof. induction 1 as [|x l1 l2 _ IH|x l1 l2 _ IH]; [done|..]; intros [Hx Hl]%Forall_cons; [constructor|]; auto. Qed.

Lemma sublist_sorted {A} (R : relation A) l1 l2 : l1 `sublist_of` l2 → StronglySorted R l2 → StronglySorted R l1.
Proof.
  induction 1 as [|x l1 l2 Hsub IH|x l1 l2 Hsub IH]; intros Hs; [done| |by apply StronglySorted_inv in Hs as [Hs _]; auto].
  apply StronglySorted_inv in Hs as [Hs Hx]. constructor; [by apply IH|]. by eapply sublist_forall.
Qed.

(** The new worker is in step with the ideal one, and can start again. *)
Lemma restart_tracks w w' (st st' : Stage DB C) I I' blocks sh config :
  tracks w st I → durable_at blocks st I → restarted blocks (data st) I I' → reopened (st_db st) sh →
  st_db st' = sh → st_network st' = st_network st → st_max_rollbacks st' = st_max_rollbacks st →
  st_rollback_buffer st' = MkRollbackBuffer (filter undoes_something blocks) (st_max_rollbacks st + 2) config →
  st_last_processed st' = id_tip I → st_processed_mempool st' = id_mempool I' →
  bootstrap st' = Ok w' → tracks w' st' I' ∧ durable st' I'.
Proof.
  intros HI Hdu Hre (_ & Hsh & Hdata) Hdb Hnet Hmax Hrb Hlast Hmem Hboot. subst sh.
  destruct Hre as [Hch Htip Hres Hcop Htop Hconf Hcur _].
  pose proof (tracks_sorted _ _ _ HI) as Hsorted.
  destruct HI as [Hok Hg Hti Hme Hchain Hht Hr Hc Hs Hmut Hto].
  assert (w_mutable w' = negb (rb_is_empty (st_rollback_buffer st'))) as Hw.
  { unfold bootstrap in Hboot. apply res_bind_ok in Hboot as (l & _ & Hboot). by injection Hboot as <-. }
  split.
  - split; rewrite ?Hnet, ?Hrb, ?Hdata, ?Hch, ?Htip; try done.
    + split; [done|]. rewrite Hdata. apply Hok.
    + by eapply sublist_forall.
    + by eapply sublist_sorted.
    + rewrite Hw, Hrb. unfold rb_is_empty. cbn [rb_points]. destruct (filter undoes_something blocks); [|done].
      intros _. by destruct (id_copies I').
  - destruct Hdu as [Hf Hca Hent Hprefix Hshort Hdesc Hwin Hne Hper Hcu Hsmall Hcopies].
    exists (filter undoes_something blocks).
    split; rewrite ?Hmax, ?Hrb, ?Hdata, ?Htip, ?Hconf; cbn [rb_points capacity rb_size]; try done.
    + destruct Hprefix as [k Hk]. rewrite Hk in Hent. apply Forall_app in Hent as [Hent _].
      rewrite Forall_forall in Hent |- *. intros e [_ He]%list_elem_of_filter. by apply Hent.
    + lia.
    + by apply persisted_nonempty.
    + by eapply sublist_forall.
Qed.

(** ** The life of the index

    The process starts on an empty store, works through events and is started
    again.  Its writes are not in a write-ahead log ([no_wal]): when it stops,
    whether between two events, in the middle of one that is not finished or
    after one that failed, the database is found as one of its commits left
    it, and the index goes on from there. *)

(** A commit: the events worked through before it, and the store after it. *)
Abbreviation Commit := (list ChainEvent * StorageHandler DB)%type.

Section Life.
Context (config : Config).
(** What is assumed of the blocks that are indexed, and of the database that is
    opened again besides that it holds the same data. *)
Context (good : Clock → list BlockHash → Stage DB C → list AnyIndexer → Point → BlockTxs → Prop).
Context (found : StorageHandler DB → StorageHandler DB → Prop).

(** An event that undoes a mempool snapshot commits that first. *)
Definition undo_commits (now : Clock) (events : list ChainEvent) (st : Stage DB C) (commits : list Commit) : Prop :=
  commits = [] ∨
  ∃ st1, st_processed_mempool st = true ∧ commit_fresh (clock_undo now) (st_db st) ∧
    rollback_to_point (clock_undo now) (st_last_processed st) st = Ok st1 ∧ commits = [(events, st_db st1)].

(** The commits since the database was opened, newest first, the events worked
    through since the store was empty, as far as they are in it, and the worker
    and the stage. *)
Inductive lived : list Commit → list ChainEvent → Worker → Stage DB C → Prop :=
| lived_start sh st w :
    storage_ok sh → db_latest (sh_db sh) = ∅ → stage_new config sh = Ok st → bootstrap st = Ok w →
    lived [([], sh)] [] w st
| lived_event commits events undos now w event st w' st' :
    lived commits events w st → undo_commits now events st undos →
    event_ok now w event st → execute now w event st = Ok (w', st') → small_after st' →
    event_good good now w event st (foldl follow_event [] events) →
    lived ((events ++ [event], st_db st') :: undos ++ commits) (events ++ [event]) w' st'
| lived_restart commits events undos now w st events' sh0 sh st' w' :
    lived commits events w st → undo_commits now events st undos →
    found_after no_wal (events', sh0) (undos ++ commits) →
    reopened sh0 sh → found sh0 sh → stage_new config sh = Ok st' → bootstrap st' = Ok w' →
    lived [(events', sh)] events' w' st'.

Definition lives (events : list ChainEvent) (w : Worker) (st : Stage DB C) : Prop := ∃ commits, lived commits events w st.

Lemma lived_head commits events w st : lived commits events w st → head commits = Some (events, st_db st).
Proof.
  assert (∀ sh st', stage_new config sh = Ok st' → sh = st_db st') as Hnew.
  { intros sh st' Hnew. unfold stage_new in Hnew. cbv zeta in Hnew. inv_bind. by simplify_eq/=. }
  destruct 1 as [sh st w ? ? Hs ?| |commits events undos now w st events' sh0 sh st' w' ? ? ? ? ? Hs ?];
    cbn [head]; [by rewrite (Hnew _ _ Hs)|done|by rewrite (Hnew _ _ Hs)].
Qed.

(** A restart that loses nothing. *)
Lemma lives_restart events w st sh st' w' :
  lives events w st → reopened (st_db st) sh → found (st_db st) sh → stage_new config sh = Ok st' → bootstrap st' = Ok w' →
  lives events w' st'.
Proof.
  intros [commits Hl] Hopen Hf Hnew Hboot. eexists. eapply (lived_restart commits events [] (MkClock 0 0 (λ _ _, MkMemoryReading 0 0 0))); [exact Hl|by left| |done..].
  apply lived_head in Hl. destruct commits as [|c commits]; [done|]. injection Hl as ->. unfold found_after. cbn. by left.
Qed.

Lemma lives_start sh st w :
  storage_ok sh → db_latest (sh_db sh) = ∅ → stage_new config sh = Ok st → bootstrap st = Ok w → lives [] w st.
Proof. intros. eexists. by eapply lived_start. Qed.

Lemma lives_event events now w event st w' st' :
  lives events w st → event_ok now w event st → execute now w event st = Ok (w', st') → small_after st' →
  event_good good now w event st (foldl follow_event [] events) → lives (events ++ [event]) w' st'.
Proof. intros [commits Hl] Hev Hx Hs Hg. eexists. eapply (lived_event commits events []); [exact Hl|by left|done..]. Qed.

(** What holds of the start and is kept by events, by the undoing of a mempool
    snapshot and by restarts without loss holds always, whatever was lost. *)
Record kept (R : list ChainEvent → Worker → Stage DB C → Prop) : Prop := {
  kp_start sh st w :
    storage_ok sh → db_latest (sh_db sh) = ∅ → stage_new config sh = Ok st → bootstrap st = Ok w → R [] w st;
  kp_event events now w event st w' st' :
    R events w st → event_ok now w event st → execute now w event st = Ok (w', st') → small_after st' →
    event_good good now w event st (foldl follow_event [] events) → R (events ++ [event]) w' st';
  kp_undo events now w st st1 :
    R events w st → st_processed_mempool st = true → commit_fresh (clock_undo now) (st_db st) →
    rollback_to_point (clock_undo now) (st_last_processed st) st = Ok st1 → R events w st1;
  kp_restart events w st sh st' w' :
    R events w st → reopened (st_db st) sh → found (st_db st) sh → stage_new config sh = Ok st' → bootstrap st' = Ok w' →
    R events w' st';
}.

Lemma lived_kept R : kept R → ∀ commits events w st, lived commits events w st →
  R events w st ∧ ∀ events' sh, (events', sh) ∈ commits → ∃ w0 st0, st_db st0 = sh ∧ R events' w0 st0.
Proof.
  intros [Hstart Hevent Hundo Hrestart].
  assert (∀ sh st', stage_new config sh = Ok st' → sh = st_db st') as Hdb.
  { intros sh st' Hnew. unfold stage_new in Hnew. cbv zeta in Hnew. inv_bind. by simplify_eq/=. }
  assert (∀ now events w st undos, R events w st → undo_commits now events st undos →
    ∀ events' sh, (events', sh) ∈ undos → ∃ w0 st0, st_db st0 = sh ∧ R events' w0 st0) as Hundos.
  { intros now events w st undos HR [->|(st1 & Hm & Hfresh & Hroll & ->)] events' sh Hin; [by apply not_elem_of_nil in Hin|].
    apply list_elem_of_singleton in Hin. injection Hin as -> ->. exists w, st1. split; [done|]. by eapply Hundo. }
  induction 1 as [sh st w Hsh Hempty Hnew Hboot|commits events undos now w event st w' st' _ [HR IH] Hun Hev Hx Hsmall Hgood
                 |commits events undos now w st events' sh0 sh st' w' _ [HR IH] Hun Hin Hopen Hf Hnew Hboot].
  - assert (R [] w st) as HR by by eapply Hstart. split; [exact HR|]. intros events' sh' Hin%list_elem_of_singleton.
    injection Hin as -> ->. exists w, st. split; [symmetry; by apply Hdb|exact HR].
  - assert (R (events ++ [event]) w' st') as HR' by by eapply Hevent. split; [exact HR'|].
    intros events' sh' [Heq|Hin]%elem_of_cons; [|apply elem_of_app in Hin as [Hin|Hin]; [exact (Hundos _ _ _ _ _ HR Hun _ _ Hin)|exact (IH _ _ Hin)]].
    injection Heq as -> ->. by exists w', st'.
  - assert (∃ w0 st0, st_db st0 = sh0 ∧ R events' w0 st0) as (w0 & st0 & <- & HR0).
    { unfold found_after in Hin. cbn in Hin. apply elem_of_app in Hin as [Hin|Hin]; [exact (Hundos _ _ _ _ _ HR Hun _ _ Hin)|exact (IH _ _ Hin)]. }
    assert (R events' w' st') as HR' by by eapply Hrestart. split; [exact HR'|].
    intros events1 sh1 Hin1%list_elem_of_singleton. injection Hin1 as -> ->. exists w', st'. split; [symmetry; by apply Hdb|exact HR'].
Qed.

Lemma lives_kept R : kept R → ∀ events w st, lives events w st → R events w st.
Proof. intros HR events w st [commits Hl]. exact (proj1 (lived_kept R HR _ _ _ _ Hl)). Qed.
End Life.

Definition any_found (sh sh' : StorageHandler DB) : Prop := True.

Section AnyLife.
Context (config : Config).
Abbreviation life := (lives config any_block any_found).

Lemma life_event events now w event st w' st' :
  life events w st → event_ok now w event st → execute now w event st = Ok (w', st') → small_after st' →
  life (events ++ [event]) w' st'.
Proof. intros Hl Hev Hx Hs. by eapply lives_event; [..|apply any_block_good]. Qed.

Lemma life_restart events w st sh st' w' :
  life events w st → reopened (st_db st) sh → stage_new config sh = Ok st' → bootstrap st' = Ok w' → life events w' st'.
Proof. intros Hl Hopen Hnew Hboot. by eapply lives_restart. Qed.

Context (Hgenesis : length (genesis_hash (cfg_network config)) = 32).
Context (Hfits : fits 64 (default DEFAULT_MAX_ROLLBACK (cfg_max_rollback config) + 2)).

Definition started (st : Stage DB C) : Prop :=
  st_network st = cfg_network config ∧ st_max_rollbacks st = default DEFAULT_MAX_ROLLBACK (cfg_max_rollback config).

Lemma empty_starts sh (st : Stage DB C) w :
  storage_ok sh → db_latest (sh_db sh) = ∅ → stage_new config sh = Ok st → bootstrap st = Ok w →
  let I := MkIdeal [] (MkPoint 0 (genesis_hash (cfg_network config))) false [] in
  tracks w st I ∧ durable st I ∧ started st.
Proof.
  intros Hsh Hempty Hnew Hboot I.
  assert (persisted [] (db_latest (sh_db sh))) as Hper.
  { intros k v. rewrite Hempty. split; [by intros [_ Hv]|]. by intros (e & ? & ? & He & _); apply elem_of_nil in He. }
  assert (chain_ok []) as Hcok by by split.
  assert (chain_stored [] (db_latest (sh_db sh))) as Hst.
  { intros k v. rewrite Hempty. split; [by intros [_ Hv]|]. by intros (r & Hr & _); apply elem_of_nil in Hr. }
  unfold stage_new in Hnew. cbv zeta in Hnew.
  rewrite (fetch_from_storage_points [] sh (cfg_max_rollback config) (cfg_safe_mode config)) in Hnew; [|done|done|constructor|done|done|simpl; lia].
  cbn [rbind] in Hnew. rewrite (restart_resumes_at_tip [] sh (cfg_network config) Hsh Hcok Hst) in Hnew. cbn [rbind last] in Hnew.
  rewrite (info_read sh ∅ None Hsh Hempty) in Hnew by done. cbn [rbind] in Hnew. injection Hnew as <-.
  assert (values_small ∅) as Hsm by (intros k v _ Hv; by rewrite lookup_empty in Hv).
  split; [|split; [|done]].
  - split; cbn [id_chain id_tip id_mempool id_copies I st_db st_network st_rollback_buffer rb_points]; try done.
    + split; [done|]. cbn [st_db]. rewrite Hempty. intros k v _ Hv. by rewrite lookup_empty in Hv.
    + constructor.
  - exists []. split; cbn [id_chain id_tip id_mempool id_copies I st_db st_rollback_buffer rb_points st_max_rollbacks confirmed]; try done.
    + simpl. lia.
    + simpl. lia.
    + left. by rewrite Hempty.
    + by rewrite Hempty.
Qed.

Lemma life_restarts w (st : Stage DB C) I sh :
  tracks w st I → durable st I → started st → reopened (st_db st) sh →
  ∃ st' I' blocks, stage_new config sh = Ok st' ∧ durable_at blocks st I ∧ restarted blocks (data st) I I' ∧
    st_db st' = sh ∧ started st' ∧ points st' = filter undoes_something blocks ∧
    st_last_processed st' = id_tip I ∧ st_processed_mempool st' = id_mempool I' ∧
    ∀ w', bootstrap st' = Ok w' → tracks w' st' I' ∧ durable st' I'.
Proof.
  intros HI [blocks Hdu] [Hnet Hmax] Hopen. destruct (restart_ideal _ _ _ _ HI Hdu) as [I' Hre].
  destruct (stage_new_restart config _ _ _ _ _ _ HI Hdu Hre Hopen Hnet Hmax) as [cache Hnew].
  eexists _, I', blocks. split; [exact Hnew|]. split_and!; [done..|by split|done|done|done|].
  intros w' Hboot. eapply (restart_tracks w w' st _ I I' blocks sh); try done.
Qed.

Definition tracked (events : list ChainEvent) (w : Worker) (st : Stage DB C) : Prop :=
  ∃ I, tracks w st I ∧ durable st I ∧ started st ∧ id_chain I = foldl follow_event [] events.

Lemma tracked_kept : kept config any_block any_found tracked.
Proof.
  split.
  - intros sh st w Hsh Hempty Hnew Hboot. destruct (empty_starts sh st w) as (HI & Hdu & Hs); [done..|]. by eexists.
  - intros events now w event st w' st' (I & HI & Hdu & [Hn Hm] & Hch) Hev Hx Hsmall _.
    destruct (execute_preserves _ _ _ durable_preserved _ _ _ _ _ _ _ HI Hdu Hev Hx Hsmall (any_block_good _ _ _ _ _))
      as (I' & Hstep & HI' & Hdu' & Hnet & _ & Hmax).
    exists I'. split_and!; [done|done| |]; [split; congruence|].
    rewrite foldl_app. cbn [foldl]. rewrite <-Hch. by eapply ideal_step_chain.
  - intros events now w st st1 (I & HI & Hdu & [Hn Hm] & Hch) Hmem Hfresh Hroll. rewrite <-(tk_mempool _ _ _ HI) in Hmem.
    destruct (undo_mempool_tracks _ _ _ durable_preserved now w st st1 I HI Hdu Hfresh Hmem Hroll)
      as (copies & _ & _ & HI1 & Hdu1 & Hnet & _ & Hmax).
    eexists. split; [exact HI1|]. split; [exact Hdu1|]. split; [split; congruence|exact Hch].
  - intros events w st sh st' w' (I & HI & Hdu & Hs & Hch) Hopen _ Hnew Hboot.
    destruct (life_restarts w st I sh) as (st1 & I' & blocks & Hnew1 & _ & Hre & _ & Hs' & _ & _ & _ & Hnext); [done..|].
    rewrite Hnew in Hnew1. injection Hnew1 as <-. destruct (Hnext w' Hboot) as [HI' Hdu'].
    exists I'. split_and!; [done..|]. by rewrite (rs_chain _ _ _ _ Hre).
Qed.

Lemma life_tracks events w (st : Stage DB C) : life events w st → tracked events w st.
Proof. apply lives_kept, tracked_kept. Qed.

(** C6: Whatever blocks, rollbacks and mempool snapshots a worker that started
    on an empty store is given, and however often the process stops, between
    events, within one or after one that failed, and starts again on what is
    left of its commits (the write-ahead log is off: the newest of them may be
    lost), the stored chain is the one described by the events whose commits
    were kept, in order, and the processed tip is its last block. *)
Theorem index_follows_events (w : Worker) (st : Stage DB C) (events : list ChainEvent) :
  life events w st →
  let chain := foldl follow_event [] events in
  stage_ok st ∧ chain_ok chain ∧ chain_stored chain (data st) ∧
  st_last_processed st = chain_tip (genesis_hash (cfg_network config)) chain.
Proof.
  intros Hlife chain. destruct (life_tracks _ _ _ Hlife) as (I & HI & _ & [Hnet _] & Hch).
  destruct (tk_chain _ _ _ HI) as (Hcok & Hst & Htip). rewrite Hch, Hnet in *. rewrite (tk_tip _ _ _ HI) in Htip.
  split_and!; [apply HI|done..].
Qed.

(** C7: A restart loses nothing: on the data of any reachable state the stage
    starts without failing its assertions, with the same processed tip; its
    rollback buffer is the one before less the oldest block at most and less
    an entry that undoes nothing, and it knows of the mempool snapshot unless
    that snapshot wrote nothing. *)
Theorem restart_resumes (w : Worker) (st : Stage DB C) (events : list ChainEvent) (sh : StorageHandler DB) :
  life events w st → reopened (st_db st) sh →
  ∃ st' kept, stage_new config sh = Ok st' ∧ st_db st' = sh ∧ st_last_processed st' = st_last_processed st ∧
    kept `prefix_of` points st ∧ length (points st) ≤ length kept + 1 ∧
    points st' = filter undoes_something kept ∧
    (st_processed_mempool st' = st_processed_mempool st ∨
     st_processed_mempool st' = false ∧ ∃ e rest, points st = e :: rest ∧ pk_original_kvs e = ∅).
Proof.
  intros Hlife Hopen. destruct (life_tracks _ _ _ Hlife) as (I & HI & Hdu & Hs & _).
  destruct (life_restarts w st I sh) as (st' & I' & blocks & Hnew & Hdb & Hre & Hst & _ & Hpts & Hlast & Hmem & _); [done..|].
  exists st', blocks. rewrite Hlast, Hmem, (tk_tip _ _ _ HI), <-(tk_mempool _ _ _ HI).
  split_and!; [done|done|done|apply Hdb|apply Hdb|done|].
  destruct (rs_mempool _ _ _ _ Hre) as [|(Hm & e & rest & -> & Hnil)]; [by left|right].
  split; [done|]. destruct (du_prefix _ _ _ Hdb) as [k ->]. by exists e, (rest ++ k).
Qed.
End AnyLife.
End Restart.
Abbreviation life config := (lives config any_block any_found).

(** ** Closed examples *)
Module RestartExamples.
Import Simple SimpleBitcoin StageExamples ChainExamples.

Definition ex_config (max_rollback : usize) : Config :=
  MkConfig (MkNodeConfig "node:18444" "http://node:18443" "user" "pass") Regtest true (Some (F64 false 0 0)) None None None None
    [FTxCountByAddress; FUtxosByAddress] (Some max_rollback) (Some true).

(** What happens to the process: an event at some time, or a restart. *)
Inductive Act : Type := AEvent (now : Clock) (event : ChainEvent) | AReopen.

Definition reopen (sh : StorageHandler RefDB) : StorageHandler RefDB := MkStorage (sh_db sh) None false.
Definition start (config : Config) (sh : StorageHandler RefDB) (s : Worker * SimpleStage) : Worker * SimpleStage :=
  let st := unwrap_or s.2 (stage_new config sh) in (unwrap_or s.1 (bootstrap st), st).
Definition start_ok (config : Config) (sh : StorageHandler RefDB) (s : Worker * SimpleStage) : bool :=
  is_ok (stage_new (C:=SimpleCache) config sh) && is_ok (bootstrap (start config sh s).2).
Definition act_run (config : Config) (s : Worker * SimpleStage) (a : Act) : Worker * SimpleStage :=
  match a with
  | AEvent now event => unwrap_or s (execute now s.1 event s.2)
  | AReopen => start config (reopen (st_db s.2)) s
  end.

Definition small_check (st : SimpleStage) : bool :=
  bool_decide (map_Forall (λ (k : RawKey) (v : RawValue), fits 64 (N.of_nat (length v))) (db_latest (sh_db (st_db st)))).
Definition act_check (config : Config) (s : Worker * SimpleStage) (a : Act) : bool :=
  match a with
  | AEvent now event =>
      event_check now s.1 event s.2 && is_ok (execute now s.1 event s.2) && small_check (act_run config s a).2
  | AReopen => start_ok config (reopen (st_db s.2)) s
  end.
Fixpoint acts_check (config : Config) (s : Worker * SimpleStage) (acts : list Act) : bool :=
  match acts with
  | [] => true
  | a :: acts => act_check config s a && acts_check config (act_run config s a) acts
  end.

Definition act_events (acts : list Act) : list ChainEvent :=
  acts ≫= λ a, match a with AEvent _ event => [event] | AReopen => [] end.

Lemma small_check_ok st : small_check st = true → small_after st.
Proof. intros Hc%bool_decide_eq_true_1 k v _ Hv. exact (Hc k v Hv). Qed.

Lemma start_run config sh s :
  start_ok config sh s = true →
  stage_new config sh = Ok (start config sh s).2 ∧ bootstrap (start config sh s).2 = Ok (start config sh s).1.
Proof. intros [Hn Hb]%andb_prop. split; [by apply is_ok_unwrap|by apply is_ok_unwrap]. Qed.

Lemma reopen_life config events (w : Worker) (st : SimpleStage) :
  life config events w st → length (genesis_hash (cfg_network config)) = 32 →
  fits 64 (default DEFAULT_MAX_ROLLBACK (cfg_max_rollback config) + 2) → reopened (st_db st) (reopen (st_db st)).
Proof.
  intros Hlife Hg Hf. destruct (life_tracks config Hg Hf _ _ _ Hlife) as (I & HI & _).
  destruct (tk_ok _ _ _ HI) as [(Hfits & Hlow & _) _]. by split_and!.
Qed.

Lemma act_life config events (s : Worker * SimpleStage) a :
  life config events s.1 s.2 → reopened (st_db s.2) (reopen (st_db s.2)) → act_check config s a = true →
  life config (events ++ act_events [a]) (act_run config s a).1 (act_run config s a).2.
Proof.
  intros Hlife Hopen Hc. destruct a as [now event|]; cbn [act_events mbind list_bind app] in *.
  - apply andb_prop in Hc as [[Hev Hok]%andb_prop Hsmall].
    eapply (life_event config events now s.1 event s.2); [done|by apply event_check_ok| |by apply small_check_ok].
    rewrite <-surjective_pairing. by apply is_ok_unwrap.
  - rewrite app_nil_r. apply start_run in Hc as [Hn Hb]. by eapply life_restart.
Qed.

Lemma acts_life config events (s : Worker * SimpleStage) acts :
  life config events s.1 s.2 → acts_check config s acts = true →
  length (genesis_hash (cfg_network config)) = 32 → fits 64 (default DEFAULT_MAX_ROLLBACK (cfg_max_rollback config) + 2) →
  life config (events ++ act_events acts) (foldl (act_run config) s acts).1 (foldl (act_run config) s acts).2.
Proof.
  intros Hlife Hc Hg Hf. revert events s Hlife Hc. induction acts as [|a acts IH]; intros events s Hlife Hc.
  { unfold act_events. by rewrite app_nil_r. }
  apply andb_prop in Hc as [Ha Hc].
  pose proof (act_life _ _ _ _ Hlife (reopen_life _ _ _ _ Hlife Hg Hf) Ha) as Hlife1.
  pose proof (IH _ _ Hlife1 Hc) as Hlife2. rewrite <-app_assoc in Hlife2.
  replace (act_events (a :: acts)) with (act_events [a] ++ act_events acts); [exact Hlife2|].
  unfold act_events. cbn [mbind list_bind]. by rewrite app_nil_r.
Qed.

(** Block 1, a mempool snapshot, a restart, block 2 (which undoes the
    snapshot), a restart, back to block 1, and a last restart. *)
Definition at_second (n : u64) : Clock := MkClock n n no_reading.
Definition block1 : ChainEvent := RollForward p1 (header_after (replicate 32 x00)) [coinbase2] p1.
Definition block2 : ChainEvent := RollForward p2 (header_after (point_hash p1)) [] p2.
Definition snapshot_on (p : Point) : ChainEvent := MempoolBlocks (MkSnapshotInfo 7%N (point_hash p)) [[]].
Definition ex_acts : list Act :=
  [AEvent (at_second 100) block1; AEvent (at_second 101) (snapshot_on p1); AReopen; AEvent (at_second 102) block2;
   AReopen; AEvent (at_second 103) (RollBack p1)].

Definition ex_empty : StorageHandler RefDB := MkStorage [] None false.
Definition no_worker : Worker * SimpleStage := (ex_worker, ex_stage).
Definition ex_born (config : Config) : Worker * SimpleStage := start config ex_empty no_worker.
Definition ex_last : Worker * SimpleStage := foldl (act_run (ex_config 2)) (ex_born (ex_config 2)) ex_acts.

Lemma ex_born_life config : start_ok config ex_empty no_worker = true → life config [] (ex_born config).1 (ex_born config).2.
Proof.
  intros [Hn Hb]%start_run. eapply (lives_start config _ _ ex_empty); [|reflexivity|exact Hn|exact Hb].
  split_and!; [vm_compute; reflexivity|vm_compute; reflexivity|exact I].
Qed.

Lemma ex_genesis : length (genesis_hash (Machine:=simple_machine) Regtest) = 32.
Proof. reflexivity. Qed.
Lemma ex_fits : fits 64 (default DEFAULT_MAX_ROLLBACK (cfg_max_rollback (ex_config 2)) + 2).
Proof. vm_compute. reflexivity. Qed.

Lemma ex_life : life (ex_config 2) (act_events ex_acts) ex_last.1 ex_last.2.
Proof.
  apply (acts_life (ex_config 2) [] (ex_born (ex_config 2)) ex_acts).
  - apply ex_born_life. vm_compute. reflexivity.
  - vm_compute. reflexivity.
  - reflexivity.
  - vm_compute. reflexivity.
Qed.

(** The same run, then block 2 again; the process stops and its commit is lost. *)
Lemma event_lived config commits events (s : Worker * SimpleStage) now event :
  lived config any_block any_found commits events s.1 s.2 → act_check config s (AEvent now event) = true →
  let s' := act_run config s (AEvent now event) in
  lived config any_block any_found ((events ++ [event], st_db s'.2) :: commits) (events ++ [event]) s'.1 s'.2.
Proof.
  intros Hl [[Hev Hok]%andb_prop Hsmall]%andb_prop s'.
  eapply (lived_event config any_block any_found commits events [] now s.1 event s.2);
    [exact Hl|by left|by apply event_check_ok| |by apply small_check_ok|apply any_block_good].
  unfold s'. rewrite <-surjective_pairing. by apply is_ok_unwrap.
Qed.

Lemma lost_restart config events (s : Worker * SimpleStage) now event :
  life config events s.1 s.2 → reopened (st_db s.2) (reopen (st_db s.2)) →
  act_check config s (AEvent now event) = true → act_check config s AReopen = true →
  life config events (act_run config s AReopen).1 (act_run config s AReopen).2.
Proof.
  intros [commits Hl] Hopen Hev [Hn Hb]%start_run. pose proof (lived_head _ _ _ _ _ _ _ Hl) as Hhead.
  pose proof (event_lived config _ _ _ now event Hl Hev) as Hl2. cbv zeta in Hl2.
  eexists. eapply (lived_restart _ _ _ _ _ [] now _ _ events (st_db s.2)); [exact Hl2|by left| |exact Hopen|exact Logic.I|exact Hn|exact Hb].
  destruct commits as [|c commits]; [done|]. injection Hhead as ->. unfold found_after. cbn. right. by left.
Qed.

Definition ex_gone : Worker * SimpleStage := act_run (ex_config 2) ex_last (AEvent (at_second 104) block2).
Definition ex_found : Worker * SimpleStage := act_run (ex_config 2) ex_last AReopen.

Lemma ex_lossy_life : life (ex_config 2) (act_events ex_acts) ex_found.1 ex_found.2.
Proof.
  apply (lost_restart (ex_config 2) (act_events ex_acts) ex_last (at_second 104) block2).
  - exact ex_life.
  - exact (reopen_life _ _ _ _ ex_life ex_genesis ex_fits).
  - vm_compute. reflexivity.
  - vm_compute. reflexivity.
Qed.

Example index_follows_events_witness :
  st_last_processed ex_gone.2 = p2 ∧
  chain_stored [point_hash p1] (db_latest (sh_db (st_db ex_found.2))) ∧ st_last_processed ex_found.2 = p1.
Proof.
  destruct (index_follows_events (ex_config 2) ex_genesis ex_fits ex_found.1 ex_found.2 (act_events ex_acts) ex_lossy_life)
    as (_ & _ & Hst & Hlast).
  split; [vm_compute; reflexivity|]. split; [exact Hst|exact Hlast].
Defined.

Example restart_resumes_witness :
  ∃ st' : SimpleStage, stage_new (ex_config 2) (reopen (st_db ex_last.2)) = Ok st' ∧ st_last_processed st' = st_last_processed ex_last.2.
Proof.
  destruct (restart_resumes (ex_config 2) ex_genesis ex_fits ex_last.1 ex_last.2 (act_events ex_acts) (reopen (st_db ex_last.2)) ex_life
              (reopen_life _ _ _ _ ex_life ex_genesis ex_fits))
    as (st' & _ & Hnew & _ & Hlast & _).
  exists st'. split; [exact Hnew|exact Hlast].
Defined.

(** The oldest block of the buffer is not in the store: going back to it, then
    indexing a mempool snapshot and starting again leaves a worker that fails
    on the next block, which it accepts without the restart. *)
Definition p3 : Point := MkPoint 3%N (replicate 32 x03).
Definition block3 : ChainEvent := RollForward p3 (header_after (point_hash p2)) [] p3.
Definition deep_acts : list Act :=
  [AEvent (at_second 100) block1; AEvent (at_second 101) block2; AEvent (at_second 102) block3;
   AEvent (at_second 103) (RollBack p1); AEvent (at_second 104) (snapshot_on p1)].
Definition ex_deep : Worker * SimpleStage := foldl (act_run (ex_config 1)) (ex_born (ex_config 1)) deep_acts.
Definition ex_deep_restarted : Worker * SimpleStage := act_run (ex_config 1) ex_deep AReopen.

Lemma restart_forgets_rollback_point :
  life (ex_config 1) (act_events deep_acts) ex_deep.1 ex_deep.2 ∧
  life (ex_config 1) (act_events deep_acts) ex_deep_restarted.1 ex_deep_restarted.2 ∧
  is_ok (execute (at_second 105) ex_deep.1 block2 ex_deep.2) = true ∧
  is_ok (execute (at_second 105) ex_deep_restarted.1 block2 ex_deep_restarted.2) = false.
Proof.
  assert (life (ex_config 1) [] (ex_born (ex_config 1)).1 (ex_born (ex_config 1)).2) as Hborn
    by (apply ex_born_life; vm_compute; reflexivity).
  split; [|split; [|split; vm_compute; reflexivity]].
  - apply (acts_life (ex_config 1) [] (ex_born (ex_config 1)) deep_acts Hborn); [vm_compute; reflexivity..|].
    vm_compute. reflexivity.
  - apply (acts_life (ex_config 1) [] (ex_born (ex_config 1)) (deep_acts ++ [AReopen]) Hborn); [vm_compute; reflexivity..|].
    vm_compute. reflexivity.
Qed.
End RestartExamples.
