(* ===== verification/Peer.v ===== *)
(** * The connection to a Bitcoin node

    src/src/sync/stages/pull/peer.rs.  Three tasks serve a connection: the
    ingress reads and decodes messages from the socket, the egress writes
    messages to it, and the handler passes requests out and answers in.  The
    client side, [Peer], sends a request and waits for its answer.  The socket
    is the list of the bytes it will deliver; the [bitcoin] crate's blocks and
    its decoders are parameters; the channels of tokio are bounded queues. *)
From S2P Require Import Prelude EncDec Types Bitcoin.

(** ** What the connection uses of the [bitcoin] crate *)

(** [Inventory], with the constructors the code names. *)
Inductive Inventory : Type :=
| InvBlock (hash : BlockHash)
| InvWitnessBlock (hash : BlockHash)
| InvOther.

(** A decoder reads a value off the front of a slice. *)
Definition Decoder (A : Type) : Type := list byte → Res string (A * list byte).

Class BitcoinNode `{Bitcoin} : Type := {
  Block : Type;
  header_hash : Header → BlockHash;          (* Header::block_hash *)
  block_hash_of : Block → BlockHash;         (* Block::block_hash *)
  txdata : Block → list Transaction;
  compute_txid : Transaction → Txid;
  block_decode : list byte → Res string Block;
  Address : Type;
  address_new : N → Address;                 (* Address::new(0.0.0.0:0, services) *)
  VersionMessage : Type;
  version_new : N → N → Z → Address → Address → u64 → string → Z → bool → VersionMessage;
  decode_version : Decoder VersionMessage;
  decode_command : Decoder string;           (* CommandString *)
  decode_u32 : Decoder u32;
  decode_u64 : Decoder u64;
  decode_varint : Decoder u64;
  decode_inventory : Decoder (list Inventory);
  decode_header : Decoder Header;
  header_size : N;                           (* size_of::<Header>() *)
}.

(** ** Messages *)
Definition RawBlock : Type := list byte.

Section Messages.
Context `{BitcoinNode}.

Inductive DecodedMessage : Type :=
| Version (ver : VersionMessage)
| Verack
| Ping (nonce : u64)
| Inv (inv : list Inventory)
| Headers (headers : list Header)
| BlockMessage (block : RawBlock)
| Unused.

(** [NetworkMessage], the messages the code sends. *)
Inductive NetworkMessage : Type :=
| NetVersion (ver : VersionMessage)
| NetVerack
| GetHeaders (locator_hashes : list BlockHash) (stop_hash : BlockHash)
| GetData (inv : list Inventory)
| MemPool
| Pong (nonce : u64).

Record RawNetworkMessage : Type := MkRawMessage { raw_magic : u8arr 4; raw_payload : NetworkMessage }.

Definition VERSION : u32 := 70016%N.
Definition USER_AGENT : string := "/symphony:0.0.1/".
Definition SERVICES : N := 0%N.

(** The cast [as i64] of a number of seconds. *)
Definition as_i64 (x : u64) : Z := if (x <? 2 ^ 63)%N then Z.of_N x else (Z.of_N x - 2 ^ 64)%Z.

(** [now]: the seconds since the epoch; [nonce]: the random number drawn. *)
Definition version_message (now nonce : u64) : NetworkMessage :=
  let services := SERVICES in
  let timestamp := as_i64 now in
  NetVersion (version_new VERSION services timestamp (address_new services) (address_new services) nonce
                USER_AGENT 0 false).

(** ** Decoding a message *)

(** [<[u8; n]>::consensus_decode] and [read_slice]. *)
Definition read_bytes (n : nat) (d : list byte) : Res string (list byte * list byte) :=
  if (length d <? n)%nat then Err "unexpected end of file" else Ok (take n d, drop n d).

(** The loop over the announced headers: each is followed by a transaction count. *)
Fixpoint decode_headers (len : nat) (headers : list Header) (payload : list byte) : Res string (list Header) :=
  match len with
  | O => Ok headers
  | S len =>
      '(header, payload) ← decode_header payload;
      '(_, payload) ← decode_varint payload;
      decode_headers len (headers ++ [header]) payload
  end.

(** [Vec::with_capacity]: panics above [isize::MAX] bytes. *)
Definition with_capacity (elem_size len : N) : Res string unit :=
  if (elem_size * len <? 2 ^ 63)%N then Ok tt else Panic "capacity overflow".

Definition decode_payload (command : string) (payload : list byte) : Res string DecodedMessage :=
  if decide (command = "version") then '(v, _) ← decode_version payload; Ok (Version v)
  else if decide (command = "verack") then Ok Verack
  else if decide (command = "ping") then '(nonce, _) ← decode_u64 payload; Ok (Ping nonce)
  else if decide (command = "inv") then '(inv, _) ← decode_inventory payload; Ok (Inv inv)
  else if decide (command = "headers") then
    '(len, payload) ← decode_varint payload;
    _ ← with_capacity header_size len;
    headers ← decode_headers (N.to_nat len) [] payload;
    Ok (Headers headers)
  else if decide (command = "block") then Ok (BlockMessage payload)
  else Ok Unused.

(** [DecodedMessage::consensus_decode]. *)
Definition decode_message (d : list byte) : Res string DecodedMessage :=
  '(_, d) ← read_bytes 4 d;
  '(command, d) ← decode_command d;
  '(len, d) ← decode_u32 d;
  '(_, d) ← read_bytes 4 d;
  '(payload, _) ← read_bytes (N.to_nat len) d;
  decode_payload command payload.

(** ** [Ingress] *)

(** [read_exact]: the stream is what the socket delivers before it closes. *)
Definition read_exact (n : nat) (stream : list byte) : Res P2PError (list byte * list byte) :=
  if (length stream <? n)%nat then Err (IngressIO "early eof") else Ok (take n stream, drop n stream).

Definition read_message (stream : list byte) : Res P2PError (DecodedMessage * list byte) :=
  '(header, stream) ← read_exact 24 stream;
  '(payload_len, _) ← map_err IngressDecoding (decode_u32 (take 4 (drop 16 header)));
  '(payload, stream) ← read_exact (N.to_nat payload_len) stream;
  message ← map_err IngressDecoding (decode_message (header ++ payload));
  Ok (message, stream).

(** [Ingress::run]: each turn reads a message and sends it to the handler.
    [sends] says how the sends end, one after the other: [true], the message
    was taken; [false], the receiver is gone; when there is no more, the send
    waits.  The messages relayed, and the failure that ends the loop; [None]
    while it waits. *)
Fixpoint ingress_run (sends : list bool) (stream : list byte) : list DecodedMessage * option (Res P2PError unit) :=
  match read_message stream with
  | Ok (msg, stream) =>
      match sends with
      | true :: sends => let '(msgs, stop) := ingress_run sends stream in (msg :: msgs, stop)
      | false :: _ => ([], Some (Err IngressChannelClosed))
      | [] => ([], None)
      end
  | Err e => ([], Some (Err e))
  | Panic why => ([], Some (Panic why))
  end.
End Messages.

(** ** Channels

    A bounded queue of tokio, with the flag that its receiver is alive. *)
Record Chan (A : Type) : Type := MkChan { ch_queue : list A; ch_capacity : nat; ch_open : bool }.
Arguments MkChan {A} ch_queue ch_capacity ch_open.
Arguments ch_queue {A} c.
Arguments ch_capacity {A} c.
Arguments ch_open {A} c.

Definition channel {A} (capacity : nat) : Chan A := MkChan [] capacity true.

(** [None]: the sender waits for room. *)
Definition chan_send {A E} (x : A) (closed : E) (c : Chan A) : option (Res E (Chan A)) :=
  if negb (ch_open c) then Some (Err closed)
  else if (length (ch_queue c) <? ch_capacity c)%nat then
    Some (Ok (MkChan (ch_queue c ++ [x]) (ch_capacity c) (ch_open c)))
  else None.

Definition chan_recv {A} (c : Chan A) : option (A * Chan A) :=
  match ch_queue c with
  | [] => None
  | x :: queue => Some (x, MkChan queue (ch_capacity c) (ch_open c))
  end.

(** ** Requests and the handler *)
Section Handler.
Context `{BitcoinNode}.

Inductive Request : Type :=
| NewHeaders (locator_hashes : list BlockHash) (stop_hash : BlockHash)
| Blocks (inv : list Inventory)
| MempoolIds.

Definition all_zeros : BlockHash := replicate 32 x00.
Definition req_get_new_headers (intersects : list BlockHash) : Request := NewHeaders intersects all_zeros.
Definition req_get_blocks (blockhashes : list BlockHash) : Request := Blocks (InvWitnessBlock <$> blockhashes).
Definition req_get_mempool_ids : Request := MempoolIds.

(** The notifications are flags: [notify_one] stores one permit. *)
Record PeerHandler : Type := MkHandler {
  magic : u8arr 4;
  init_notifier : bool;
  headers_send : Chan (list Header);
  blocks_send : Chan RawBlock;
  new_block_notifier : bool;
  egress_send : Chan RawNetworkMessage;
}.

Definition handler_new (magic : u8arr 4) (headers : Chan (list Header)) (blocks : Chan RawBlock) : PeerHandler :=
  MkHandler magic false headers blocks false (channel 1).

(** What [select!] hands to a turn: the next request or the next message,
    [None] when that channel is closed. *)
Inductive Input : Type :=
| InRequest (maybe_req : option Request)
| InMessage (maybe_msg : option DecodedMessage).

(** A send that may wait: [None] leaves the turn unfinished. *)
Definition sent {A} (r : option (Res P2PError (Chan A))) (k : Chan A → PeerHandler) :
    option (Res P2PError PeerHandler) :=
  match r with
  | Some (Ok c) => Some (Ok (k c))
  | Some (Err e) => Some (Err e)
  | Some (Panic why) => Some (Panic why)
  | None => None
  end.

Definition send_egress (msg : NetworkMessage) (h : PeerHandler) : option (Res P2PError PeerHandler) :=
  sent (chan_send (MkRawMessage (magic h) msg) EgressChannelClosed (egress_send h))
    (λ c, MkHandler (magic h) (init_notifier h) (headers_send h) (blocks_send h) (new_block_notifier h) c).

Definition is_block (i : Inventory) : bool := match i with InvBlock _ => true | _ => false end.

Definition to_send (req : Request) : NetworkMessage :=
  match req with
  | NewHeaders locator_hashes stop_hash => GetHeaders locator_hashes stop_hash
  | Blocks inv => GetData inv
  | MempoolIds => MemPool
  end.

Definition handle_message (msg : DecodedMessage) (h : PeerHandler) : option (Res P2PError PeerHandler) :=
  match msg with
  | Version _ => send_egress NetVerack h
  | Verack =>
      Some (Ok (MkHandler (magic h) true (headers_send h) (blocks_send h) (new_block_notifier h) (egress_send h)))
  | Inv inv =>
      if existsb is_block inv
      then Some (Ok (MkHandler (magic h) (init_notifier h) (headers_send h) (blocks_send h) true (egress_send h)))
      else Some (Ok h)
  | Ping nonce => send_egress (Pong nonce) h
  | Headers headers =>
      sent (chan_send headers (PeerChannelClosed "headers") (headers_send h))
        (λ c, MkHandler (magic h) (init_notifier h) c (blocks_send h) (new_block_notifier h) (egress_send h))
  | BlockMessage block =>
      sent (chan_send block (PeerChannelClosed "blocks") (blocks_send h))
        (λ c, MkHandler (magic h) (init_notifier h) (headers_send h) c (new_block_notifier h) (egress_send h))
  | Unused => Some (Ok h)
  end.

Definition tick (input : Input) (h : PeerHandler) : option (Res P2PError PeerHandler) :=
  match input with
  | InRequest None => Some (Err (PeerChannelClosed "request"))
  | InRequest (Some req) => send_egress (to_send req) h
  | InMessage None => Some (Err IngressChannelClosed)
  | InMessage (Some msg) => handle_message msg h
  end.

(** ** [Peer]: the client side

    The receivers are the lists of what the handler delivers on them before it
    stops and closes them; [sent_requests] records what was sent. *)
Record Peer : Type := MkPeer {
  request_open : bool;
  headers_recv : list (list Header);
  blocks_recv : list RawBlock;
  sent_requests : list Request;
}.

Definition peer_send (req : Request) (closed : Res P2PError Peer) (p : Peer) : Res P2PError Peer :=
  if request_open p
  then Ok (MkPeer (request_open p) (headers_recv p) (blocks_recv p) (sent_requests p ++ [req]))
  else closed.

Definition get_new_headers (intersects : list BlockHash) (p : Peer) : Res P2PError (list Header * Peer) :=
  p ← peer_send (req_get_new_headers intersects) (Err EgressChannelClosed) p;
  match headers_recv p with
  | [] => Err (PeerChannelClosed "headers")
  | headers :: rest => Ok (headers, MkPeer (request_open p) rest (blocks_recv p) (sent_requests p))
  end.

(** One block for each hash, in the order they arrive. *)
Fixpoint recv_blocks (n : nat) (raws : list RawBlock) : Res P2PError (list RawBlock * list RawBlock) :=
  match n, raws with
  | O, _ => Ok ([], raws)
  | S _, [] => Err (PeerChannelClosed "blocks")
  | S n, raw :: raws => '(got, rest) ← recv_blocks n raws; Ok (raw :: got, rest)
  end.

Definition decode_block (decoded_blocks : list Block) (x : BlockHash * RawBlock) : Res P2PError (list Block) :=
  let '(hash, raw) := x in
  block ← map_err IngressDecoding (block_decode raw);
  if decide (block_hash_of block ≠ hash) then Err (GetBlocksMismatch (block_hash_of block) hash)
  else Ok (decoded_blocks ++ [block]).

Definition get_blocks (hashes : list BlockHash) (p : Peer) : Res P2PError (list Block * Peer) :=
  p ← peer_send (req_get_blocks hashes) (Panic "unwrap") p;
  '(blocks, rest) ← recv_blocks (length hashes) (blocks_recv p);
  decoded_blocks ← for_each (zip hashes blocks) [] decode_block;
  Ok (decoded_blocks, MkPeer (request_open p) (headers_recv p) rest (sent_requests p)).

(** ** The tasks together

    The handler owns the ends of the channels; [sy_busy] is the input its turn
    is working on, while it waits for room in a channel. *)
Record System : Type := MkSystem {
  sy_handler : PeerHandler;
  sy_requests : Chan Request;
  sy_ingress : Chan DecodedMessage;
  sy_busy : option Input;
}.

(** [Peer::connect] and the start of [PeerHandler::run]: the version message
    is the first one sent. *)
Definition system_new (mg : u8arr 4) (now nonce : u64) : System :=
  let handler := handler_new mg (channel 20) (channel 20) in
  MkSystem
    (MkHandler mg false (headers_send handler) (blocks_send handler) false
      (MkChan [MkRawMessage mg (version_message now nonce)] 1 true))
    (channel 1) (channel 1) None.

Inductive Event : Type :=
| EvRequest (req : Request)          (* the client sends a request *)
| EvIngress (msg : DecodedMessage)   (* the ingress relays a message *)
| EvTake (input : Input)             (* the handler takes an input *)
| EvDone (input : Input)             (* and ends its turn *)
| EvWrite (raw : RawNetworkMessage)  (* the egress writes a message *)
| EvHeaders (headers : list Header)  (* the client receives headers *)
| EvBlock (block : RawBlock).        (* the client receives a block *)

Inductive sys_step : System → Event → System → Prop :=
| step_request h reqs ing busy req reqs' :
    chan_send req EgressChannelClosed reqs = Some (Ok reqs') →
    sys_step (MkSystem h reqs ing busy) (EvRequest req) (MkSystem h reqs' ing busy)
| step_ingress h reqs ing busy msg ing' :
    chan_send msg IngressChannelClosed ing = Some (Ok ing') →
    sys_step (MkSystem h reqs ing busy) (EvIngress msg) (MkSystem h reqs ing' busy)
| step_take_request h reqs ing req reqs' :
    chan_recv reqs = Some (req, reqs') →
    sys_step (MkSystem h reqs ing None) (EvTake (InRequest (Some req)))
      (MkSystem h reqs' ing (Some (InRequest (Some req))))
| step_take_message h reqs ing msg ing' :
    chan_recv ing = Some (msg, ing') →
    sys_step (MkSystem h reqs ing None) (EvTake (InMessage (Some msg)))
      (MkSystem h reqs ing' (Some (InMessage (Some msg))))
| step_done h reqs ing input h' :
    tick input h = Some (Ok h') →
    sys_step (MkSystem h reqs ing (Some input)) (EvDone input) (MkSystem h' reqs ing None)
| step_write h reqs ing busy raw c :
    chan_recv (egress_send h) = Some (raw, c) →
    sys_step (MkSystem h reqs ing busy) (EvWrite raw)
      (MkSystem (MkHandler (magic h) (init_notifier h) (headers_send h) (blocks_send h) (new_block_notifier h) c)
        reqs ing busy)
| step_headers h reqs ing busy headers c :
    chan_recv (headers_send h) = Some (headers, c) →
    sys_step (MkSystem h reqs ing busy) (EvHeaders headers)
      (MkSystem (MkHandler (magic h) (init_notifier h) c (blocks_send h) (new_block_notifier h) (egress_send h))
        reqs ing busy)
| step_block h reqs ing busy block c :
    chan_recv (blocks_send h) = Some (block, c) →
    sys_step (MkSystem h reqs ing busy) (EvBlock block)
      (MkSystem (MkHandler (magic h) (init_notifier h) (headers_send h) c (new_block_notifier h) (egress_send h))
        reqs ing busy).

(** A run from the connection on, with its events in order. *)
Inductive sys_run (s0 : System) : list Event → System → Prop :=
| run_start : sys_run s0 [] s0
| run_step evs s ev s' : sys_run s0 evs s → sys_step s ev s' → sys_run s0 (evs ++ [ev]) s'.
End Handler.

(** A small instance of the interface, for closed examples: a header is the
    hash of its parent, a block its header. *)
Module SimpleNode.
Import SimpleBitcoin.

Definition fixed {A} (n : nat) (f : list byte → A) : Decoder A :=
  λ d, if (length d <? n)%nat then Err "unexpected end of file" else Ok (f (take n d), drop n d).

Definition trim_name (c : list byte) : string :=
  String.string_of_list_byte (filter (λ b : byte, b ≠ x00) c).

(** A header is the hash of the parent and a nonce; a block is its header. *)
Definition next_hash (h : list byte) : BlockHash := (λ b, byte_of (byte_val b + 1 + le_val (drop 32 h))) <$> take 32 h.

Definition simple_node : BitcoinNode (H := simple_bitcoin) := {|
  Block := list byte;
  header_hash := next_hash : Header (Bitcoin := simple_bitcoin) → BlockHash;
  block_hash_of := next_hash;
  txdata := λ _, [];
  compute_txid := λ _, zero_txid;
  block_decode := λ raw, if (32 <=? length raw)%nat then Ok raw else Err "unexpected end of file";
  Address := N;
  address_new := id;
  VersionMessage := N;
  version_new := λ version _ _ _ _ _ _ _ _, version;
  decode_version := fixed 4 le_val;
  decode_command := fixed 12 trim_name;
  decode_u32 := fixed 4 le_val;
  decode_u64 := fixed 8 le_val;
  decode_varint := fixed 1 le_val;
  decode_inventory := fixed 32 (λ h, [InvBlock h]);
  decode_header := fixed 32 (id : list byte → Header (Bitcoin := simple_bitcoin));
  header_size := 80;
|}.
End SimpleNode.
