(* ===== verification/PeerLaws.v ===== *)
(** * What the connection to a node guarantees

    Framing, the matching of blocks with requests, and the order in which the
    tasks of a connection relay what they receive. *)
From S2P Require Import Prelude EncDec Types Bitcoin Peer.

(** ** Framing *)

(** The wire format of a message, as the decoders of the [bitcoin] crate read
    it: a command of 12 bytes and a little-endian length. *)
Class ConsensusOk `{BitcoinNode} : Type := {
  command_name : list byte → string;
  decode_command_spec : ∀ c rest, length c = 12 → decode_command (c ++ rest) = Ok (command_name c, rest);
  decode_u32_spec : ∀ n rest, fits 32 n → decode_u32 (le_bytes 4 n ++ rest) = Ok (n, rest);
}.

Record Frame : Type := MkFrame {
  fr_magic : u8arr 4;
  fr_command : u8arr 12;
  fr_checksum : u8arr 4;
  fr_payload : list byte;
}.

Definition frame_header (f : Frame) : list byte :=
  fr_magic f ++ fr_command f ++ le_bytes 4 (N.of_nat (length (fr_payload f))) ++ fr_checksum f.
Definition frame_bytes (f : Frame) : list byte := frame_header f ++ fr_payload f.

Definition frame_ok (f : Frame) : Prop :=
  length (fr_magic f) = 4 ∧ length (fr_command f) = 12 ∧ length (fr_checksum f) = 4 ∧
  fits 32 (N.of_nat (length (fr_payload f))).

Section Framing.
Context `{ConsensusOk}.

Lemma read_exact_app n l rest : length l = n → read_exact n (l ++ rest) = Ok (l, rest).
Proof.
  intros <-. unfold read_exact. rewrite length_app, (proj2 (Nat.ltb_ge _ _)) by lia.
  by rewrite take_app_length, drop_app_length.
Qed.

Lemma read_exact_short n l : length l < n → read_exact n l = Err (IngressIO "early eof").
Proof. intros Hn. unfold read_exact. by rewrite (proj2 (Nat.ltb_lt _ _)). Qed.

Lemma read_bytes_app n l rest : length l = n → read_bytes n (l ++ rest) = Ok (l, rest).
Proof.
  intros <-. unfold read_bytes. rewrite length_app, (proj2 (Nat.ltb_ge _ _)) by lia.
  by rewrite take_app_length, drop_app_length.
Qed.

Lemma frame_header_length f : frame_ok f → length (frame_header f) = 24.
Proof. intros (Hm & Hc & Hs & _). unfold frame_header. rewrite !length_app, length_le_bytes. lia. Qed.

Lemma decode_frame f : frame_ok f →
  decode_message (frame_bytes f) = decode_payload (command_name (fr_command f)) (fr_payload f).
Proof.
  intros (Hm & Hc & Hs & Hp). unfold decode_message, frame_bytes, frame_header. rewrite <-!app_assoc.
  rewrite read_bytes_app by done. cbn [rbind]. rewrite decode_command_spec by done. cbn [rbind].
  rewrite decode_u32_spec by done. cbn [rbind]. rewrite read_bytes_app by done. cbn [rbind].
  rewrite <-(app_nil_r (fr_payload f)) at 2. rewrite read_bytes_app by lia. done.
Qed.

Lemma frame_length_field f : frame_ok f →
  take 4 (drop 16 (frame_header f)) = le_bytes 4 (N.of_nat (length (fr_payload f))).
Proof.
  intros (Hm & Hc & Hs & _). unfold frame_header. rewrite app_assoc.
  rewrite drop_app_length' by (rewrite length_app; lia). by rewrite take_app_length' by (by rewrite length_le_bytes).
Qed.

Lemma read_message_frame f rest : frame_ok f →
  read_message (frame_bytes f ++ rest) =
  rmap (λ msg, (msg, rest)) (map_err IngressDecoding (decode_payload (command_name (fr_command f)) (fr_payload f))).
Proof.
  intros Hf. pose proof (frame_header_length f Hf) as Hlen. unfold read_message, frame_bytes.
  rewrite <-app_assoc, read_exact_app by done. cbn [rbind].
  rewrite (frame_length_field f Hf), <-(app_nil_r (le_bytes 4 _)), decode_u32_spec by apply Hf.
  cbn [map_err rbind]. rewrite read_exact_app by lia. cbn [rbind].
  fold (frame_bytes f). rewrite (decode_frame f Hf). by destruct (decode_payload _ _).
Qed.

(** What a stream of messages comes to: [msgs] are the decoded payloads,
    [sends] how the sends to the handler end.  The stream ends with [cut], the
    read that the closed socket cuts short. *)
Fixpoint relays (cut : P2PError) (msgs : list (Res string DecodedMessage)) (sends : list bool) :
    list DecodedMessage * option (Res P2PError unit) :=
  match msgs with
  | [] => ([], Some (Err cut))
  | Err e :: _ => ([], Some (Err (IngressDecoding e)))
  | Panic why :: _ => ([], Some (Panic why))
  | Ok msg :: msgs =>
      match sends with
      | [] => ([], None)
      | false :: _ => ([], Some (Err IngressChannelClosed))
      | true :: sends => let '(relayed, stop) := relays cut msgs sends in (msg :: relayed, stop)
      end
  end.

(** A frame that is cut short by the end of the stream. *)
Definition cut_short (tail : list byte) : Prop :=
  length tail < 24 ∨ ∃ f n, frame_ok f ∧ 24 <= n < length (frame_bytes f) ∧ tail = take n (frame_bytes f).

Lemma read_message_cut tail : cut_short tail → read_message tail = Err (IngressIO "early eof").
Proof.
  intros [Hlt|(f & n & Hf & Hn & ->)]; unfold read_message; [by rewrite read_exact_short|].
  pose proof (frame_header_length f Hf) as Hlen. unfold frame_bytes in *. rewrite length_app in Hn.
  rewrite take_app, take_ge by lia. rewrite read_exact_app by done. cbn [rbind].
  rewrite (frame_length_field f Hf), <-(app_nil_r (le_bytes 4 _)), decode_u32_spec by apply Hf.
  cbn [map_err rbind]. rewrite read_exact_short; [done|]. rewrite length_take. lia.
Qed.

(** C34: The ingress never loses its place in a stream of frames that the end
    of the stream cuts off between two of them or within one, whatever their
    commands and payloads: the messages, unknown ones included, are relayed
    one for one and in order, up to the first whose payload does not decode,
    which ends the loop with that failure, or the first that finds the handler
    gone, which ends it with the closed channel; a send that waits makes it
    wait; and when all are relayed it ends with the read that is cut short. *)
Theorem ingress_relays_frames (frames : list Frame) (tail : list byte) (sends : list bool) :
  Forall frame_ok frames → cut_short tail →
  ingress_run sends (concat (frame_bytes <$> frames) ++ tail) =
  relays (IngressIO "early eof") ((λ f, decode_payload (command_name (fr_command f)) (fr_payload f)) <$> frames) sends.
Proof.
  intros Hok Htail. revert sends. induction Hok as [|f frames Hf _ IH]; intros sends.
  - cbn [fmap list_fmap concat app relays]. destruct sends; cbn [ingress_run]; by rewrite read_message_cut.
  - cbn [fmap list_fmap concat relays]. destruct sends as [|[|] sends]; cbn [ingress_run];
      rewrite <-app_assoc, (read_message_frame f _ Hf); destruct (decode_payload _ _) as [msg|e|why]; cbn [rmap map_err]; try done.
    change (rmap ?f (Ok ?x)) with (Ok (E:=P2PError) (f x)). cbv beta iota. by rewrite IH.
Qed.
End Framing.

Section Ingress.
Context `{BitcoinNode}.

Lemma read_exact_inv n l x rest : read_exact n l = Ok (x, rest) → l = x ++ rest ∧ length x = n.
Proof.
  unfold read_exact. destruct (Nat.ltb_spec (length l) n); [done|]. intros Heq. injection Heq as <- <-.
  rewrite take_drop, length_take. split; [done|lia].
Qed.

Lemma read_message_consumes stream msg rest :
  read_message stream = Ok (msg, rest) → length rest + 24 <= length stream.
Proof.
  unfold read_message. intros Hr. inv_bind.
  repeat match goal with H : read_exact _ _ = Ok _ |- _ => apply read_exact_inv in H as [-> ?] end.
  simplify_eq. rewrite !length_app. lia.
Qed.

(** The ingress loop ends on every stream a socket can deliver, whether the
    handler takes the messages or is gone: as many sends as the stream has
    bytes and one more are enough, since a message takes at least 24 of them. *)
Theorem ingress_terminates (stream : list byte) (sends : list bool) :
  length stream < length sends →
  ∃ msgs stop, ingress_run sends stream = (msgs, Some stop) ∧ stop ≠ Ok tt ∧ 24 * length msgs <= length stream.
Proof.
  revert stream. induction sends as [|taken sends IH]; intros stream Hlen; [simpl in Hlen; lia|]. cbn [ingress_run].
  destruct (read_message stream) as [[msg rest]|e|why] eqn:Hr.
  - apply read_message_consumes in Hr. destruct taken.
    + simpl in Hlen. destruct (IH rest) as (msgs & stop & -> & Hs & Hl); [lia|].
      exists (msg :: msgs), stop. simpl. split_and!; [done|done|lia].
    + exists [], (Err IngressChannelClosed). simpl. split_and!; [done|done|lia].
  - exists [], (Err e). simpl. split_and!; [done|done|lia].
  - exists [], (Panic why). simpl. split_and!; [done|done|lia].
Qed.
End Ingress.

(** ** Requested blocks *)
Section Blocks.
Context `{BitcoinNode}.

Lemma recv_blocks_app (raws rest : list RawBlock) : recv_blocks (length raws) (raws ++ rest) = Ok (raws, rest).
Proof. induction raws as [|raw raws IH]; [by destruct rest|]. cbn [length app recv_blocks]. by rewrite IH. Qed.

Lemma recv_blocks_inv n raws got rest :
  recv_blocks n raws = Ok (got, rest) → raws = got ++ rest ∧ length got = n.
Proof.
  revert raws got. induction n as [|n IH]; intros raws got Hr.
  - destruct raws; injection Hr as <- <-; done.
  - destruct raws as [|raw raws]; [done|]. cbn [recv_blocks] in Hr.
    apply res_bind_ok in Hr as ([got' rest'] & Hr & Heq). injection Heq as <- <-.
    by apply IH in Hr as [-> <-].
Qed.

Lemma recv_blocks_short n raws : length raws < n → recv_blocks n raws = Err (PeerChannelClosed "blocks").
Proof.
  revert raws. induction n as [|n IH]; intros raws Hn; [lia|]. destruct raws as [|raw raws]; [done|].
  cbn [recv_blocks]. rewrite IH by (simpl in Hn; lia). done.
Qed.

(** The block a raw block decodes to answers the request for its hash. *)
Definition answers (hash : BlockHash) (raw : RawBlock) (block : Block) : Prop :=
  block_decode raw = Ok block ∧ block_hash_of block = hash.

Lemma decode_block_ok out hash raw block : answers hash raw block → decode_block out (hash, raw) = Ok (out ++ [block]).
Proof. intros [Hd Hh]. unfold decode_block. rewrite Hd. cbn [map_err rbind]. by rewrite decide_False by (intros Hn; by apply Hn). Qed.

Lemma decode_block_inv out hash raw out' :
  decode_block out (hash, raw) = Ok out' → ∃ block, answers hash raw block ∧ out' = out ++ [block].
Proof.
  unfold decode_block. intros Hd. apply res_bind_ok in Hd as (block & Hb & Hd).
  destruct (block_decode raw) as [b|e|w] eqn:Hraw; [|done..]. injection Hb as ->.
  destruct (decide (block_hash_of block = hash)) as [Heq|Hne].
  - rewrite decide_False in Hd by (intros Hn; by apply Hn). injection Hd as <-. by exists block.
  - by rewrite decide_True in Hd.
Qed.

Lemma decode_blocks_ok hashes raws blocks out :
  Forall3 answers hashes raws blocks → for_each (zip hashes raws) out decode_block = Ok (out ++ blocks).
Proof.
  intros Ha. revert out. induction Ha as [|hash raw block hashes raws blocks Hab _ IH]; intros out.
  - by rewrite app_nil_r.
  - cbn [zip zip_with for_each]. rewrite (decode_block_ok _ _ _ _ Hab). cbn [rbind].
    by rewrite IH, <-app_assoc.
Qed.

Lemma decode_blocks_inv hashes raws out out' :
  length hashes = length raws → for_each (zip hashes raws) out decode_block = Ok out' →
  ∃ blocks, Forall3 answers hashes raws blocks ∧ out' = out ++ blocks.
Proof.
  revert raws out. induction hashes as [|hash hashes IH]; intros [|raw raws] out Hlen Hf; [|done..|].
  - injection Hf as <-. exists []. split; [constructor|by rewrite app_nil_r].
  - cbn [zip zip_with for_each] in Hf. apply res_bind_ok in Hf as (out1 & Hd & Hf).
    apply decode_block_inv in Hd as (block & Hab & ->).
    destruct (IH raws _ (Nat.succ_inj _ _ Hlen) Hf) as (blocks & Hbs & ->).
    exists (block :: blocks). split; [by constructor|by rewrite <-app_assoc].
Qed.

Lemma answers_hashes hashes raws blocks : Forall3 answers hashes raws blocks → block_hash_of <$> blocks = hashes.
Proof. induction 1 as [|hash raw block ??? [_ Hh] _ IH]; [done|]. cbn [fmap list_fmap]. by rewrite IH, Hh. Qed.

Definition after_blocks (hashes : list BlockHash) (rest : list RawBlock) (p : Peer) : Peer :=
  MkPeer (request_open p) (headers_recv p) rest (sent_requests p ++ [req_get_blocks hashes]).

(** C36: While the handler lives, [get_blocks] succeeds exactly when the next
    blocks received answer the requested hashes one for one and in order, and
    then takes those and no other; a block with another hash is a mismatch that
    names the received hash first, one that does not decode a decoding error,
    and a closed blocks channel is an error.  When the handler has stopped the
    requests cannot be sent, and [get_blocks] panics. *)
Theorem get_blocks_matches_requests (hashes : list BlockHash) (p : Peer) :
  if request_open p then
    (∀ blocks p', get_blocks hashes p = Ok (blocks, p') ↔
       ∃ raws rest, blocks_recv p = raws ++ rest ∧ Forall3 answers hashes raws blocks ∧
         p' = after_blocks hashes rest p) ∧
    (∀ h1 hash h2 raws1 raw raws2 rest blocks, hashes = h1 ++ hash :: h2 →
       blocks_recv p = (raws1 ++ raw :: raws2) ++ rest → length raws2 = length h2 → Forall3 answers h1 raws1 blocks →
       match block_decode raw with
       | Ok block => block_hash_of block ≠ hash → get_blocks hashes p = Err (GetBlocksMismatch (block_hash_of block) hash)
       | Err e => get_blocks hashes p = Err (IngressDecoding e)
       | Panic why => get_blocks hashes p = Panic why
       end) ∧
    (length (blocks_recv p) < length hashes → get_blocks hashes p = Err (PeerChannelClosed "blocks"))
  else get_blocks hashes p = Panic "unwrap".
Proof.
  destruct (request_open p) eqn:Hopen; [|unfold get_blocks, peer_send; by rewrite Hopen].
  unfold get_blocks, peer_send. rewrite Hopen. cbn [rbind blocks_recv]. split_and!.
  - intros blocks p'. split.
    + intros Hg. apply res_bind_ok in Hg as ([raws rest] & Hr & Hg). apply recv_blocks_inv in Hr as [Heq Hlen].
      apply res_bind_ok in Hg as (blocks' & Hd & Hg). apply decode_blocks_inv in Hd as (bs & Hbs & ->); [|done].
      injection Hg as <- <-. exists raws, rest. unfold after_blocks. by rewrite Hopen.
    + intros (raws & rest & Heq & Ha & ->). rewrite Heq.
      assert (length hashes = length raws) as -> by (clear -Ha; induction Ha; simpl; congruence).
      rewrite recv_blocks_app. cbn [rbind]. rewrite (decode_blocks_ok _ _ _ _ Ha). cbn [rbind app].
      unfold after_blocks. by rewrite Hopen.
  - intros h1 hash h2 raws1 raw raws2 rest blocks -> Heq Hl2 Ha. rewrite Heq.
    assert (length h1 = length raws1) as Hl1 by (clear -Ha; induction Ha; simpl; congruence).
    replace (length (h1 ++ hash :: h2)) with (length (raws1 ++ raw :: raws2)) by (rewrite !length_app; simpl; lia).
    rewrite recv_blocks_app. cbn [rbind].
    rewrite zip_with_app by done. rewrite for_each_app, (decode_blocks_ok _ _ _ _ Ha). cbn [rbind zip_with for_each].
    unfold decode_block. destruct (block_decode raw) as [block|e|why]; cbn [map_err rbind]; [|done..].
    intros Hne. by rewrite decide_True.
  - intros Hlt. by rewrite recv_blocks_short.
Qed.
End Blocks.

(** ** The order in which the tasks relay *)
Section Relay.
Context `{BitcoinNode}.

(** What an event adds to the messages received, what the handler answers, and
    what the client takes. *)
Definition ev_ingress (ev : Event) : option DecodedMessage := match ev with EvIngress m => Some m | _ => None end.
Definition ev_taken (ev : Event) : option Input := match ev with EvTake i => Some i | _ => None end.
Definition ev_done (ev : Event) : option Input := match ev with EvDone i => Some i | _ => None end.
Definition ev_request (ev : Event) : option Request := match ev with EvRequest r => Some r | _ => None end.
Definition ev_write (ev : Event) : option RawNetworkMessage := match ev with EvWrite r => Some r | _ => None end.
Definition ev_headers (ev : Event) : option (list Header) := match ev with EvHeaders h => Some h | _ => None end.
Definition ev_block (ev : Event) : option RawBlock := match ev with EvBlock b => Some b | _ => None end.

Definition as_message (i : Input) : option DecodedMessage := match i with InMessage m => m | _ => None end.
Definition as_request (i : Input) : option Request := match i with InRequest r => r | _ => None end.
Definition as_headers (m : DecodedMessage) : option (list Header) := match m with Headers h => Some h | _ => None end.
Definition as_block (m : DecodedMessage) : option RawBlock := match m with BlockMessage b => Some b | _ => None end.

(** The message a turn sends to the node. *)
Definition reply (i : Input) : option NetworkMessage :=
  match i with
  | InRequest (Some req) => Some (to_send req)
  | InMessage (Some (Version _)) => Some NetVerack
  | InMessage (Some (Ping nonce)) => Some (Pong nonce)
  | _ => None
  end.

(** The messages received and not yet handled: in the handler's hands, or waiting. *)
Definition pending_messages (s : System) : list DecodedMessage :=
  option_list (sy_busy s ≫= as_message) ++ ch_queue (sy_ingress s).
Definition pending_requests (s : System) : list Request :=
  option_list (sy_busy s ≫= as_request) ++ ch_queue (sy_requests s).

Definition within {A} (c : Chan A) : Prop := length (ch_queue c) <= ch_capacity c.

Record relayed (mg : u8arr 4) (hello : NetworkMessage) (evs : list Event) (s : System) : Prop := {
  rl_messages : omap ev_ingress evs = omap as_message (omap ev_done evs) ++ pending_messages s;
  rl_requests : omap ev_request evs = omap as_request (omap ev_done evs) ++ pending_requests s;
  rl_headers : omap as_headers (omap as_message (omap ev_done evs)) =
    omap ev_headers evs ++ ch_queue (headers_send (sy_handler s));
  rl_blocks : omap as_block (omap as_message (omap ev_done evs)) =
    omap ev_block evs ++ ch_queue (blocks_send (sy_handler s));
  rl_replies : MkRawMessage mg <$> (hello :: omap reply (omap ev_done evs)) =
    omap ev_write evs ++ ch_queue (egress_send (sy_handler s));
  rl_magic : magic (sy_handler s) = mg;
  rl_bounds : within (headers_send (sy_handler s)) ∧ within (blocks_send (sy_handler s)) ∧
    within (egress_send (sy_handler s)) ∧ within (sy_requests s) ∧ within (sy_ingress s);
}.

Lemma chan_send_inv {A E} (x : A) (e : E) c c' :
  chan_send x e c = Some (Ok c') →
  ch_queue c' = ch_queue c ++ [x] ∧ ch_capacity c' = ch_capacity c ∧ within c'.
Proof.
  unfold chan_send, within. destruct (ch_open c); [|done]. cbn [negb].
  destruct (Nat.ltb_spec (length (ch_queue c)) (ch_capacity c)); [|done].
  intros Heq. injection Heq as <-. simpl. rewrite length_app. simpl. split_and!; [done|done|lia].
Qed.

Lemma chan_recv_inv {A} (x : A) c c' :
  chan_recv c = Some (x, c') →
  ch_queue c = x :: ch_queue c' ∧ ch_capacity c' = ch_capacity c ∧ (within c → within c').
Proof.
  unfold chan_recv, within. destruct (ch_queue c) as [|y q]; [done|]. intros Heq. injection Heq as -> <-.
  simpl. split_and!; [done|done|lia].
Qed.

Lemma sent_inv {A} (r : option (Res P2PError (Chan A))) k h' :
  sent r k = Some (Ok h') → ∃ c, r = Some (Ok c) ∧ h' = k c.
Proof. destruct r as [[c|?|?]|]; [|done..]. intros Heq. injection Heq as <-. by exists c. Qed.

(** What a turn does to the channels it sends on. *)
Lemma tick_inv input h h' :
  tick input h = Some (Ok h') →
  magic h' = magic h ∧
  ch_queue (headers_send h') = ch_queue (headers_send h) ++ option_list (as_message input ≫= as_headers) ∧
  ch_queue (blocks_send h') = ch_queue (blocks_send h) ++ option_list (as_message input ≫= as_block) ∧
  ch_queue (egress_send h') =
    ch_queue (egress_send h) ++ option_list (MkRawMessage (magic h) <$> reply input) ∧
  (within (headers_send h) → within (headers_send h')) ∧ (within (blocks_send h) → within (blocks_send h')) ∧
  (within (egress_send h) → within (egress_send h')).
Proof.
  intros Ht. destruct input as [[req|]|[[ver| |nonce|inv|hs|b|]|]]; cbn [tick handle_message] in Ht; try done.
  all: unfold send_egress in Ht; try (apply sent_inv in Ht as (c & Hc & ->); apply chan_send_inv in Hc as (Hq & _ & Hw)).
  all: try (destruct (existsb is_block inv)).
  all: simplify_eq; cbn [magic headers_send blocks_send egress_send as_message as_headers as_block reply mbind
    option_bind fmap option_fmap option_map option_list]; rewrite ?app_nil_r; by split_and!.
Qed.

Lemma omap_snoc {A B} (f : A → option B) l x : omap f (l ++ [x]) = omap f l ++ option_list (f x).
Proof. rewrite omap_app. simpl. by destruct (f x). Qed.

Lemma omap_option_list {A B} (f : A → option B) (o : option A) : omap f (option_list o) = option_list (o ≫= f).
Proof. destruct o as [x|]; [|done]. simpl. by destruct (f x). Qed.

Lemma fmap_option_list {A B} (f : A → B) (o : option A) : f <$> option_list o = option_list (f <$> o).
Proof. by destruct o. Qed.

Lemma done_relayed mg hello evs h reqs ing input h' :
  relayed mg hello evs (MkSystem h reqs ing (Some input)) → tick input h = Some (Ok h') →
  relayed mg hello (evs ++ [EvDone input]) (MkSystem h' reqs ing None).
Proof.
  intros [Hms Hrq Hhd Hbl Hre Hmg (B1 & B2 & B3 & B4 & B5)] (Hmg' & Hh & Hb & He & W1 & W2 & W3)%tick_inv.
  unfold pending_messages, pending_requests in *. simpl in Hms, Hrq, Hhd, Hbl, Hre, Hmg, B1, B2, B3, B4, B5.
  rewrite Hmg in He, Hmg'.
  split; unfold pending_messages, pending_requests; rewrite ?omap_snoc;
    cbn [sy_handler sy_requests sy_ingress sy_busy ev_ingress ev_done ev_request ev_write ev_headers ev_block
         mbind option_bind]; rewrite ?app_nil_r, ?omap_app, ?omap_option_list; cbn [mbind option_bind].
  - by rewrite Hms, <-app_assoc.
  - by rewrite Hrq, <-app_assoc.
  - by rewrite Hhd, Hh, <-app_assoc.
  - by rewrite Hbl, Hb, <-app_assoc.
  - rewrite He, app_assoc. cbn [egress_send]. etransitivity; [|exact (f_equal (.++ _) Hre)].
    rewrite <-fmap_option_list. exact (fmap_app _ (hello :: _) _).
  - done.
  - auto 10.
Qed.

(** Sending on a channel appends to it; receiving takes its first element. *)
Ltac relay_queues :=
  repeat match goal with
  | Hs : chan_send _ _ _ = Some (Ok _) |- _ => apply chan_send_inv in Hs as (Hq & Hcap & Hw)
  | Hs : chan_recv _ = Some _ |- _ => apply chan_recv_inv in Hs as (Hq & Hcap & Hw)
  end.

Lemma sys_step_relayed mg hello evs s ev s' :
  relayed mg hello evs s → sys_step s ev s' → relayed mg hello (evs ++ [ev]) s'.
Proof.
  intros Hr Hstep. destruct Hstep as [| | | |h reqs ing input h' Ht| | |]; [..|by eapply done_relayed| | |];
    destruct Hr as [Hms Hrq Hhd Hbl Hre Hmg (B1 & B2 & B3 & B4 & B5)];
    unfold pending_messages, pending_requests in *; relay_queues;
    cbn [sy_handler sy_requests sy_ingress sy_busy headers_send blocks_send egress_send magic mbind option_bind
      option_list as_message as_request app] in *;
    split; unfold pending_messages, pending_requests; rewrite ?omap_snoc;
    cbn [sy_handler sy_requests sy_ingress sy_busy headers_send blocks_send egress_send magic mbind option_bind
      option_list as_message as_request ev_ingress ev_done ev_request ev_write ev_headers ev_block app];
    rewrite ?app_nil_r; auto 10.
  all: rewrite ?Hms, ?Hrq, ?Hhd, ?Hbl, ?Hre, ?Hq; by rewrite <-?app_assoc.
Qed.

Lemma sys_run_relayed mg now nonce evs s :
  sys_run (system_new mg now nonce) evs s → relayed mg (version_message now nonce) evs s.
Proof.
  induction 1 as [|evs s ev s' _ IH Hstep]; [|by eapply sys_step_relayed].
  split; try done. unfold within. simpl. lia.
Qed.

(** In every interleaving of the client, the handler, the ingress and the
    egress, headers and blocks reach the client in the order the node sent
    them, none lost, none repeated; requests are handled in order; what is
    written to the node is the version message and then one reply for each
    request, version message and ping, in the order these were handled; and no
    channel grows beyond its capacity. *)
Theorem connection_relays_in_order (mg : u8arr 4) (now nonce : u64) (evs : list Event) (s : System) :
  sys_run (system_new mg now nonce) evs s → relayed mg (version_message now nonce) evs s.
Proof. apply sys_run_relayed. Qed.
End Relay.

(** ** Closed examples *)
Module PeerExamples.
Import SimpleBitcoin SimpleNode.
#[local] Existing Instances simple_bitcoin simple_node.

Lemma fixed_app {A} n (f : list byte → A) c rest : length c = n → fixed n f (c ++ rest) = Ok (f c, rest).
Proof.
  intros <-. unfold fixed. rewrite length_app, (proj2 (Nat.ltb_ge _ _)) by lia.
  by rewrite take_app_length, drop_app_length.
Qed.

#[local] Program Instance simple_node_ok : ConsensusOk := {| command_name := trim_name |}.
Next Obligation. intros c rest Hc. by apply (fixed_app 12). Qed.
Next Obligation.
  intros n rest Hn. etransitivity; [by apply (fixed_app 4), length_le_bytes|].
  rewrite le_val_bytes, N.mod_small; [done|exact Hn].
Qed.

Definition ex_magic : u8arr 4 := [x1c; x16; x3f; x28].
Definition command (s : string) : u8arr 12 :=
  String.list_byte_of_string s ++ replicate (12 - String.length s) x00.
Definition ex_hash (b : byte) : BlockHash := replicate 32 b.
Definition frame (name : string) (payload : list byte) : Frame :=
  MkFrame ex_magic (command name) [x00; x00; x00; x00] payload.
Definition ex_frames : list Frame :=
  [frame "ping" (le_bytes 8 77); frame "feefilter" [x01]; frame "headers" (x01 :: ex_hash x01 ++ [x00]);
   frame "block" (ex_hash x02)].
Definition ex_msgs : list DecodedMessage :=
  [Ping 77; Unused; Headers [ex_hash x01 : Header]; BlockMessage (ex_hash x02)].

Lemma ex_frames_ok : Forall frame_ok ex_frames.
Proof. repeat (apply Forall_cons; split; [split_and!; vm_compute; reflexivity|]). apply Forall_nil. exact I. Qed.

(** A frame of three bytes is cut after one of them; the handler takes all
    four messages, or is gone after two. *)
Definition ex_tail : list byte := take 25 (frame_bytes (frame "inv" [x00; x01; x02])).
Lemma ex_tail_cut : cut_short ex_tail.
Proof.
  right. exists (frame "inv" [x00; x01; x02]), 25. split; [split_and!; vm_compute; reflexivity|].
  split; [|reflexivity]. vm_compute. lia.
Qed.

Example ingress_relays_frames_witness :
  ingress_run (replicate 5 true) (concat (frame_bytes <$> ex_frames) ++ ex_tail) = (ex_msgs, Some (Err (IngressIO "early eof"))) ∧
  ingress_run [true; true; false] (concat (frame_bytes <$> ex_frames) ++ ex_tail) =
    ([Ping 77; Unused], Some (Err IngressChannelClosed)).
Proof.
  split.
  - etransitivity; [exact (ingress_relays_frames ex_frames ex_tail (replicate 5 true) ex_frames_ok ex_tail_cut)|].
    vm_compute. reflexivity.
  - etransitivity; [exact (ingress_relays_frames ex_frames ex_tail [true; true; false] ex_frames_ok ex_tail_cut)|].
    vm_compute. reflexivity.
Defined.

Definition ex_peer : Peer := MkPeer true [] [ex_hash x01; ex_hash x02; ex_hash x09] [].

Example get_blocks_matches_requests_witness :
  get_blocks [ex_hash x02; ex_hash x03] ex_peer =
    Ok ([ex_hash x01 : Block; ex_hash x02 : Block],
        MkPeer true [] [ex_hash x09] [req_get_blocks [ex_hash x02; ex_hash x03]]) ∧
  get_blocks [ex_hash x02; ex_hash x04; ex_hash x05] ex_peer =
    Err (GetBlocksMismatch (ex_hash x03) (ex_hash x04)) ∧
  get_blocks [ex_hash x02; ex_hash x03; ex_hash x0a; ex_hash x0b] ex_peer = Err (PeerChannelClosed "blocks").
Proof.
  split_and!.
  - apply (get_blocks_matches_requests [ex_hash x02; ex_hash x03] ex_peer).
    exists [ex_hash x01; ex_hash x02], [ex_hash x09]. split_and!; [reflexivity| |reflexivity].
    repeat (constructor; [split; vm_compute; reflexivity|]). constructor.
  - refine (proj1 (proj2 (get_blocks_matches_requests [ex_hash x02; ex_hash x04; ex_hash x05] ex_peer))
              [ex_hash x02] (ex_hash x04) [ex_hash x05] [ex_hash x01] (ex_hash x02) [ex_hash x09] []
              [ex_hash x01 : Block] _ _ _ _ _); [reflexivity..| |discriminate].
    repeat (constructor; [split; vm_compute; reflexivity|]). constructor.
  - apply (get_blocks_matches_requests [ex_hash x02; ex_hash x03; ex_hash x0a; ex_hash x0b] ex_peer).
    simpl. lia.
Defined.

(** The node pings; the version message goes out, and the answer after it. *)
Definition ex_events : list Event :=
  [EvIngress (Ping 7); EvTake (InMessage (Some (Ping 7)));
   EvWrite (MkRawMessage ex_magic (version_message 0 0)); EvDone (InMessage (Some (Ping 7)));
   EvWrite (MkRawMessage ex_magic (Pong 7))].

Definition ex_end : System :=
  let handler := MkHandler ex_magic false (channel 20) (channel 20) false (channel 1) in
  MkSystem handler (channel 1) (channel 1) None.

Lemma ex_run : sys_run (system_new ex_magic 0 0) ex_events ex_end.
Proof.
  change ex_events with ((((([] ++ [EvIngress (Ping 7)]) ++ [EvTake (InMessage (Some (Ping 7)))]) ++
    [EvWrite (MkRawMessage ex_magic (version_message 0 0))]) ++ [EvDone (InMessage (Some (Ping 7)))]) ++
    [EvWrite (MkRawMessage ex_magic (Pong 7))]).
  repeat eapply run_step; [apply run_start|..].
  - eapply step_ingress. reflexivity.
  - eapply step_take_message. reflexivity.
  - eapply step_write. reflexivity.
  - eapply step_done. reflexivity.
  - refine (step_write (MkHandler ex_magic false (channel 20) (channel 20) false
      (MkChan [MkRawMessage ex_magic (Pong 7)] 1 true)) (channel 1) (channel 1) None _ _ _). reflexivity.
Qed.

Example connection_relays_in_order_witness :
  relayed ex_magic (version_message 0 0) ex_events ex_end.
Proof. exact (connection_relays_in_order ex_magic 0 0 ex_events ex_end ex_run). Defined.
End PeerExamples.
