(* ===== verification/Connection.v ===== *)
(** * The life of a connection

    [Peer::connect] and how the tasks of a connection end
    (src/src/sync/stages/pull/peer.rs): the ingress and the egress stop when
    the socket fails, the ingress also on a message that does not decode; the
    handler stops when a channel it needs is gone, and it then aborts the other
    two; the client may drop its ends.  While they live the
    tasks take the steps of [Peer.sys_step]. *)
From Stdlib Require Import Strings.String.
From S2P Require Import Prelude ByteOrder EncDec Timestamp Types MergeOperation Table Rocks.
From S2P Require Import CoreTables Bitcoin Peer PeerLaws.

Section Connection.
Context `{BitcoinNode}.

(** The client waits in [connect] for the handshake, has the [Peer], or has
    dropped it. *)
Inductive Client : Type := Handshaking | Connected | Gone.
#[export] Instance Client_dec : EqDecision Client.
Proof. solve_decision. Defined.

Record Connection : Type := MkConnection {
  cn_system : System;
  cn_ingress : bool;                     (* the task runs *)
  cn_egress : bool;
  cn_stopped : option P2PError;          (* why the handler has stopped *)
  cn_client : Client;
}.

(** The start of [connect]: the socket and its options, then the tasks. *)
Definition connect {S} (stream : Res string S) (set_tcp_keepalive set_tcp_nodelay : S → Res string unit)
    (mg : u8arr 4) (now nonce : u64) : Res P2PError Connection :=
  stream ← map_err ConnectFailure stream;
  _ ← map_err ConnectFailure (set_tcp_keepalive stream);
  _ ← map_err ConnectFailure (set_tcp_nodelay stream);
  Ok (MkConnection (system_new mg now nonce) true true None Handshaking).

(** [Network::magic]; the [bitcoin] crate knows two of the networks. *)
Definition network_magic (bitcoin_magic regtest_magic : u8arr 4) (network : Network) : u8arr 4 :=
  match network with
  | Mainnet => bitcoin_magic
  | Testnet4 => [x1c; x16; x3f; x28]
  | Regtest => regtest_magic
  end.

(** The channels as the handler finds them: a receiver may be gone. *)
Definition shut {A} (alive : bool) (c : Chan A) : Chan A :=
  MkChan (ch_queue c) (ch_capacity c) (ch_open c && alive).
Definition with_receivers (egress client : bool) (h : PeerHandler) : PeerHandler :=
  MkHandler (magic h) (init_notifier h) (shut client (headers_send h)) (shut client (blocks_send h))
    (new_block_notifier h) (shut egress (egress_send h)).
Definition handler_view (c : Connection) : PeerHandler :=
  with_receivers (cn_egress c) (bool_decide (cn_client c ≠ Gone)) (sy_handler (cn_system c)).

Definition running (c : Connection) : bool := match cn_stopped c with None => true | Some _ => false end.

(** ** The egress

    [recv] gives the queued messages and then, when every sender is gone,
    [None] at each call; [None] is not taken for the end. *)
Section Egress.
Variable write_message : RawNetworkMessage → Res string unit.

Definition egress_tick (msg : option RawNetworkMessage) : Res P2PError unit :=
  match msg with
  | Some x => map_err EgressIO (write_message x)
  | None => Ok tt
  end.

(** The messages written, and how the loop ended within the fuel. *)
Fixpoint egress_run (fuel : nat) (queue : list RawNetworkMessage) :
    list RawNetworkMessage * option (Res P2PError unit) :=
  match fuel with
  | O => ([], None)
  | S fuel =>
      match egress_tick (head queue) with
      | Ok _ => let '(written, stop) := egress_run fuel (tail queue) in (option_list (head queue) ++ written, stop)
      | Err e => ([], Some (Err e))
      | Panic why => ([], Some (Panic why))
      end
  end.

Lemma egress_writes fuel : ∀ queue, Forall (λ x, write_message x = Ok tt) queue →
  egress_run fuel queue = (take fuel queue, None).
Proof.
  induction fuel as [|fuel IH]; intros queue Hq; [done|]. cbn [egress_run].
  destruct Hq as [|x queue Hx Hq]; cbn [head tail egress_tick].
  - rewrite IH by constructor. by rewrite take_nil.
  - rewrite Hx. cbn [map_err]. by rewrite IH.
Qed.

Lemma egress_fails pre x post e fuel :
  Forall (λ x, write_message x = Ok tt) pre → write_message x = Err e → length pre < fuel →
  egress_run fuel (pre ++ x :: post) = (pre, Some (Err (EgressIO e))).
Proof.
  intros Hpre Hx. revert fuel. induction Hpre as [|y pre Hy _ IH]; intros fuel Hf.
  - destruct fuel as [|fuel]; [lia|]. cbn [app egress_run head egress_tick]. by rewrite Hx.
  - destruct fuel as [|fuel]; [simpl in Hf; lia|]. cbn [app egress_run head tail egress_tick]. rewrite Hy.
    cbn [map_err]. rewrite IH by (simpl in Hf; lia). done.
Qed.

(** C37: The tasks on the socket.  The ingress ends on every stream the socket
    delivers, within as many turns as it has bytes and one more, whatever
    becomes of what it sends to the handler, as long as no send waits for ever.  The egress
    ends exactly when a write fails, having written what was queued before;
    when its channel is closed it goes on for ever, taking turns that do
    nothing. *)
Theorem socket_tasks_end (stream : list byte) (queue : list RawNetworkMessage) :
  (∀ sends, length stream < length sends →
    ∃ msgs stop, ingress_run sends stream = (msgs, Some stop) ∧ stop ≠ Ok tt ∧ 24 * length msgs <= length stream) ∧
  (∀ pre x post e fuel,
    queue = pre ++ x :: post → Forall (λ x, write_message x = Ok tt) pre → write_message x = Err e →
    length pre < fuel → egress_run fuel queue = (pre, Some (Err (EgressIO e)))) ∧
  (Forall (λ x, write_message x = Ok tt) queue → ∀ fuel, egress_run fuel queue = (take fuel queue, None)).
Proof.
  split; [intros sends; apply ingress_terminates|]. split; [|intros Hq fuel; by apply egress_writes].
  intros pre x post e fuel -> Hpre Hx Hf. by apply egress_fails.
Qed.
End Egress.

(** Who takes a step, and whether it still can. *)
Definition enabled (c : Connection) (ev : Event) : bool :=
  match ev with
  | EvRequest _ => running c && bool_decide (cn_client c = Connected)
  | EvIngress _ => cn_ingress c
  | EvTake _ => running c
  | EvDone input => running c && match tick input (handler_view c) with Some (Ok _) => true | _ => false end
  | EvWrite _ => cn_egress c
  | EvHeaders _ | EvBlock _ => bool_decide (cn_client c = Connected)
  end.

(** Why the handler stops: its turn fails, or the channel it waits on has been
    closed and is empty. *)
Definition fails (c : Connection) (e : P2PError) : Prop :=
  match sy_busy (cn_system c) with
  | Some input => tick input (handler_view c) = Some (Err e)
  | None =>
      cn_ingress c = false ∧ ch_queue (sy_ingress (cn_system c)) = [] ∧
        tick (InMessage None) (handler_view c) = Some (Err e) ∨
      cn_client c = Gone ∧ ch_queue (sy_requests (cn_system c)) = [] ∧
        tick (InRequest None) (handler_view c) = Some (Err e)
  end.

Inductive ConnEvent : Type :=
| CnStep (ev : Event)
| CnIngressStops | CnEgressStops        (* the socket failed *)
| CnHandlerStops (e : P2PError)
| CnConnects                            (* connect returns the Peer *)
| CnDrops.                              (* the client drops it, or gives up waiting *)

Inductive conn_step (c : Connection) : ConnEvent → Connection → Prop :=
| conn_sys ev s' :
    enabled c ev = true → sys_step (cn_system c) ev s' →
    conn_step c (CnStep ev) (MkConnection s' (cn_ingress c) (cn_egress c) (cn_stopped c) (cn_client c))
| conn_ingress_stops :
    cn_ingress c = true →
    conn_step c CnIngressStops (MkConnection (cn_system c) false (cn_egress c) (cn_stopped c) (cn_client c))
| conn_egress_stops :
    cn_egress c = true →
    conn_step c CnEgressStops (MkConnection (cn_system c) (cn_ingress c) false (cn_stopped c) (cn_client c))
| conn_handler_stops e :
    running c = true → fails c e →
    conn_step c (CnHandlerStops e) (MkConnection (cn_system c) false false (Some e) (cn_client c))
| conn_connects :
    cn_client c = Handshaking → init_notifier (sy_handler (cn_system c)) = true →
    conn_step c CnConnects (MkConnection (cn_system c) (cn_ingress c) (cn_egress c) (cn_stopped c) Connected)
| conn_drops :
    conn_step c CnDrops (MkConnection (cn_system c) (cn_ingress c) (cn_egress c) (cn_stopped c) Gone).

Inductive conn_run (c0 : Connection) : list ConnEvent → Connection → Prop :=
| conn_start : conn_run c0 [] c0
| conn_next evs c ev c' : conn_run c0 evs c → conn_step c ev c' → conn_run c0 (evs ++ [ev]) c'.

(** ** What survives the failures *)
Definition as_step (ev : ConnEvent) : option Event := match ev with CnStep ev => Some ev | _ => None end.

Definition fresh_connection (mg : u8arr 4) (now nonce : u64) : Connection :=
  MkConnection (system_new mg now nonce) true true None Handshaking.

Lemma connect_ok {S} (stream : S) keepalive nodelay mg now nonce c :
  connect (Ok stream) keepalive nodelay mg now nonce = Ok c → c = fresh_connection mg now nonce.
Proof. unfold connect. intros Hc. inv_bind. by simplify_eq. Qed.

Lemma conn_run_system mg now nonce evs c :
  conn_run (fresh_connection mg now nonce) evs c → sys_run (system_new mg now nonce) (omap as_step evs) (cn_system c).
Proof.
  induction 1 as [|evs c ev c' _ IH Hstep]; [apply run_start|]. rewrite omap_snoc.
  destruct Hstep; cbn [as_step option_list cn_system]; rewrite ?app_nil_r; [by eapply run_step|done..].
Qed.

(** The handshake: the notification is sent for a verack. *)
Lemma tick_init input h h' :
  tick input h = Some (Ok h') → init_notifier h' = true → init_notifier h = true ∨ as_message input = Some Verack.
Proof.
  intros Ht Hi. destruct input as [[req|]|[[ver| |nonce|inv|hs|b|]|]]; cbn [tick handle_message] in Ht; try done.
  all: unfold send_egress in Ht; try (apply sent_inv in Ht as (c & _ & ->); by left).
  - by right.
  - left. destruct (existsb is_block inv); by simplify_eq.
  - left. by simplify_eq.
Qed.

Lemma sys_run_init mg now nonce evs s :
  sys_run (system_new mg now nonce) evs s → init_notifier (sy_handler s) = true →
  Verack ∈ omap as_message (omap ev_done evs).
Proof.
  induction 1 as [|evs s ev s' _ IH Hstep]; intros Hi; [done|]. rewrite omap_snoc, omap_app.
  apply elem_of_app. destruct Hstep as [| | | |h reqs ing input h' Ht| | |]; try (left; by apply IH).
  destruct (tick_init _ _ _ Ht Hi) as [Hi'|Hm]; [left; by apply IH|]. right. cbn [ev_done option_list].
  simpl. rewrite Hm. by left.
Qed.

(** Once the handler has stopped, what it holds does not change. *)
Lemma stopped_step c ev c' e :
  conn_step c ev c' → cn_stopped c = Some e → cn_ingress c = false → cn_egress c = false →
  cn_stopped c' = Some e ∧ cn_ingress c' = false ∧ cn_egress c' = false ∧
  init_notifier (sy_handler (cn_system c')) = init_notifier (sy_handler (cn_system c)).
Proof.
  intros Hstep He Hin Heg. destruct Hstep as [ev s' Hen Hsys|Ha|Ha|e' Hr _| |]; try by split_and!.
  - unfold enabled, running in Hen. rewrite He, Hin, Heg in Hen. destruct Hsys; by split_and!.
  - unfold running in Hr. by rewrite He in Hr.
Qed.

Lemma conn_run_trans c0 evs1 c1 evs2 c2 : conn_run c0 evs1 c1 → conn_run c1 evs2 c2 → conn_run c0 (evs1 ++ evs2) c2.
Proof.
  intros Hr1. induction 1 as [|evs c ev c' _ IH Hstep]; [by rewrite app_nil_r|].
  rewrite app_assoc. by eapply conn_next.
Qed.

Lemma stopped_run c evs c' e :
  conn_run c evs c' → cn_stopped c = Some e → cn_ingress c = false → cn_egress c = false →
  cn_stopped c' = Some e ∧ cn_ingress c' = false ∧ cn_egress c' = false ∧
  init_notifier (sy_handler (cn_system c')) = init_notifier (sy_handler (cn_system c)).
Proof.
  induction 1 as [|evs c1 ev c2 _ IH Hstep]; intros He Hin Heg; [by split_and!|].
  destruct (IH He Hin Heg) as (He' & Hin' & Heg' & Hi).
  destruct (stopped_step _ _ _ _ Hstep He' Hin' Heg') as (? & ? & ? & Hi'). split_and!; [done..|]. by rewrite Hi'.
Qed.

(** What holds at every moment. *)
Record conn_sound (evs : list ConnEvent) (c : Connection) : Prop := {
  cs_connected : cn_client c = Connected → init_notifier (sy_handler (cn_system c)) = true;
  cs_stopped e : cn_stopped c = Some e →
    cn_ingress c = false ∧ cn_egress c = false ∧
    (CnIngressStops ∈ evs ∧ e = IngressChannelClosed ∨
     CnEgressStops ∈ evs ∧ e = EgressChannelClosed ∨
     CnDrops ∈ evs ∧ ∃ channel, e = PeerChannelClosed channel);
  cs_ingress : cn_ingress c = false → cn_stopped c = None → CnIngressStops ∈ evs;
  cs_egress : cn_egress c = false → cn_stopped c = None → CnEgressStops ∈ evs;
  cs_gone : cn_client c = Gone → CnDrops ∈ evs;
  cs_open : ch_open (headers_send (sy_handler (cn_system c))) = true ∧
    ch_open (blocks_send (sy_handler (cn_system c))) = true ∧ ch_open (egress_send (sy_handler (cn_system c))) = true;
  cs_busy : match sy_busy (cn_system c) with
            | Some (InRequest None) | Some (InMessage None) => False
            | _ => True
            end;
}.

Definition open_ends (h : PeerHandler) : Prop :=
  ch_open (headers_send h) = true ∧ ch_open (blocks_send h) = true ∧ ch_open (egress_send h) = true.

Lemma chan_send_open {A E} (x : A) (e : E) c c' : chan_send x e c = Some (Ok c') → ch_open c' = ch_open c.
Proof.
  unfold chan_send. destruct (ch_open c); [|done]. cbn [negb]. destruct (_ <? _)%nat; [|done].
  intros Hc. by injection Hc as <-.
Qed.
Lemma chan_recv_open {A} (x : A) c c' : chan_recv c = Some (x, c') → ch_open c' = ch_open c.
Proof. unfold chan_recv. destruct (ch_queue c); [done|]. intros Hc. by injection Hc as <- <-. Qed.

Lemma chan_send_closed {A E} (x : A) (e e' : E) c : chan_send x e c = Some (Err e') → ch_open c = false ∧ e' = e.
Proof.
  unfold chan_send. destruct (ch_open c); cbn [negb]; [|intros Hc; by injection Hc as <-].
  by destruct (_ <? _)%nat.
Qed.

Lemma sent_err {A} (r : option (Res P2PError (Chan A))) k e : sent r k = Some (Err e) → r = Some (Err e).
Proof. destruct r as [[]|]; try done. intros Hs. by injection Hs as ->. Qed.

Lemma tick_open input h h' : tick input h = Some (Ok h') → open_ends h → open_ends h'.
Proof.
  intros Ht Ho. destruct input as [[req|]|[[ver| |nonce|inv|hs|b|]|]]; cbn [tick handle_message] in Ht; try done.
  all: unfold send_egress in Ht; try (apply sent_inv in Ht as (c & Hc & ->); apply chan_send_open in Hc;
    destruct Ho as (? & ? & ?); split_and!; simpl; congruence).
  - by simplify_eq.
  - destruct (existsb is_block inv); by simplify_eq.
  - by simplify_eq.
Qed.

Lemma sys_step_open s ev s' : sys_step s ev s' → open_ends (sy_handler s) → open_ends (sy_handler s').
Proof.
  intros Hstep Ho. destruct Hstep; try done; [by eapply tick_open|..];
    match goal with Hc : chan_recv _ = _ |- _ => apply chan_recv_open in Hc end;
    destruct Ho as (? & ? & ?); split_and!; simpl in *; congruence.
Qed.

Lemma sys_step_busy s ev s' : sys_step s ev s' →
  match sy_busy s with Some (InRequest None) | Some (InMessage None) => False | _ => True end →
  match sy_busy s' with Some (InRequest None) | Some (InMessage None) => False | _ => True end.
Proof. by destruct 1. Qed.

Lemma sys_step_init s ev s' :
  sys_step s ev s' → init_notifier (sy_handler s) = true → init_notifier (sy_handler s') = true.
Proof.
  intros Hstep Hi. destruct Hstep as [| | | |h reqs ing input h' Ht| | |]; try done. simpl in *.
  destruct input as [[req|]|[[ver| |nonce|inv|hs|b|]|]]; cbn [tick handle_message] in Ht; try done.
  all: unfold send_egress in Ht; try (by apply sent_inv in Ht as (c & _ & ->)).
  - by simplify_eq.
  - destruct (existsb is_block inv); by simplify_eq.
  - by simplify_eq.
Qed.

(** Why a turn fails. *)
Lemma fails_cause evs c e :
  conn_sound evs c → running c = true → fails c e →
  CnIngressStops ∈ evs ∧ e = IngressChannelClosed ∨
  CnEgressStops ∈ evs ∧ e = EgressChannelClosed ∨
  CnDrops ∈ evs ∧ ∃ channel, e = PeerChannelClosed channel.
Proof.
  intros [Hcon Hst Hin Heg Hgo (Oh & Ob & Oe) Hb] Hr Hf. unfold running in Hr.
  assert (cn_stopped c = None) as Hns by by destruct (cn_stopped c).
  assert (ch_open (egress_send (handler_view c)) = false → CnEgressStops ∈ evs) as He.
  { simpl. rewrite Oe. intros ?. by apply Heg. }
  assert (bool_decide (cn_client c ≠ Gone) = false → CnDrops ∈ evs) as Hd.
  { intros ?%bool_decide_eq_false. apply Hgo. by destruct (decide (cn_client c = Gone)). }
  unfold fails in Hf. destruct (sy_busy (cn_system c)) as [input|].
  - destruct input as [[req|]|[[ver| |nonce|inv|hs|b|]|]]; cbn [tick handle_message] in Hf; try done.
    all: unfold send_egress in Hf; try (destruct (existsb is_block inv); done);
      apply sent_err, chan_send_closed in Hf as [Hc ->].
    1-3: right; left; split; [by apply He|done].
    all: simpl in Hc; rewrite ?Oh, ?Ob in Hc; right; right; split; [by apply Hd|by eexists].
  - destruct Hf as [(Hni & _ & Ht)|(Hcl & _ & Ht)]; injection Ht as <-.
    + left. split; [by apply Hin|done].
    + right; right. split; [by apply Hgo|by eexists].
Qed.

Lemma conn_sound_run mg now nonce evs c : conn_run (fresh_connection mg now nonce) evs c → conn_sound evs c.
Proof.
  induction 1 as [|evs c ev c' _ IH Hstep]; [by split|].
  pose proof IH as [Hcon Hst Hin Heg Hgo Ho Hb].
  assert (∀ x, x ∈ evs → x ∈ evs ++ [ev]) as Hmono by (intros x Hx; apply elem_of_app; by left).
  assert (ev ∈ evs ++ [ev]) as Hself by (apply elem_of_app; right; by left).
  assert (∀ e, cn_stopped c = Some e → cn_ingress c = false ∧ cn_egress c = false ∧
    (CnIngressStops ∈ evs ++ [ev] ∧ e = IngressChannelClosed ∨
     CnEgressStops ∈ evs ++ [ev] ∧ e = EgressChannelClosed ∨
     CnDrops ∈ evs ++ [ev] ∧ ∃ channel, e = PeerChannelClosed channel)) as Hst'.
  { intros e He. destruct (Hst e He) as (? & ? & [[? ?]|[[? ?]|[? ?]]]); split_and!; auto 10. }
  destruct Hstep as [ev s' Hen Hsys|Ha|Ha|e Hr Hf|Hc Hi|];
    split; cbn [cn_system cn_ingress cn_egress cn_stopped cn_client]; auto.
  - intros Hcl. by eapply sys_step_init, Hcon.
  - by eapply sys_step_open.
  - by eapply sys_step_busy.
  - intros e He. by destruct (Hst' e He) as (? & ? & ?).
  - intros e He. by destruct (Hst' e He) as (? & ? & ?).
  - intros e' [= <-]. split_and!; [done|done|]. destruct (fails_cause _ _ _ IH Hr Hf) as [[? ?]|[[? ?]|[? ?]]]; auto 10.
  - done.
  - done.
  - done.
  - done.
Qed.

(** C35: Whatever tasks of a connection fail and when, what was relayed until
    then is a prefix of what was received, in order and without loss; the
    client gets its [Peer] only after the node has sent a verack; the handler
    stops only because the ingress or the egress ended (on a failed socket, the
    ingress also on a message that does not decode) or the client dropped its
    ends, and says which.  If it stops before the handshake is over, [connect] never
    returns: nothing that can still happen connects the client. *)
Theorem connection_relays_until_it_stops mg now nonce evs c :
  conn_run (fresh_connection mg now nonce) evs c →
  relayed mg (version_message now nonce) (omap as_step evs) (cn_system c) ∧
  (cn_client c = Connected → EvIngress Verack ∈ omap as_step evs) ∧
  (∀ e, cn_stopped c = Some e →
    (CnIngressStops ∈ evs ∧ e = IngressChannelClosed ∨
     CnEgressStops ∈ evs ∧ e = EgressChannelClosed ∨
     CnDrops ∈ evs ∧ ∃ channel, e = PeerChannelClosed channel) ∧
    (init_notifier (sy_handler (cn_system c)) = false →
      ∀ evs' c', conn_run c evs' c' → cn_client c' ≠ Connected)).
Proof.
  intros Hrun. pose proof (conn_run_system _ _ _ _ _ Hrun) as Hsys.
  pose proof (sys_run_relayed _ _ _ _ _ Hsys) as Hrel. pose proof (conn_sound_run _ _ _ _ _ Hrun) as Hsound.
  split; [done|]. split.
  - intros Hc%(cs_connected _ _ Hsound). apply (sys_run_init _ _ _ _ _ Hsys) in Hc.
    assert (Verack ∈ omap ev_ingress (omap as_step evs)) as Hin by (rewrite (rl_messages _ _ _ _ Hrel); apply elem_of_app; by left).
    apply list_elem_of_omap in Hin as (ev & Hev & Hv). destruct ev; try done. by injection Hv as ->.
  - intros e He. destruct (cs_stopped _ _ Hsound e He) as (Hin & Heg & Hcause). split; [done|].
    intros Hi evs' c' Hrun' Hc'.
    pose proof (conn_sound_run _ _ _ _ _ (conn_run_trans _ _ _ _ _ Hrun Hrun')) as Hsound'.
    apply (cs_connected _ _ Hsound') in Hc'.
    destruct (stopped_run _ _ _ _ Hrun' He Hin Heg) as (_ & _ & _ & Heq). congruence.
Qed.
End Connection.

(** The socket fails before the node has answered. *)
Module ConnectionExamples.
Import SimpleBitcoin SimpleNode PeerExamples.
#[local] Existing Instances simple_bitcoin simple_node.

Definition ex_hang : list ConnEvent := [CnIngressStops; CnHandlerStops IngressChannelClosed].
Definition ex_hung : Connection :=
  MkConnection (system_new ex_magic 0 0) false false (Some IngressChannelClosed) Handshaking.

Lemma ex_hang_run : conn_run (fresh_connection ex_magic 0 0) ex_hang ex_hung.
Proof.
  change ex_hang with (([] ++ [CnIngressStops]) ++ [CnHandlerStops IngressChannelClosed]).
  eapply conn_next; [eapply conn_next; [apply conn_start|by apply conn_ingress_stops]|].
  apply conn_handler_stops; [done|]. left. by split_and!.
Qed.

(** A socket that refuses the second message. *)
Definition ex_write (raw : RawNetworkMessage) : Res string unit :=
  match raw_payload raw with NetVerack => Err "broken pipe" | _ => Ok tt end.
Definition ex_pong : RawNetworkMessage := MkRawMessage ex_magic (Pong 7).
Definition ex_verack : RawNetworkMessage := MkRawMessage ex_magic NetVerack.

Lemma socket_tasks_end_witness :
  egress_run ex_write 5 [ex_pong; ex_verack; ex_pong] = ([ex_pong], Some (Err (EgressIO "broken pipe"))) ∧
  egress_run ex_write 5 [ex_pong] = ([ex_pong], None).
Proof.
  split.
  - apply (proj1 (proj2 (socket_tasks_end ex_write [] [ex_pong; ex_verack; ex_pong]))
             [ex_pong] ex_verack [ex_pong] "broken pipe" 5); [reflexivity|by repeat constructor|reflexivity|simpl; lia].
  - apply (proj2 (proj2 (socket_tasks_end ex_write [] [ex_pong]))). by repeat constructor.
Defined.

Lemma connection_relays_until_it_stops_witness :
  init_notifier (sy_handler (cn_system ex_hung)) = false ∧
  relayed ex_magic (version_message 0 0) (omap as_step ex_hang) (cn_system ex_hung) ∧
  (cn_client ex_hung = Connected → EvIngress Verack ∈ omap as_step ex_hang) ∧
  (∀ e, cn_stopped ex_hung = Some e →
    (CnIngressStops ∈ ex_hang ∧ e = IngressChannelClosed ∨
     CnEgressStops ∈ ex_hang ∧ e = EgressChannelClosed ∨
     CnDrops ∈ ex_hang ∧ ∃ channel, e = PeerChannelClosed channel) ∧
    (init_notifier (sy_handler (cn_system ex_hung)) = false →
      ∀ evs' c', conn_run ex_hung evs' c' → cn_client c' ≠ Connected)).
Proof.
  split; [reflexivity|].
  apply (connection_relays_until_it_stops ex_magic 0%N 0%N ex_hang ex_hung). apply ex_hang_run.
Defined.
End ConnectionExamples.
