(* ===== verification/Pull.v ===== *)
(** * The pull stage

    src/src/sync/stages/pull/stage.rs: the stage that follows the node and
    sends chain events to the index stage.  The RPC client, the clock and the
    shutdown signal are read once per turn: their readings are the argument
    [World] of the turn.  Logging and the waits are left out.  A failure ends
    the worker, which the runtime stops or starts again. *)
From S2P Require Import Prelude ByteOrder EncDec Timestamp Types MergeOperation Table Rocks.
From S2P Require Import CoreTables KvStore RollbackBuffer Bitcoin Context AddressIndexers.
From S2P Require Import RunesTables Runes Charms Indexers Stage Instances StageLaws Chain Peer.

Definition DEFAULT_BLOCK_PAGE_SIZE : usize := 50%N.
Definition DEFAULT_SYNC_STAGE_QUEUE_SIZE : usize := 20%N.
Definition DEFAULT_SYNC_STAGE_TIMEOUT_SECS : u64 := 600%N.

(** [RpcAuth::UserPass]. *)
Record RpcAuth : Type := UserPass { auth_user : string; auth_pass : string }.

Section Pull.
Context {DB : Type} `{RocksDB DB} `{BitcoinNode} `{!Machine}.

(** [downstream]: the events sent, or [None] when the port is closed. *)
Record PullStage : Type := MkPullStage {
  node_p2p_address : string;
  node_rpc_address : string;
  node_rpc_auth : RpcAuth;
  ps_network : Network;
  mempool_enabled : bool;
  block_page_size : usize;
  ps_db : StorageHandler DB;
  shutdown_signals : bool;                  (* should_shutdown and has_shutdown *)
  downstream : option (list ChainEvent);
}.

Definition pull_stage_new (config : Config) (db : StorageHandler DB) (shutdown_signals : bool) : PullStage :=
  MkPullStage (p2p_address (cfg_node config)) (rpc_address (cfg_node config))
    (UserPass (rpc_user (cfg_node config)) (rpc_pass (cfg_node config)))
    (cfg_network config) (cfg_mempool config)
    (default DEFAULT_BLOCK_PAGE_SIZE (cfg_block_page_size config)) db shutdown_signals (Some []).

Record PullWorker : Type := MkPullWorker {
  peer_session : Peer;
  cursor : list Point;
  initialised : bool;
  pw_tip : Point;
  tip_reached : bool;
}.

(** ** What a turn reads *)

(** An entry of [get_block_template]: [None] when its transaction does not decode. *)
Record TemplateTx : Type := MkTemplateTx { tt_txid : Txid; tt_transaction : option Transaction }.
Record BlockTemplate : Type := MkTemplate {
  previous_block_hash : BlockHash;
  bt_transactions : list TemplateTx;
}.

Record World : Type := MkWorld {
  wo_shutdown : bool;                              (* try_recv().is_ok() *)
  wo_chain_tips : Res string (list Point);         (* get_chain_tips *)
  wo_template : Res string BlockTemplate;          (* get_block_template *)
  wo_now : option u64;                             (* seconds since the epoch *)
}.

(** [max_by_key(|x| x.height)]: the last of the greatest. *)
Fixpoint max_by_height (l : list Point) : option Point :=
  match l with
  | [] => None
  | p :: l =>
      match max_by_height l with
      | Some q => if (point_height q <? point_height p)%N then Some p else Some q
      | None => Some p
      end
  end.

Definition get_tip (world : World) : Res WorkerError Point :=
  tips ← or_restart (wo_chain_tips world);
  ok_or (max_by_height tips) WorkerRestart.

Definition stage_reader (st : PullStage) : Reader DB := reader (from_u64 u64_MAX) (ps_db st).
Definition stage_genesis (st : PullStage) : BlockHash := genesis_hash (ps_network st).

(** [intersect_options] ends within its fuel: see [stored_intersects_total]. *)
Definition stored_intersects (st : PullStage) : Res Error (list Point) :=
  match intersect_options (stage_reader st) (stage_genesis st) with
  | Some r => r
  | None => Panic "the loop did not end"
  end.

(** ** [bootstrap] *)
Definition pull_bootstrap (world : World) (session : Res P2PError Peer) (st : PullStage) :
    Res WorkerError PullWorker :=
  peer_session ← or_retry session;
  intersect_options ← or_panic (stored_intersects st);
  tip ← get_tip world;
  Ok (MkPullWorker peer_session intersect_options false tip false).

(** ** [fetch_chain_actions] *)

(** The heights of the points of the cursor, by hash: the last one wins. *)
Definition cursor_map (points : list Point) : gmap BlockHash u64 :=
  foldl (λ m p, <[point_hash p := point_height p]> m) ∅ points.

(** The headers are zipped with the heights above the intersection. *)
Definition assign_heights (intersect_height : u64) (headers : list (Header * Block)) :
    list (Header * Block * u64) :=
  imap (λ i hb, (hb, wrapping_add 64 intersect_height (N.of_nat i + 1))) headers.

Definition header_point (x : Header * Block * u64) : Point := MkPoint x.2 (header_hash x.1.1).

Definition next_cursor (st : PullStage) (headers : list (Header * Block * u64)) : Res WorkerError (list Point) :=
  let recent := header_point <$> take 50 (reverse headers) in
  cursor ←
    (if (length recent <? 50)%nat then
       options ← or_panic (stored_intersects st);
       Ok (match last recent with
           | Some last => recent ++ filter (λ p, is_true (point_height p <? point_height last)%N) options
           | None => options
           end)
     else Ok recent);
  Ok (cursor ++ [MkPoint 0 (stage_genesis st)]).

Definition block_txs_of (block : Block) : BlockTxs :=
  (λ tx, MkTxWithId (compute_txid tx) tx) <$> txdata block.

(** One header with its block: the event, and the highest tip seen so far. *)
Definition forward_block (s : list ChainEvent * Point) (x : Header * Block * u64) :
    Res WorkerError (list ChainEvent * Point) :=
  let '(units, tip) := s in
  let '(header, block, height) := x in
  if decide (header_hash header ≠ block_hash_of block) then Err WorkerRestart
  else
    let point := MkPoint height (header_hash header) in
    let tip := if (point_height tip <? height)%N then point else tip in
    Ok (units ++ [RollForward point header (block_txs_of block) tip], tip).

Definition rollback_unit (cursor : list Point) (intersect_height : u64) (hash : BlockHash) : list ChainEvent :=
  match head cursor with
  | Some p =>
      if decide (intersect_height ≠ point_height p) then [RollBack (MkPoint intersect_height hash)] else []
  | None => []
  end.

Definition fetch_chain_actions (st : PullStage) (w : PullWorker) : Res WorkerError (list ChainEvent * PullWorker) :=
  '(headers, peer) ← or_restart (get_new_headers (point_hash <$> cursor w) (peer_session w));
  match head headers with
  | None => Ok ([], MkPullWorker peer (cursor w) (initialised w) (pw_tip w) (tip_reached w))
  | Some first_header =>
      let headers := take (N.to_nat (block_page_size st)) headers in
      '(blocks, peer) ← or_restart (get_blocks (header_hash <$> headers) peer);
      if decide (length headers ≠ length blocks) then Err WorkerRestart
      else
        let headers := zip headers blocks in
        intersect_height ← ok_or (cursor_map (cursor w) !! prev_blockhash first_header) WorkerRestart;
        let units := rollback_unit (cursor w) intersect_height (prev_blockhash first_header) in
        let headers := assign_heights intersect_height headers in
        cursor ← next_cursor st headers;
        '(units, tip) ← for_each headers (units, pw_tip w) forward_block;
        Ok (units, MkPullWorker peer cursor (initialised w) tip (tip_reached w))
  end.

(** ** [schedule] *)
Definition node_syncing (peer : Peer) (genesis : BlockHash) : Res P2PError (bool * Peer) :=
  '(headers, peer) ← get_new_headers [genesis] peer;
  Ok (match headers with [] => true | _ => false end, peer).

Inductive PullSchedule : Type := PullDone | PullIdle | PullUnit (units : list ChainEvent).

Definition with_peer (peer : Peer) (w : PullWorker) : PullWorker :=
  MkPullWorker peer (cursor w) (initialised w) (pw_tip w) (tip_reached w).
Definition with_tip (tip : Point) (w : PullWorker) : PullWorker :=
  MkPullWorker (peer_session w) (cursor w) (initialised w) tip (tip_reached w).
Definition set_initialised (w : PullWorker) : PullWorker :=
  MkPullWorker (peer_session w) (cursor w) true (pw_tip w) (tip_reached w).
Definition set_tip_reached (w : PullWorker) : PullWorker :=
  MkPullWorker (peer_session w) (cursor w) (initialised w) (pw_tip w) true.

Fixpoint template_txs (l : list TemplateTx) : Res WorkerError BlockTxs :=
  match l with
  | [] => Ok []
  | x :: l =>
      tx ← expect (tt_transaction x) "unwrap";
      rest ← template_txs l;
      Ok (MkTxWithId (tt_txid x) tx :: rest)
  end.

Definition fetch_mempool (world : World) : Res WorkerError ChainEvent :=
  timestamp ← expect (wo_now world) "Time went backwards";
  block_template ← or_restart (wo_template world);
  block_txs ← template_txs (bt_transactions block_template);
  Ok (MempoolBlocks (MkSnapshotInfo timestamp (previous_block_hash block_template)) [block_txs]).

(** Before the tip is reached: a page of blocks, or the news that there is none. *)
Definition fetch_behind (st : PullStage) (w : PullWorker) : Res WorkerError (list ChainEvent * PullWorker) :=
  if tip_reached w then Ok ([], w)
  else
    '(new_actions, w) ← fetch_chain_actions st w;
    Ok (new_actions, match new_actions with [] => set_tip_reached w | _ => w end).

(** At the tip: new blocks, then the mempool. *)
Definition fetch_at_tip (world : World) (st : PullStage) (w : PullWorker) :
    Res WorkerError (list ChainEvent * PullWorker) :=
  if tip_reached w then
    '(new_actions, w) ← fetch_chain_actions st w;
    if mempool_enabled st then
      mempool ← fetch_mempool world;
      Ok (new_actions ++ [mempool], w)
    else Ok (new_actions, w)
  else Ok ([], w).

Definition pull_schedule (world : World) (st : PullStage) (w : PullWorker) :
    Res WorkerError (PullSchedule * PullWorker) :=
  if shutdown_signals st && wo_shutdown world then Ok (PullDone, w)
  else
    '(syncing, w) ←
      (if initialised w then Ok (false, w)
       else
         '(syncing, peer) ← or_restart (node_syncing (peer_session w) (stage_genesis st));
         let w := with_peer peer w in
         if (syncing : bool) then tip ← get_tip world; Ok (true, with_tip tip w)
         else Ok (false, set_initialised w));
    if (syncing : bool) then Ok (PullIdle, w)
    else
      '(units, w) ← fetch_behind st w;
      '(units', w) ← fetch_at_tip world st w;
      match units ++ units' with
      | [] => Ok (PullIdle, w)
      | units => Ok (PullUnit units, w)
      end.

(** ** [execute] and [teardown] *)
Definition pull_send (st : PullStage) (event : ChainEvent) : Res WorkerError PullStage :=
  events ← or_panic (ok_or (downstream st) tt);
  Ok (MkPullStage (node_p2p_address st) (node_rpc_address st) (node_rpc_auth st) (ps_network st)
        (mempool_enabled st) (block_page_size st) (ps_db st) (shutdown_signals st) (Some (events ++ [event]))).

Definition process_action (st : PullStage) (next : ChainEvent) : Res WorkerError PullStage :=
  match next with
  | RollForward _ _ _ _ => or_panic (pull_send st next)
  | RollBack _ => or_panic (pull_send st next)
  | MempoolBlocks _ _ => or_panic (pull_send st next)
  end.

Definition pull_execute (unit : list ChainEvent) (st : PullStage) : Res WorkerError PullStage :=
  for_each unit st (λ st u, or_panic (process_action st u)).

(** Whether the signal that the stage has ended was sent; [receiving] says
    that the other side still listens. *)
Definition teardown (receiving : bool) (st : PullStage) : Res WorkerError bool :=
  if shutdown_signals st
  then if receiving then Ok true else Err WorkerPanic
  else Ok false.

(** ** [estimate_tip]

    Each round asks for one batch of headers; [None]: the loop did not end
    within the fuel. *)
Fixpoint estimate_tip_loop (fuel : nat) (peer : Peer) (greatest : Point) : option (Res Error (Point * Peer)) :=
  match fuel with
  | O => None
  | S fuel =>
      match get_new_headers [point_hash greatest] peer with
      | Err e => Some (Err (P2P e))
      | Panic why => Some (Panic why)
      | Ok (batch, peer) =>
          match head batch, last batch with
          | Some first, Some batch_greatest =>
              if decide (prev_blockhash first ≠ point_hash greatest) then Some (Ok (greatest, peer))
              else
                estimate_tip_loop fuel peer
                  (MkPoint (wrapping_add 64 (point_height greatest) (N.of_nat (length batch)))
                     (header_hash batch_greatest))
          | _, _ => Some (Ok (greatest, peer))
          end
      end
  end.

Definition estimate_tip (peer : Peer) (after : Point) : option (Res Error (Point * Peer)) :=
  estimate_tip_loop (S (length (headers_recv peer))) peer after.
End Pull.
