(* ===== verification/PullLaws.v ===== *)
(** * What the pull stage sends

    An abstract chain, the way a chain event changes it, and the proof that
    the events of the pull stage always apply to the chain announced so far. *)
From S2P Require Import Prelude ByteOrder EncDec Timestamp Types MergeOperation Table Rocks.
From S2P Require Import CoreTables KvStore RollbackBuffer Bitcoin Context AddressIndexers.
From S2P Require Import RunesTables Runes Charms Indexers Stage Instances StageLaws Chain Peer PeerLaws Pull.

(** ** The announced chain: its hashes by height, the genesis block first *)
Definition on_chain (chain : list BlockHash) (p : Point) : Prop :=
  chain !! N.to_nat (point_height p) = Some (point_hash p).

#[export] Instance on_chain_dec chain p : Decision (on_chain chain p).
Proof. unfold on_chain. apply _. Defined.

Section Follow.
Context `{Bitcoin}.

(** A block must extend the tip, a rollback must name a block of the chain. *)
Definition follow (chain : list BlockHash) (ev : ChainEvent) : option (list BlockHash) :=
  match ev with
  | RollForward p header _ _ =>
      if (point_height p =? N.of_nat (length chain))%N && bool_decide (last chain = Some (prev_blockhash header))
      then Some (chain ++ [point_hash p]) else None
  | RollBack p => if decide (on_chain chain p) then Some (take (S (N.to_nat (point_height p))) chain) else None
  | MempoolBlocks _ _ => Some chain
  end.

Fixpoint follow_all (chain : list BlockHash) (evs : list ChainEvent) : option (list BlockHash) :=
  match evs with
  | [] => Some chain
  | ev :: evs => follow chain ev ≫= λ chain, follow_all chain evs
  end.

Lemma follow_all_app chain evs1 evs2 :
  follow_all chain (evs1 ++ evs2) = follow_all chain evs1 ≫= λ chain, follow_all chain evs2.
Proof.
  revert chain. induction evs1 as [|ev evs1 IH]; intros chain; [done|]. simpl.
  destruct (follow chain ev); simpl; auto.
Qed.
End Follow.

Section OnChain.
Lemma on_chain_app chain chain' p : on_chain chain p → on_chain (chain ++ chain') p.
Proof. apply lookup_app_l_Some. Qed.

Lemma on_chain_take chain n p :
  on_chain chain p → N.to_nat (point_height p) < n → on_chain (take n chain) p.
Proof. intros Hp Hn. unfold on_chain. by rewrite lookup_take_lt. Qed.

Lemma on_chain_length chain p : on_chain chain p → N.to_nat (point_height p) < length chain.
Proof. apply lookup_lt_Some. Qed.

Lemma cursor_map_snoc points p : cursor_map (points ++ [p]) = <[point_hash p := point_height p]> (cursor_map points).
Proof. unfold cursor_map. by rewrite foldl_app. Qed.

Lemma cursor_map_lookup points (hash : BlockHash) (h : u64) :
  cursor_map points !! hash = Some h → MkPoint h hash ∈ points.
Proof.
  induction points as [|p points IH] using rev_ind; [done|].
  rewrite cursor_map_snoc, lookup_insert. case_decide as Heq; intros Hl.
  - injection Hl as <-. rewrite <-Heq. apply elem_of_app. right. destruct p. by left.
  - apply elem_of_app. left. by apply IH.
Qed.

Lemma cursor_map_is_Some points p : p ∈ points → is_Some (cursor_map points !! point_hash p).
Proof.
  induction points as [|q points IH] using rev_ind; intros Hp; [by apply not_elem_of_nil in Hp|].
  rewrite cursor_map_snoc, lookup_insert. case_decide; [done|]. apply elem_of_app in Hp as [Hp|Hp]; [auto|].
  apply list_elem_of_singleton in Hp as ->. done.
Qed.
End OnChain.

Section Links.
Context `{BitcoinNode}.

(** The headers of a chain: each names the one before. *)
Fixpoint linked (prev : BlockHash) (headers : list Header) : Prop :=
  match headers with
  | [] => True
  | h :: headers => prev_blockhash h = prev ∧ linked (header_hash h) headers
  end.

(** An answer to a request for headers: a piece of a chain. *)
Definition linked_batch (headers : list Header) : Prop :=
  match headers with [] => True | h :: _ => linked (prev_blockhash h) headers end.

Lemma linked_take prev headers n : linked prev headers → linked prev (take n headers).
Proof.
  revert prev n. induction headers as [|h headers IH]; intros prev [|n]; simpl; try done.
  intros [Hp Hl]. auto.
Qed.

Definition heights (xs : list (Header * Block * u64)) : list u64 := (λ x, x.2) <$> xs.
Definition point_event (x : Header * Block * u64) (ev : ChainEvent) : Prop :=
  ∃ tip, ev = RollForward (header_point x) x.1.1 (block_txs_of x.1.2) tip.

Lemma forward_blocks_inv xs units tip units' tip' :
  for_each xs (units, tip) forward_block = Ok (units', tip') →
  ∃ evs, units' = units ++ evs ∧ Forall2 point_event xs evs.
Proof.
  revert units tip. induction xs as [|[[h b] n] xs IH]; intros units tip Hf.
  - injection Hf as <- _. exists []. by rewrite app_nil_r.
  - cbn [for_each forward_block] in Hf. apply res_bind_ok in Hf as ([u t] & Hb & Hf).
    case_decide; [done|]. injection Hb as <- <-. apply IH in Hf as (evs & -> & Hevs).
    eexists (_ :: evs). split; [by rewrite <-app_assoc|]. constructor; [by eexists|done].
Qed.

Lemma forward_blocks_ok xs units tip :
  Forall (λ x : Header * Block * u64, block_hash_of x.1.2 = header_hash x.1.1) xs →
  is_ok (for_each xs (units, tip) forward_block) = true.
Proof.
  intros Hxs. revert units tip. induction Hxs as [|[[h b] n] xs Hx _ IH]; intros units tip; [done|].
  cbn [for_each forward_block]. simpl in Hx. rewrite decide_False by (by intros []). cbn [rbind]. apply IH.
Qed.

(** Linked blocks at consecutive heights above the tip extend the chain. *)
Lemma follow_forward (xs : list (Header * Block * u64)) (evs : list ChainEvent) chain prev :
  Forall2 point_event xs evs → last chain = Some prev → linked prev ((λ x, x.1.1) <$> xs) →
  (∀ i (x : Header * Block * u64), xs !! i = Some x → x.2 = N.of_nat (length chain + i)) →
  follow_all chain evs = Some (chain ++ ((λ x, header_hash x.1.1) <$> xs)).
Proof.
  intros Hev. revert chain prev. induction Hev as [|x ev xs evs [tip ->] _ IH]; intros chain prev Hlast Hl Hh.
  - by rewrite app_nil_r.
  - cbn [fmap list_fmap linked] in Hl. destruct Hl as [Hp Hl].
    cbn [follow_all follow mbind option_bind]. unfold header_point at 1. cbn [point_height point_hash].
    rewrite (Hh 0 x), Nat.add_0_r, N.eqb_refl, bool_decide_true by (done || by rewrite Hlast, Hp).
    cbn [andb mbind option_bind]. rewrite (IH _ (header_hash x.1.1)).
    + by rewrite <-app_assoc.
    + by rewrite last_snoc.
    + done.
    + intros i y Hy. rewrite (Hh (S i) y Hy), length_app. simpl. f_equal. lia.
Qed.
End Links.

(** ** The worker and the announced chain *)
Section Worker.
Context {DB : Type} `{RocksDB DB} `{BitcoinNode} `{!Machine}.

(** The cursor lies on the announced chain, its first point is the tip. *)
Definition follows (chain : list BlockHash) (w : PullWorker) : Prop :=
  Forall (on_chain chain) (cursor w) ∧
  ∃ p, head (cursor w) = Some p ∧ N.of_nat (length chain) = (point_height p + 1)%N.

(** The stored blocks the stage would offer are on the announced chain. *)
Definition stored_on (chain : list BlockHash) (st : PullStage (DB:=DB)) : Prop :=
  chain !! 0 = Some (stage_genesis st) ∧
  ∀ options, stored_intersects st = Ok options → Forall (on_chain chain) options.

(** Headers with consecutive heights, the first one [n]. *)
Definition numbered (n : nat) (xs : list (Header * Block * u64)) : Prop :=
  ∀ i (x : Header * Block * u64), xs !! i = Some x → x.2 = N.of_nat (n + i).

Abbreviation hashes xs := ((λ x : Header * Block * u64, header_hash x.1.1) <$> xs).

Lemma numbered_on_chain chain xs x :
  numbered (length chain) xs → x ∈ xs → on_chain (chain ++ hashes xs) (header_point x).
Proof.
  intros Hn [i Hi]%list_elem_of_lookup. unfold on_chain, header_point. cbn [point_height point_hash].
  rewrite (Hn i x Hi), Nat2N.id, lookup_app_r by lia. replace (length chain + i - length chain) with i by lia.
  by rewrite list_lookup_fmap, Hi.
Qed.

Lemma next_cursor_on_chain chain n st xs c :
  stored_on chain st → 0 < n <= length chain → xs ≠ [] → numbered n xs →
  next_cursor st xs = Ok c →
  Forall (on_chain (take n chain ++ hashes xs)) c ∧ head c = header_point <$> last xs.
Proof.
  intros [Hg Hst] Hn Hne Hxs Hc. unfold next_cursor in Hc. set (recent := header_point <$> take 50 (reverse xs)) in Hc.
  assert (length (take n chain) = n) as Hlen by (rewrite length_take; lia).
  assert (Forall (on_chain (take n chain ++ hashes xs)) recent) as Hrecent.
  { apply Forall_fmap, Forall_forall. intros x Hx. apply numbered_on_chain; [by rewrite Hlen|].
    apply elem_of_take in Hx as (i & Hi & _). by apply elem_of_reverse, list_elem_of_lookup; exists i. }
  assert (head recent = header_point <$> last xs) as Hhead.
  { unfold recent. destruct xs as [|x xs _] using rev_ind; [done|]. by rewrite reverse_snoc, last_snoc. }
  assert (∀ p, (point_height p < N.of_nat n)%N → on_chain chain p → on_chain (take n chain ++ hashes xs) p) as Hold.
  { intros p Hp Hon. apply on_chain_app, on_chain_take; [done|lia]. }
  apply res_bind_ok in Hc as (c1 & Hc1 & Hc). injection Hc as <-.
  enough (Forall (on_chain (take n chain ++ hashes xs)) c1 ∧ head c1 = header_point <$> last xs) as [Hf Hh].
  { split; [|destruct c1; [destruct (last xs) eqn:Hl; [done|by apply last_None in Hl]|exact Hh]].
    apply Forall_app. split; [done|]. apply Forall_singleton, Hold; [simpl; lia|done]. }
  destruct (Nat.ltb_spec (length recent) 50) as [Hlt|Hge]; [|by injection Hc1 as <-].
  apply res_bind_ok in Hc1 as (options & Ho & Hc1).
  assert (stored_intersects st = Ok options) as Ho' by (destruct (stored_intersects st); simpl in Ho; by simplify_eq).
  specialize (Hst options Ho'). unfold recent in Hlt. rewrite length_fmap, length_take, length_reverse in Hlt.
  assert (last recent = header_point <$> head xs) as Hlast.
  { unfold recent. rewrite fmap_last, take_ge by (rewrite length_reverse; lia). by rewrite last_reverse. }
  destruct xs as [|x xs]; [done|]. rewrite Hlast in Hc1. cbn [head fmap option_fmap option_map] in Hc1.
  injection Hc1 as <-. split.
  - apply Forall_app. split; [done|]. apply Forall_forall. intros p [Hp Hin]%list_elem_of_filter.
    rewrite Forall_forall in Hst. apply Hold; [|by apply Hst]. apply N.ltb_lt in Hp.
    cbn [header_point point_height] in Hp. rewrite (Hxs 0 x), Nat.add_0_r in Hp by done. exact Hp.
  - destruct recent; [destruct (last (x :: xs)) eqn:Hl; [done|by apply last_None in Hl]|exact Hhead].
Qed.

Lemma assign_heights_headers h (headers : list Header) (blocks : list Block) :
  length headers = length blocks → (λ x, x.1.1) <$> assign_heights h (zip headers blocks) = headers.
Proof.
  intros Hlen. unfold assign_heights. rewrite fmap_imap. rewrite (imap_ext _ (λ _, fst)) by done.
  etransitivity; [apply (imap_const fst)|]. apply fst_zip. lia.
Qed.

Lemma assign_heights_numbered h (hbs : list (Header * Block)) :
  fits 64 (h + N.of_nat (length hbs))%N → numbered (S (N.to_nat h)) (assign_heights h hbs).
Proof.
  intros Hf i x Hx. unfold assign_heights in Hx. apply list_lookup_imap_Some in Hx as (hb & Hhb & ->). cbn [snd].
  apply lookup_lt_Some in Hhb. rewrite wrapping_add_exact by (unfold fits in *; lia). lia.
Qed.

(** The rollback, when there is one, leaves the chain up to the intersection. *)
Lemma follow_rollback chain w (h : u64) (hash : BlockHash) :
  follows chain w → on_chain chain (MkPoint h hash) →
  follow_all chain (rollback_unit (cursor w) h hash) = Some (take (S (N.to_nat h)) chain).
Proof.
  intros [_ (p & Hp & Hlen)] Hon. unfold rollback_unit. rewrite Hp. case_decide as Hne; cbn [follow_all follow].
  - by rewrite decide_True.
  - assert (h = point_height p) as -> by (destruct (decide (h = point_height p)); tauto).
    rewrite take_ge by lia. done.
Qed.

Lemma last_take_on_chain (chain : list BlockHash) (h : u64) (hash : BlockHash) :
  on_chain chain (MkPoint h hash) → last (take (S (N.to_nat h)) chain) = Some hash.
Proof. intros Hon. by rewrite (take_S_r _ _ hash), last_snoc. Qed.

(** What the node must deliver: answers that are pieces of a chain. *)
Definition node_linked (w : PullWorker) : Prop := Forall linked_batch (headers_recv (peer_session w)).

(** The part of a fetch after the answers of the node. *)
Lemma page_follows chain st w (h : u64) prev (headers : list Header) (blocks : list Block) units tip cursor' :
  let xs := assign_heights h (zip headers blocks) in
  follows chain w → stored_on chain st → on_chain chain (MkPoint h prev) → headers ≠ [] →
  linked prev headers → length headers = length blocks → fits 64 (h + N.of_nat (length headers))%N →
  next_cursor st xs = Ok cursor' →
  for_each xs (rollback_unit (cursor w) h prev, pw_tip w) forward_block = Ok (units, tip) →
  let chain' := take (S (N.to_nat h)) chain ++ (header_hash <$> headers) in
  follow_all chain units = Some chain' ∧ Forall (on_chain chain') cursor' ∧
  ∃ p, head cursor' = Some p ∧ N.of_nat (length chain') = (point_height p + 1)%N.
Proof.
  intros xs Hfol Hst Hon Hne Hl Hlen Hf Hc Hfe chain'.
  assert ((λ x, x.1.1) <$> xs = headers) as Hhs by by apply assign_heights_headers.
  assert ((λ x : Header * Block * u64, header_hash x.1.1) <$> xs = header_hash <$> headers) as Hhash.
  { by rewrite <-Hhs, <-list_fmap_compose. }
  assert (numbered (S (N.to_nat h)) xs) as Hnum.
  { apply assign_heights_numbered. rewrite length_zip. eapply fits_le; [|exact Hf]. lia. }
  pose proof (on_chain_length _ _ Hon) as Hlt. cbn [point_height] in Hlt.
  assert (xs ≠ []) as Hxs by (intros Hxs; rewrite Hxs in Hhs; by subst headers).
  destruct (next_cursor_on_chain chain (S (N.to_nat h)) st xs cursor') as [Hcur Hhead]; [done|lia|done..|].
  rewrite Hhash in Hcur. split; [|split; [exact Hcur|]].
  - apply forward_blocks_inv in Hfe as (evs & -> & Hevs). rewrite follow_all_app, (follow_rollback chain w) by done.
    cbn [mbind option_bind]. rewrite (follow_forward xs evs _ prev Hevs).
    + by rewrite Hhash.
    + by apply last_take_on_chain.
    + by rewrite Hhs.
    + rewrite length_take, Nat.min_l by lia. exact Hnum.
  - destruct (last xs) as [x|] eqn:Hx; [|by apply last_None in Hx]. exists (header_point x). split; [done|].
    unfold chain'. rewrite <-Hhash, length_app, length_take, length_fmap, Nat.min_l by lia.
    rewrite last_lookup in Hx. cbn [header_point point_height]. rewrite (Hnum _ _ Hx).
    destruct xs; [done|]. simpl. lia.
Qed.

Lemma fetch_follows chain st w events w' :
  (0 < block_page_size st)%N → follows chain w → stored_on chain st → node_linked w →
  fits 64 (N.of_nat (length chain) + block_page_size st)%N →
  fetch_chain_actions st w = Ok (events, w') →
  (∃ chain', follow_all chain events = Some chain' ∧ follows chain' w') ∧ node_linked w' ∧
  tip_reached w' = tip_reached w ∧ (events = [] → follows chain w').
Proof.
  intros Hpage Hfol Hst Hnode Hfits Hfetch. unfold fetch_chain_actions in Hfetch.
  apply res_bind_ok in Hfetch as ([headers peer] & Hh & Hfetch).
  destruct (get_new_headers (point_hash <$> cursor w) (peer_session w)) as [[hs p']|e|y] eqn:Hget; [|done..].
  injection Hh as -> ->. unfold get_new_headers, peer_send in Hget.
  destruct (request_open (peer_session w)); [|done]. cbn [rbind headers_recv] in Hget.
  unfold node_linked in *. destruct (headers_recv (peer_session w)) as [|hs rest]; [done|]. injection Hget as -> <-.
  apply Forall_cons in Hnode as [Hlink Hnode].
  destruct headers as [|first headers]; cbn [head] in Hfetch.
  { injection Hfetch as <- <-. split_and!; [by exists chain|done|done|done]. }
  apply res_bind_ok in Hfetch as ([blocks peer] & Hb & Hfetch). case_decide as Hlen; [done|].
  apply res_bind_ok in Hfetch as (h & Hi & Hfetch).
  destruct (cursor_map (cursor w) !! prev_blockhash first) as [h'|] eqn:Hcm; [|done]. injection Hi as ->.
  apply cursor_map_lookup in Hcm. pose proof (proj1 Hfol) as Hcur. rewrite Forall_forall in Hcur. apply Hcur in Hcm.
  apply res_bind_ok in Hfetch as (cursor' & Hc & Hfetch).
  apply res_bind_ok in Hfetch as ([units tip] & Hfe & Hfetch). injection Hfetch as <- <-.
  set (page := take (N.to_nat (block_page_size st)) (first :: headers)) in *.
  assert (page ≠ []) as Hne by (unfold page; destruct (N.to_nat (block_page_size st)) eqn:?; [lia|done]).
  pose proof (on_chain_length _ _ Hcm) as Hlt. cbn [point_height] in Hlt.
  assert (fits 64 (h + N.of_nat (length page))%N) as Hf.
  { eapply fits_le; [|exact Hfits]. unfold page. rewrite length_take. lia. }
  destruct (page_follows chain st w h (prev_blockhash first) page blocks units tip cursor')
    as (Hall & Hon & Htip); [done..|by apply linked_take|done|done|done|done|].
  split_and!.
  - eexists. split; [exact Hall|]. split; [exact Hon|exact Htip].
  - unfold get_blocks, peer_send in Hb. destruct (request_open _); [|done]. cbn [rbind blocks_recv headers_recv] in Hb.
    cbn [peer_session]. destruct (recv_blocks _ _) as [[raws rest']| |]; [|done..]. cbn [rbind] in Hb.
    destruct (for_each _ _ _); [|done..]. injection Hb as <- <-. done.
  - done.
  - intros ->. cbn [follow_all] in Hall. injection Hall as Hall. rewrite <-Hall in Hon, Htip. by split.
Qed.

(** What a turn relies on: the pages are not empty, the stored blocks are on
    the announced chain, and the node answers with pieces of a chain. *)
Record turn_ok (chain : list BlockHash) (st : PullStage (DB:=DB)) (w : PullWorker) : Prop := {
  to_page : (0 < block_page_size st)%N;
  to_stored : stored_on chain st;
  to_node : node_linked w;
  to_fits : fits 64 (N.of_nat (length chain) + block_page_size st)%N;
}.

Lemma get_new_headers_linked intersects (p p' : Peer) headers :
  Forall linked_batch (headers_recv p) → get_new_headers intersects p = Ok (headers, p') →
  Forall linked_batch (headers_recv p').
Proof.
  intros Hl Hg. unfold get_new_headers, peer_send in Hg. destruct (request_open p); [|done].
  cbn [rbind headers_recv] in Hg. destruct (headers_recv p); [done|]. injection Hg as _ <-.
  by apply Forall_cons in Hl as [_ Hl].
Qed.

Lemma fetch_behind_follows chain st w events w' :
  turn_ok chain st w → follows chain w → fetch_behind st w = Ok (events, w') →
  (∃ chain', follow_all chain events = Some chain' ∧ follows chain' w' ∧ tip_reached w' = false) ∨
  (events = [] ∧ follows chain w' ∧ turn_ok chain st w' ∧ tip_reached w' = true).
Proof.
  intros [Hp Hs Hn Hf] Hfol Hfetch. unfold fetch_behind in Hfetch. destruct (tip_reached w) eqn:Htr.
  { injection Hfetch as <- <-. right. by split_and!. }
  apply res_bind_ok in Hfetch as ([evs w1] & Hfe & Heq).
  destruct (fetch_follows chain st w evs w1 Hp Hfol Hs Hn Hf Hfe) as ((chain' & Ha & Hfo) & Hn' & Ht & Hempty).
  destruct evs as [|ev evs]; injection Heq as <- <-.
  - right. specialize (Hempty eq_refl). by split_and!.
  - left. exists chain'. rewrite Ht. by split_and!.
Qed.

Lemma fetch_at_tip_follows world chain st w events w' :
  turn_ok chain st w → follows chain w → tip_reached w = true → fetch_at_tip world st w = Ok (events, w') →
  ∃ chain', follow_all chain events = Some chain' ∧ follows chain' w'.
Proof.
  intros [Hp Hs Hn Hf] Hfol Htr Hfetch. unfold fetch_at_tip in Hfetch. rewrite Htr in Hfetch.
  apply res_bind_ok in Hfetch as ([evs w1] & Hfe & Heq).
  destruct (fetch_follows chain st w evs w1 Hp Hfol Hs Hn Hf Hfe) as ((chain' & Ha & Hfo) & _).
  destruct (mempool_enabled st); [|by injection Heq as <- <-; exists chain'].
  apply res_bind_ok in Heq as (mempool & Hm & Heq). injection Heq as <- <-.
  exists chain'. split; [|done]. rewrite follow_all_app, Ha. cbn [mbind option_bind follow_all].
  unfold fetch_mempool in Hm. inv_bind. by simplify_eq.
Qed.

Definition units_of (s : PullSchedule) : list ChainEvent := match s with PullUnit units => units | _ => [] end.

(** The test for a syncing node does not touch the cursor. *)
Lemma syncing_turn chain st w world s w1 :
  turn_ok chain st w → follows chain w →
  (if initialised w then Ok (false, w)
   else
     '(syncing, peer) ← or_restart (node_syncing (peer_session w) (stage_genesis st));
     let w := with_peer peer w in
     if (syncing : bool) then tip ← get_tip world; Ok (true, with_tip tip w)
     else Ok (false, set_initialised w)) = Ok (s, w1) →
  turn_ok chain st w1 ∧ follows chain w1.
Proof.
  intros [Hp Hs Hn Hf] Hfol Hsync. destruct (initialised w); [by injection Hsync as _ <-|].
  apply res_bind_ok in Hsync as ([syncing peer] & Hq & Hsync). unfold node_syncing in Hq.
  destruct (get_new_headers _ _) as [[headers p']| |] eqn:Hg; [|done..]. cbn [rbind or_restart map_err] in Hq.
  injection Hq as _ <-. apply get_new_headers_linked in Hg; [|done]. destruct syncing.
  - apply res_bind_ok in Hsync as (tip & _ & Hsync). by injection Hsync as _ <-.
  - by injection Hsync as _ <-.
Qed.

Lemma schedule_follows (world : World) (st : PullStage) (w w' : PullWorker) (chain : list BlockHash)
    (s : PullSchedule) :
  turn_ok chain st w → follows chain w → pull_schedule world st w = Ok (s, w') →
  ∃ chain', follow_all chain (units_of s) = Some chain' ∧ follows chain' w'.
Proof.
  intros Hok Hfol Hs. unfold pull_schedule in Hs.
  destruct (shutdown_signals st && wo_shutdown world); [by injection Hs as <- <-; exists chain|].
  apply res_bind_ok in Hs as ([syncing w1] & Hsync & Hs).
  apply (syncing_turn chain) in Hsync as [Hok1 Hfol1]; [|done..].
  destruct syncing; [by injection Hs as <- <-; exists chain|].
  apply res_bind_ok in Hs as ([units w2] & Hbehind & Hs). apply res_bind_ok in Hs as ([units' w3] & Htip & Hs).
  assert (w' = w3 ∧ units_of s = units ++ units') as [-> ->].
  { destruct (units ++ units'); by injection Hs as <- <-. }
  rewrite follow_all_app.
  destruct (fetch_behind_follows _ _ _ _ _ Hok1 Hfol1 Hbehind) as [(chain' & Ha & Hf & Ht)|(-> & Hf & Hok2 & Ht)].
  - unfold fetch_at_tip in Htip. rewrite Ht in Htip. injection Htip as <- <-. exists chain'. by rewrite Ha.
  - cbn [follow_all mbind option_bind]. by eapply fetch_at_tip_follows.
Qed.

(** C15: Whatever a turn of the pull stage sends applies to the chain announced
    so far, as long as the stored blocks it may offer lie on that chain and the
    node answers with pieces of a chain ([turn_ok]): a rollback names a block
    of the chain, each block extends the tip it then has, and afterwards the
    cursor lies on the new chain with the new tip first.  This holds for
    reorganisations, for pages cut short, for a node that is still syncing and
    with the mempool. *)
Theorem schedule_follows_chain (world : World) (st : PullStage) (w w' : PullWorker) (chain : list BlockHash)
    (s : PullSchedule) :
  turn_ok chain st w → follows chain w → pull_schedule world st w = Ok (s, w') →
  ∃ chain', follow_all chain (units_of s) = Some chain' ∧ follows chain' w'.
Proof. exact (schedule_follows world st w w' chain s). Qed.

(** A fetch that is answered: the node's headers start above a point of the
    cursor and the blocks of one page of them come. *)
Lemma fetch_answered (st : PullStage) (w : PullWorker) (first : Header)
    (headers : list Header) (batches : list (list Header)) (raws rest : list RawBlock) (blocks : list Block)
    (options : list Point) (h : u64) :
  let page := take (N.to_nat (block_page_size st)) (first :: headers) in
  let xs := assign_heights h (zip page blocks) in
  request_open (peer_session w) = true → headers_recv (peer_session w) = (first :: headers) :: batches →
  cursor_map (cursor w) !! prev_blockhash first = Some h →
  blocks_recv (peer_session w) = raws ++ rest → Forall3 answers (header_hash <$> page) raws blocks →
  stored_intersects st = Ok options →
  ∃ events peer cursor' tip,
    fetch_chain_actions st w = Ok (events, MkPullWorker peer cursor' (initialised w) tip (tip_reached w)) ∧
    length page = length blocks ∧ next_cursor st xs = Ok cursor' ∧
    for_each xs (rollback_unit (cursor w) h (prev_blockhash first), pw_tip w) forward_block = Ok (events, tip) ∧
    headers_recv peer = batches ∧ blocks_recv peer = rest.
Proof.
  intros page xs Hopen Hhr Hh Hbr Hans Hopt. pose proof Hans as Hhash. apply answers_hashes in Hhash.
  assert (Hlen : length page = length blocks) by (by rewrite <-(length_fmap header_hash), <-Hhash, length_fmap).
  assert (is_ok (for_each xs (rollback_unit (cursor w) h (prev_blockhash first), pw_tip w) forward_block) = true) as Hfe.
  { apply forward_blocks_ok, Forall_forall. intros x [i Hi]%list_elem_of_lookup.
    apply list_lookup_imap_Some in Hi as ([hd b] & Hi & ->). apply lookup_zip_Some in Hi as [Hi1 Hi2]. simpl.
    apply (f_equal (lookup i)) in Hhash. rewrite !list_lookup_fmap, Hi1, Hi2 in Hhash. by injection Hhash. }
  apply is_ok_unwrap with (a := ([] : list ChainEvent, pw_tip w)) in Hfe. destruct (unwrap_or _ _) as [units tip].
  destruct (next_cursor st xs) as [cursor'|e|y] eqn:Hc.
  2,3: exfalso; unfold next_cursor in Hc; rewrite Hopt in Hc; destruct (_ <? 50); done.
  eexists units, (MkPeer true batches rest _), cursor', tip. split_and!; [|done..].
  unfold fetch_chain_actions, get_new_headers, peer_send. rewrite Hopen. cbn [rbind headers_recv]. rewrite Hhr.
  cbn [or_restart map_err rbind head]. fold page. unfold get_blocks, peer_send. cbn [request_open rbind blocks_recv].
  rewrite Hbr. assert (length (header_hash <$> page) = length raws) as -> by (clear -Hans; induction Hans; simpl; congruence).
  cbn [rbind blocks_recv]. rewrite recv_blocks_app. cbn [rbind].
  rewrite (decode_blocks_ok _ _ _ _ Hans). cbn [rbind or_restart map_err app]. rewrite decide_False by tauto.
  rewrite Hh. cbn [ok_or rbind]. fold xs. rewrite Hc. cbn [rbind]. rewrite Hfe. reflexivity.
Qed.

(** C16: A fetch succeeds whenever the node does its part, on a store that does
    ([turn_ok]): it answers with headers that start above a point of the cursor
    and with the blocks of the first page of them, [block_page_size] headers.
    It then announces exactly that page, with a rollback to the intersection
    before it when that is below the tip, and consumes exactly these answers;
    the headers beyond the page are for later turns, and the second comparison
    of hashes never fails. *)
Theorem fetch_makes_progress (st : PullStage) (w : PullWorker) (chain : list BlockHash) (first : Header)
    (headers : list Header) (batches : list (list Header)) (raws rest : list RawBlock) (blocks : list Block)
    (options : list Point) :
  let page := take (N.to_nat (block_page_size st)) (first :: headers) in
  turn_ok chain st w → follows chain w → request_open (peer_session w) = true →
  headers_recv (peer_session w) = (first :: headers) :: batches →
  prev_blockhash first ∈ point_hash <$> cursor w →
  blocks_recv (peer_session w) = raws ++ rest → Forall3 answers (header_hash <$> page) raws blocks →
  stored_intersects st = Ok options →
  ∃ h events w', fetch_chain_actions st w = Ok (events, w') ∧
    on_chain chain (MkPoint h (prev_blockhash first)) ∧
    follow_all chain events = Some (take (S (N.to_nat h)) chain ++ (header_hash <$> page)) ∧
    follows (take (S (N.to_nat h)) chain ++ (header_hash <$> page)) w' ∧
    (∀ p, RollBack p ∈ events → p = MkPoint h (prev_blockhash first) ∧ S (N.to_nat h) < length chain) ∧
    headers_recv (peer_session w') = batches ∧ blocks_recv (peer_session w') = rest.
Proof.
  intros page [Hp Hs Hn Hf] Hfol Hopen Hhr Hin Hbr Hans Hopt.
  assert (Hne : page ≠ []) by (unfold page; destruct (N.to_nat (block_page_size st)) eqn:?; [lia|done]).
  apply list_elem_of_fmap in Hin as (q & Hq & Hqin). apply cursor_map_is_Some in Hqin as [h Hh]. rewrite <-Hq in Hh.
  pose proof (cursor_map_lookup _ _ _ Hh) as Hon. pose proof (proj1 Hfol) as Hcur. rewrite Forall_forall in Hcur.
  apply Hcur in Hon. pose proof (on_chain_length _ _ Hon) as Hlt. cbn [point_height] in Hlt.
  assert (Hfp : fits 64 (h + N.of_nat (length page))%N).
  { eapply fits_le; [|exact Hf]. unfold page. rewrite length_take. lia. }
  unfold node_linked in Hn. rewrite Hhr in Hn. apply Forall_cons in Hn as [Hlink _].
  apply (linked_take _ _ (N.to_nat (block_page_size st))) in Hlink. fold page in Hlink.
  destruct (fetch_answered st w first headers batches raws rest blocks options h)
    as (units & peer & cursor' & tip & Hfetch & Hlen & Hc & Hfe & Hhr' & Hbr'); [done..|]. fold page in Hlen, Hc, Hfe.
  destruct (page_follows chain st w h (prev_blockhash first) page blocks units tip cursor') as (Hall & Hc' & Htip);
    [done..|].
  eexists h, units, _. split; [exact Hfetch|]. split; [exact Hon|split; [exact Hall|split; [split; [exact Hc'|exact Htip]|]]].
  split; [|done]. intros p Hpin. apply forward_blocks_inv in Hfe as (evs & -> & Hevs).
  apply elem_of_app in Hpin as [Hpin|Hpin].
  + unfold rollback_unit in Hpin. destruct Hfol as [_ (t & Ht & Htl)]. rewrite Ht in Hpin.
    case_decide as Hd; [|by apply not_elem_of_nil in Hpin]. apply list_elem_of_singleton in Hpin.
    injection Hpin as ->. split; [done|]. lia.
  + apply list_elem_of_lookup in Hpin as [i Hi]. destruct (Forall2_lookup_r _ _ _ _ _ Hevs Hi) as (x & _ & t & Hx).
    done.
Qed.
End Worker.
