(* ===== verification/PullChain.v ===== *)
(** * The pull stage, the store and the index stage together

    The pull stage starts on the stored chain, keeps its requests within what
    a node accepts, and what it announces is what the index stage applies. *)
From S2P Require Import Prelude ByteOrder EncDec Timestamp Types MergeOperation Table Rocks.
From S2P Require Import CoreTables KvStore KvStoreLaws Commit RollbackBuffer Bitcoin Context.
From S2P Require Import AddressIndexers RunesTables Runes Charms Indexers Stage Instances StageLaws Chain.
From S2P Require Import UtxoSet UtxoLaws UtxoBlock BlockTotal Peer PeerLaws Pull PullLaws.

Section PullChain.
Context {DB : Type} `{RocksDBOk DB} `{BitcoinNode} `{!Machine}.

Abbreviation stored_data st := (db_latest (sh_db (ps_db st))).

(** The store of the stage holds this chain of blocks above the genesis block. *)
Record holds_chain (blocks : list BlockHash) (st : PullStage (DB:=DB)) : Prop := {
  hc_storage : storage_ok (ps_db st);
  hc_ok : chain_ok blocks;
  hc_stored : chain_stored blocks (stored_data st);
}.

Lemma stored_intersects_chain (b : nat) blocks (st : PullStage (DB:=DB)) :
  holds_chain blocks st → 2 <= b <= 64 → fits (N.of_nat b) (N.of_nat (length blocks)) →
  ∃ l, stored_intersects st = Ok ((chain_point blocks <$> l) ++ [MkPoint 0 (stage_genesis st)]) ∧
    Forall (λ h, 0 < h <= N.of_nat (length blocks))%N l ∧ length l <= b + 8 ∧
    (blocks ≠ [] → descends (N.of_nat (length blocks)) l) ∧ (blocks = [] → l = []).
Proof.
  intros [Hs Hok Hst] Hb Hf.
  destruct (intersect_options_chain b blocks (ps_db st) (stage_genesis st)) as (l & Hl & Hrest); [done..|].
  exists l. split; [|exact Hrest]. unfold stored_intersects, stage_reader. fold latest_ts. by rewrite Hl.
Qed.

Lemma chain_point_on (genesis : BlockHash) blocks (h : u64) :
  (0 < h <= N.of_nat (length blocks))%N → on_chain (genesis :: blocks) (chain_point blocks h).
Proof.
  intros Hh. unfold on_chain. rewrite <-(chain_point_stored blocks h Hh). cbn [chain_point point_height].
  replace (N.to_nat h) with (S (N.to_nat (h - 1))) by lia. done.
Qed.

Lemma holds_chain_on blocks (st : PullStage (DB:=DB)) chain :
  holds_chain blocks st → stage_genesis st :: blocks `prefix_of` chain → stored_on chain st.
Proof.
  intros Hh [k ->]. split; [done|]. intros options Ho.
  destruct (stored_intersects_chain 64 blocks st Hh) as (l & Hl & Hr & _); [lia|apply Hh|].
  rewrite Hl in Ho. injection Ho as <-. apply Forall_app. split; [|by apply Forall_singleton].
  apply Forall_fmap. eapply Forall_impl; [exact Hr|]. intros h Hhr. by apply on_chain_app, chain_point_on.
Qed.

(** [max_by_key] gives a tip of the greatest height. *)
Lemma max_by_height_spec tips :
  tips ≠ [] → ∃ p, max_by_height tips = Some p ∧ p ∈ tips ∧ Forall (λ q, point_height q <= point_height p)%N tips.
Proof.
  induction tips as [|q tips IH]; intros Hne; [done|]. cbn [max_by_height].
  destruct (decide (tips = [])) as [->|Hne']; [exists q; split_and!; [done|by left|by apply Forall_singleton]|].
  destruct (IH Hne') as (p & -> & Hin & Hall). destruct (N.ltb_spec (point_height p) (point_height q)).
  - exists q. split_and!; [done|by left|]. constructor; [done|]. eapply Forall_impl; [exact Hall|].
    intros r Hr. simpl in *. lia.
  - exists p. split_and!; [done|by right|]. by constructor.
Qed.

(** At start the pull stage follows the stored chain: its cursor lies on
    it, with its tip first, and the tip it reports is one of the node's tips,
    of the greatest height. *)
Theorem bootstrap_follows_store (world : World) (session : Peer) (st : PullStage (DB:=DB)) (blocks : list BlockHash)
    (tips : list Point) :
  holds_chain blocks st → wo_chain_tips world = Ok tips → tips ≠ [] →
  ∃ w, pull_bootstrap world (Ok session) st = Ok w ∧ follows (stage_genesis st :: blocks) w ∧
    stored_on (stage_genesis st :: blocks) st ∧ initialised w = false ∧ tip_reached w = false ∧
    peer_session w = session ∧ pw_tip w ∈ tips ∧ Forall (λ q, point_height q <= point_height (pw_tip w))%N tips.
Proof.
  intros Hh Htips Hne. destruct (max_by_height_spec tips Hne) as (tip & Htip & Hin & Hmax).
  destruct (stored_intersects_chain 64 blocks st Hh) as (l & Hl & Hr & _ & Hd & He); [lia|apply Hh|].
  pose proof (holds_chain_on blocks st (stage_genesis st :: blocks) Hh (reflexivity _)) as Hst.
  eexists. split.
  - unfold pull_bootstrap, get_tip. cbn [or_retry map_err rbind]. rewrite Hl, Htips. cbn [or_restart or_panic map_err rbind].
    rewrite Htip. reflexivity.
  - cbn [cursor initialised tip_reached peer_session pw_tip]. split_and!; [|exact Hst|done..]. split.
    + exact (proj2 Hst _ Hl).
    + cbn [cursor]. destruct (decide (blocks = [])) as [->|Hnb]; [rewrite He by done; by eexists|].
      destruct (Hd Hnb) as (tail & -> & _). eexists. split; [done|]. simpl. lia.
Qed.

(** ** The size of a request for headers *)

(** What a node accepts in one request: [MAX_LOCATOR_SZ] of Bitcoin Core. *)
Definition MAX_LOCATOR_SZ : nat := 101.

Lemma next_cursor_length (b : nat) blocks (st : PullStage (DB:=DB)) xs c :
  holds_chain blocks st → 2 <= b <= 64 → fits (N.of_nat b) (N.of_nat (length blocks)) →
  next_cursor st xs = Ok c → length c <= b + 59.
Proof.
  intros Hh Hb Hf Hc. destruct (stored_intersects_chain b blocks st Hh Hb Hf) as (l & Hl & _ & Hll & _).
  unfold next_cursor in Hc. rewrite Hl in Hc. set (recent := header_point <$> take 50 (reverse xs)) in Hc.
  assert (length recent <= 50) as Hr by (unfold recent; rewrite length_fmap, length_take; lia).
  apply res_bind_ok in Hc as (c1 & Hc1 & Hc). injection Hc as <-. rewrite length_app. cbn [length].
  destruct (Nat.ltb_spec (length recent) 50); [|injection Hc1 as <-; lia]. cbn [or_panic map_err rbind] in Hc1.
  injection Hc1 as <-. set (options := (chain_point blocks <$> l) ++ [MkPoint 0 (stage_genesis st)]).
  assert (length options <= b + 9) as Ho by (unfold options; rewrite length_app, length_fmap; simpl; lia).
  destruct (last recent) as [p|]; [|lia]. rewrite length_app.
  pose proof (length_filter (λ q : Point, is_true (point_height q <? point_height p)%N) options). lia.
Qed.

Lemma fetch_cursor_length (b : nat) blocks (st : PullStage (DB:=DB)) w events w' :
  holds_chain blocks st → 2 <= b <= 64 → fits (N.of_nat b) (N.of_nat (length blocks)) →
  length (cursor w) <= b + 59 → fetch_chain_actions st w = Ok (events, w') → length (cursor w') <= b + 59.
Proof.
  intros Hh Hb Hf Hw Hfe. unfold fetch_chain_actions in Hfe.
  apply res_bind_ok in Hfe as ([headers peer] & _ & Hfe). destruct (head headers); [|by injection Hfe as _ <-].
  apply res_bind_ok in Hfe as ([raws peer'] & _ & Hfe). case_decide; [done|].
  apply res_bind_ok in Hfe as (ih & _ & Hfe). apply res_bind_ok in Hfe as (c & Hc & Hfe).
  apply res_bind_ok in Hfe as ([units tip] & _ & Hfe). injection Hfe as _ <-. by eapply next_cursor_length.
Qed.

(** C38: As long as fewer than 2^42 blocks are stored, no request for headers
    names more blocks than a node accepts: this holds at start, and every turn
    keeps it, however short the pages are. *)
Theorem cursor_fits_locator (world : World) (session : Res P2PError Peer) (st : PullStage (DB:=DB))
    (blocks : list BlockHash) :
  holds_chain blocks st → (N.of_nat (length blocks) < 2 ^ 42)%N →
  (∀ w, pull_bootstrap world session st = Ok w → length (cursor w) <= MAX_LOCATOR_SZ) ∧
  (∀ w s w', length (cursor w) <= MAX_LOCATOR_SZ → pull_schedule world st w = Ok (s, w') →
     length (cursor w') <= MAX_LOCATOR_SZ).
Proof.
  intros Hh Hlen. assert (2 <= 42 <= 64) as Hb by lia. assert (fits (N.of_nat 42) (N.of_nat (length blocks))) as Hf by exact Hlen.
  change MAX_LOCATOR_SZ with (42 + 59). split.
  - intros w Hw. unfold pull_bootstrap in Hw. destruct (stored_intersects_chain 42 blocks st Hh Hb Hf) as (l & Hl & _ & Hll & _).
    rewrite Hl in Hw. apply res_bind_ok in Hw as (p & _ & Hw). cbn [or_panic map_err rbind] in Hw.
    apply res_bind_ok in Hw as (tip & _ & Hw). injection Hw as <-. cbn [cursor]. rewrite length_app, length_fmap. simpl. lia.
  - intros w s w' Hw Hs. unfold pull_schedule in Hs.
    destruct (shutdown_signals st && wo_shutdown world); [by injection Hs as _ <-|].
    apply res_bind_ok in Hs as ([syncing w1] & Hsync & Hs).
    assert (length (cursor w1) <= 42 + 59) as Hw1.
    { destruct (initialised w); [by injection Hsync as _ <-|].
      apply res_bind_ok in Hsync as ([y peer] & _ & Hsync). destruct y; [|by injection Hsync as _ <-].
      apply res_bind_ok in Hsync as (tip & _ & Hsync). by injection Hsync as _ <-. }
    destruct syncing; [by injection Hs as _ <-|].
    apply res_bind_ok in Hs as ([units w2] & Hbehind & Hs). apply res_bind_ok in Hs as ([units' w3] & Htip & Hs).
    assert (w' = w3) as -> by (destruct (units ++ units'); by injection Hs).
    assert (length (cursor w2) <= 42 + 59) as Hw2.
    { unfold fetch_behind in Hbehind. destruct (tip_reached w1); [by injection Hbehind as _ <-|].
      apply res_bind_ok in Hbehind as ([evs wx] & Hfe & Hbehind). apply (fetch_cursor_length 42 blocks) in Hfe; [|done..].
      destruct evs; by injection Hbehind as _ <-. }
    unfold fetch_at_tip in Htip. destruct (tip_reached w2); [|by injection Htip as _ <-].
    apply res_bind_ok in Htip as ([evs wx] & Hfe & Htip). apply (fetch_cursor_length 42 blocks) in Hfe; [|done..].
    destruct (mempool_enabled st); [|by injection Htip as _ <-].
    apply res_bind_ok in Htip as (m & _ & Htip). by injection Htip as _ <-.
Qed.
End PullChain.

(** ** The index stage applies what is announced *)
Section PullIndex.
Context {DB : Type} `{RocksDBOk DB} `{HashOrderOk} `{Ordinals} `{!CharmsLib} `{!Machine}.
Context {Ext : Type} `{!IndexMap TransactionIndexer (list byte) Ext}.
Context `{!IndexMapOk TransactionIndexer (list byte) Ext}.
Context {C : Type} `{!MokaCache (Utxo Ext) C} `{!MokaCacheOk (Utxo Ext) C}.

Abbreviation data st := (db_latest (sh_db (st_db st))).

(** The index stage has applied the blocks above [genesis], and nothing else:
    the abstract state is the chain and the set of unspent outputs. *)
Record synced (genesis : BlockHash) (blocks : list BlockHash) (U : UtxoSet) (st : Stage DB C) : Prop := {
  sd_stage : stage_ok st;
  sd_mempool : st_processed_mempool st = false;
  sd_chain : chain_stored blocks (data st);
  sd_tip : st_last_processed st =
    MkPoint (N.of_nat (length blocks)) (default genesis (last blocks));
  sd_utxos : utxo_set_stored (Ext:=Ext) U (data st);
  sd_cache : cache_coherent (data st) (st_utxo_cache st);
}.

(** The worker after it has seen the tip the node announced. *)
Definition seen_tip (point tip : Point) (st : Stage DB C) (w : Worker) : Worker :=
  MkWorker (w_indexers w) (w_mutable w || (point_height tip - st_max_rollbacks st <? point_height point)%N).

(** C9: The index stage simulates the announced chain.  A worker that runs
    address indexers only, with no mempool snapshot on its tip ([synced]), does
    not fail on a block that extends the chain and whose transactions spend
    unspent outputs in order; the store then holds the extended chain and the
    transformed set of unspent outputs. *)
Theorem pulled_block_is_indexed (now : Clock) (w : Worker) (point : Point) (header : Header) (txs : BlockTxs)
    (tip : Point) (st : Stage DB C) (genesis : BlockHash) (blocks : list BlockHash) (U : UtxoSet)
    (chain' : list BlockHash) :
  synced genesis blocks U st → Forall address_indexer (w_indexers w) →
  follow (genesis :: blocks) (RollForward point header txs tip) = Some chain' →
  chain_ok (blocks ++ [point_hash point]) → valid_block (point_height point) U txs →
  commit_fresh (clock_commit now) (st_db st) →
  (∀ task cache, block_task now (seen_tip point tip st w) point txs st = Ok (task, cache) →
     keys_fit task ∧ values_fit task) →
  ∃ st', execute now w (RollForward point header txs tip) st = Ok (seen_tip point tip st w, st') ∧
    chain' = genesis :: blocks ++ [point_hash point] ∧
    synced genesis (blocks ++ [point_hash point]) (apply_block (point_height point) txs U) st'.
Proof.
  intros [Hst Hm Hc Htip HU Hcc] Hind Hfollow Hok Hv Hfresh Hfit. cbn [follow] in Hfollow.
  destruct (N.eqb_spec (point_height point) (N.of_nat (length (genesis :: blocks)))) as [Hh|]; [|done].
  case_bool_decide as Hprev; [|done]. injection Hfollow as <-.
  assert (point_height point = N.of_nat (length blocks) + 1)%N as Hh' by (rewrite Hh; simpl; lia).
  assert (prev_blockhash header = point_hash (st_last_processed st)) as Hp.
  { rewrite Htip. cbn [point_hash]. rewrite last_cons in Hprev. destruct (last blocks); by injection Hprev. }
  assert (point_ok point) as Hpt.
  { destruct Hok as [Hl Hn]. rewrite length_app in Hn. simpl in Hn. split; [unfold fits in *; lia|].
    apply Forall_app in Hl as [_ Hl]. by rewrite Forall_singleton in Hl. }
  destruct (block_task_total (now:=now) (seen_tip point tip st w) point txs st U) as (task & cache & Htask);
    [done|done|apply Hpt|done|done|done|].
  destruct (Hfit task cache Htask) as [Hk Hvf].
  destruct (roll_forward_extends_chain now w point header txs tip st blocks task cache) as (st' & Hr & Hst' & Hc' & Hl' & Hm');
    [done|done|done|done|by rewrite Htip|done|done|exact Htask|done|done|].
  destruct (index_block_utxo_set now (seen_tip point tip st w) point txs st U task cache) as (st2 & Hi & HU' & Hcc');
    [done..|].
  assert (st2 = st') as ->.
  { unfold roll_forward in Hr. rewrite Hm in Hr. cbn [rbind] in Hr. cbv zeta in Hr. rewrite Htip in Hr. cbn [point_height] in Hr.
    rewrite wrapping_add_exact, <-Hh', N.ltb_irrefl in Hr by (rewrite <-Hh'; apply Hpt).
    rewrite decide_False in Hr by (intros Hn; apply Hn; by rewrite Hp, Htip). unfold saturating_sub in Hr.
    fold (seen_tip point tip st w) in Hr. rewrite Hi in Hr. by injection Hr. }
  exists st'. split; [exact Hr|]. split; [done|]. split; [done..| | |].
  - rewrite Hl', last_snoc, length_app. destruct point. simpl in *. f_equal. lia.
  - done.
  - done.
Qed.
End PullIndex.

(** ** Closed examples *)
Module PullExamples.
Import Simple SimpleBitcoin SimpleNode StageExamples ChainExamples UtxoExamples PeerExamples.
#[local] Existing Instances simple_node simple_node_ok.

Definition ex_block (h : BlockHash) : Block (BitcoinNode := simple_node) := h.

(** A store with one block, a node two blocks ahead and one more announced,
    and pages of two blocks. *)
Definition ex_pull_stage : PullStage (DB:=RefDB) :=
  MkPullStage "" "" (UserPass "" "") Regtest false 2%N ex_chain_storage true (Some []).
Definition ex_session : Peer :=
  MkPeer true [[header_after (ex_hash x00)]; [header_after (ex_hash x01); header_after (ex_hash x02); header_after (ex_hash x03)]]
    [ex_hash x01; ex_hash x02] [].
Definition ex_world : World := MkWorld false (Ok [MkPoint 3 (ex_hash x03); MkPoint 4 (ex_hash x04)]) (Err "") (Some 7%N).
Definition ex_announced : list BlockHash := [ex_hash x00; ex_hash x01].
Definition ex_pull_worker : PullWorker :=
  MkPullWorker ex_session [MkPoint 1 (ex_hash x01); MkPoint 0 (ex_hash x00)] false (MkPoint 4 (ex_hash x04)) false.
Definition ex_turn : PullSchedule * PullWorker :=
  unwrap_or (PullIdle, ex_pull_worker) (pull_schedule ex_world ex_pull_stage ex_pull_worker).

Lemma ex_holds_chain : holds_chain ex_chain ex_pull_stage.
Proof. split; [apply ex_chain_storage_ok|apply ex_chain_ok|apply ex_chain_stored]. Qed.

Lemma ex_node_linked : node_linked ex_pull_worker.
Proof.
  unfold node_linked. repeat (apply Forall_cons; split; [vm_compute; repeat split; reflexivity|]). by apply Forall_nil.
Qed.

Lemma ex_turn_ok : turn_ok ex_announced ex_pull_stage ex_pull_worker.
Proof.
  split; [reflexivity| |apply ex_node_linked|vm_compute; reflexivity].
  apply (holds_chain_on ex_chain); [apply ex_holds_chain|by exists []].
Qed.

Lemma ex_follows : follows ex_announced ex_pull_worker.
Proof.
  split; [repeat (apply Forall_cons; split; [reflexivity|]); by apply Forall_nil|].
  eexists. split; reflexivity.
Qed.

Example schedule_follows_chain_witness :
  length (units_of ex_turn.1) = 2 ∧
  ∃ chain', follow_all ex_announced (units_of ex_turn.1) = Some chain' ∧ follows chain' ex_turn.2.
Proof.
  split; [vm_compute; reflexivity|].
  apply (schedule_follows_chain ex_world ex_pull_stage ex_pull_worker ex_turn.2 ex_announced ex_turn.1).
  - apply ex_turn_ok.
  - apply ex_follows.
  - rewrite <-surjective_pairing. apply is_ok_unwrap. vm_compute. reflexivity.
Defined.

(** The node has left the stored block: it answers from the genesis block. *)
Definition ex_fork_worker : PullWorker :=
  with_peer (MkPeer true [[header_after (ex_hash x00)]] [ex_hash x00] []) ex_pull_worker.
Definition ex_options : list Point := [MkPoint 1 (ex_hash x01); MkPoint 0 (ex_hash x00)].

Example fetch_makes_progress_witness :
  ∃ h events w', fetch_chain_actions ex_pull_stage ex_fork_worker = Ok (events, w') ∧
    on_chain ex_announced (MkPoint h (ex_hash x00)) ∧
    follow_all ex_announced events = Some (take (S (N.to_nat h)) ex_announced ++ [ex_hash x01]) ∧
    follows (take (S (N.to_nat h)) ex_announced ++ [ex_hash x01]) w' ∧
    (∀ p, RollBack p ∈ events → p = MkPoint h (ex_hash x00) ∧ S (N.to_nat h) < length ex_announced) ∧
    headers_recv (peer_session w') = [] ∧ blocks_recv (peer_session w') = [].
Proof.
  apply (fetch_makes_progress ex_pull_stage ex_fork_worker ex_announced (header_after (ex_hash x00)) [] [] [ex_hash x00] []
           [ex_block (ex_hash x00)] ex_options).
  - destruct ex_turn_ok as [Hp Hs _ Hf]. split; [exact Hp|exact Hs| |exact Hf].
    unfold node_linked. apply Forall_cons. split; [vm_compute; repeat split; reflexivity|by apply Forall_nil].
  - apply ex_follows.
  - reflexivity.
  - reflexivity.
  - right. left.
  - reflexivity.
  - constructor; [split; vm_compute; reflexivity|constructor].
  - vm_compute. reflexivity.
Defined.

Example bootstrap_follows_store_witness :
  ∃ w, pull_bootstrap ex_world (Ok ex_session) ex_pull_stage = Ok w ∧
    follows (ex_hash x00 :: ex_chain) w ∧ stored_on (ex_hash x00 :: ex_chain) ex_pull_stage ∧
    initialised w = false ∧ tip_reached w = false ∧ peer_session w = ex_session ∧
    pw_tip w ∈ [MkPoint 3 (ex_hash x03); MkPoint 4 (ex_hash x04)] ∧
    Forall (λ q, point_height q <= point_height (pw_tip w))%N [MkPoint 3 (ex_hash x03); MkPoint 4 (ex_hash x04)].
Proof.
  refine (bootstrap_follows_store ex_world ex_session ex_pull_stage ex_chain
            [MkPoint 3 (ex_hash x03); MkPoint 4 (ex_hash x04)] ex_holds_chain _ _); [reflexivity|discriminate].
Defined.

Example cursor_fits_locator_witness :
  length (cursor ex_turn.2) <= MAX_LOCATOR_SZ.
Proof.
  refine (proj2 (cursor_fits_locator ex_world (Ok ex_session) ex_pull_stage ex_chain ex_holds_chain _)
            ex_pull_worker ex_turn.1 ex_turn.2 _ _).
  - vm_compute. reflexivity.
  - vm_compute. lia.
  - rewrite <-surjective_pairing. apply is_ok_unwrap. vm_compute. reflexivity.
Defined.

(** A store with a block and an unspent output; the next block spends it. *)
Definition ex_synced_stage : SimpleStage :=
  MkStage (MkStorage [(5%N, <[utxo_raw (Ext:=SimpleExt) r0 := encode u0]> (record_map HashByHeightKV (chain_records ex_chain)))]
             (Some (from_u64 5%N)) false)
    [] Regtest (MkRollbackBuffer [e1] 18%N true) 16%N p1 false (Some (MkUtxoCache {[r0 := u0]} 0%N 0%N)) None.

Abbreviation ex_data := (db_latest (sh_db (st_db ex_synced_stage))).

Lemma utxo_raw_not_hash r : ¬ hash_prefix `prefix_of` utxo_raw (Ext:=SimpleExt) r.
Proof. intros [k Hk]. discriminate Hk. Qed.

Lemma ex_synced_stored : stored ex_data r0 u0.
Proof. split; [apply lookup_insert_eq|exact ex_u0_valid]. Qed.

Lemma ex_synced : synced (ex_hash x00) ex_chain ex_utxos ex_synced_stage.
Proof.
  split.
  - split; [split_and!; [vm_compute; reflexivity|vm_compute; reflexivity|split; [vm_compute; reflexivity|apply N.le_0_l]]|].
    intros k v Hk Hv. revert k v Hv Hk. apply (bool_decide_unpack (map_Forall (λ (k : RawKey) (v : RawValue),
      counter_key k → is_Some (ok (decode_all v : Res DecodingError u128))) ex_data)).
    vm_compute. reflexivity.
  - reflexivity.
  - intros k v. etransitivity; [|exact (ex_chain_stored k v)].
    assert (hash_prefix `prefix_of` k → ex_data !! k = db_latest (sh_db ex_chain_storage) !! k) as Heq.
    { intros Hk. apply lookup_insert_ne. intros <-. by apply utxo_raw_not_hash in Hk. }
    split; intros [Hk Hv]; (split; [done|]); [by rewrite <-Heq|by rewrite Heq].
  - reflexivity.
  - intros r Hr. unfold ex_utxos. destruct (decide (r0 = r)) as [<-|Hne].
    + rewrite lookup_singleton_eq. exists u0. split; [apply ex_synced_stored|done].
    + rewrite lookup_singleton_ne by done. etransitivity; [apply lookup_insert_ne|].
      * intros Heq. apply Hne. eapply utxo_raw_inj; [apply ex_r0_valid|exact Hr|exact Heq].
      * etransitivity; [apply lookup_insert_ne|apply lookup_empty]. intros Heq. discriminate Heq.
  - intros c r x Hc Hg. injection Hc as <-. unfold utxo_cache_get in Hg. cbn in Hg.
    apply lookup_singleton_Some in Hg as [<- <-]. split; [apply ex_r0_valid|intros _; apply ex_synced_stored].
Qed.

Definition ex_synced_task : IndexingTask RefDB * option (UtxoCache SimpleCache) :=
  unwrap_or (begin_indexing_task true (st_db ex_synced_stage), None) (block_task ex_now ex_worker p2 ex_txs ex_synced_stage).

Example pulled_block_is_indexed_witness :
  ∃ st', execute ex_now ex_worker (RollForward p2 (header_after (point_hash p1)) ex_txs p2) ex_synced_stage =
      Ok (ex_worker, st') ∧
    [ex_hash x00; ex_hash x01; ex_hash x02] = ex_hash x00 :: ex_chain ++ [point_hash p2] ∧
    synced (ex_hash x00) (ex_chain ++ [point_hash p2]) (apply_block (point_height p2) ex_txs ex_utxos) st'.
Proof.
  apply (pulled_block_is_indexed ex_now ex_worker p2 (header_after (point_hash p1)) ex_txs p2 ex_synced_stage
           (ex_hash x00) ex_chain ex_utxos).
  - apply ex_synced.
  - by repeat constructor.
  - reflexivity.
  - split; [by repeat (apply Forall_cons; split)|vm_compute; reflexivity].
  - apply ex_block_valid.
  - apply refdb_fresh. vm_compute. reflexivity.
  - intros task cache Htask.
    assert (task = ex_synced_task.1) as ->.
    { unfold ex_synced_task. change (seen_tip p2 p2 ex_synced_stage ex_worker) with ex_worker in Htask. by rewrite Htask. }
    clear Htask. split.
    + apply (bool_decide_unpack (set_Forall (λ k : RawKey, fits 64 (N.of_nat (length k)))
               (dom (write_buffer ex_synced_task.1)))). vm_compute. reflexivity.
    + intros k v Hv. revert v Hv. enough (∀ a, write_buffer ex_synced_task.1 !! k = Some a → set_fits a) as Hall
        by (intros v Hv; exact (Hall _ Hv)).
      revert k. apply (bool_decide_unpack (map_Forall (λ (_ : RawKey) (a : StorageAction), set_fits a)
               (write_buffer ex_synced_task.1))). vm_compute. reflexivity.
Defined.
End PullExamples.
