(* ===== verification/Pipeline.v ===== *)
(** * The pipeline

    src/src/sync/pipeline.rs: the pull stage and the index stage on one store,
    joined by a queue and run by gasket.  The theorem puts the two stages
    together: after every turn of the pull stage whose events the index stage
    has worked through, the stored chain is the chain announced. *)
From S2P Require Import Prelude ByteOrder EncDec Timestamp Types MergeOperation Table Rocks.
From S2P Require Import CoreTables KvStore RollbackBuffer Bitcoin Context AddressIndexers.
From S2P Require Import RunesTables Runes Charms Indexers Stage Instances StageLaws Chain History.
From S2P Require Import Peer PeerLaws Pull PullLaws PullChain.

(** ** What the pipeline uses of gasket *)
Class Gasket : Type := {
  RetryPolicy : Type;
  (** [retries::Policy] with these fields and the default of the others;
      durations in seconds. *)
  retry_policy : ∀ (max_retries backoff_unit backoff_factor max_backoff : N), RetryPolicy;
}.

Section Pipeline.
Context `{Gasket}.

(** [gasket::runtime::Policy]. *)
Record GasketPolicy : Type := MkPolicy {
  tick_timeout : N;
  bootstrap_retry : RetryPolicy;
  work_retry : RetryPolicy;
  teardown_retry : RetryPolicy;
}.

Definition gasket_policy (stage_timeout : u64) : GasketPolicy :=
  let default_retries := retry_policy 20 1 2 60 in
  MkPolicy stage_timeout default_retries default_retries default_retries.

Context {DB : Type} `{RocksDBOk DB} `{HashOrderOk} `{BitcoinNode} `{!Ordinals} `{!CharmsLib} `{!Machine}.
Context {Ext : Type} `{!IndexMap TransactionIndexer (list byte) Ext}.
Context {C : Type} `{!MokaCache (Utxo Ext) C}.

(** The daemon: its stages, the capacity of the queue from the first to the
    second, and the policy they run under. *)
Record Daemon : Type := MkDaemon {
  dm_pull : PullStage (DB:=DB);
  dm_index : Stage DB C;
  dm_queue : usize;
  dm_policy : GasketPolicy;
}.

Definition pipeline (config : Config) (db : StorageHandler DB) (shutdown_signals : bool) : Res Error Daemon :=
  index ← stage_new config db;
  let pull := pull_stage_new config db shutdown_signals in
  let queue_size := default DEFAULT_SYNC_STAGE_QUEUE_SIZE (cfg_stage_queue_size config) in
  let stage_timeout := default DEFAULT_SYNC_STAGE_TIMEOUT_SECS (cfg_stage_timeout_secs config) in
  Ok (MkDaemon pull index queue_size (gasket_policy stage_timeout)).

(** ** The stages in step *)
Abbreviation data st := (db_latest (sh_db (st_db st))).

(** Events that apply to the announced chain make of the stored chain what
    they make of the announced one. *)
Lemma announced_events (g : BlockHash) (events : list ChainEvent) (blocks chain' : list BlockHash) :
  follow_all (g :: blocks) events = Some chain' → chain' = g :: foldl follow_event blocks events.
Proof.
  revert blocks. induction events as [|event events IH]; intros blocks Hf; [by injection Hf|].
  cbn [follow_all] in Hf. destruct (follow (g :: blocks) event) as [c|] eqn:Hc; [|done]. cbn [mbind option_bind] in Hf.
  assert (c = g :: follow_event blocks event) as ->; [|by apply IH].
  destruct event as [p h txs tip|p|info bs]; cbn [follow follow_event] in *;
    [|by case_decide; [injection Hc as <-|done]|by injection Hc as <-].
  destruct (N.eqb_spec (point_height p) (N.of_nat (length (g :: blocks)))) as [Hh|]; [|done].
  case_bool_decide; [|done]. injection Hc as <-. cbn [length] in Hh. by rewrite (proj2 (N.ltb_lt _ _)) by lia.
Qed.

(** The index stage is where the pull stage believes it to be: it has the
    announced chain above the genesis block, and its tip is the first point of
    the cursor. *)
Record in_step (wi : Worker) (index : Stage DB C) (I : Ideal) (pull : PullStage (DB:=DB)) (wp : PullWorker) : Prop := {
  is_tracks : tracks wi index I;
  is_network : ps_network pull = st_network index;
  is_follows : follows (genesis_hash (st_network index) :: id_chain I) wp;
}.

(** The first point of a cursor on a chain is its tip. *)
Lemma follows_tip g (blocks : list BlockHash) (wp : PullWorker) :
  follows (g :: blocks) wp → head (cursor wp) = Some (chain_tip g blocks).
Proof.
  intros [Hon (p & Hp & Hlen)]. rewrite Hp. f_equal.
  assert (on_chain (g :: blocks) p) as Hpo.
  { rewrite Forall_forall in Hon. apply Hon. destruct (cursor wp); [done|]. injection Hp as ->. by left. }
  unfold on_chain in Hpo. cbn [length] in Hlen. unfold chain_tip.
  destruct blocks as [|hash blocks _] using rev_ind.
  - assert (point_height p = 0)%N as Hh by (simpl in Hlen; lia). rewrite Hh in Hpo.
    destruct p as [h x]. cbn in Hh |- *. change (Some g = Some x) in Hpo. injection Hpo as <-. by rewrite Hh.
  - rewrite last_snoc. rewrite length_app in *. cbn [length] in *.
    assert (N.to_nat (point_height p) = S (length blocks)) as Hh by lia. rewrite Hh in Hpo.
    change (S (length blocks)) with (length (g :: blocks)) in Hpo.
    rewrite app_comm_cons, list_lookup_middle in Hpo by done. destruct p as [h x]. cbn in *. injection Hpo as <-. f_equal. lia.
Qed.

Lemma in_step_cursor wi index I pull wp :
  in_step wi index I pull wp → head (cursor wp) = Some (st_last_processed index).
Proof.
  intros [HI _ Hfol]. rewrite (follows_tip _ _ _ Hfol). f_equal.
  pose proof (tk_chain _ _ _ HI) as (_ & _ & Htip). rewrite (tk_tip _ _ _ HI) in Htip. by rewrite Htip.
Qed.

(** The two stages stay in step.  When a turn of the pull stage is made
    with the stages in step, against a node whose answers are pieces of a
    chain, and the index stage then works through what the turn sent without
    stopping, the stages are in step again: the stored chain is the announced
    chain, whatever reorganisation or mempool snapshot came in between, and
    the next request to the node starts from the processed tip. *)
Theorem stages_stay_in_step (world : World) (pull : PullStage (DB:=DB)) (wp wp' : PullWorker) (s : PullSchedule)
    (wi wi' : Worker) (index index' : Stage DB C) (I : Ideal) :
  in_step wi index I pull wp → turn_ok (genesis_hash (st_network index) :: id_chain I) pull wp →
  pull_schedule world pull wp = Ok (s, wp') → worked wi index (units_of s) wi' index' →
  ∃ I', in_step wi' index' I' pull wp' ∧
    follow_all (genesis_hash (st_network index) :: id_chain I) (units_of s) =
      Some (genesis_hash (st_network index) :: id_chain I') ∧
    chain_stored (id_chain I') (data index') ∧ head (cursor wp') = Some (st_last_processed index').
Proof.
  intros [HI Hnet Hfol] Hturn Hs Hw.
  destruct (schedule_follows world pull wp wp' _ s Hturn Hfol Hs) as (chain' & Hall & Hfol').
  pose proof (announced_events _ _ _ _ Hall) as ->.
  destruct (worked_tracks _ _ _ _ _ _ HI Hw) as (I' & HI' & Hch & Hnet' & _). rewrite <-Hch in Hall, Hfol'.
  assert (in_step wi' index' I' pull wp') as Hstep by (split; [done|congruence|by rewrite Hnet']).
  exists I'. split_and!; [done|done|apply (tk_chain _ _ _ HI')|by eapply in_step_cursor].
Qed.
End Pipeline.

(** ** Closed example: a turn of two blocks, worked through *)
Module PipelineExamples.
Import Simple SimpleBitcoin SimpleNode StageExamples ChainExamples PeerExamples HistoryExamples PullExamples.
#[local] Existing Instances simple_node simple_node_ok.

Definition ex_after : Worker * SimpleStage := foldl (flip ex_run) (ex_new_worker, ex_start) (units_of ex_turn.1).

Lemma ex_in_step : in_step ex_new_worker ex_start ex_start_ideal ex_pull_stage ex_pull_worker.
Proof. split; [apply ex_start_tracks|done|apply ex_follows]. Qed.

Example stages_stay_in_step_witness :
  ∃ I', in_step ex_after.1 ex_after.2 I' ex_pull_stage ex_turn.2 ∧
    follow_all (genesis_hash Regtest :: ex_chain) (units_of ex_turn.1) = Some (genesis_hash Regtest :: id_chain I') ∧
    chain_stored (id_chain I') (db_latest (sh_db (st_db ex_after.2))) ∧
    head (cursor ex_turn.2) = Some (st_last_processed ex_after.2).
Proof.
  apply (stages_stay_in_step ex_world ex_pull_stage ex_pull_worker ex_turn.2 ex_turn.1 ex_new_worker ex_after.1
           ex_start ex_after.2 ex_start_ideal).
  - apply ex_in_step.
  - apply ex_turn_ok.
  - rewrite <-surjective_pairing. apply is_ok_unwrap. vm_compute. reflexivity.
  - apply (run_check_ok (ex_new_worker, ex_start)). vm_compute. reflexivity.
Defined.
End PipelineExamples.
