(* ===== verification/Text.v ===== *)
(** * Text

    What src/src/serve/utils.rs and the routes use of Rust's strings: printing
    and parsing of numbers, splitting, replacing, trimming; and the functions
    of utils.rs that only handle text.  A string is the list of its UTF-8
    bytes. *)
From Stdlib Require Import Strings.Ascii Strings.String.
From Stdlib Require Import Decimal DecimalString DecimalN DecimalFacts.
From S2P Require Import Prelude.

Abbreviation slen := String.length.

(** ** Numbers *)

(** [to_string] of an unsigned integer. *)
Definition show_N (n : N) : string := NilZero.string_of_uint (N.to_uint n).

(** [str::parse] of an unsigned integer of [w] bits: an optional plus sign,
    then at least one digit, and no overflow. *)
Definition parse_uint (w : N) (s : string) : option N :=
  let digits := match s with String "+"%char s => s | _ => s end in
  match digits with
  | EmptyString => None
  | _ =>
      match NilEmpty.uint_of_string digits with
      | Some d => let n := N.of_uint d in if (n <? 2 ^ w)%N then Some n else None
      | None => None
      end
  end.

(** ** Splitting and replacing *)

(** [split(c)]: the pieces between the occurrences of [c]. *)
Fixpoint split_on (c : Ascii.ascii) (s : string) : list string :=
  match s with
  | EmptyString => [EmptyString]
  | String a s =>
      if Ascii.eqb a c then EmptyString :: split_on c s
      else
        match split_on c s with
        | [] => [String a EmptyString]
        | piece :: pieces => String a piece :: pieces
        end
  end.

(** [contains(c)]. *)
Fixpoint contains (c : Ascii.ascii) (s : string) : bool :=
  match s with
  | EmptyString => false
  | String a s => Ascii.eqb a c || contains c s
  end.

(** [replace(pat, "")]: from the left; [skip] bytes of a match remain. *)
Fixpoint remove_all_from (pat : string) (skip : nat) (s : string) : string :=
  match s with
  | EmptyString => EmptyString
  | String a s' =>
      match skip with
      | S skip => remove_all_from pat skip s'
      | O =>
          if String.prefix pat s then remove_all_from pat (slen pat - 1) s'
          else String a (remove_all_from pat 0 s')
      end
  end.
Definition remove_all (pat : string) (s : string) : string := remove_all_from pat 0 s.

(** [replace(from, to)] of one character by another. *)
Fixpoint replace_char (from to : Ascii.ascii) (s : string) : string :=
  match s with
  | EmptyString => EmptyString
  | String a s => String (if Ascii.eqb a from then to else a) (replace_char from to s)
  end.

(** The characters of Unicode's White_Space, by their UTF-8 bytes. *)
Definition of_bytes (l : list N) : string := String.string_of_list_byte (byte_of <$> l).
Definition white_space : list string :=
  (of_bytes ∘ (λ n, [n]) <$> [9; 10; 11; 12; 13; 32]%N) ++
  (of_bytes <$> [[0xc2; 0x85]; [0xc2; 0xa0]; [0xe1; 0x9a; 0x80]]%N) ++
  ((λ n, of_bytes [0xe2; 0x80; n]%N) <$> [0x80; 0x81; 0x82; 0x83; 0x84; 0x85; 0x86; 0x87; 0x88; 0x89; 0x8a; 0xa8; 0xa9; 0xaf]%N) ++
  (of_bytes <$> [[0xe2; 0x81; 0x9f]; [0xe3; 0x80; 0x80]]%N).

(** [trim_start]: as long as the string starts with a white space; every round
    removes a byte, so its length is fuel enough. *)
Fixpoint trim_start_from (fuel : nat) (s : string) : string :=
  match fuel with
  | O => s
  | S fuel =>
      match list_find (λ w, is_true (String.prefix w s)) white_space with
      | Some (_, w) => trim_start_from fuel (String.substring (slen w) (slen s - slen w) s)
      | None => s
      end
  end.

Definition ends_with (w s : string) : bool :=
  (slen w <=? slen s)%nat && String.eqb (String.substring (slen s - slen w) (slen w) s) w.

Fixpoint trim_end_from (fuel : nat) (s : string) : string :=
  match fuel with
  | O => s
  | S fuel =>
      match list_find (λ w, is_true (ends_with w s)) white_space with
      | Some (_, w) => trim_end_from fuel (String.substring 0 (slen s - slen w) s)
      | None => s
      end
  end.

(** [trim]. *)
Definition trim (s : string) : string :=
  let s := trim_start_from (slen s) s in trim_end_from (slen s) s.

(** ** [decimal] *)

(** [insert(idx, '.')]. *)
Definition insert_point (idx : nat) (s : string) : string :=
  String.append (String.substring 0 idx s) (String "."%char (String.substring idx (slen s - idx) s)).

Fixpoint zeros (n : nat) : string :=
  match n with O => EmptyString | S n => String "0"%char (zeros n) end.

Definition decimal (num : u128) (dec : nat) : string :=
  let bal_string := show_N num in
  let bal_string_len := slen bal_string in
  if (0 <? dec)%nat then
    if (bal_string_len =? dec)%nat then String.append "0." bal_string
    else if (bal_string_len <? dec)%nat then
      String.append (String.append "0." (zeros (dec - bal_string_len))) bal_string
    else insert_point (bal_string_len - dec) bal_string
  else bal_string.

(** [parse_charm_path]. *)
Definition parse_charm_path (path_param : string) : string := replace_char "-"%char "/"%char path_param.

(** ** [String::from_utf8]

    The byte ranges of the well-formed sequences of Unicode, table 3-7. *)
Definition in_byte_range (lo hi : N) (b : byte) : bool := (lo <=? byte_val b)%N && (byte_val b <=? hi)%N.
Definition utf8_tail (b : byte) : bool := in_byte_range 0x80 0xbf b.

Fixpoint valid_utf8 (l : list byte) : bool :=
  match l with
  | [] => true
  | b0 :: l =>
      if in_byte_range 0 0x7f b0 then valid_utf8 l
      else
        match l with
        | b1 :: l1 =>
            if in_byte_range 0xc2 0xdf b0 then utf8_tail b1 && valid_utf8 l1
            else
              match l1 with
              | b2 :: l2 =>
                  if in_byte_range 0xe0 0xe0 b0 then in_byte_range 0xa0 0xbf b1 && utf8_tail b2 && valid_utf8 l2
                  else if in_byte_range 0xe1 0xec b0 || in_byte_range 0xee 0xef b0
                  then utf8_tail b1 && utf8_tail b2 && valid_utf8 l2
                  else if in_byte_range 0xed 0xed b0 then in_byte_range 0x80 0x9f b1 && utf8_tail b2 && valid_utf8 l2
                  else
                    match l2 with
                    | b3 :: l3 =>
                        let tails := utf8_tail b2 && utf8_tail b3 && valid_utf8 l3 in
                        if in_byte_range 0xf0 0xf0 b0 then in_byte_range 0x90 0xbf b1 && tails
                        else if in_byte_range 0xf1 0xf3 b0 then utf8_tail b1 && tails
                        else if in_byte_range 0xf4 0xf4 b0 then in_byte_range 0x80 0x8f b1 && tails
                        else false
                    | [] => false
                    end
              | [] => false
              end
        | [] => false
        end
  end.

Definition from_utf8 (l : list byte) : option string :=
  if valid_utf8 l then Some (String.string_of_list_byte l) else None.

(** ** Laws *)
Lemma to_uint_not_nil n : N.to_uint n ≠ Nil.
Proof. destruct n as [|p]; [done|]. simpl. apply DecimalPos.Unsigned.to_uint_nonnil. Qed.

Lemma uint_of_show n : NilEmpty.uint_of_string (show_N n) = Some (N.to_uint n).
Proof.
  pose proof (to_uint_not_nil n) as Hn. pose proof (NilZero.usu _ Hn) as Hu.
  unfold show_N. unfold NilZero.uint_of_string in Hu. by destruct (NilZero.string_of_uint _).
Qed.

Lemma show_N_head n s : show_N n ≠ String "+"%char s.
Proof. intros Heq. pose proof (uint_of_show n) as Hu. rewrite Heq in Hu. cbn in Hu.
  by destruct (NilEmpty.uint_of_string s).
Qed.

Lemma show_N_cons n : ∃ a s, show_N n = String a s.
Proof.
  destruct (show_N n) as [|a s] eqn:Heq; [|eauto]. pose proof (uint_of_show n) as Hu. rewrite Heq in Hu.
  injection Hu as Hu. symmetry in Hu. by apply to_uint_not_nil in Hu.
Qed.

(** Printing a number and parsing it again gives it back. *)
Lemma parse_show w n : fits w n → parse_uint w (show_N n) = Some n.
Proof.
  intros Hn. unfold parse_uint.
  assert (match show_N n with String "+" s => s | _ => show_N n end = show_N n) as ->.
  { pose proof (show_N_head n) as Hh. destruct (show_N n) as [|[[] [] [] [] [] [] [] []] s]; try done. by destruct (Hh s). }
  destruct (show_N_cons n) as (a & s & Heq). rewrite Heq, <-Heq, uint_of_show.
  rewrite DecimalN.Unsigned.of_to. by rewrite (proj2 (N.ltb_lt _ _) Hn).
Qed.

(** The digits of a number hold no other character. *)
Lemma uint_string_digits d c : contains c (NilEmpty.string_of_uint d) = true → c ∈ list_ascii_of_string "0123456789".
Proof.
  induction d; cbn [NilEmpty.string_of_uint contains]; [done|..]; intros Hc; apply orb_true_iff in Hc as [Hc|Hc]; try (by apply IHd);
    apply Ascii.eqb_eq in Hc as <-; clear; by apply (bool_decide_unpack _).
Qed.

Lemma show_N_digits n c : contains c (show_N n) = true → c ∈ list_ascii_of_string "0123456789".
Proof.
  unfold show_N. destruct (N.to_uint n) as [|d|d|d|d|d|d|d|d|d|d] eqn:Hd; [by apply to_uint_not_nil in Hd|..];
    intros Hc; rewrite <-Hd in Hc; eapply uint_string_digits; by rewrite Hd in Hc.
Qed.

Lemma split_on_none c s : contains c s = false → split_on c s = [s].
Proof.
  induction s as [|a s IH]; [done|]. cbn [contains split_on]. intros [Ha Hs]%orb_false_iff. by rewrite Ha, (IH Hs).
Qed.

Lemma append_cons a s t : String.append (String a s) t = String a (String.append s t).
Proof. done. Qed.

Lemma split_on_app c s t : contains c s = false → split_on c (String.append s (String c t)) = s :: split_on c t.
Proof.
  induction s as [|a s IH].
  - intros _. change (String.append "" (String c t)) with (String c t). cbn [split_on]. by rewrite Ascii.eqb_refl.
  - rewrite append_cons. cbn [contains split_on]. intros [Ha Hs]%orb_false_iff. rewrite Ha. by rewrite IH.
Qed.

Lemma contains_app c s t : contains c (String.append s t) = contains c s || contains c t.
Proof. induction s as [|a s IH]; [done|]. rewrite append_cons. cbn [contains]. by rewrite IH, orb_assoc. Qed.
