(* ===== verification/Open.v ===== *)
(** * Opening the database

    [StorageHandler::open] (src/src/storage/kv_store.rs): the memory budget,
    the options handed to RocksDB in the order the code sets them, and the
    primary or the secondary instance they open; then the calls on the open
    database that [KvStore] does not have. *)
From Stdlib Require Import Strings.Ascii Strings.String.
From S2P Require Import Prelude Float Sysinfo ByteOrder EncDec Timestamp Types MergeOperation Table Rocks.
From S2P Require Import CoreTables KvStore Text.

(** ** The options of RocksDB

    One constructor for each setter the code calls, with its argument. *)
Inductive DbOption : Type :=
| CreateMissingColumnFamilies (create : bool)
| CreateIfMissing (create : bool)
| EnableStatistics
| ReportBgIoStats (enable : bool)
| MaxBackgroundJobs (n : N)
| MaxSubcompactions (n : u32).

Inductive BlockOption : Type :=
| BlockSize (size : usize)
| OptimizeFiltersForMemory (v : bool)
| BlockCache (capacity : usize)
| CacheIndexAndFilterBlocks (v : bool).

Inductive CfOption : Type :=
| BlockBasedTableFactory (factory : list BlockOption)
| WriteBufferSize (size : usize)
| MaxWriteBufferNumber (nbuf : N)
| MaxWriteBufferSizeToMaintain (size : N)
| OptimizeFiltersForHits (optimize_for_hits : bool)
| PrefixExtractorFixed (len : usize)
| MergeOperatorFunctions (name : string)
| ComparatorWithTs (name : string) (timestamp_size : nat).

Record ColumnFamilyDescriptor : Type := MkCf { cf_name : string; cf_options : list CfOption }.

Definition SYMPHONY_CF_NAME : string := "symphony".
Definition COMPARATOR_NAME : string := "rust-rocksdb.U64Comparator".

(** What the crate does with them. *)
Class RocksOpen (DB : Type) : Type := {
  open_cf_descriptors : list DbOption → string → list ColumnFamilyDescriptor → Res string DB;
  open_cf_descriptors_as_secondary :
    list DbOption → string → string → list ColumnFamilyDescriptor → Res string DB;
  try_catch_up_with_primary : DB → Res string DB;
  db_flush : DB → Res string DB;
  db_compact_all : DB → DB;                       (* compact_range_cf without bounds *)
  db_property : DB → bool → string → Res string (option string);  (* of the column family, or of the database *)
}.

(** ** The budget *)
Definition per_memtable_cap : u64 := (512 * 1024 * 1024)%N.

Definition write_buffer_size (memory_budget : u64) : u64 :=
  let memtable_budget := f64_as_u64 (f64_mul (f64_of_u64 memory_budget) f64_0_25) in
  N.min (memtable_budget / 2) per_memtable_cap.

Definition block_cache_budget (memory_budget : u64) : u64 :=
  let memtable_budget := (write_buffer_size memory_budget * 2)%N in
  wrapping_sub 64 memory_budget memtable_budget.

(** ** The options, in the order they are set *)
Definition background_jobs (cpus : u32) : Res Error N :=
  let background_jobs := N.max 2 cpus in
  if (background_jobs <? 2 ^ 31)%N then Ok background_jobs else Panic "unwrap".

Definition cpus (system : SystemInfo) : u32 := (cpu_count system mod 2 ^ 32)%N.

Definition db_opts (background_jobs : N) (system : SystemInfo) : list DbOption :=
  [CreateMissingColumnFamilies true; CreateIfMissing true; EnableStatistics; ReportBgIoStats true;
   MaxBackgroundJobs background_jobs; MaxSubcompactions (cpus system)].

(** The options being built: those of the block format and those of the
    column family.  The table factory is made of a copy of the former. *)
Record Building : Type := MkBuilding { block_opts : list BlockOption; cf_opts : list CfOption }.

Definition set_block (o : BlockOption) (s : Building) : Building :=
  MkBuilding (block_opts s ++ [o]) (cf_opts s).
Definition set_cf (o : CfOption) (s : Building) : Building :=
  MkBuilding (block_opts s) (cf_opts s ++ [o]).
Definition set_block_based_table_factory (s : Building) : Building :=
  set_cf (BlockBasedTableFactory (block_opts s)) s.

Definition build_options (config_memory_budget : option u64) (memory_budget : u64) : Building :=
  let s := MkBuilding [] [] in
  let s := set_block (BlockSize (8 * 1024)) s in
  let s := set_block (OptimizeFiltersForMemory true) s in
  let s := set_block (BlockCache (block_cache_budget memory_budget)) s in
  let s := set_block_based_table_factory s in
  let s := if config_memory_budget then set_block (CacheIndexAndFilterBlocks true) s else s in
  let s := set_cf (WriteBufferSize (write_buffer_size memory_budget)) s in
  let s := set_cf (MaxWriteBufferNumber 2) s in
  let s := set_cf (MaxWriteBufferSizeToMaintain 0) s in
  let s := set_cf (OptimizeFiltersForHits true) s in
  let s := set_cf (PrefixExtractorFixed 2) s in
  let s := set_cf (MergeOperatorFunctions "extensible_merge") s in
  set_cf (ComparatorWithTs COMPARATOR_NAME SIZE) s.

(** [PathBuf::push] of a relative component. *)
Definition path_push (path component : string) : string :=
  if String.eqb path "" || ends_with "/" path then String.append path component
  else String.append path (String.append "/" component).

Section Open.
Context {DB : Type} `{RocksOpen DB}.

Definition open (system : SystemInfo) (path : string) (read_only : bool) (config_memory_budget : option u64) :
    Res Error (StorageHandler DB) :=
  let memory_budget := default (default_rocksdb_memory_budget system) config_memory_budget in
  background_jobs ← background_jobs (cpus system);
  let db_opts := db_opts background_jobs system in
  let cfs := [MkCf SYMPHONY_CF_NAME (cf_opts (build_options config_memory_budget memory_budget))] in
  let db :=
    if read_only
    then open_cf_descriptors_as_secondary db_opts path (path_push path "secondary") cfs
    else open_cf_descriptors db_opts path cfs in
  match db with
  | Ok db => Ok (MkStorage db None read_only)
  | _ => Panic "unwrap"
  end.

(** ** The other calls *)
Definition is_read_only (sh : StorageHandler DB) : bool := read_only sh.

Definition try_refresh_read_only_data (sh : StorageHandler DB) : Res Error (StorageHandler DB) :=
  if read_only sh then
    db ← map_err Rocks (try_catch_up_with_primary (sh_db sh));
    Ok (MkStorage db (previous_timestamp sh) (read_only sh))
  else Ok sh.

Definition flush_and_compact (sh : StorageHandler DB) : Res Error (StorageHandler DB) :=
  db ← map_err Rocks (db_flush (sh_db sh));
  Ok (MkStorage (db_compact_all db) (previous_timestamp sh) (read_only sh)).

(** [print_perf_snapshot]: a property that cannot be read counts as the
    default, one that is missing or no number as 0. *)
Definition property (db : DB) (cf : bool) (name on_error : string) : string :=
  match db_property db cf name with
  | Ok value => default EmptyString value
  | _ => on_error
  end.

Definition in_megabytes (value : string) : u64 := (default 0%N (parse_uint 64 value) / 1024 / 1024)%N.

Record PerfSnapshot : Type := MkPerf {
  perf_memtables : u64;
  perf_block_cache : u64;
  perf_pending_compaction : u64;
  perf_running_compactions : string;
  perf_table_readers : u64;
  perf_stats : string;
}.

Definition print_perf_snapshot (sh : StorageHandler DB) : PerfSnapshot :=
  let db := sh_db sh in
  MkPerf
    (in_megabytes (property db true "rocksdb.cur-size-all-mem-tables" "0"))
    (in_megabytes (property db true "rocksdb.block-cache-usage" "0"))
    (in_megabytes (property db false "rocksdb.estimate-pending-compaction-bytes" "0"))
    (property db false "rocksdb.num-running-compactions" "0")
    (in_megabytes (property db true "rocksdb.estimate-table-readers-mem" "0"))
    (property db true "rocksdb.stats" "N/A").
End Open.

(** ** What the options come to *)

(** The last value set for an option. *)
Definition last_set {O A} (get : O → option A) (l : list O) : option A :=
  last (filter_map get l).

Definition factory_of (o : CfOption) : option (list BlockOption) :=
  match o with BlockBasedTableFactory factory => Some factory | _ => None end.
Definition write_buffer_size_of (o : CfOption) : option u64 :=
  match o with WriteBufferSize size => Some size | _ => None end.
Definition write_buffer_number_of (o : CfOption) : option N :=
  match o with MaxWriteBufferNumber n => Some n | _ => None end.
Definition block_cache_of (o : BlockOption) : option u64 :=
  match o with BlockCache capacity => Some capacity | _ => None end.
Definition cached_index_of (o : BlockOption) : option bool :=
  match o with CacheIndexAndFilterBlocks v => Some v | _ => None end.

(** What the memtables, and the cache of the blocks, may take. *)
Definition memtable_memory (l : list CfOption) : option u64 :=
  match last_set write_buffer_size_of l, last_set write_buffer_number_of l with
  | Some size, Some n => Some (size * n)%N
  | _, _ => None
  end.
Definition block_cache_memory (l : list CfOption) : option u64 :=
  last_set factory_of l ≫= last_set block_cache_of.
(** Without a setting RocksDB keeps index and filter blocks out of the cache. *)
Definition index_blocks_cached (l : list CfOption) : option bool :=
  last_set factory_of l ≫= λ factory, Some (default false (last_set cached_index_of factory)).

(** ** The budget is kept *)
Lemma write_buffer_small memory_budget : (write_buffer_size memory_budget <= 512 * 1024 * 1024)%N.
Proof. apply N.le_min_r. Qed.

Lemma write_buffer_eighth memory_budget :
  (memory_budget < 2 ^ 53)%N →
  write_buffer_size memory_budget = N.min (memory_budget / 4 / 2) (512 * 1024 * 1024).
Proof. intros Hsmall. unfold write_buffer_size. by rewrite f64_quarter. Qed.

(** Two memtables fit in every budget: below 2^53 they take a quarter at most,
    above it less than the cap. *)
Lemma memtables_fit memory_budget : (write_buffer_size memory_budget * 2 <= memory_budget)%N.
Proof.
  destruct (N.lt_ge_cases memory_budget (2 ^ 53)) as [Hsmall|Hbig].
  - rewrite write_buffer_eighth by done. transitivity (memory_budget / 4 / 2 * 2)%N; [lia|].
    pose proof (N.Div0.mul_div_le (memory_budget / 4) 2). pose proof (N.Div0.mul_div_le memory_budget 4). lia.
  - pose proof (write_buffer_small memory_budget). lia.
Qed.

Lemma block_cache_rest memory_budget :
  fits 64 memory_budget → block_cache_budget memory_budget = (memory_budget - write_buffer_size memory_budget * 2)%N.
Proof. intros Hfits. unfold block_cache_budget. apply wrapping_sub_exact; [apply memtables_fit|done]. Qed.

Lemma options_memory config_memory_budget memory_budget :
  let l := cf_opts (build_options config_memory_budget memory_budget) in
  memtable_memory l = Some (write_buffer_size memory_budget * 2)%N ∧
  block_cache_memory l = Some (block_cache_budget memory_budget) ∧
  index_blocks_cached l = Some false.
Proof. by destruct config_memory_budget. Qed.

Lemma background_jobs_ok n : (n < 2 ^ 31)%N → background_jobs n = Ok (N.max 2 n).
Proof. intros Hn. unfold background_jobs. cbv zeta. by rewrite (proj2 (N.ltb_lt _ _)) by lia. Qed.

Section OpenLaws.
Context {DB : Type} `{RocksOpen DB}.

(** The instance the process works on. *)
Definition instance_at (system : SystemInfo) (path : string) (read_only : bool) (cfs : list ColumnFamilyDescriptor) :
    Res string DB :=
  let opts := db_opts (N.max 2 (cpus system)) system in
  if read_only then open_cf_descriptors_as_secondary opts path (path_push path "secondary") cfs
  else open_cf_descriptors opts path cfs.

(** C25: Opening the database hands RocksDB one column family whose two
    memtables and block cache together take exactly the memory budget, the
    memtables a quarter of it but 1 GiB at most; the indexes and filters stay
    outside of that budget even when it was configured.  The handler starts
    without a timestamp, and opening fails only if RocksDB does. *)
Theorem open_splits_budget system path read_only config_memory_budget :
  let memory_budget := default (default_rocksdb_memory_budget system) config_memory_budget in
  fits 64 memory_budget → (cpu_count system < 2 ^ 31)%N →
  ∃ cf memtables cache,
    open system path read_only config_memory_budget =
      match instance_at system path read_only [cf] with
      | Ok db => Ok (MkStorage db None read_only)
      | _ => Panic "unwrap"
      end ∧
    memtable_memory (cf_options cf) = Some memtables ∧
    block_cache_memory (cf_options cf) = Some cache ∧
    (memtables + cache = memory_budget)%N ∧
    (memtables <= 1024 * 1024 * 1024)%N ∧
    ((memory_budget < 2 ^ 53)%N → memtables = (N.min (memory_budget / 4 / 2) (512 * 1024 * 1024) * 2)%N) ∧
    index_blocks_cached (cf_options cf) = Some false.
Proof.
  intros memory_budget Hfits Hcpus.
  destruct (options_memory config_memory_budget memory_budget) as (Hm & Hc & Hi).
  exists (MkCf SYMPHONY_CF_NAME (cf_opts (build_options config_memory_budget memory_budget))),
    (write_buffer_size memory_budget * 2)%N, (block_cache_budget memory_budget).
  split_and!; try done.
  - unfold open. fold memory_budget. assert (cpus system = cpu_count system) as Hcpu.
    { unfold cpus. apply N.mod_small. lia. }
    rewrite background_jobs_ok by lia. unfold instance_at. by destruct read_only.
  - rewrite block_cache_rest by done. pose proof (memtables_fit memory_budget). lia.
  - pose proof (write_buffer_small memory_budget). lia.
  - intros Hsmall. by rewrite write_buffer_eighth.
Qed.
End OpenLaws.

(** A crate that opens a database on what it was given. *)
Module OpenExamples.
Definition Opened : Type := list DbOption * list string * list ColumnFamilyDescriptor.
#[local] Instance recording : RocksOpen Opened := {|
  open_cf_descriptors := λ opts path cfs, Ok (opts, [path], cfs);
  open_cf_descriptors_as_secondary := λ opts path second cfs, Ok (opts, [path; second], cfs);
  try_catch_up_with_primary := λ _, Err "not available";
  db_flush := Ok;
  db_compact_all := id;
  db_property := λ _ _ name,
    if String.eqb name "rocksdb.block-cache-usage" then Ok (Some "3221225472") else Ok None;
|}.

Definition laptop : SystemInfo := MkSystemInfo None (16 * 1024 ^ 3) 8.

(** Three gigabytes: 768 MiB of memtables, the rest for the cache. *)
Example configured_budget :
  let l := cf_opts (build_options (Some 3221225472%N) 3221225472) in
  rocksdb_memory_budget_bytes (MkStorageConfig (Some (F64 false 3 0))) = Some 3221225472%N ∧
  memtable_memory l = Some 805306368%N ∧ block_cache_memory l = Some 2415919104%N.
Proof. vm_compute. done. Qed.

Example open_secondary :
  rmap (λ sh : StorageHandler Opened, (sh_db sh).1.2) (open laptop "./tmp/symphony" true None) =
  Ok ["./tmp/symphony"; "./tmp/symphony/secondary"].
Proof. vm_compute. done. Qed.

Example perf_snapshot :
  perf_block_cache (print_perf_snapshot (MkStorage (([], [], []) : Opened) None false)) = 3072%N ∧
  perf_memtables (print_perf_snapshot (MkStorage (([], [], []) : Opened) None false)) = 0%N.
Proof. vm_compute. done. Qed.

Lemma open_splits_budget_witness :
  ∃ cf memtables cache,
    open (DB := Opened) laptop "db" false (Some 3221225472%N) =
      match instance_at laptop "db" false [cf] with
      | Ok db => Ok (MkStorage db None false)
      | _ => Panic "unwrap"
      end ∧
    memtable_memory (cf_options cf) = Some memtables ∧
    block_cache_memory (cf_options cf) = Some cache ∧
    (memtables + cache = 3221225472)%N ∧
    (memtables <= 1024 * 1024 * 1024)%N ∧
    ((3221225472 < 2 ^ 53)%N → memtables = (N.min (3221225472 / 4 / 2) (512 * 1024 * 1024) * 2)%N) ∧
    index_blocks_cached (cf_options cf) = Some false.
Proof. apply (open_splits_budget laptop "db" false (Some 3221225472%N)); [reflexivity|reflexivity]. Defined.
End OpenExamples.
