(* ===== verification/Reports.v ===== *)
(** * What the program reports of itself

    The figures of the log: the hits of the cache when the inputs of a block
    are resolved ([Stats], src/src/sync/stages/index/worker/context.rs), the
    times of the parts of a block ([IndexingTimings], worker/stage.rs), the
    progress of the index, and the statistics of the database every quarter of
    an hour (src/src/storage/stats_logger.rs). *)
From Stdlib Require Import Strings.Ascii Strings.String.
From S2P Require Import Prelude Float Sysinfo ByteOrder EncDec Timestamp Types MergeOperation Table Rocks.
From S2P Require Import CoreTables KvStore Bitcoin Context Text Open.

(** ** [Stats] *)
Section Stats.
Context {DB : Type} `{RocksDB DB} `{HashOrder} `{Bitcoin}.
Context {Ext : Type} `{!IndexMap TransactionIndexer (list byte) Ext}.
Context {C : Type} `{!MokaCache (Utxo Ext) C}.

Record Stats : Type := MkStats { stats_resolved : usize; stats_cache_hits : usize }.

(** What [IndexingContext::new] keeps for [stats]. *)
Definition context_stats (task : IndexingTask DB) (txs : BlockTxs) (utxo_cache : option (UtxoCache C)) : Res Error Stats :=
  '(r, _) ← resolve_inputs (Ext:=Ext) task txs utxo_cache;
  Ok (MkStats (N.of_nat (size (ru_resolver r))) (ru_cache_hits r)).
End Stats.

(** [(part as f64 / whole as f64) * 100.0]. *)
Definition f64_percentage (part whole : u64) : f64 := f64_mul (f64_div (f64_of_u64 part) (f64_of_u64 whole)) f64_100.

Definition stats_log (s : Stats) : string :=
  let hits := (show_N (stats_cache_hits s) ++ "/" ++ show_N (stats_resolved s))%string in
  if (stats_resolved s =? 0)%N then (hits ++ "(N/A%)")%string
  else (hits ++ "(" ++ show_N (f64_as_u64 (f64_percentage (stats_cache_hits s) (stats_resolved s))) ++ "%)")%string.

(** ** The progress of the index

    [f64::min], for numbers. *)
Definition f64_min (x y : f64) : f64 := if f64_geb y x then x else y.
Definition progress (height tip_height : BlockHeight) : f64 :=
  if (0 <? tip_height)%N then f64_min (f64_percentage height tip_height) f64_100 else f64_100.

(** ** [IndexingTimings]

    A [std::time::Duration]: seconds, and nanoseconds below a second. *)
Record Duration : Type := MkDuration { dur_secs : u64; dur_nanos : u32 }.
Definition duration_zero : Duration := MkDuration 0 0.
Definition as_secs (d : Duration) : u64 := dur_secs d.
Definition as_nanos (d : Duration) : u128 := (dur_secs d * 1000000000 + dur_nanos d)%N.
Definition as_millis (d : Duration) : u128 := (dur_secs d * 1000 + dur_nanos d / 1000000)%N.
Definition as_micros (d : Duration) : u128 := (dur_secs d * 1000000 + dur_nanos d / 1000)%N.

Record IndexingTimings : Type := MkTimings {
  create_context : Duration;
  timed_indexers : list Duration;
  timed_update_utxo : Duration;
  apply_task : Duration;
  total : Duration;
}.

Definition timings_new (indexer_count : nat) : IndexingTimings :=
  MkTimings duration_zero (replicate indexer_count duration_zero) duration_zero duration_zero duration_zero.

(** The micro sign takes two bytes of UTF-8. *)
Definition micro : string := String (Ascii.ascii_of_nat 194) (String (Ascii.ascii_of_nat 181) EmptyString).

Definition append_duration (result : string) (duration : Duration) : string :=
  let nanos := as_nanos duration in
  if (1000000000 <=? nanos)%N then (result ++ show_N (as_secs duration) ++ "s")%string
  else if (1000000 <=? nanos)%N then (result ++ show_N (as_millis duration) ++ "ms")%string
  else if (1000 <=? nanos)%N then (result ++ show_N (as_micros duration) ++ micro ++ "s")%string
  else (result ++ show_N nanos ++ "ns")%string.

Definition timings_log (t : IndexingTimings) : string :=
  let result := append_duration "total=" (total t) in
  let result := (append_duration (result ++ " ctx=") (create_context t) ++ " ")%string in
  let result :=
    foldl (λ result '(i, duration),
             (append_duration (result ++ "idxr" ++ show_N (N.of_nat i) ++ "=") duration ++ " ")%string)
      result (imap pair (timed_indexers t)) in
  let result := append_duration (result ++ "utxo=") (timed_update_utxo t) in
  append_duration (result ++ " apply=") (apply_task t).

(** ** [start_stats_logger]

    [interval period n] is the instant at which the [n]-th tick of a ticker of
    this period completes, [storage] the database, which the other tasks
    share, at an instant. The loop never ends: [start_stats_logger n] is what
    its first [n] rounds print. *)
Section StatsLogger.
Context {DB : Type} `{RocksOpen DB}.
Context (interval : u64 → nat → u64) (storage : u64 → StorageHandler DB).

Fixpoint stats_rounds (ticker : nat → u64) (tick rounds : nat) : list (u64 * PerfSnapshot) :=
  match rounds with
  | O => []
  | S rounds => let now := ticker tick in (now, print_perf_snapshot (storage now)) :: stats_rounds ticker (S tick) rounds
  end.
Definition start_stats_logger (rounds : nat) : list (u64 * PerfSnapshot) :=
  let ticker := interval (15 * 60)%N in stats_rounds ticker 0 rounds.
End StatsLogger.

(** ** The hits are among the inputs that were resolved *)
Section StatsLaws.
Context {DB : Type} `{RocksDB DB} `{HashOrderOk} `{Bitcoin}.
Context {Ext : Type} `{!IndexMap TransactionIndexer (list byte) Ext}.
Context {C : Type} `{!MokaCache (Utxo Ext) C}.
Implicit Types s : ResolveState (Ext:=Ext) (C:=C).

Abbreviation found s := (N.of_nat (size (rs_resolver s))).

Lemma size_insert_ge (m : gmap TxoRef (Utxo Ext)) r u : size m ≤ size (<[r := u]> m).
Proof. destruct (m !! r) eqn:Hr; [by rewrite map_size_insert, Hr|]. rewrite map_size_insert_None by done. lia. Qed.

Lemma resolve_cached_hits ids (l : list TxoRef) s :
  NoDup l → (∀ r, r ∈ l → rs_resolver s !! r = None) → (rs_cache_hits s <= found s)%N →
  (rs_cache_hits (foldl (resolve_cached ids) s l) <= found (foldl (resolve_cached ids) s l))%N.
Proof.
  revert s. induction l as [|r l IH]; intros s Hnd Hnew Hle; [done|].
  apply NoDup_cons in Hnd as [Hr Hnd]. cbn [foldl]. apply IH; [exact Hnd|..].
  - intros r' Hr'. assert (r ≠ r') as Hne by (by intros <-). pose proof (Hnew r' ltac:(by right)) as Hnone.
    unfold resolve_cached. repeat case_match; cbn [rs_resolver]; by rewrite ?lookup_insert_ne.
  - pose proof (Hnew r ltac:(by left)) as Hnone. unfold resolve_cached.
    repeat case_match; cbn [rs_resolver rs_cache_hits]; try exact Hle.
    all: rewrite map_size_insert_None by done; unfold wrapping_add.
    all: etransitivity; [apply N.Div0.mod_le|lia].
Qed.

Lemma resolve_fetched_size l (m m' : gmap TxoRef (Utxo Ext)) :
  for_each l m resolve_fetched = Ok m' → size m ≤ size m'.
Proof.
  revert m. induction l as [|[r [u|]] l IH]; intros m Hl; [by injection Hl as <-| |done].
  cbn [for_each resolve_fetched fst snd rbind] in Hl. pose proof (size_insert_ge m r u). specialize (IH _ Hl). lia.
Qed.

Lemma cache_hits_resolved (task : IndexingTask DB) txs cache (s : Stats) :
  context_stats (Ext:=Ext) (C:=C) task txs cache = Ok s → (stats_cache_hits s <= stats_resolved s)%N.
Proof.
  intros Hs. apply res_bind_ok in Hs as ([r cache'] & Hr & Hs). injection Hs as <-. cbn [stats_cache_hits stats_resolved].
  apply res_bind_ok in Hr as (m & Hm & Hr). injection Hr as <- _. cbn [ru_cache_hits ru_resolver].
  pose proof (resolve_cached_hits (block_tx_ids txs) (hs_iter (block_input_refs txs))
    (MkResolveState ∅ [] ∅ 0%N cache)) as Hhits. etransitivity; [apply Hhits|].
  - rewrite hs_iter_perm. apply NoDup_elements.
  - intros r _. apply lookup_empty.
  - cbn. lia.
  - set (st := foldl _ _ _) in *. destruct (rs_fetch_from_db st); [injection Hm as <-; lia|].
    apply res_bind_ok in Hm as (fetched & _ & Hm). apply resolve_fetched_size in Hm. lia.
Qed.
End StatsLaws.

(** ** A percentage of a part is at most 100 *)
Lemma shift_round_le m k c : (m <= c * 2 ^ k)%N → (shift_round m k <= c)%N.
Proof.
  intros Hm. unfold shift_round. rewrite N.shiftr_div_pow2.
  assert (2 ^ k ≠ 0)%N as Hk by (apply N.pow_nonzero; lia).
  pose proof (N.div_mod m (2 ^ k) Hk) as Hdiv. pose proof (N.mod_lt m (2 ^ k) Hk) as Hlt.
  set (q := (m / 2 ^ k)%N) in *. set (r := (m mod 2 ^ k)%N) in *.
  assert (q <= c)%N as Hq by (apply (N.mul_le_mono_pos_l _ _ (2 ^ k)); lia).
  destruct (N.eq_dec q c) as [->|Hne].
  - assert (r = 0)%N as -> by lia. rewrite N.mul_0_r, (proj2 (N.compare_lt_iff 0 (2 ^ k))) by lia. lia.
  - case_match; [case_match|..]; lia.
Qed.

(** Rounding keeps a number below a whole number that fits in a mantissa. *)
Lemma f64_round_le m p c :
  (p <= 1000)%N → (c < 2 ^ 53)%N → (m <= c * 2 ^ p)%N →
  ∃ m' p', f64_round false m (- Z.of_N p) = F64 false m' (- Z.of_N p') ∧ (p' <= p)%N ∧ (m' <= c * 2 ^ p')%N.
Proof.
  intros Hp Hc Hm. assert (m < 2 ^ (53 + p))%N as Hlt.
  { rewrite N.pow_add_r. eapply N.le_lt_trans; [exact Hm|]. apply N.mul_lt_mono_pos_r; [|exact Hc].
    apply N.neq_0_lt_0, N.pow_nonzero. lia. }
  apply size_small in Hlt. unfold f64_round. cbv zeta.
  set (k := Z.to_N (Z.max (Z.of_N (N.size m) - 53) (-1074 - - Z.of_N p))).
  assert (k <= p)%N as Hk by lia. exists (if (k =? 0)%N then m else shift_round m k), (p - k)%N.
  replace (- Z.of_N p + Z.of_N k)%Z with (- Z.of_N (p - k))%Z by lia.
  assert ((if (k =? 0)%N then m else shift_round m k) <= 2 ^ 53)%N as Hsmall.
  { pose proof (N.size_gt m) as Hsz. destruct (N.eqb_spec k 0) as [Hz|Hz].
    - assert (2 ^ N.size m <= 2 ^ 53)%N by (apply N.pow_le_mono_r; lia). lia.
    - apply shift_round_le. rewrite <-N.pow_add_r. replace (53 + k)%N with (N.size m) by lia. lia. }
  assert (N.size (if (k =? 0)%N then m else shift_round m k) <= 54)%N as Hsz.
  { apply size_small. change (2 ^ 54)%N with (2 * 2 ^ 53)%N. lia. }
  rewrite (proj2 (Z.ltb_ge _ _)) by lia. split; [done|]. split; [lia|].
  destruct (N.eqb_spec k 0) as [Hz|Hz]; [by rewrite Hz, N.sub_0_r|]. apply shift_round_le.
  rewrite <-N.mul_assoc, <-N.pow_add_r. by replace (p - k + k)%N with p by lia.
Qed.

Lemma percentage_le_100 part whole :
  (part <= whole)%N → (0 < whole < 2 ^ 53)%N → (f64_as_u64 (f64_percentage part whole) <= 100)%N.
Proof.
  intros Hle [Hpos Hsmall]. unfold f64_percentage, f64_of_u64.
  assert (N.size part <= 53)%N as Hs1 by (apply size_small; lia).
  assert (N.size whole <= 53)%N as Hs2 by (by apply size_small). rewrite !f64_round_small by lia.
  unfold f64_div. rewrite (proj2 (N.eqb_neq _ _)) by lia. cbv zeta. set (k := (N.size whole + 55)%N).
  rewrite N.shiftl_mul_pow2. set (n := (part * 2 ^ k)%N).
  set (m := (2 * (n / whole) + (if n mod whole =? 0 then 0 else 1))%N).
  assert (m <= 1 * 2 ^ (k + 1))%N as Hm.
  { pose proof (N.div_mod n whole ltac:(lia)) as Hdiv. assert (n <= 2 ^ k * whole)%N as Hn by (unfold n; nia).
    rewrite N.pow_add_r. change (2 ^ 1)%N with 2%N. unfold m.
    assert (n / whole <= 2 ^ k)%N as Hq by (apply N.Div0.div_le_upper_bound; lia).
    destruct (N.eqb_spec (n mod whole) 0) as [|Hmod]; [lia|].
    assert (n / whole ≠ 2 ^ k)%N; [|lia]. intros Heq. rewrite Heq, N.mul_comm in Hdiv. apply Hmod. clearbody n. revert Hdiv Hn. generalize (n mod whole)%N (2 ^ k * whole)%N. lia. }
  destruct (f64_round_le m (k + 1) 1) as (m1 & p1 & Hr1 & Hp1 & Hm1); [lia|lia|exact Hm|].
  replace (0 - 0 - Z.of_N k - 1)%Z with (- Z.of_N (k + 1))%Z by lia. cbn [xorb]. rewrite Hr1. unfold f64_100, f64_mul. cbn [xorb].
  destruct (f64_round_le (m1 * 100) p1 100) as (m2 & p2 & Hr2 & Hp2 & Hm2); [lia|lia|lia|].
  rewrite Z.add_0_r, Hr2. cbn [f64_as_u64]. rewrite Z.shiftl_div_pow2 by lia.
  replace (2 ^ (- - Z.of_N p2))%Z with (Z.of_N (2 ^ p2)) by (rewrite N2Z.inj_pow; f_equal; lia).
  rewrite <-N2Z.inj_div, N2Z.id. etransitivity; [apply N.le_min_l|]. apply N.Div0.div_le_upper_bound. lia.
Qed.

Lemma string_append_assoc (a b c : string) : ((a ++ b) ++ c)%string = (a ++ b ++ c)%string.
Proof. induction a as [|x a IH]; [done|]. exact (f_equal (String x) IH). Qed.

(** What is logged for a block: never more than 100%. *)
Lemma stats_percentage {DB} `{RocksDB DB} `{HashOrderOk} `{Bitcoin} {Ext} `{!IndexMap TransactionIndexer (list byte) Ext}
    {C} `{!MokaCache (Utxo Ext) C} (task : IndexingTask DB) txs (cache : option (UtxoCache C)) (s : Stats) :
  context_stats (Ext:=Ext) task txs cache = Ok s → (stats_resolved s < 2 ^ 53)%N →
  (stats_resolved s = 0%N ∧ stats_log s = "0/0(N/A%)"%string) ∨
  ∃ p, (p <= 100)%N ∧
    stats_log s = (show_N (stats_cache_hits s) ++ "/" ++ show_N (stats_resolved s) ++ "(" ++ show_N p ++ "%)")%string.
Proof.
  intros Hs Hsmall. apply cache_hits_resolved in Hs. destruct s as [resolved hits]. cbn [stats_resolved stats_cache_hits] in *.
  unfold stats_log. cbn [stats_resolved stats_cache_hits]. destruct (N.eqb_spec resolved 0) as [->|Hne].
  - left. apply N.le_0_r in Hs as ->. done.
  - right. eexists. split; [apply (percentage_le_100 hits resolved)|]; [done|lia|]. by rewrite !string_append_assoc.
Qed.

(** The cast drops the fraction of a product that rounding left below a whole
    number: 29 of 100 are shown as 28%. *)
Example percentage_drops : stats_log (MkStats 100 29) = "29/100(28%)"%string.
Proof. vm_compute. reflexivity. Qed.
Example stats_examples :
  stats_log (MkStats 4 3) = "3/4(75%)"%string ∧ stats_log (MkStats 7 7) = "7/7(100%)"%string ∧
  progress 5 0 = f64_100 ∧ f64_as_u64 (progress 800000 840000) = 95%N.
Proof. vm_compute. done. Qed.

(** ** Times *)

(** A time below a second is shown with at most three digits, in the largest
    unit that leaves one; from a second on in whole seconds. *)
Lemma append_duration_unit result (d : Duration) :
  (dur_nanos d < 1000000000)%N →
  ∃ n size unit, append_duration result d = (result ++ show_N n ++ unit)%string ∧
    (n * size <= as_nanos d < (n + 1) * size)%N ∧
    (size, unit) ∈ [(1000000000%N, "s"%string); (1000000%N, "ms"%string); (1000%N, (micro ++ "s")%string); (1%N, "ns"%string)] ∧
    (size ≠ 1000000000%N → (n < 1000)%N) ∧ (size ≠ 1%N → (1 <= n)%N).
Proof.
  intros Hd. unfold append_duration, as_secs, as_millis, as_micros, as_nanos. destruct d as [s n]. cbn [dur_secs dur_nanos] in *.
  pose proof (N.div_mod n 1000000 ltac:(lia)). pose proof (N.mod_lt n 1000000 ltac:(lia)).
  pose proof (N.div_mod n 1000 ltac:(lia)). pose proof (N.mod_lt n 1000 ltac:(lia)).
  set (q6 := (n / 1000000)%N) in *. set (r6 := (n mod 1000000)%N) in *. set (q3 := (n / 1000)%N) in *. set (r3 := (n mod 1000)%N) in *.
  clearbody q6 r6 q3 r3. repeat case_match; repeat match goal with
  | Hb : (_ <=? _)%N = true |- _ => apply N.leb_le in Hb
  | Hb : (_ <=? _)%N = false |- _ => apply N.leb_gt in Hb
  end; eexists; [exists 1000000000%N|exists 1000000%N|exists 1000%N|exists 1%N]; eexists; (split; [reflexivity|]).
  - split; [|split; [by left|]]; split_and?; intros; lia.
  - split; [|split; [by right; left|]]; split_and?; intros; lia.
  - split; [|split; [by right; right; left|]]; split_and?; intros; lia.
  - split; [|split; [by right; right; right; left|]]; split_and?; intros; lia.
Qed.

Example timings_example :
  timings_log (MkTimings (MkDuration 0 950) [MkDuration 0 1500; MkDuration 2 1] (MkDuration 0 20000000) duration_zero (MkDuration 75 0)) =
  ("total=75s ctx=950ns idxr0=1" ++ micro ++ "s idxr1=2s utxo=20ms apply=0ns")%string.
Proof. vm_compute. reflexivity. Qed.

(** ** The statistics never stop *)
Section LoggerLaws.
Context {DB : Type} `{RocksOpen DB} (interval : u64 → nat → u64) (storage : u64 → StorageHandler DB).

Lemma stats_rounds_lookup ticker tick rounds i :
  i < rounds → stats_rounds storage ticker tick rounds !! i =
    Some (ticker (tick + i), print_perf_snapshot (storage (ticker (tick + i)))).
Proof.
  revert tick i. induction rounds as [|rounds IH]; intros tick [|i] Hi; [lia|lia|by rewrite Nat.add_0_r|].
  cbn [stats_rounds lookup list_lookup]. rewrite IH by lia. by rewrite Nat.add_succ_comm.
Qed.

(** Each round prints the state the database has when its tick is due. *)
Lemma stats_logger_reports rounds i :
  i < rounds → start_stats_logger interval storage rounds !! i =
    Some (interval 900 i, print_perf_snapshot (storage (interval 900%N i))).
Proof. apply (stats_rounds_lookup (interval 900%N)). Qed.
End LoggerLaws.
