(* ===== verification/Serve.v ===== *)
(** * The HTTP server: requests, answers and the reader of a request

    src/src/serve: error.rs, reader_wrapper.rs, types.rs, utils.rs (the rune
    identifiers) and mod.rs (the reader a request works with, [/tip],
    [/dump]).  A handler is a function from the store and the parameters of
    the request to its answer; axum, serde and the lock around the store are
    left out. *)
From Stdlib Require Import Strings.Ascii Strings.String.
From S2P Require Import Prelude ByteOrder EncDec Timestamp Types MergeOperation Table Rocks.
From S2P Require Import CoreTables KvStore RunesTables Text.

(** ** What the server uses of other crates *)
Class ServeLib : Type := {
  (** [bitcoin::Address::from_str], then the bytes of its script. *)
  parse_address : string → option ScriptPubKey;
  parse_txid : string → option (u8arr 32);           (* Txid::from_str *)
  show_hash : u8arr 32 → string;                     (* Display for Txid and BlockHash *)
  rune_from_str : string → option u128;              (* ordinals::Rune::from_str *)
  show_rune : u128 → string;                         (* Display for Rune *)
  show_spaced_rune : u128 → u32 → string;            (* Display for SpacedRune *)
  show_rune_id : RuneId → string;                    (* Display for RuneId *)
  (** [Utc.timestamp_opt(x, 0)], formatted; [None] out of its range. *)
  format_datetime : u64 → option string;
  Json : Type;
  (** [Data::try_from_bytes], then [serde_json::to_value]. *)
  charm_to_json : list byte → Res string Json;
  hex_encode : list byte → string;
  hex_decode : string → option (list byte);
}.

(** ** [ServeError] *)
Inductive ServeError : Type :=
| Internal (msg : string)
| ServeDecoding (e : DecodingError)
| NotFound
| MalformedRequest (msg : string)
| Symphony (e : Error)
| UnexpectedMissingData (key : list byte).

Definition malformed_request (msg : string) : ServeError := MalformedRequest msg.
Definition internal (msg : string) : ServeError := Internal msg.
(** The key, by its bytes in place of its debug text. *)
Definition missing_data {K} `{Encode K} (key : K) : ServeError := UnexpectedMissingData (encode key).

(** [into_response]: the status and the text of the error. *)
Definition into_response (e : ServeError) : N * string :=
  match e with
  | NotFound => (404%N, "unable to find requested data")
  | MalformedRequest e => (400%N, String.append "unable to parse request parameters: " e)
  | _ => (500%N, "internal server error")
  end.

Section Serve.
Context {DB : Type} `{RocksDB DB} `{ServeLib}.

(** ** [ServeReaderHelper] *)
Definition get_maybe {K V} `{Decode V} (T : Table K V) (r : Reader DB) (key : K) : Res ServeError (option V) :=
  map_err Symphony (reader_get T r key).

Definition get_expected {K V} `{Encode K, Decode V} (T : Table K V) (r : Reader DB) (key : K) : Res ServeError V :=
  value ← map_err Symphony (reader_get T r key);
  match value with
  | Some value => Ok value
  | None => Err (missing_data key)
  end.

(** ** Types of the answers *)
Record ChainTip : Type := MkChainTip { ct_block_hash : string; ct_block_height : u64 }.
Record EstimatedBlock : Type := MkEstimatedBlock { eb_block_height : u64 }.
Record ServeInfo : Type := MkServeInfo {
  chain_tip : ChainTip;
  si_mempool_timestamp : option string;
  estimated_blocks : list EstimatedBlock;
}.
Record ServeResponse {T : Type} : Type := MkResponse { data : T; indexer_info : ServeInfo }.

Record RuneAndAmount : Type := MkRuneAndAmount { ra_id : string; ra_amount : string }.
Record ServeRuneTerms : Type := MkServeRuneTerms {
  st_amount : option string;
  st_cap : option string;
  st_start_height : option u64;
  st_end_height : option u64;
}.
Record ServeRuneInfo : Type := MkServeRuneInfo {
  sri_id : string;
  sri_name : string;
  sri_spaced_name : string;
  sri_symbol : option N;                       (* a char, by its scalar value *)
  sri_divisibility : u8;
  sri_etching_tx : string;
  sri_etching_height : u64;
  sri_terms : option ServeRuneTerms;
  sri_premine : string;
}.
Record RuneBalanceWithInfo : Type := MkRuneBalanceWithInfo {
  rb_id : string;
  rb_amount : string;
  rb_info : option ServeRuneInfo;
}.
Record RuneUtxo : Type := MkRuneUtxo {
  ru_tx_hash : string;
  ru_output_index : u32;
  ru_height : u64;
  ru_satoshis : string;
  ru_runes : list RuneAndAmount;
}.
Record AddressUtxo : Type := MkAddressUtxo {
  au_tx_hash : string;
  au_output_index : u32;
  au_height : u64;
  au_satoshis : string;
}.
Record RuneEdict : Type := MkRuneEdict {
  re_rune_id : string;
  re_amount : string;
  re_output : option u32;
  re_block_height : u64;
}.
Record CharmAndValue : Type := MkCharmAndValue { cv_app : string; cv_value : Json }.
Record CharmUtxo : Type := MkCharmUtxo {
  cu_tx_hash : string;
  cu_output_index : u32;
  cu_height : u64;
  cu_satoshis : string;
  cu_charms : list CharmAndValue;
}.

(** ** [AppState::start_reader] *)

(** [Utc.timestamp_opt(x.try_into().unwrap(), 0).unwrap()], formatted. *)
Definition show_timestamp (x : u64) : Res ServeError string :=
  _ ← assert (x <? 2 ^ 63)%N "unwrap";
  expect (format_datetime x) "unwrap".

Definition show_mempool_timestamp (t : option u64) : Res ServeError (option string) :=
  match t with
  | Some x => s ← show_timestamp x; Ok (Some s)
  | None => Ok None
  end.

Definition estimated (confirmed_height mempool_height : u64) : list EstimatedBlock :=
  (λ i, MkEstimatedBlock (wrapping_add 64 (wrapping_add 64 confirmed_height (N.of_nat i)) 1)) <$>
    seq 0 (N.to_nat (saturating_sub mempool_height confirmed_height)).

Definition start_reader (mempool : bool) (storage : StorageHandler DB) : Res ServeError (Reader DB * ServeInfo) :=
  let latest_reader := reader (from_u64 u64_MAX) storage in
  confirmed_point ← get_expected TimestampsKV latest_reader Confirmed;
  let chain_tip := MkChainTip (show_hash (tip_hash confirmed_point)) (tip_height confirmed_point) in
  let confirmed_reader := reader (from_u64 (rocks_timestamp confirmed_point)) storage in
  if mempool then
    mempool_point ← get_maybe TimestampsKV latest_reader Mempool;
    match mempool_point with
    | Some mempool_point =>
        if decide (tip_hash mempool_point ≠ tip_hash confirmed_point)
        then Ok (confirmed_reader, MkServeInfo chain_tip None [])
        else
          mempool_timestamp ← show_mempool_timestamp (mempool_timestamp mempool_point);
          Ok (reader (from_u64 (rocks_timestamp mempool_point)) storage,
              MkServeInfo chain_tip mempool_timestamp
                (estimated (tip_height confirmed_point) (tip_height mempool_point)))
    | None => Ok (confirmed_reader, MkServeInfo chain_tip None [])
    end
  else Ok (confirmed_reader, MkServeInfo chain_tip None []).

(** ** [auto_refresh]

    The middleware before every request: a read-only store is brought up to
    date; when that fails the request goes on with the old data. *)
Definition auto_refresh {A} (try_refresh : StorageHandler DB → Res Error (StorageHandler DB))
    (request : StorageHandler DB → A) (storage : StorageHandler DB) : A * StorageHandler DB :=
  let storage :=
    if read_only storage
    then match try_refresh storage with Ok storage => storage | _ => storage end
    else storage in
  (request storage, storage).

(** ** [/tip] and [/dump] *)

(** [None]: an empty JSON object. *)
Definition tip (storage : StorageHandler DB) : option (u64 * string) :=
  let storage := reader (from_u64 u64_MAX) storage in
  let range := encode_range HashByHeightKV (None : option unit) (None : option unit) in
  match iter_kvs HashByHeightKV storage range true with
  | Ok x :: _ => Some (x.1, show_hash x.2)
  | _ => None
  end.

(** The whole key space, for an iterator without bounds. *)
Definition dump_range (prefix : option string) (whole : Range) : Res ServeError Range :=
  match prefix with
  | Some prefix =>
      prefix ← expect (hex_decode prefix) "unwrap";
      Ok (prefix_key_range prefix)
  | None => Ok whole
  end.

Definition dump (whole : Range) (prefix : option string) (storage : StorageHandler DB) : Res ServeError (list string) :=
  range ← dump_range prefix whole;
  for_each (db_iterator (sh_db storage) range (as_u64 (from_u64 u64_MAX)) false) [] (λ out x,
    match x with
    | Ok (key, value) =>
        Ok (out ++ [String.append (hex_encode key) (String.append " -> " (hex_encode value))])
    | _ => Panic "unwrap"
    end).

(** ** [RuneIdentifier] *)
Inductive RuneIdentifier : Type :=
| IdentId (id : RuneId)
| IdentName (name : u128).

(** The bullet between the words of a spaced name. *)
Definition spacer : string := of_bytes [0xe2; 0x80; 0xa2]%N.

Definition parse_rune_identifier (s : string) : Res ServeError RuneIdentifier :=
  if contains ":"%char s then
    match split_on ":"%char s with
    | [p0; p1] =>
        block ← expect (parse_uint 64 p0) "unwrap";
        tx ← expect (parse_uint 32 p1) "unwrap";
        Ok (IdentId (MkRuneId block tx))
    | _ => Err (malformed_request "rune id must be etching block and transaction index in form '30562:50'")
    end
  else
    let without_spacers := remove_all spacer s in
    match rune_from_str without_spacers with
    | Some n => Ok (IdentName n)
    | None => Err (malformed_request "unable to decode rune name")
    end.

(** [RuneIdentifier::parse], then the id a name stands for. *)
Definition resolve_rune (storage : Reader DB) (rune : string) : Res ServeError RuneId :=
  ident ← parse_rune_identifier rune;
  match ident with
  | IdentId id => Ok id
  | IdentName n => id ← get_maybe RuneIdByNameKV storage n; ok_or id NotFound
  end.

(** [Address::from_str], in every route of an address. *)
Definition address_script (address : string) : Res ServeError ScriptPubKey :=
  ok_or (parse_address address) (malformed_request "invalid address").

(** A reference to an output, in the form [txid:index]. *)
Definition parse_utxo_ref (utxo_str : string) : Res ServeError TxoRef :=
  match split_on ":"%char utxo_str with
  | [txid_str; vout_str] =>
      txid ← ok_or (parse_txid txid_str) (malformed_request "invalid txid in utxo reference");
      vout ← ok_or (parse_uint 32 vout_str) (malformed_request "invalid output index in utxo reference");
      Ok (MkTxoRef txid vout)
  | _ => Err (malformed_request "invalid utxo reference")
  end.

(** [char::from_u32]. *)
Definition char_from_u32 (x : u32) : option N :=
  if (x <? 0xd800)%N || ((0xe000 <=? x)%N && (x <? 0x110000)%N) then Some x else None.

(** The answer about a rune, in three routes. *)
Definition show_rune_info (rune_id : RuneId) (info : RuneInfo) : ServeRuneInfo :=
  MkServeRuneInfo (show_rune_id rune_id) (show_rune (info_name info))
    (show_spaced_rune (info_name info) (info_spacers info))
    (info_symbol info ≫= char_from_u32)
    (info_divisibility info) (show_hash (info_etching_tx info)) (info_etching_height info)
    ((λ x, MkServeRuneTerms ((λ y : u128, show_N y) <$> terms_amount x) ((λ y : u128, show_N y) <$> terms_cap x)
             (terms_start_height x) (terms_end_height x)) <$> info_terms info)
    (show_N (info_premine info)).
End Serve.
Arguments ServeResponse : clear implicits.
Arguments MkResponse {T} _ _.
