(* ===== verification/Routes.v ===== *)
(** * The routes of the HTTP server

    src/src/serve/routes: a handler takes the store, the flag that asks for
    the mempool and the parameters of the path, and gives the body of its
    answer or an error.  The steps the handlers share are written once. *)
From Stdlib Require Import Strings.String.
From S2P Require Import Prelude ByteOrder EncDec Timestamp Types MergeOperation Table Rocks.
From S2P Require Import CoreTables KvStore RunesTables Bitcoin Context AddressIndexers Charms Text Serve.

Section Routes.
Context {DB : Type} `{RocksDB DB} `{HashOrder} `{ServeLib}.
Context {Ext : Type} `{!IndexMap TransactionIndexer (list byte) Ext}.

(** [for kv in iter { let (key, _) = kv?; ... }]. *)
Definition each_key {K V S} (items : list (Res Error (K * V))) (init : S) (body : S → K → Res ServeError S) :
    Res ServeError S :=
  for_each items init (λ s kv, kv ← map_err Symphony kv; body s kv.1).

(** The entries of a script between two heights, the second one excluded. *)
Definition script_range {K V} (T : Table K V) (script_pk : list byte) (from_height to_height : u64) : Range :=
  encode_range T (Some (script_pk, from_height)) (Some (script_pk, to_height)).

Definition expected_utxo (storage : Reader DB) (txo_ref : TxoRef) : Res ServeError (Utxo Ext) :=
  get_expected UtxoByTxoRefKV storage txo_ref.

Definition indexer_data (indexer : TransactionIndexer) (missing : string) (utxo : Utxo Ext) : Res ServeError (list byte) :=
  ok_or (im_get indexer (extended utxo)) (internal missing).

Definition decode_runes (raw : list byte) : Res ServeError UtxoRunes :=
  map_err ServeDecoding (decode_all raw).

Definition utxo_rune_list (utxo : Utxo Ext) : Res ServeError UtxoRunes :=
  utxo_runes_raw ← indexer_data Runes "missing expected data" utxo;
  decode_runes utxo_runes_raw.

(** ** [addresses/utxos_by_address.rs] *)
Definition addresses_utxos_by_address (storage : StorageHandler DB) (mempool : bool) (address : string) :
    Res ServeError (ServeResponse (list AddressUtxo)) :=
  '(storage, indexer_info) ← start_reader mempool storage;
  script_pk ← address_script address;
  let range := script_range UtxosByAddressKV script_pk 0 (saturating_add 64 u64_MAX 1) in
  utxos ← each_key (iter_kvs UtxosByAddressKV storage range false) [] (λ utxos key,
    utxo ← expected_utxo storage (uba_txo_ref key);
    Ok (utxos ++ [MkAddressUtxo (show_hash (tx_hash (uba_txo_ref key))) (txo_index (uba_txo_ref key))
                    (uba_produced_height key) (show_N (satoshis utxo))]));
  Ok (MkResponse utxos indexer_info).

(** ** [addresses/tx_count_by_address.rs] *)
Definition addresses_tx_count_by_address (storage : StorageHandler DB) (mempool : bool) (address : string) :
    Res ServeError (ServeResponse u64) :=
  '(storage, indexer_info) ← start_reader mempool storage;
  script_pk ← address_script address;
  count ← get_maybe TxCountByAddressKV storage script_pk;
  Ok (MkResponse (default 0%N count) indexer_info).

(** ** Rune outputs of an address *)
Definition show_runes (utxo_runes : UtxoRunes) : list RuneAndAmount :=
  (λ x : RuneId * u128, MkRuneAndAmount (show_rune_id x.1) (show_N x.2)) <$> utxo_runes.

Definition rune_utxo (key : RuneUtxosByScriptKey) (utxo : Utxo Ext) (utxo_runes : UtxoRunes) : RuneUtxo :=
  MkRuneUtxo (show_hash (tx_hash (rus_txo_ref key))) (txo_index (rus_txo_ref key)) (rus_produced_height key)
    (show_N (satoshis utxo)) (show_runes utxo_runes).

(** [addresses/all_rune_utxos.rs] *)
Definition addresses_all_rune_utxos (storage : StorageHandler DB) (mempool : bool) (address : string) :
    Res ServeError (ServeResponse (list RuneUtxo)) :=
  '(storage, indexer_info) ← start_reader mempool storage;
  script_pk ← address_script address;
  let range := script_range RuneUtxosByScriptKV script_pk 0 (saturating_add 64 u64_MAX 1) in
  utxos ← each_key (iter_kvs RuneUtxosByScriptKV storage range false) [] (λ utxos key,
    utxo ← expected_utxo storage (rus_txo_ref key);
    utxo_runes ← utxo_rune_list utxo;
    Ok (utxos ++ [rune_utxo key utxo utxo_runes]));
  Ok (MkResponse utxos indexer_info).

(** [addresses/specific_rune_utxos.rs] *)
Definition addresses_specific_rune_utxos (storage : StorageHandler DB) (mempool : bool) (address rune : string) :
    Res ServeError (ServeResponse (list RuneUtxo)) :=
  '(storage, indexer_info) ← start_reader mempool storage;
  _ ← address_script address;
  specified_rune ← resolve_rune storage rune;
  script_pk ← address_script address;
  let range := script_range RuneUtxosByScriptKV script_pk 0 (saturating_add 64 u64_MAX 1) in
  utxos ← each_key (iter_kvs RuneUtxosByScriptKV storage range false) [] (λ utxos key,
    utxo ← expected_utxo storage (rus_txo_ref key);
    utxo_runes ← utxo_rune_list utxo;
    if decide (specified_rune ∈ utxo_runes.*1)
    then Ok (utxos ++ [rune_utxo key utxo utxo_runes])
    else Ok utxos);
  Ok (MkResponse utxos indexer_info).

(** ** Rune balances of an address *)

(** [*balances.entry(rune_id).or_default() += raw_quantity]. *)
Definition add_quantity (balances : gmap RuneId u128) (x : RuneId * u128) : gmap RuneId u128 :=
  <[x.1 := (wrapping_add 128 (default (0%N : u128) (balances !! x.1)) x.2 : u128)]> balances.

(** The order of [RuneId]: its block, then its transaction. *)
Definition rune_id_le (a b : RuneId * u128) : Prop :=
  (rune_block a.1 < rune_block b.1 ∨ rune_block a.1 = rune_block b.1 ∧ rune_tx a.1 <= rune_tx b.1)%N.
#[export] Instance rune_id_le_dec a b : Decision (rune_id_le a b).
Proof. unfold rune_id_le. apply (or_dec (P:=_ < _)%N); [apply N.lt_dec|apply and_dec; [apply N.eq_dec|apply N.le_dec]]. Defined.

(** [sorted_by_key(|(rid, _)| *rid)]. *)
Definition sorted_balances (balances : gmap RuneId u128) : list (RuneId * u128) :=
  merge_sort rune_id_le (hm_iter balances).

Definition balance_info (storage : Reader DB) (include_info : bool) (rune_id : RuneId) :
    Res ServeError (option ServeRuneInfo) :=
  if include_info then
    info ← get_expected RuneInfoByIdKV storage rune_id;
    Ok (Some (show_rune_info rune_id info))
  else Ok None.

(** [addresses/all_rune_balances.rs] *)
Definition all_balances (storage : Reader DB) (script_pk : list byte) : Res ServeError (gmap RuneId u128) :=
  let range := script_range RuneUtxosByScriptKV script_pk 0 u64_MAX in
  each_key (iter_kvs RuneUtxosByScriptKV storage range false) ∅ (λ balances key,
    utxo ← expected_utxo storage (rus_txo_ref key);
    utxo_runes ← utxo_rune_list utxo;
    Ok (foldl add_quantity balances utxo_runes)).

Definition addresses_all_rune_balances (storage : StorageHandler DB) (mempool include_info : bool) (address : string) :
    Res ServeError (ServeResponse (list RuneBalanceWithInfo)) :=
  '(storage, indexer_info) ← start_reader mempool storage;
  script_pk ← address_script address;
  balances ← all_balances storage script_pk;
  processed_balances ← for_each (sorted_balances balances) [] (λ processed_balances x,
    rune_info ← balance_info storage include_info x.1;
    Ok (processed_balances ++ [MkRuneBalanceWithInfo (show_rune_id x.1) (show_N x.2) rune_info]));
  Ok (MkResponse processed_balances indexer_info).

(** The loop with [break]: the first quantity of the rune. *)
Definition quantity_of (rune : RuneId) (utxo_runes : UtxoRunes) : option u128 :=
  snd <$> find (λ x, bool_decide (x.1 = rune)) utxo_runes.

(** [addresses/specific_rune_balance.rs] *)
Definition specific_balance (storage : Reader DB) (script_pk : list byte) (specified_rune : RuneId) :
    Res ServeError u128 :=
  let range := script_range RuneUtxosByScriptKV script_pk 0 u64_MAX in
  each_key (iter_kvs RuneUtxosByScriptKV storage range false) (0%N : u128) (λ balance key,
    utxo ← expected_utxo storage (rus_txo_ref key);
    utxo_runes ← utxo_rune_list utxo;
    Ok (match quantity_of specified_rune utxo_runes with
        | Some quantity => wrapping_add 128 balance quantity
        | None => balance
        end)).

Definition addresses_specific_rune_balance (storage : StorageHandler DB) (mempool : bool) (address rune : string) :
    Res ServeError (ServeResponse string) :=
  '(storage, indexer_info) ← start_reader mempool storage;
  _ ← address_script address;
  specified_rune ← resolve_rune storage rune;
  script_pk ← address_script address;
  balance ← specific_balance storage script_pk specified_rune;
  Ok (MkResponse (show_N balance) indexer_info).

(** ** [addresses/runes_by_tx.rs] *)
Definition addresses_runes_by_tx (storage : StorageHandler DB) (mempool : bool) (address_str txid_str : string) :
    Res ServeError (ServeResponse (list RuneEdict)) :=
  script_pk ← address_script address_str;
  tx_hash ← ok_or (parse_txid txid_str) (malformed_request "invalid txid");
  '(storage, indexer_info) ← start_reader mempool storage;
  let start_key := MkRuneActivityByTxKey tx_hash 0 in
  let end_key := MkRuneActivityByTxKey tx_hash u16_MAX in
  let range := encode_range RuneActivityByTxKV (Some start_key) (Some end_key) in
  out ← for_each (iter_kvs RuneActivityByTxKV storage range false) [] (λ out kv,
    kv ← map_err Symphony kv;
    let change := kv.2 in
    if decide (rbc_script change ≠ script_pk) then Ok out
    else
      Ok (out ++ [MkRuneEdict (show_rune_id (rbc_rune_id change)) (show_N (rbc_received change))
                    (rbc_output_index change) (rune_block (rbc_rune_id change))]));
  Ok (MkResponse out indexer_info).

(** ** [runes/rune_info.rs] *)
Definition rune_info (storage : StorageHandler DB) (mempool : bool) (rune : string) :
    Res ServeError (ServeResponse ServeRuneInfo) :=
  '(storage, indexer_info) ← start_reader mempool storage;
  specified_rune ← resolve_rune storage rune;
  rune_info ← get_maybe RuneInfoByIdKV storage specified_rune;
  rune_info ← ok_or rune_info NotFound;
  Ok (MkResponse (show_rune_info specified_rune rune_info) indexer_info).

(** ** [runes/rune_info_batch.rs] *)

(** The id an entry of the batch names: [None] when there is none. *)
Definition batch_rune_id (storage : Reader DB) (rune_str : string) : Res ServeError (option RuneId) :=
  match parse_rune_identifier rune_str with
  | Ok (IdentId id) => Ok (Some id)
  | Ok (IdentName name_num) => get_maybe RuneIdByNameKV storage name_num
  | Err _ => Ok None
  | Panic why => Panic why
  end.

Definition batch_entry (storage : Reader DB) (infos : gmap string (option ServeRuneInfo)) (rune_str : string) :
    Res ServeError (gmap string (option ServeRuneInfo)) :=
  rune_id ← batch_rune_id storage rune_str;
  match rune_id with
  | None => Ok (<[rune_str := None]> infos)
  | Some rune_id =>
      let key_string := show_rune_id rune_id in
      if decide (is_Some (infos !! key_string)) then Ok infos
      else
        rune_info ← get_maybe RuneInfoByIdKV storage rune_id;
        match rune_info with
        | None => Ok (<[rune_str := None]> infos)
        | Some rune_info => Ok (<[key_string := Some (show_rune_info rune_id rune_info)]> infos)
        end
  end.

Definition clean_ids (rune_ids : list string) : gset string :=
  list_to_set (filter (λ s, s ≠ EmptyString) (trim <$> rune_ids)).

Definition runes_rune_info_batch (storage : StorageHandler DB) (mempool : bool) (rune_ids : list string) :
    Res ServeError (ServeResponse (gmap string (option ServeRuneInfo))) :=
  '(storage, indexer_info) ← start_reader mempool storage;
  infos ← for_each (hs_iter (clean_ids rune_ids)) ∅ (batch_entry storage);
  Ok (MkResponse infos indexer_info).

(** ** [runes/rune_balance_at_utxo.rs] *)
Definition rune_balance_at_utxo (storage : StorageHandler DB) (mempool : bool) (rune utxo_str : string) :
    Res ServeError (ServeResponse string) :=
  txo_ref ← parse_utxo_ref utxo_str;
  '(storage, indexer_info) ← start_reader mempool storage;
  specified_rune ← resolve_rune storage rune;
  utxo ← (get_maybe UtxoByTxoRefKV storage txo_ref : Res ServeError (option (Utxo Ext)));
  utxo ← ok_or utxo NotFound;
  balance ←
    match im_get Runes (extended utxo) with
    | Some raw => utxo_runes ← decode_runes raw; Ok (default 0%N (quantity_of specified_rune utxo_runes))
    | None => Ok 0%N
    end;
  Ok (MkResponse (show_N balance) indexer_info).

(** ** Charms *)

(** [charms/charms_util.rs] *)
Definition charm_and_value (x : list byte * list byte) : Res ServeError CharmAndValue :=
  app ← ok_or (from_utf8 x.1) (internal "invalid charm app encoding");
  value ← map_err internal (charm_to_json x.2);
  Ok (MkCharmAndValue app value).

Definition decode_utxo_charms (raw : list byte) : Res ServeError (list CharmAndValue) :=
  utxo_charms ← map_err ServeDecoding (decode_all raw : Res DecodingError UtxoCharms);
  for_each utxo_charms [] (λ out x, c ← charm_and_value x; Ok (out ++ [c])).

Definition charm_utxo (tr : TxoRef) (height : u64) (utxo : Utxo Ext) (charms : list CharmAndValue) : CharmUtxo :=
  MkCharmUtxo (show_hash (tx_hash tr)) (txo_index tr) height (show_N (satoshis utxo)) charms.

Definition charm_list (storage : Reader DB) (missing : string) (txo_ref : TxoRef) :
    Res ServeError (Utxo Ext * list CharmAndValue) :=
  utxo ← expected_utxo storage txo_ref;
  raw ← indexer_data Charms missing utxo;
  charms ← decode_utxo_charms raw;
  Ok (utxo, charms).

(** [addresses/all_charm_utxos.rs] *)
Definition addresses_all_charm_utxos (storage : StorageHandler DB) (mempool : bool) (address : string) :
    Res ServeError (ServeResponse (list CharmUtxo)) :=
  '(storage, indexer_info) ← start_reader mempool storage;
  script_pk ← address_script address;
  let range := script_range CharmsUtxosByScriptKV script_pk 0 u64_MAX in
  utxos ← each_key (iter_kvs CharmsUtxosByScriptKV storage range false) [] (λ utxos key,
    '(utxo, charms) ← charm_list storage "missing expected charms data" (cus_txo_ref key);
    Ok (utxos ++ [charm_utxo (cus_txo_ref key) (cus_produced_height key) utxo charms]));
  Ok (MkResponse utxos indexer_info).

(** [addresses/specific_charm_utxos.rs] *)
Definition addresses_specific_charm_utxos (storage : StorageHandler DB) (mempool : bool) (address charm : string) :
    Res ServeError (ServeResponse (list CharmUtxo)) :=
  let canonical_app := parse_charm_path charm in
  '(storage, indexer_info) ← start_reader mempool storage;
  script_pk ← address_script address;
  let range := script_range CharmsUtxosByScriptKV script_pk 0 u64_MAX in
  utxos ← each_key (iter_kvs CharmsUtxosByScriptKV storage range false) [] (λ utxos key,
    '(utxo, charms) ← charm_list storage "missing expected charms data" (cus_txo_ref key);
    if existsb (λ c, bool_decide (cv_app c = canonical_app)) charms
    then Ok (utxos ++ [charm_utxo (cus_txo_ref key) (cus_produced_height key) utxo charms])
    else Ok utxos);
  Ok (MkResponse utxos indexer_info).

(** [charms/charm_value_at_utxo.rs] *)
Definition charm_value_at_utxo (storage : StorageHandler DB) (mempool : bool) (charm utxo_str : string) :
    Res ServeError (ServeResponse CharmAndValue) :=
  let canonical_app := parse_charm_path charm in
  txo_ref ← parse_utxo_ref utxo_str;
  '(storage, indexer_info) ← start_reader mempool storage;
  utxo ← (get_maybe UtxoByTxoRefKV storage txo_ref : Res ServeError (option (Utxo Ext)));
  utxo ← ok_or utxo NotFound;
  raw ← ok_or (im_get Charms (extended utxo)) NotFound;
  charms ← decode_utxo_charms raw;
  charm_value ← ok_or (find (λ c, bool_decide (cv_app c = canonical_app)) charms) NotFound;
  Ok (MkResponse charm_value indexer_info).

(** [charms/charm_latest.rs]; the text of a failing entry is left out. *)
Definition charm_latest (storage : StorageHandler DB) (mempool : bool) (charm : string) :
    Res ServeError (ServeResponse CharmUtxo) :=
  let canonical_app := parse_charm_path charm in
  let app_bytes := String.list_byte_of_string canonical_app in
  '(storage, indexer_info) ← start_reader mempool storage;
  let range := script_range CharmsUtxosByAppKV app_bytes 0 u64_MAX in
  entry ← ok_or (head (iter_kvs CharmsUtxosByAppKV storage range true)) NotFound;
  kv ← map_err (λ _, internal "entry") entry;
  let key := kv.1 in
  '(utxo, charms) ← charm_list storage "missing charms data" (cua_txo_ref key);
  Ok (MkResponse (charm_utxo (cua_txo_ref key) (cua_produced_height key) utxo charms) indexer_info).
End Routes.
