(* ===== verification/Server.v ===== *)
(** * The HTTP server: routes, dispatch and the API description

    src/src/serve/mod.rs ([run], the router and the layer before every
    request), the [router] functions under src/src/serve/routes, and what the
    [utoipa::path] attributes of the handlers and [APIDoc] (openapi.rs)
    promise of them.  A path is kept as the code writes it; [segments] reads
    its placeholders. *)
From Stdlib Require Import Strings.Ascii Strings.String.
From S2P Require Import Prelude ByteOrder EncDec Timestamp Types MergeOperation Table Rocks.
From S2P Require Import CoreTables KvStore RunesTables Bitcoin Context AddressIndexers Charms Text Open Serve Routes.

(** ** Handlers and routes *)
Inductive Method : Type := GET | POST.
#[export] Instance Method_dec : EqDecision Method.
Proof. solve_decision. Defined.

Inductive Handler : Type :=
| Root | Dump | TipHandler
| UtxosByAddress | TxCountByAddress | AllRuneUtxos | SpecificRuneUtxos | AllRuneBalances
| SpecificRuneBalance | RunesByTx | AllCharmUtxos | SpecificCharmUtxos
| RuneInfoBatch | RuneInfoHandler | RuneBalanceAtUtxo
| CharmLatest | CharmValueAtUtxo.
#[export] Instance Handler_dec : EqDecision Handler.
Proof. solve_decision. Defined.

(** [route(path, get(handler))]. *)
Record Route : Type := MkRoute { route_path : string; route_method : Method; route_handler : Handler }.
Definition get (path : string) (handler : Handler) : Route := MkRoute path GET handler.
Definition post (path : string) (handler : Handler) : Route := MkRoute path POST handler.

(** [nest(prefix, router)]. *)
Definition nest (prefix : string) (router : list Route) : list Route :=
  (λ r, MkRoute (String.append prefix (route_path r)) (route_method r) (route_handler r)) <$> router.

Definition addresses_router : list Route :=
  [get "/{address}/utxos" UtxosByAddress;
   get "/{address}/tx_count" TxCountByAddress;
   get "/{address}/runes/utxos" AllRuneUtxos;
   get "/{address}/runes/utxos/{rune}" SpecificRuneUtxos;
   get "/{address}/runes/balances" AllRuneBalances;
   get "/{address}/runes/balances/{rune}" SpecificRuneBalance;
   get "/{address}/runes/txs/{txid}" RunesByTx;
   get "/{address}/charms/utxos" AllCharmUtxos;
   get "/{address}/charms/utxos/{charm}" SpecificCharmUtxos].

Definition runes_router : list Route :=
  [post "/info" RuneInfoBatch;
   get "/{rune}" RuneInfoHandler;
   get "/{rune}/utxos/{utxo}/balance" RuneBalanceAtUtxo].

Definition charms_router : list Route :=
  [get "/{charm}/latest" CharmLatest;
   get "/{charm}/utxos/{utxo}/value" CharmValueAtUtxo].

(** The router of [run]. *)
Definition app_router : list Route :=
  [get "/" Root; get "/dump" Dump; get "/tip" TipHandler] ++
  nest "/addresses" addresses_router ++ nest "/runes" runes_router ++ nest "/charms" charms_router.

(** ** Patterns of paths *)
Inductive Segment : Type := Lit (s : string) | Param (name : string).

Definition segment (s : string) : Segment :=
  match s with
  | String "{"%char rest => Param (String.substring 0 (slen rest - 1) rest)
  | _ => Lit s
  end.

(** A path starts with a slash. *)
Definition segments (path : string) : list Segment := segment <$> tail (split_on "/"%char path).

(** A placeholder matches one segment that is not empty. *)
Fixpoint matches (pattern : list Segment) (path : list string) : option (list string) :=
  match pattern, path with
  | [], [] => Some []
  | Lit s :: pattern, x :: path => if String.eqb s x then matches pattern path else None
  | Param _ :: pattern, x :: path => if String.eqb x "" then None else cons x <$> matches pattern path
  | _, _ => None
  end.

Definition placeholders (pattern : list Segment) : list string :=
  filter_map (λ s, match s with Param name => Some name | Lit _ => None end) pattern.

(** [p] is the more specific pattern: where they differ first it has fixed
    text and [q] a placeholder. *)
Fixpoint prior (p q : list Segment) : bool :=
  match p, q with
  | Lit s :: p, Lit t :: q => String.eqb s t && prior p q
  | Param _ :: p, Param _ :: q => prior p q
  | Lit _ :: _, Param _ :: _ => true
  | _, _ => false
  end.

(** ** What axum does with a router

    A request is given to the route of its path and method; when several paths
    match, fixed text goes before a placeholder. *)
Class Axum : Type := {
  axum_route : list Route → Method → list string → option (Handler * list string);
}.

Class AxumOk `{Axum} : Prop := {
  axum_route_best routes r path args :
    NoDup ((λ r, (route_path r, route_method r)) <$> routes) → r ∈ routes →
    matches (segments (route_path r)) path = Some args →
    (∀ r', r' ∈ routes → matches (segments (route_path r')) path ≠ None →
      route_path r' = route_path r ∨ prior (segments (route_path r)) (segments (route_path r')) = true) →
    axum_route routes (route_method r) path = Some (route_handler r, args);
}.

(** ** Answers *)
Section Dispatch.
Context {DB : Type} `{RocksDB DB} `{HashOrder} `{ServeLib}.
Context {Ext : Type} `{!IndexMap TransactionIndexer (list byte) Ext}.

(** [MempoolParam], [RuneBalancesParam] and [DumpParam]: what is missing in
    the query is [false] or nothing.  The body is the one of the batch. *)
Record HttpRequest : Type := MkHttpRequest {
  req_mempool : bool;
  req_include_info : bool;
  req_prefix : option string;
  req_rune_ids : list string;
}.

Inductive Body : Type :=
| RootText (text : string)
| DumpText (lines : list string)
| TipJson (tip : option (u64 * string))
| UtxosBody (out : ServeResponse (list AddressUtxo))
| CountBody (out : ServeResponse u64)
| RuneUtxosBody (out : ServeResponse (list RuneUtxo))
| BalancesBody (out : ServeResponse (list RuneBalanceWithInfo))
| AmountBody (out : ServeResponse string)
| EdictsBody (out : ServeResponse (list RuneEdict))
| InfosBody (out : ServeResponse (gmap string (option ServeRuneInfo)))
| InfoBody (out : ServeResponse ServeRuneInfo)
| CharmUtxosBody (out : ServeResponse (list CharmUtxo))
| CharmUtxoBody (out : ServeResponse CharmUtxo)
| CharmValueBody (out : ServeResponse CharmAndValue).

(** The key space without bounds, for [/dump]. *)
Variable whole : Range.

(** A handler with the placeholders of its path, in their order; [None] when
    their number is not the one it takes. *)
Definition handle (h : Handler) (args : list string) (req : HttpRequest) (storage : StorageHandler DB) :
    option (Res ServeError Body) :=
  let mempool := req_mempool req in
  match h, args with
  | Root, [] => Some (Ok (RootText "Symphony API Server"))
  | Dump, [] => Some (rmap DumpText (dump whole (req_prefix req) storage))
  | TipHandler, [] => Some (Ok (TipJson (tip storage)))
  | UtxosByAddress, [address] =>
      Some (rmap UtxosBody (addresses_utxos_by_address (Ext:=Ext) storage mempool address))
  | TxCountByAddress, [address] => Some (rmap CountBody (addresses_tx_count_by_address storage mempool address))
  | AllRuneUtxos, [address] =>
      Some (rmap RuneUtxosBody (addresses_all_rune_utxos (Ext:=Ext) storage mempool address))
  | SpecificRuneUtxos, [address; rune] =>
      Some (rmap RuneUtxosBody (addresses_specific_rune_utxos (Ext:=Ext) storage mempool address rune))
  | AllRuneBalances, [address] =>
      Some (rmap BalancesBody (addresses_all_rune_balances (Ext:=Ext) storage mempool (req_include_info req) address))
  | SpecificRuneBalance, [address; rune] =>
      Some (rmap AmountBody (addresses_specific_rune_balance (Ext:=Ext) storage mempool address rune))
  | RunesByTx, [address; txid] => Some (rmap EdictsBody (addresses_runes_by_tx storage mempool address txid))
  | AllCharmUtxos, [address] =>
      Some (rmap CharmUtxosBody (addresses_all_charm_utxos (Ext:=Ext) storage mempool address))
  | SpecificCharmUtxos, [address; charm] =>
      Some (rmap CharmUtxosBody (addresses_specific_charm_utxos (Ext:=Ext) storage mempool address charm))
  | RuneInfoBatch, [] => Some (rmap InfosBody (runes_rune_info_batch storage mempool (req_rune_ids req)))
  | RuneInfoHandler, [rune] => Some (rmap InfoBody (rune_info storage mempool rune))
  | RuneBalanceAtUtxo, [rune; utxo] =>
      Some (rmap AmountBody (rune_balance_at_utxo (Ext:=Ext) storage mempool rune utxo))
  | CharmLatest, [charm] => Some (rmap CharmUtxoBody (charm_latest (Ext:=Ext) storage mempool charm))
  | CharmValueAtUtxo, [charm; utxo] =>
      Some (rmap CharmValueBody (charm_value_at_utxo (Ext:=Ext) storage mempool charm utxo))
  | _, _ => None
  end.

(** What goes back to the client: a status with a body or an error text, or
    nothing when the handler panics. *)
Inductive Reply : Type :=
| Answer (status : N) (body : Body)
| Failure (status : N) (text : string)
| Dropped.

Definition reply_of (r : Res ServeError Body) : Reply :=
  match r with
  | Ok body => Answer 200 body
  | Err e => let '(status, text) := into_response e in Failure status text
  | Panic _ => Dropped
  end.

Definition status_of (r : Reply) : option N :=
  match r with Answer status _ | Failure status _ => Some status | Dropped => None end.
End Dispatch.

Section Serving.
Context {DB : Type} `{RocksDB DB} `{!RocksOpen DB} `{HashOrder} `{ServeLib} `{Axum}.
Context {Ext : Type} `{!IndexMap TransactionIndexer (list byte) Ext}.
Variable whole : Range.

(** The routed request; [None] when axum itself answers that there is no such
    path or method. *)
Definition respond (m : Method) (path : list string) (req : HttpRequest) (storage : StorageHandler DB) : option Reply :=
  match axum_route app_router m path with
  | Some (h, args) => reply_of <$> handle (Ext:=Ext) whole h args req storage
  | None => None
  end.

(** The whole service: a secondary instance catches up first. *)
Definition serve_request (m : Method) (path : list string) (req : HttpRequest) (storage : StorageHandler DB) :
    option Reply * StorageHandler DB :=
  auto_refresh try_refresh_read_only_data (respond m path req) storage.

(** [run]: listening on the address until the server ends. *)
Definition run {A} (parse_address : string → Res string A) (bind_and_serve : A → Res string unit)
    (address : string) : Res Error unit :=
  addr ← map_err Config (parse_address address);
  map_err Config (bind_and_serve addr).
End Serving.

(** An implementation of the interface. *)
Definition best_route (routes : list Route) (m : Method) (path : list string) : option (Handler * list string) :=
  let candidates := filter (λ r, matches (segments (route_path r)) path ≠ None) routes in
  let best r := forallb (λ r', String.eqb (route_path r') (route_path r) ||
                               prior (segments (route_path r)) (segments (route_path r'))) candidates in
  match find (λ r, bool_decide (route_method r = m) && best r) candidates with
  | Some r => pair (route_handler r) <$> matches (segments (route_path r)) path
  | None => None
  end.
#[export] Instance simple_axum : Axum := {| axum_route := best_route |}.
