(* ===== verification/ServeLaws.v ===== *)
(** * What the server answers with

    The snapshot a request works on and the identifiers of runes it accepts. *)
From Stdlib Require Import Strings.Ascii Strings.String.
From S2P Require Import Prelude ByteOrder EncDec Timestamp Types MergeOperation Table Rocks.
From S2P Require Import CoreTables KvStore KvStoreLaws Commit RunesTables Bitcoin Context.
From S2P Require Import AddressIndexers Charms Text Serve Routes.

(** ** The reader of a request *)
Section StartReader.
Context {DB : Type} `{RocksDBOk DB} `{HashOrderOk} `{ServeLib}.

Abbreviation newest sh := (db_latest (sh_db sh)).
Abbreviation entry kind := (encode_key TimestampsKV kind).

Lemma get_maybe_entry (sh : StorageHandler DB) kind :
  storage_ok sh →
  match newest sh !! entry kind with
  | Some bytes => ∃ e : TimestampEntry, valid e ∧ bytes = encode e
  | None => True
  end →
  get_maybe TimestampsKV (reader (from_u64 u64_MAX) sh) kind =
  Ok (newest sh !! entry kind ≫= λ bytes, ok (decode_all bytes : Res DecodingError TimestampEntry)).
Proof.
  intros Hok He. unfold get_maybe. fold latest_ts.
  pose proof (storage_last_latest _ Hok) as Hlast.
  rewrite reader_get_eq by by apply storage_low_latest.
  cbn [reader reader_db reader_timestamp]. rewrite db_snapshot_latest by exact Hlast. fold (newest sh).
  destruct (newest sh !! entry kind) as [bytes|]; [|done]. destruct He as (e & Hv & ->).
  unfold decode_value. cbn [mbind option_bind]. by rewrite decode_or_encode, decode_all_encode.
Qed.

Lemma get_maybe_found (sh : StorageHandler DB) kind e :
  storage_ok sh → valid e → newest sh !! entry kind = Some (encode e) →
  get_maybe TimestampsKV (reader (from_u64 u64_MAX) sh) kind = Ok (Some e).
Proof.
  intros Hok Hv He. rewrite get_maybe_entry; [|done|rewrite He; eauto]. rewrite He. cbn [mbind option_bind].
  by rewrite decode_all_encode.
Qed.

Lemma get_expected_maybe {K V} `{Encode K, Decode V} (T : Table K V) (r : Reader DB) key v :
  get_maybe T r key = Ok (Some v) → get_expected T r key = Ok v.
Proof. unfold get_maybe, get_expected. intros ->. done. Qed.

Lemma valid_commit_entry fin p mempool_ts ts :
  point_ok p → valid mempool_ts → valid (commit_entry fin p mempool_ts ts).2.
Proof. intros [Hh Hl] Hm. split_and!; [exact Hh|exact Hl|apply as_u64_fits|exact Hm]. Qed.

Definition tip_info (height : u64) (hash : u8arr 32) : ServeInfo :=
  MkServeInfo (MkChainTip (show_hash hash) height) None [].

(** A mempool snapshot the store knows, if it does, is of another tip. *)
Definition no_mempool_at (hash : u8arr 32) (s : Snapshot) : Prop :=
  match s !! entry Mempool with
  | Some bytes => ∃ m : TimestampEntry, valid m ∧ bytes = encode m ∧ tip_hash m ≠ hash
  | None => True
  end.

(** After the commit of a block the confirmed tip is the block, and its data
    are the latest. *)
Lemma commit_confirmed (unix_ts : u64) (fin : FinalizedTask) (p : Point) (max_rollback : u64) (sh sh' : StorageHandler DB) :
  commit_result unix_ts fin p max_rollback None sh sh' → point_ok p → fin_mempool fin = false →
  let c := (commit_entry fin p None (commit_ts unix_ts sh)).2 in
  let r := reader (from_u64 (as_u64 (commit_ts unix_ts sh))) sh' in
  get_expected TimestampsKV (reader (from_u64 u64_MAX) sh') Confirmed = Ok c ∧
  start_reader false sh' = Ok (r, tip_info (point_height p) (point_hash p)) ∧
  newest sh' !! entry Mempool = newest sh !! entry Mempool ∧
  reader_db r = sh_db sh' ∧ (db_low (reader_db r) <= as_u64 (reader_timestamp r))%N ∧
  db_snapshot (reader_db r) (as_u64 (reader_timestamp r)) = newest sh'.
Proof.
  intros Hres Hp Hm c r. pose proof (cr_ok _ _ _ _ _ _ _ Hres) as Hok'.
  destruct (cr_batch _ _ _ _ _ _ _ Hres) as [_ _ Hentry Hother].
  assert (Hfst : (commit_entry fin p None (commit_ts unix_ts sh)).1 = Confirmed) by (unfold commit_entry; by rewrite Hm).
  rewrite Hfst in Hentry, Hother. fold c in Hentry. specialize (Hother Mempool ltac:(done)).
  assert (Hv : valid c) by by apply valid_commit_entry.
  pose proof (get_expected_maybe _ _ _ _ (get_maybe_found sh' Confirmed c Hok' Hv Hentry)) as Hget.
  destruct (storage_low_last _ _ Hok' (cr_ts _ _ _ _ _ _ _ Hres)) as [Hlow' Hts'].
  unfold r. cbn [reader reader_db reader_timestamp]. rewrite as_u64_from_u64 by apply as_u64_fits. rewrite Hts'.
  split_and!; [done| |done|done|done|done]. unfold start_reader. rewrite Hget, <-Hts'. done.
Qed.

Lemma commit_served (unix_ts : u64) (fin : FinalizedTask) (p : Point) (max_rollback : u64) (sh sh' : StorageHandler DB) :
  commit_result unix_ts fin p max_rollback None sh sh' → point_ok p → fin_mempool fin = false →
  no_mempool_at (point_hash p) (newest sh) →
  ∃ r, (∀ mempool, start_reader mempool sh' = Ok (r, tip_info (point_height p) (point_hash p))) ∧
    reader_db r = sh_db sh' ∧ (db_low (reader_db r) <= as_u64 (reader_timestamp r))%N ∧
    db_snapshot (reader_db r) (as_u64 (reader_timestamp r)) = newest sh'.
Proof.
  intros Hres Hp Hm Hmem. destruct (commit_confirmed _ _ _ _ _ _ Hres Hp Hm) as (Hget & Hstart & Hother & Hr).
  eexists. split; [|exact Hr]. intros [|]; [|exact Hstart]. pose proof (cr_ok _ _ _ _ _ _ _ Hres) as Hok'.
  unfold start_reader in *. rewrite Hget in *. cbn [rbind] in *.
  unfold no_mempool_at in Hmem. rewrite <-Hother in Hmem. destruct (newest sh' !! entry Mempool) as [bytes|] eqn:Hb.
  - destruct Hmem as (m & Hvm & -> & Hne). rewrite (get_maybe_found sh' Mempool m Hok' Hvm Hb). cbn [rbind].
    rewrite decide_True; [exact Hstart|]. unfold commit_entry. by rewrite Hm.
  - rewrite get_maybe_entry; [|done|by rewrite Hb]. by rewrite Hb.
Qed.

(** The heights of the pseudo blocks above a tip. *)
Lemma estimated_heights (tip_height height : u64) :
  fits 64 tip_height → fits 64 height →
  estimated tip_height height =
  (λ i, MkEstimatedBlock (tip_height + 1 + N.of_nat i)%N) <$> seq 0 (N.to_nat (height - tip_height)).
Proof.
  intros Ht Hh. unfold estimated, saturating_sub. apply list_fmap_ext. intros i x Hx.
  apply lookup_seq in Hx as [-> Hlt]. f_equal. unfold fits in *. rewrite (wrapping_add_exact 64 tip_height) by (unfold fits; lia).
  rewrite wrapping_add_exact by (unfold fits; lia). lia.
Qed.

(** C22: After the commit of a block a request that does not ask for the
    mempool works on exactly the data of that commit and reports the block as
    the tip.  So does one that asks for it, unless the store still names a
    mempool snapshot on a tip of the same hash (the block was indexed, a
    snapshot on top of it, both were undone and the block came back): then the
    request is given the timestamp of that snapshot, which is before the block. *)
Theorem block_commit_is_served (unix_ts : u64) (fin : FinalizedTask) (p : Point) (max_rollback : u64)
    (m : option TimestampEntry) (sh sh' : StorageHandler DB) :
  storage_ok sh → commit_fresh unix_ts sh → committable fin (newest sh) → point_ok p → fin_mempool fin = false →
  newest sh !! entry Mempool = encode <$> m → (∀ e, m = Some e → valid e) →
  apply_indexing_task unix_ts fin p max_rollback None sh = Ok sh' →
  ∃ r, reader_db r = sh_db sh' ∧ (db_low (reader_db r) <= as_u64 (reader_timestamp r))%N ∧
    db_snapshot (reader_db r) (as_u64 (reader_timestamp r)) = newest sh' ∧
    start_reader false sh' = Ok (r, tip_info (point_height p) (point_hash p)) ∧
    ((∀ e, m = Some e → tip_hash e ≠ point_hash p) →
     start_reader true sh' = Ok (r, tip_info (point_height p) (point_hash p))) ∧
    (∀ e shown, m = Some e → tip_hash e = point_hash p → show_mempool_timestamp (mempool_timestamp e) = Ok shown →
     start_reader true sh' =
       Ok (reader (from_u64 (rocks_timestamp e)) sh',
           MkServeInfo (MkChainTip (show_hash (point_hash p)) (point_height p)) shown
             ((λ i, MkEstimatedBlock (point_height p + 1 + N.of_nat i)%N) <$>
                seq 0 (N.to_nat (tip_height e - point_height p)))) ∧
     ((rocks_timestamp e <= db_last (sh_db sh))%N → (rocks_timestamp e < as_u64 (reader_timestamp r))%N)).
Proof.
  intros Hok Hfresh Hcom Hp Hm Hmem Hvm Happly.
  destruct (apply_indexing_task_spec unix_ts fin p max_rollback None sh Hok Hfresh Hcom Hp) as (sh1 & Heq & Hres).
  rewrite Happly in Heq. injection Heq as <-.
  destruct (commit_confirmed _ _ _ _ _ _ Hres Hp Hm) as (Hget & Hstart & Hother & Hr & Hlow & Hsnap).
  pose proof (cr_ok _ _ _ _ _ _ _ Hres) as Hok'.
  eexists. split; [exact Hr|]. split; [exact Hlow|]. split; [exact Hsnap|]. split; [exact Hstart|].
  split.
  - intros Hne. destruct (commit_served _ _ _ _ _ _ Hres Hp Hm) as (r' & Hall & _).
    { unfold no_mempool_at. rewrite Hmem. destruct m as [e|]; [|done]. cbn. exists e. split; [by apply Hvm|split; [done|by apply Hne]]. }
    pose proof (Hall false) as Hfalse. rewrite Hstart in Hfalse. rewrite Hfalse. apply (Hall true).
  - intros e shown -> Hhash Hshown. rewrite Hmem in Hother. cbn [fmap option_fmap option_map] in Hother.
    pose proof (get_maybe_found sh' Mempool e Hok' (Hvm e eq_refl) Hother) as Hgetm. split.
    + unfold start_reader. rewrite Hget. cbn [rbind]. rewrite Hgetm. cbn [rbind].
      unfold commit_entry. rewrite Hm. cbn [snd tip_hash tip_height]. rewrite decide_False by (by intros []).
      rewrite Hshown. cbn [rbind]. rewrite estimated_heights; [done|apply Hp|apply (Hvm e eq_refl)].
    + intros Hle. cbn [reader reader_timestamp]. rewrite as_u64_from_u64 by apply as_u64_fits. destruct Hfresh. lia.
Qed.

(** C21: After the commit of a mempool snapshot a request that asks for the
    mempool works on exactly the data of that commit, and reports the
    confirmed tip and the heights of the pseudo blocks above it, when the
    snapshot is of the confirmed tip; when it is of another one (the record of
    the confirmed tip still names a block that was rolled back) the request is
    answered from the confirmed data.  One that does not ask for the mempool
    works on exactly the data of the confirmed tip, as it was before. *)
Theorem mempool_commit_is_served (unix_ts : u64) (fin : FinalizedTask) (p : Point) (max_rollback : u64)
    (mempool_ts : u64) (shown : string) (c : TimestampEntry) (sh sh' : StorageHandler DB) :
  storage_ok sh → commit_fresh unix_ts sh → committable fin (newest sh) → point_ok p → fin_mempool fin = true →
  newest sh !! entry Confirmed = Some (encode c) → valid c →
  (db_low (sh_db sh) <= rocks_timestamp c <= db_last (sh_db sh))%N →
  fits 64 mempool_ts → show_timestamp mempool_ts = Ok shown →
  apply_indexing_task unix_ts fin p max_rollback (Some mempool_ts) sh = Ok sh' →
  ∃ r rc, start_reader true sh' =
      Ok (if decide (tip_hash c = point_hash p)
          then (r, MkServeInfo (MkChainTip (show_hash (tip_hash c)) (tip_height c)) (Some shown)
                     ((λ i, MkEstimatedBlock (tip_height c + 1 + N.of_nat i)%N) <$>
                        seq 0 (N.to_nat (point_height p - tip_height c))))
          else (rc, tip_info (tip_height c) (tip_hash c))) ∧
    (db_low (reader_db r) <= as_u64 (reader_timestamp r))%N ∧
    db_snapshot (reader_db r) (as_u64 (reader_timestamp r)) = newest sh' ∧
    start_reader false sh' = Ok (rc, tip_info (tip_height c) (tip_hash c)) ∧
    (db_low (reader_db rc) <= as_u64 (reader_timestamp rc))%N ∧
    db_snapshot (reader_db rc) (as_u64 (reader_timestamp rc)) = db_snapshot (sh_db sh) (rocks_timestamp c).
Proof.
  intros Hok Hfresh Hcom Hp Hm Hc Hvc Hts Hmt Hshown Happly.
  destruct (apply_indexing_task_spec unix_ts fin p max_rollback (Some mempool_ts) sh Hok Hfresh Hcom Hp) as (sh1 & Heq & Hres).
  rewrite Happly in Heq. injection Heq as <-. pose proof (cr_ok _ _ _ _ _ _ _ Hres) as Hok'.
  destruct (cr_batch _ _ _ _ _ _ _ Hres) as [_ _ Hentry Hother].
  assert (Hfst : (commit_entry fin p (Some mempool_ts) (commit_ts unix_ts sh)).1 = Mempool) by (unfold commit_entry; by rewrite Hm).
  rewrite Hfst in Hentry, Hother. set (me := (commit_entry fin p (Some mempool_ts) (commit_ts unix_ts sh)).2) in *.
  assert (Hv : valid me) by by apply valid_commit_entry.
  specialize (Hother Confirmed ltac:(done)). rewrite Hc in Hother.
  pose proof (get_expected_maybe _ _ _ _ (get_maybe_found sh' Confirmed c Hok' Hvc Hother)) as Hgetc.
  pose proof (get_maybe_found sh' Mempool me Hok' Hv Hentry) as Hgetm.
  exists (reader (from_u64 (as_u64 (commit_ts unix_ts sh))) sh'), (reader (from_u64 (rocks_timestamp c)) sh').
  destruct (storage_low_last _ _ Hok' (cr_ts _ _ _ _ _ _ _ Hres)) as [Hlow' Hts'].
  assert (fits 64 (rocks_timestamp c)) as Hfc by (eapply fits_le; [apply Hts|apply Hok]).
  cbn [reader reader_db reader_timestamp]. rewrite !as_u64_from_u64 by (done || apply as_u64_fits).
  pose proof (cr_low _ _ _ _ _ _ _ Hres Hm) as Hlow. destruct Hfresh as [Hfresh _]. split_and!.
  - unfold start_reader. rewrite Hgetc. cbn [rbind]. rewrite Hgetm. cbn [rbind me commit_entry snd tip_hash tip_height
      mempool_timestamp rocks_timestamp show_mempool_timestamp].
    destruct (decide (tip_hash c = point_hash p)) as [Heq|Hne]; [|by rewrite decide_True by (intros Heq; by apply Hne)].
    rewrite decide_False by (intros Hn; by apply Hn). rewrite Hshown. cbn [rbind]. rewrite estimated_heights; [done|apply Hvc|apply Hp].
  - by rewrite Hts'.
  - by rewrite Hts'.
  - unfold start_reader. by rewrite Hgetc.
  - lia.
  - apply (cr_history _ _ _ _ _ _ _ Hres); lia.
Qed.
End StartReader.

(** ** The identifiers of runes *)
Section Identifiers.
Context `{ServeLib}.

(** The usual form of an identifier: a block and a transaction. *)
Definition rune_id_text (id : RuneId) : string :=
  String.append (show_N (rune_block id)) (String ":"%char (show_N (rune_tx id))).

Lemma digit_not_colon n : contains ":"%char (show_N n) = false.
Proof.
  destruct (contains ":"%char (show_N n)) eqn:Hc; [|done]. apply show_N_digits in Hc. exfalso. revert Hc.
  apply (bool_decide_unpack (":"%char ∉ list_ascii_of_string "0123456789")). vm_compute. reflexivity.
Qed.

Lemma contains_colon s t : contains ":"%char (String.append s (String ":"%char t)) = true.
Proof. rewrite contains_app. cbn [contains]. by rewrite Ascii.eqb_refl, orb_true_r. Qed.

(** The text of a rune id is read back as that id; a text with one colon
    whose parts are not both numbers in range stops the request with a panic
    instead of an error of the client; with two colons or more it is an error
    of the client; without a colon it is a name, whose spacers are dropped. *)
Theorem rune_identifier_parses (s t u : string) (id : RuneId) :
  contains ":"%char s = false → contains ":"%char t = false → valid id →
  parse_rune_identifier (rune_id_text id) = Ok (IdentId id) ∧
  (parse_uint 64 s = None ∨ parse_uint 32 t = None →
     parse_rune_identifier (String.append s (String ":"%char t)) = Panic "unwrap") ∧
  (∃ msg, parse_rune_identifier (String.append s (String ":"%char (String.append t (String ":"%char u)))) =
            Err (MalformedRequest msg)) ∧
  (parse_rune_identifier s =
     match rune_from_str (remove_all spacer s) with
     | Some n => Ok (IdentName n)
     | None => Err (MalformedRequest "unable to decode rune name")
     end).
Proof.
  intros Hs Ht [Hb Htx]. unfold parse_rune_identifier, rune_id_text. split_and!.
  - rewrite contains_colon, split_on_app, split_on_none by apply digit_not_colon.
    rewrite (parse_show 64), (parse_show 32) by done. destruct id. done.
  - rewrite contains_colon, split_on_app, split_on_none by done. intros [-> | ->]; [done|].
    by destruct (parse_uint 64 s).
  - rewrite contains_colon, split_on_app, split_on_app by done.
    assert (∃ p ps, split_on ":"%char u = p :: ps) as (p & ps & ->); [|by eexists].
    destruct u as [|a u]; [eauto|]. cbn [split_on]. destruct (Ascii.eqb a ":"); [eauto|].
    destruct (split_on ":"%char u); eauto.
  - by rewrite Hs.
Qed.
End Identifiers.

(** ** Examples *)
Module ServeExamples.
Import CommitExamples.
#[local] Existing Instance sorted_hash_order.
#[local] Existing Instance sorted_hash_order_ok.

(** A server that knows one address and shows hashes as blanks. *)
#[export] Instance simple_serve : ServeLib := {|
  parse_address := λ s, if decide (s = "addr") then Some [x51] else None;
  parse_txid := λ _, Some (replicate 32 xa0);
  show_hash := λ _, "hash";
  rune_from_str := λ s, if decide (s = "AB") then Some 27%N else None;
  show_rune := λ _, "AB";
  show_spaced_rune := λ _ _, "A.B";
  show_rune_id := rune_id_text;
  format_datetime := λ x, if (x <? 2 ^ 40)%N then Some "date" else None;
  Json := unit;
  charm_to_json := λ _, Ok tt;
  hex_encode := λ _, "";
  hex_decode := λ _, Some [];
|}.

Definition served : Res Error (StorageHandler RefDB) :=
  apply_indexing_task 2%N (finalize ex_task1) ex_point 10%N None ex_storage.

Example block_commit_is_served_witness :
  ∃ sh' r, served = Ok sh' ∧ start_reader true sh' = Ok (r, tip_info 100%N (replicate 32 x0a)) ∧
    db_snapshot (reader_db r) (as_u64 (reader_timestamp r)) = db_latest (sh_db sh').
Proof.
  destruct (apply_indexing_task_spec 2%N (finalize ex_task1) ex_point 10%N None ex_storage
              ex_storage_ok ex_fresh (ready_committable _ _ ex_ready) ex_point_ok) as (sh' & Happly & _).
  destruct (block_commit_is_served 2%N (finalize ex_task1) ex_point 10%N None ex_storage sh'
              ex_storage_ok ex_fresh (ready_committable _ _ ex_ready) ex_point_ok) as (r & _ & _ & Hsnap & _ & Hstart & _).
  - reflexivity.
  - vm_compute. reflexivity.
  - intros e He. discriminate He.
  - exact Happly.
  - exists sh', r. split_and!; [exact Happly| |exact Hsnap]. apply Hstart. intros e He. discriminate He.
Defined.

(** The block of a mempool snapshot comes back: the store names the snapshot,
    of timestamp 3, on a tip of the same hash. *)
Definition ex_stale : TimestampEntry := MkTimestampEntry 101%N (replicate 32 x0a) 3%N (Some 7%N).
Definition ex_stale_storage : StorageHandler RefDB :=
  MkStorage [(5%N, {[encode_key TimestampsKV Mempool := encode ex_stale]})] (Some (from_u64 5%N)) false.

Lemma ex_stale_storage_ok : storage_ok ex_stale_storage.
Proof. split_and!; [vm_compute; reflexivity|vm_compute; reflexivity|split; [vm_compute; reflexivity|apply N.le_0_l]]. Qed.

Lemma stale_snapshot_is_read :
  ∃ sh', apply_indexing_task 2%N (finalize (begin_indexing_task false ex_stale_storage)) ex_point 10%N None ex_stale_storage = Ok sh' ∧
    start_reader true sh' = Ok (reader (from_u64 3%N) sh', MkServeInfo (MkChainTip "hash" 100%N) (Some "date") [MkEstimatedBlock 101%N]).
Proof.
  destruct (apply_indexing_task_spec 2%N (finalize (begin_indexing_task false ex_stale_storage)) ex_point 10%N None ex_stale_storage
              ex_stale_storage_ok) as (sh' & Happly & Hres);
    [split; [vm_compute; reflexivity|apply N.le_0_l]|apply ready_committable, begin_ready, ex_stale_storage_ok|exact ex_point_ok|].
  exists sh'. split; [exact Happly|]. injection Happly as <-. vm_compute. reflexivity.
Qed.

(** A confirmed block, then a mempool two blocks higher. *)
Definition ex_confirmed : TimestampEntry := MkTimestampEntry 98%N (replicate 32 x0a) 5%N None.
Definition ex_tip_storage : StorageHandler RefDB :=
  MkStorage [(5%N, {[encode_key TimestampsKV Confirmed := encode ex_confirmed]})] (Some (from_u64 5%N)) false.
Definition ex_mempool_fin : FinalizedTask := finalize (begin_mempool_indexing_task ex_tip_storage).

Lemma ex_tip_storage_ok : storage_ok ex_tip_storage.
Proof. split_and!; [vm_compute; reflexivity|vm_compute; reflexivity|split; [vm_compute; reflexivity|apply N.le_0_l]]. Qed.

Example mempool_commit_is_served_witness :
  ∃ sh' r rc, apply_indexing_task 2%N ex_mempool_fin ex_point 10%N (Some 7%N) ex_tip_storage = Ok sh' ∧
    start_reader true sh' = Ok (r, MkServeInfo (MkChainTip "hash" 98%N) (Some "date")
                                     [MkEstimatedBlock 99%N; MkEstimatedBlock 100%N]) ∧
    start_reader false sh' = Ok (rc, tip_info 98%N (replicate 32 x0a)).
Proof.
  assert (Hok := ex_tip_storage_ok). assert (Hcom := ready_committable _ _ (begin_mempool_ready ex_tip_storage Hok)).
  assert (Hfresh : commit_fresh 2%N ex_tip_storage) by (split; [vm_compute; reflexivity|apply N.le_0_l]).
  destruct (apply_indexing_task_spec 2%N ex_mempool_fin ex_point 10%N (Some 7%N) ex_tip_storage
              Hok Hfresh Hcom ex_point_ok) as (sh' & Happly & _).
  destruct (mempool_commit_is_served 2%N ex_mempool_fin ex_point 10%N 7%N "date" ex_confirmed ex_tip_storage sh'
              Hok Hfresh Hcom ex_point_ok) as (r & rc & Hr & _ & _ & Hrc & _).
  - reflexivity.
  - apply lookup_singleton_eq.
  - split_and!; vm_compute; reflexivity.
  - split; vm_compute; discriminate.
  - vm_compute. reflexivity.
  - reflexivity.
  - exact Happly.
  - exists sh', r, rc. split_and!; [exact Happly|exact Hr|exact Hrc].
Defined.

Example rune_identifier_parses_witness :
  parse_rune_identifier "840000:3" = Ok (IdentId (MkRuneId 840000 3)) ∧
  parse_rune_identifier "a:b" = Panic "unwrap" ∧
  parse_rune_identifier "AB" = Ok (IdentName 27%N).
Proof.
  destruct (rune_identifier_parses "a" "b" "" (MkRuneId 840000 3)) as (Hid & Hbad & _);
    [reflexivity|reflexivity|split; vm_compute; reflexivity|].
  destruct (rune_identifier_parses "AB" "b" "" (MkRuneId 840000 3)) as (_ & _ & _ & Hname);
    [reflexivity|reflexivity|split; vm_compute; reflexivity|].
  split_and!.
  - exact Hid.
  - apply Hbad. left. reflexivity.
  - rewrite Hname. reflexivity.
Defined.
End ServeExamples.
