(* ===== verification/Served.v ===== *)
(** * The data that requests are answered from

    A request that does not ask for the mempool is answered from the data of
    the last block that was committed ([start_reader] of [Serve],
    src/src/serve/reader_wrapper.rs).  Rollbacks and mempool snapshots are
    commits too, but they keep the record of that block and its data: only
    the next block changes what is served. *)
From S2P Require Import Prelude ByteOrder EncDec Timestamp Types MergeOperation Table Rocks.
From S2P Require Import CoreTables KvStore KvStoreLaws Commit RollbackBuffer Bitcoin Context.
From S2P Require Import AddressIndexers RunesTables Runes Charms Indexers Stage Instances StageLaws Chain History.
From S2P Require Import Persist Durable Text Serve ServeLaws.

(** ** The served block of a store *)
Section Served.
Context {DB : Type} `{RocksDBOk DB}.

Abbreviation newest sh := (db_latest (sh_db sh)).
Abbreviation entry kind := (encode_key TimestampsKV kind).

Definition confirmed_entry (p : Point) (ts : u64) : TimestampEntry := MkTimestampEntry (point_height p) (point_hash p) ts None.

Definition serves (sh : StorageHandler DB) (p : Point) (s : Snapshot) : Prop :=
  point_ok p ∧ ∃ ts,
    newest sh !! entry Confirmed = Some (encode (confirmed_entry p ts)) ∧ (ts <= db_last (sh_db sh))%N ∧
    ((db_low (sh_db sh) <= ts)%N → db_snapshot (sh_db sh) ts = s).

(** The history at the timestamp of the last block is still there.  It is
    after every commit; it may not be when the process starts again and
    commits were lost, until the next block. *)
Definition confirmed_readable (sh : StorageHandler DB) : Prop :=
  ∀ c : TimestampEntry, valid c → newest sh !! entry Confirmed = Some (encode c) → (db_low (sh_db sh) <= rocks_timestamp c)%N.

(** The database is opened again with its history, or with less of it. *)
Definition history_kept (sh sh' : StorageHandler DB) : Prop :=
  (db_low (sh_db sh) <= db_low (sh_db sh'))%N ∧ db_last (sh_db sh') = db_last (sh_db sh) ∧
  ∀ t, (db_low (sh_db sh') <= t)%N → db_snapshot (sh_db sh') t = db_snapshot (sh_db sh) t.

Lemma history_kept_serves sh sh' p s :
  newest sh' = newest sh → history_kept sh sh' → serves sh p s → serves sh' p s.
Proof.
  intros Hnew (Hlow & Hlast & Hsnap) (Hp & ts & Hentry & Hts & Hs). split; [exact Hp|]. exists ts.
  rewrite Hnew, Hlast. split; [exact Hentry|]. split; [exact Hts|]. intros Hl. rewrite Hsnap by exact Hl. apply Hs. lia.
Qed.

Lemma valid_confirmed p ts : point_ok p → fits 64 ts → valid (confirmed_entry p ts).
Proof. intros [Hh Hl] Hf. split_and!; [exact Hh|exact Hl|exact Hf|exact I]. Qed.

(** A block is served from its commit on. *)
Lemma block_serves unix_ts fin p max_rollback (sh sh' : StorageHandler DB) :
  commit_result unix_ts fin p max_rollback None sh sh' → point_ok p → fin_mempool fin = false →
  serves sh' p (newest sh') ∧ confirmed_readable sh'.
Proof.
  intros Hres Hp Hm. destruct (storage_low_last _ _ (cr_ok _ _ _ _ _ _ _ Hres) (cr_ts _ _ _ _ _ _ _ Hres)) as [Hlow Hts].
  pose proof (br_entry _ _ _ _ _ _ _ (cr_batch _ _ _ _ _ _ _ Hres)) as Hentry. unfold commit_entry in Hentry.
  rewrite Hm in Hentry. cbn [fst snd] in Hentry. split.
  - split; [exact Hp|]. exists (as_u64 (commit_ts unix_ts sh)). split; [exact Hentry|]. rewrite Hts. split; [done|].
    intros _. reflexivity.
  - intros c Hv Hc. rewrite Hentry in Hc. injection Hc as Hc. apply (f_equal (decode_all (A:=TimestampEntry))) in Hc.
    fold (confirmed_entry p (as_u64 (commit_ts unix_ts sh))) in Hc.
    rewrite !decode_all_encode in Hc by (done || by apply valid_confirmed, as_u64_fits). injection Hc as <-.
    cbn [confirmed_entry rocks_timestamp]. by rewrite Hts.
Qed.

(** The commit of a mempool snapshot changes nothing of it. *)
Lemma mempool_serves unix_ts fin p max_rollback mempool_ts (sh sh' : StorageHandler DB) q s :
  commit_result unix_ts fin p max_rollback mempool_ts sh sh' → fin_mempool fin = true → commit_fresh unix_ts sh →
  serves sh q s → serves sh' q s.
Proof.
  intros Hres Hm [Hfresh _] (Hq & ts & Hentry & Hts & Hs). split; [exact Hq|]. exists ts.
  destruct (cr_batch _ _ _ _ _ _ _ Hres) as [_ _ _ Hother _].
  destruct (storage_low_last _ _ (cr_ok _ _ _ _ _ _ _ Hres) (cr_ts _ _ _ _ _ _ _ Hres)) as [_ Hlast].
  rewrite (cr_low _ _ _ _ _ _ _ Hres Hm), <-Hlast. split; [|split; [lia|]].
  - rewrite Hother; [exact Hentry|]. unfold commit_entry. by rewrite Hm.
  - intros Hl. rewrite (cr_history _ _ _ _ _ _ _ Hres); [by apply Hs|by rewrite (cr_low _ _ _ _ _ _ _ Hres Hm)|lia].
Qed.

(** A request works on it. *)
Lemma serves_start `{HashOrderOk} `{ServeLib} (sh : StorageHandler DB) p s :
  storage_ok sh → serves sh p s → confirmed_readable sh →
  ∃ r, start_reader false sh = Ok (r, tip_info (point_height p) (point_hash p)) ∧ reader_db r = sh_db sh ∧
    (db_low (reader_db r) <= as_u64 (reader_timestamp r))%N ∧
    db_snapshot (reader_db r) (as_u64 (reader_timestamp r)) = s.
Proof.
  intros Hok (Hp & ts & Hentry & Hts & Hs) Hread. pose proof Hok as (Hfits & _ & _).
  assert (fits 64 ts) as Hf by (unfold fits in *; lia). pose proof (valid_confirmed p ts Hp Hf) as Hv.
  pose proof (Hread _ Hv Hentry) as Hlow. cbn [confirmed_entry rocks_timestamp] in Hlow.
  exists (reader (from_u64 ts) sh). cbn [reader reader_db reader_timestamp]. rewrite as_u64_from_u64 by exact Hf.
  split_and!; [|done|exact Hlow|by apply Hs]. unfold start_reader.
  rewrite (get_expected_maybe _ _ _ _ (get_maybe_found sh Confirmed _ Hok Hv Hentry)). reflexivity.
Qed.
End Served.

(** ** The stage *)
Section ServedStage.
Context {DB : Type} `{RocksDBOk DB} `{HashOrderOk} `{Ordinals} `{!CharmsLib} `{!Machine}.
Context {Ext : Type} `{!IndexMap TransactionIndexer (list byte) Ext}.
Context {C : Type} `{!MokaCache (Utxo Ext) C}.

Abbreviation points st := (rb_points (st_rollback_buffer st)).

Lemma undo_batch_entry newer kind :
  Forall entry_ok newer → Forall (λ op, ¬ op_touches op (encode_key TimestampsKV kind)) (undo_batch newer).
Proof.
  intros Hok. apply Forall_forall. intros op Hop. apply undo_batch_ops in Hop as (e & key & pv & He & Hkv & Hop).
  rewrite Forall_forall in Hok. destruct (eo_kvs _ (Hok e He) _ _ Hkv) as ([_ Hu] & _).
  pose proof (timestamps_key_prefix kind) as Hk. destruct Hop as [->| ->].
  - destruct pv; cbn [op_touches]; intros ->; by apply Hu.
  - cbn [op_touches]. intros Heq. apply (f_equal (take 2)) in Heq. discriminate Heq.
Qed.

Lemma points_since_sub p rb newer : points_since p rb = Ok newer → newer ⊆ rb_points rb.
Proof.
  unfold points_since. destruct (position p rb) as [n|]; [|done]. intros [= <-] e He.
  rewrite <-(take_drop n (rb_points rb)). apply elem_of_app. by left.
Qed.

(** A rollback keeps what is served. *)
Lemma rollback_serves ts p (st st' : Stage DB C) q s :
  storage_ok (st_db st) → commit_fresh ts (st_db st) → Forall entry_ok (points st) →
  rollback_to_point ts p st = Ok st' → serves (st_db st) q s → serves (st_db st') q s.
Proof.
  intros _ [Hfresh _] Hok Hroll (Hq & t & Hentry & Ht & Hs). unfold rollback_to_point in Hroll.
  apply res_bind_ok in Hroll as (newer & Hsince & Hroll). apply or_panic_ok in Hsince. cbv zeta in Hroll.
  set (cts := commit_ts ts (st_db st)) in *. destruct (undo_batch_total newer (db_latest (sh_db (st_db st)))) as [s' Hs'].
  destruct (db_write_ok (sh_db (st_db st)) no_wal (as_u64 cts) (undo_batch newer) s') as (db' & Hw & Hlast & Hlow' & Hsnap).
  { exact Hfresh. }
  { rewrite db_snapshot_latest; [exact Hs'|]. apply N.lt_le_incl, Hfresh. }
  rewrite Hw in Hroll. cbn [or_restart map_err rbind] in Hroll. apply res_bind_ok in Hroll as ([x rb] & _ & Hroll).
  injection Hroll as <-. split; [exact Hq|]. exists t. cbn [with_storage st_db sh_db].
  fold cts in Hfresh. rewrite Hlow', Hlast. split; [|split; [lia|]].
  - unfold db_latest. rewrite Hlast, Hsnap, N.leb_refl.
    rewrite (apply_ops_untouched (undo_batch newer) (db_latest (sh_db (st_db st))) s'); [exact Hentry| |exact Hs'].
    apply undo_batch_entry. rewrite Forall_forall in *. intros e He. by apply Hok, (points_since_sub _ _ _ Hsince).
  - intros Hl. rewrite Hsnap. replace (as_u64 cts <=? t)%N with false by (symmetry; apply N.leb_gt; lia). by apply Hs.
Qed.

Lemma undone_serves now w (st st1 : Stage DB C) I q s :
  tracks w st I → durable st I → commit_fresh (clock_undo now) (st_db st) → undone now st st1 →
  serves (st_db st) q s → serves (st_db st1) q s.
Proof.
  intros HI [blocks Hdu] Hfresh [->|Hroll]; [done|].
  eapply rollback_serves; [apply HI|exact Hfresh|exact (du_entries _ _ _ Hdu)|exact Hroll].
Qed.

(** Indexing a mempool snapshot keeps it too. *)
Lemma index_mempool_serves now w info blocks (st st' : Stage DB C) I q s :
  tracks w st I → commit_fresh (clock_commit now) (st_db st) →
  (∀ task cache, mempool_task now w blocks st = Ok (task, cache) → keys_fit task) →
  index_mempool now w info blocks st = Ok st' → serves (st_db st) q s → serves (st_db st') q s.
Proof.
  intros HI Hfresh Hk Hidx. pose proof (chain_at_ok _ _ _ _ (tk_genesis _ _ _ HI) (tk_chain _ _ _ HI)) as [Hf Hl].
  rewrite (tk_tip _ _ _ HI) in Hf, Hl.
  destruct (index_mempool_commit now w info blocks st st') as (task & cache & o & _ & _ & Hm & _ & Hres & _);
    [apply HI|exact Hk|by apply mempool_tip_fits|exact Hl|exact Hfresh|exact Hidx|].
  eapply mempool_serves; [exact Hres|exact Hm|exact Hfresh].
Qed.

(** And a block is served once it is indexed. *)
Lemma index_block_serves now w point txs (st st' : Stage DB C) :
  stage_ok st → commit_fresh (clock_commit now) (st_db st) → point_ok point →
  (∀ task cache, block_task now w point txs st = Ok (task, cache) → keys_fit task) →
  index_block now w point txs st = Ok st' →
  serves (st_db st') point (db_latest (sh_db (st_db st'))) ∧ confirmed_readable (st_db st').
Proof.
  intros Hst Hfresh Hp Hk Hidx.
  destruct (index_block_commit now w point txs st st') as (task & cache & _ & _ & Hm & _ & Hres & _);
    [exact Hst|exact Hk|exact Hp|exact Hfresh|exact Hidx|]. by eapply block_serves.
Qed.
End ServedStage.
