(* ===== verification/Reorg.v ===== *)
(** * The index of a chain that changes

    Whatever blocks, rollbacks, mempool snapshots and restarts come: the store
    holds the unspent outputs of the chain the events describe, and the table
    of outputs by address lists them. The cache outlives rollbacks; it may
    then hold outputs of blocks that are gone, but nothing that contradicts a
    block that stays. *)
From S2P Require Import Prelude Float ByteOrder EncDec Timestamp Types MergeOperation Table Rocks.
From S2P Require Import CoreTables KvStore KvStoreLaws Commit RollbackBuffer Bitcoin Context.
From S2P Require Import AddressIndexers RunesTables Runes Charms Indexers Stage Instances StageLaws Chain.
From S2P Require Import UtxoSet UtxoLaws UtxoBlock BlockTotal AddressLaws AddressTable CacheFlow ChainUtxos.
From S2P Require Import History Persist Durable Restart Served.

Section Reorg.
Context {DB : Type} `{RocksDBOk DB} `{HashOrderOk} `{Ordinals} `{!CharmsLib} `{!Machine}.
Context {Ext : Type} `{!IndexMap TransactionIndexer (list byte) Ext, !IndexMapOk TransactionIndexer (list byte) Ext}.
Context {C : Type} `{!MokaCache (Utxo Ext) C, !MokaCacheOk (Utxo Ext) C}.
Context (content : BlockHash → BlockTxs).

Abbreviation data st := (db_latest (sh_db (st_db st))).
Abbreviation points st := (rb_points (st_rollback_buffer st)).
Abbreviation utxos := (chain_utxos content).
Abbreviation listing := (chain_listing content).

(** ** What is held of a chain *)
Record holds (chain : list BlockHash) (s : Snapshot) (cache : option (UtxoCache C)) : Prop := {
  ho_utxos : utxo_set_stored (Ext:=Ext) (utxos chain) s;
  ho_cache : cache_coherent s cache;
  ho_table : address_table (listing chain) s;
  ho_agrees : agrees (listing chain) (utxos chain);
}.

Lemma address_key_user raw : address_prefix `prefix_of` raw → user_key raw.
Proof. intros Hp. eapply custom_user_key, own_custom. by eapply (table_own_key UtxosByAddress x00). Qed.

Lemma holds_same chain s s' cache : same_data s s' → holds chain s cache → holds chain s' cache.
Proof.
  intros Heq [HU Hc [Hv Hin Hout Honly] Hag].
  assert (∀ r, s' !! utxo_raw (Ext:=Ext) r = s !! utxo_raw (Ext:=Ext) r) as Hraw.
  { intros r. symmetry. apply Heq, utxo_raw_key. }
  assert (∀ raw, address_prefix `prefix_of` raw → s' !! raw = s !! raw) as Haddr.
  { intros raw Hp. symmetry. by apply Heq, address_key_user. }
  assert (∀ k : UtxosByAddressKey, address_prefix `prefix_of` encode_key UtxosByAddressKV k) as Hkey
    by (intros k; apply indexer_table_key).
  split; [..|done].
  - intros r Hr. specialize (HU r Hr). destruct (utxos chain !! r) as [u|]; [|by rewrite Hraw].
    destruct HU as (x & [Hx Hvx] & Hb). exists x. split; [|done]. split; [by rewrite Hraw|done].
  - intros c r x Hcc Hg. destruct (Hc c r x Hcc Hg) as [Hr Hx]. split; [done|]. unfold agrees_with, stored in *. by rewrite !Hraw.
  - split; [done|..].
    + intros k Hk Hl. rewrite Haddr by done. by apply Hin.
    + intros k Hk Hl. rewrite Haddr by done. by apply Hout.
    + intros raw Hp Hk. rewrite Haddr by done. by apply Honly.
Qed.

(** The cache may take up outputs of transactions the chain does not have. *)
Lemma holds_cache ids chain s cache cache' :
  grows ids cache cache' → (∀ id, id ∈ ids → id ∉ chain_txids content chain) → holds chain s cache → holds chain s cache'.
Proof.
  intros Hg Hnew [HU Hc Ht Hag]. split; [done| |done|done]. intros c r x Hcc Hx.
  destruct (Hg c r x Hcc Hx) as [(c0 & Hc0 & Hx0)|[Hr Hid]]; [by eapply Hc|]. split; [done|]. intros [b Hb].
  specialize (HU r Hr). destruct (utxos chain !! r) as [u|] eqn:Hu; [|by rewrite HU in Hb].
  apply chain_utxos_created in Hu as [Hin _]. by destruct (Hnew _ Hid).
Qed.

Lemma holds_nil cache : (∀ cache0, grows [] cache0 cache) → holds [] ∅ cache.
Proof.
  intros Hg. split.
  - intros r _. unfold chain_utxos, over_chain. cbn. rewrite lookup_empty. apply lookup_empty.
  - intros c r x Hc Hx. destruct (Hg None c r x Hc Hx) as [(c0 & Hc0 & _)|[_ Hin]]; [done|by apply not_elem_of_nil in Hin].
  - split; [intros r x y Hl|intros k _ Hl|intros; apply lookup_empty|intros; apply lookup_empty].
    + unfold chain_listing, over_chain in Hl. cbn in Hl. by rewrite lookup_empty in Hl.
    + unfold listed, chain_listing, over_chain in Hl. cbn in Hl. by rewrite lookup_empty in Hl.
  - intros r. unfold chain_listing, chain_utxos, over_chain. cbn. by rewrite !lookup_empty.
Qed.

(** ** The invariant

    The data without the mempool snapshot, when there is one. *)
Definition without_mempool (st : Stage DB C) (I : Ideal) (s : Snapshot) : Prop :=
  if id_mempool I
  then ∃ e rest, points st = e :: rest ∧ ∀ k, user_key k → revert (pk_original_kvs e) k (data st !! k) = s !! k
  else same_data (data st) s.

Record chain_held (st : Stage DB C) (I : Ideal) : Prop := {
  ch_data : ∃ s, without_mempool st I s ∧ holds (id_chain I) s (st_utxo_cache st);
  ch_copies p s : (p, s) ∈ id_copies I → point_height p ≠ u64_MAX →
    holds (take (N.to_nat (point_height p)) (id_chain I)) s (st_utxo_cache st);
  ch_capacity : capacity (st_rollback_buffer st) ≠ 0%N;
}.

(** What is asked of a block when it is indexed. *)
Record good_block (now : Clock) (chain : list BlockHash) (st : Stage DB C) (indexers : list AnyIndexer) (point : Point) (txs : BlockTxs) : Prop := {
  gb_content : txs = content (point_hash point);
  gb_next : next_block content chain (point_hash point);
  gb_indexers : address_worker indexers;
  gb_values m task cache : block_task now (MkWorker indexers m) point txs st = Ok (task, cache) → values_fit task;
}.

Lemma back_to_head p copies rest : back_to p copies = Some rest → ∃ s rest', rest = (p, s) :: rest'.
Proof.
  induction copies as [|[p' s] copies IH]; [done|]. cbn [back_to fst]. case_decide as Heq; [|exact IH].
  intros [= <-]. subst p'. by eauto.
Qed.

Lemma held_back ts w p (st st' : Stage DB C) I copies :
  tracks w st I → chain_held st I → point_height p ≠ u64_MAX → rollback_to_point ts p st = Ok st' →
  back_to p (id_copies I) = Some copies →
  let I' := MkIdeal (take (N.to_nat (point_height p)) (id_chain I)) p false copies in
  tracks w st' I' → chain_held st' I'.
Proof.
  intros HI [_ Hcop Hcap] Hp Hroll Hback I' HI'. pose proof (rollback_cache _ _ _ _ Hroll) as Hcache.
  pose proof (rollback_setup _ _ _ _ Hroll) as (_ & Hcap' & _).
  pose proof (back_to_suffix _ _ _ Hback) as Hsuf. destruct (back_to_head _ _ _ Hback) as (s & rest & Heq).
  assert (∀ c, c ∈ copies → c ∈ id_copies I) as Hin.
  { intros c Hc. destruct Hsuf as [l ->]. apply elem_of_app. by right. }
  assert ((p, s) ∈ copies) as Hps by (rewrite Heq; by left).
  pose proof (tk_restores _ _ _ HI') as Hres. pose proof (tk_sorted _ _ _ HI') as Hsort. cbn [I' id_copies] in Hres, Hsort.
  split; cbn [I' id_chain id_mempool id_copies]; rewrite ?Hcache, ?Hcap'; [| |done].
  - exists s. split; [|by apply Hcop; [apply Hin|]]. unfold without_mempool. cbn [I' id_mempool].
    rewrite Heq in Hres. destruct (points st') as [|e es]; [done|]. by destruct Hres as (_ & Hs & _).
  - intros q t Hq Hqm. rewrite take_take.
    assert (point_height q <= point_height p)%N as Hle.
    { rewrite Heq in Hq, Hsort. apply StronglySorted_inv in Hsort as [_ Hlow]. apply elem_of_cons in Hq as [[= -> _]|Hq]; [done|].
      rewrite Forall_forall in Hlow. apply N.lt_le_incl, (Hlow _ Hq). }
    rewrite Nat.min_l by lia. by apply Hcop; [apply Hin|].
Qed.

Lemma held_block now w w' point txs (st st' : Stage DB C) I copies :
  tracks w st I → chain_held st I → id_mempool I = false → w_indexers w' = w_indexers w →
  length (point_hash point) = 32 → point_height point = (point_height (id_tip I) + 1)%N →
  commit_fresh (clock_commit now) (st_db st) →
  (∀ task cache, block_task now w' point txs st = Ok (task, cache) → keys_fit task) →
  index_block now w' point txs st = Ok st' → good_block now (id_chain I) st (w_indexers w) point txs →
  copies = keep (capacity (st_rollback_buffer st)) point (data st') (id_copies I) ∨ id_copies I = [] ∧ copies = [] →
  chain_held st' (MkIdeal (id_chain I ++ [point_hash point]) point false copies).
Proof.
  intros HI [(s & Hs & Hholds) Hcop Hcap] Hm Hwi Hl Hh Hfresh Hk Hidx [-> Hnext Hworker Hvals] Hcopies.
  unfold without_mempool in Hs. rewrite Hm in Hs. symmetry in Hs. apply (holds_same _ _ _ _ Hs) in Hholds. clear s Hs.
  destruct Hholds as [HU Hc Ht Hag]. pose proof (chain_at_height _ _ _ _ (tk_chain _ _ _ HI)) as Hlen.
  assert (point_ok point) as Hp.
  { split; [|done]. pose proof (tk_height _ _ _ HI). unfold fits, u64_MAX in *. lia. }
  pose proof Hnext as [Hv Hsz Hcb Hfr]. rewrite <-Hlen, <-Hh in Hv.
  destruct (index_block_indexed now w' point (content (point_hash point)) st st' (listing (id_chain I)) (utxos (id_chain I)))
    as [_ HU' Hc' Ht' Hag'].
  - split; [apply HI|done..].
  - by rewrite Hwi.
  - exact Hp.
  - exact Hv.
  - by apply next_block_listable.
  - exact Hfresh.
  - intros task cache Htask. split; [by apply (Hk task cache)|]. apply (Hvals (w_mutable w') task cache). rewrite <-Hwi. by destruct w'.
  - exact Hidx.
  - pose proof (index_block_grows _ _ _ _ _ _ (vb_wf _ _ _ Hv) Hidx) as Hgrow.
    pose proof (index_block_setup _ _ _ _ _ _ Hidx) as (_ & Hcap' & _).
    assert (holds (id_chain I ++ [point_hash point]) (data st') (st_utxo_cache st')) as Hholds'.
    { unfold chain_listing, chain_utxos in *.
      split; unfold chain_listing, chain_utxos; rewrite ?over_chain_snoc, <-?Hlen, <-?Hh; done. }
    split; cbn [id_chain id_mempool id_copies]; rewrite ?Hcap'; [exists (data st'); by split| |done].
    intros p t Hin Hpm. assert ((p, t) = (point, data st') ∨ (p, t) ∈ id_copies I) as [[= -> ->]|Hold].
    { destruct Hcopies as [->|[_ ->]]; [|by apply not_elem_of_nil in Hin]. unfold keep in Hin.
      apply elem_of_take in Hin as (i & Hi & _). destruct i as [|i]; [left; by injection Hi as <- <-|right; by eapply list_elem_of_lookup_2]. }
    + rewrite take_ge; [done|]. rewrite length_app. simpl. lia.
    + pose proof (tk_copies _ _ _ HI) as Hok. rewrite Forall_forall in Hok. destruct (Hok _ Hold) as [_ Hat]. destruct (Hat Hpm) as [Hle _].
      cbn [fst] in Hle. rewrite take_app_le by lia. eapply holds_cache; [exact Hgrow| |by apply Hcop].
      intros id Hid Hin'. by apply (Hfr id Hid), (chain_txids_take content (N.to_nat (point_height p))).
Qed.

Lemma held_mempool now w info blocks (st st' : Stage DB C) I :
  tracks w st I → chain_held st I → id_mempool I = false →
  commit_fresh (clock_commit now) (st_db st) →
  (∀ task cache, mempool_task now w blocks st = Ok (task, cache) → keys_fit task) →
  index_mempool now w info blocks st = Ok st' →
  chain_held st' (MkIdeal (id_chain I) (id_tip I) true
    (keep (capacity (st_rollback_buffer st)) (mempool_point (id_tip I)) (data st') (id_copies I))).
Proof.
  intros HI [(s & Hs & Hholds) Hcop Hcap] Hm Hfresh Hk Hidx. pose proof (index_mempool_grows _ _ _ _ _ _ Hidx) as Hgrow.
  unfold without_mempool in Hs. rewrite Hm in Hs. symmetry in Hs. apply (holds_same _ _ _ _ Hs) in Hholds. clear s Hs.
  assert (∀ chain s, holds chain s (st_utxo_cache st) → holds chain s (st_utxo_cache st')) as Hkeep.
  { intros chain s. apply (holds_cache _ _ _ _ _ Hgrow). by intros id ?%not_elem_of_nil. }
  pose proof (index_mempool_setup _ _ _ _ _ _ Hidx) as (_ & Hcap' & _).
  pose proof (chain_at_ok _ _ _ _ (tk_genesis _ _ _ HI) (tk_chain _ _ _ HI)) as [Hf Hl]. rewrite (tk_tip _ _ _ HI) in Hf, Hl.
  pose proof Hidx as Hi. apply res_bind_ok in Hi as ([task cache] & Htask & _).
  destruct (commit_mempool_ok now w info blocks st task cache) as (st1 & Hst1 & Hco & _);
    [apply HI|done|by eapply Hk|by apply mempool_tip_fits|done|done|].
  rewrite Hidx in Hst1. injection Hst1 as <-. destruct Hco as [_ (o & Hrb & Hrev) _ _].
  split; cbn [id_chain id_mempool id_copies]; rewrite ?Hcap'; [| |done].
  - exists (data st). split; [|by apply Hkeep]. unfold without_mempool. cbn [id_mempool].
    rewrite Hrb. unfold add_block, with_points. cbn [rb_points]. rewrite truncate_take.
    unfold capacity in Hcap. destruct (N.to_nat (rb_size (st_rollback_buffer st))) as [|n] eqn:Hn; [lia|].
    cbn [take]. eexists _, _. split; [reflexivity|exact Hrev].
  - intros p t Hin Hpm. apply Hkeep, Hcop; [|done]. unfold keep in Hin. apply elem_of_take in Hin as (i & Hi & _).
    destruct i as [|i]; [by injection Hi as <- _|by eapply list_elem_of_lookup_2].
Qed.

Lemma held_preserved : preserved chain_held (λ _, True) good_block.
Proof.
  split.
  - intros ts w p st st' I copies HI HP _ Hp Hroll Hback. by apply (held_back ts w p st).
  - intros now w w' point txs st st' I copies HI HP Hm Hwi _ Hl Hh Hf Hk Hidx _ Hgood. by eapply held_block.
  - intros now w info blocks st st' I HI HP Hm _ Hf Hk Hidx _. by eapply held_mempool.
Qed.

(** ** Restarts *)
Lemma new_cache_empty config sh (st : Stage DB C) cache :
  stage_new config sh = Ok st → grows [] cache (st_utxo_cache st).
Proof.
  unfold stage_new. cbv zeta. intros Hnew. apply res_bind_ok in Hnew as (rb & _ & Hnew).
  apply res_bind_ok in Hnew as (last & _ & Hnew). apply res_bind_ok in Hnew as (info & _ & Hnew).
  apply res_bind_ok in Hnew as (u & _ & Hnew). injection Hnew as <-. cbn [st_utxo_cache].
  case_match; [apply grows_none|apply (grows_new [])].
Qed.

Lemma held_restart w (st st' : Stage DB C) I I' blocks :
  tracks w st I → chain_held st I → durable_at blocks st I → restarted blocks (data st) I I' →
  data st' = data st → points st' = filter undoes_something blocks → capacity (st_rollback_buffer st') ≠ 0%N →
  (∀ cache, grows [] cache (st_utxo_cache st')) → chain_held st' I'.
Proof.
  intros HI [(s & Hs & Hholds) Hcop _] Hdu [Hch Htip Hres Hsub Htop Hconf Hcur Hmem] Hdata Hpts Hcap Hnew.
  assert (∀ chain s, holds chain s (st_utxo_cache st) → holds chain s (st_utxo_cache st')) as Hkeep.
  { intros chain t. apply (holds_cache _ _ _ _ _ (Hnew _)). by intros id ?%not_elem_of_nil. }
  split; rewrite ?Hch; [| |done].
  - exists s. split; [|by apply Hkeep]. unfold without_mempool in *. rewrite Hdata, Hpts.
    destruct (du_prefix _ _ _ Hdu) as [later Hlater].
    destruct Hmem as [Heq|(Hm' & e & rest & -> & Hnil)].
    + rewrite Heq. destruct (id_mempool I) eqn:Hm; [|done]. destruct Hs as (e & rest & Hpe & Hrev).
      unfold confirmed in Hconf. rewrite Heq, Hm in Hconf. unfold cursor_ok in Hcur. rewrite Heq in Hcur.
      destruct Hcur as (e' & rest' & Hfil & _). exists e', rest'. split; [exact Hfil|].
      destruct blocks as [|e0 blocks]; [done|]. rewrite Hlater in Hpe. injection Hpe as -> _. revert Hconf Hfil.
      rewrite filter_cons. case_decide; [by intros _ [= <- _]|]. intros Hconf Hfil. exfalso. cbn [tail] in Hconf.
      pose proof (length_filter undoes_something blocks) as Hle. rewrite Hfil in Hconf, Hle. subst blocks. cbn in Hle. lia.
    + rewrite Hm'. destruct (id_mempool I); [|done]. destruct Hs as (e' & rest' & Hpe & Hrev). rewrite Hlater in Hpe.
      injection Hpe as <- _. intros k Hk. rewrite <-(Hrev k Hk). unfold revert. by rewrite Hnil, lookup_empty.
  - intros p t Hin Hpm. apply Hkeep, Hcop; [|done]. by eapply elem_of_sublist.
Qed.

(** ** The life of the index *)
Lemma preserved_and P Q after good :
  preserved (DB:=DB) (C:=C) P after any_block → preserved Q (λ _, True) good → preserved (λ st I, P st I ∧ Q st I) after good.
Proof.
  intros HP HQ. split.
  - intros ts w p st st' I copies HI [HPI HQI] Hf Hp Hr Hb I' HI'. split.
    + by apply (pr_back _ _ _ HP ts w p st st' I copies).
    + by apply (pr_back _ _ _ HQ ts w p st st' I copies).
  - intros now w w' point txs st st' I copies HI [HPI HQI] Hm Hwi Hmut Hl Hh Hf Hk Hidx Ha Hg Hc. split.
    + by apply (pr_block _ _ _ HP now w w' point txs st st' I copies).
    + by apply (pr_block _ _ _ HQ now w w' point txs st st' I copies).
  - intros now w info blocks st st' I HI [HPI HQI] Hm Hne Hf Hk Hidx Ha. split.
    + by apply (pr_mempool _ _ _ HP now w info blocks st st' I).
    + by apply (pr_mempool _ _ _ HQ now w info blocks st st' I).
Qed.

Section Life.
Context (config : Config).

(** Every block that is indexed is the next one of the chain at that time, and
    the database is found with its history. *)
Abbreviation good_life := (lives (Ext:=Ext) (C:=C) (DB:=DB) config good_block history_kept).

Context (Hgenesis : length (genesis_hash (cfg_network config)) = 32).
Context (Hfits : fits 64 (default DEFAULT_MAX_ROLLBACK (cfg_max_rollback config) + 2)).

Definition index_held (events : list ChainEvent) (w : Worker) (st : Stage DB C) : Prop :=
  ∃ I, tracks w st I ∧ durable st I ∧ started config st ∧ id_chain I = foldl follow_event [] events ∧ chain_held st I.

Lemma held_start sh st w :
  storage_ok sh → db_latest (sh_db sh) = ∅ → stage_new config sh = Ok st → bootstrap st = Ok w → index_held [] w st.
Proof.
  intros Hsh Hempty Hnew Hboot. destruct (empty_starts config Hgenesis Hfits sh st w) as (HI & Hdu & Hs); [done..|].
  eexists. split; [exact HI|]. split; [exact Hdu|]. split; [exact Hs|]. split; [done|].
  destruct Hdu as [blocks Hdu]. split; cbn [id_chain id_copies]; [|by intros p s ?%not_elem_of_nil|].
  - exists ∅. split; [|apply holds_nil; intros cache; by eapply new_cache_empty]. unfold without_mempool. cbn [id_mempool].
    unfold stage_new in Hnew. cbv zeta in Hnew. apply res_bind_ok in Hnew as (? & _ & Hnew).
    apply res_bind_ok in Hnew as (? & _ & Hnew). apply res_bind_ok in Hnew as (? & _ & Hnew).
    apply res_bind_ok in Hnew as (? & _ & Hnew). injection Hnew as <-. cbn [st_db]. by rewrite Hempty.
  - rewrite (du_capacity _ _ _ Hdu). lia.
Qed.

Lemma held_event events now event w st w' (st' : Stage DB C) :
  index_held events w st → event_ok now w event st → execute now w event st = Ok (w', st') → small_after st' →
  event_good good_block now w event st (foldl follow_event [] events) → index_held (events ++ [event]) w' st'.
Proof.
  intros (I & HI & Hdu & [Hn Hm] & Hch & Hheld) Hev Hx Hsmall Hgood. rewrite <-Hch in Hgood.
  destruct (execute_preserves _ _ _ (preserved_and _ _ _ _ durable_preserved held_preserved) _ _ _ _ _ _ _ HI (conj Hdu Hheld) Hev Hx Hsmall Hgood)
    as (I' & Hstep & HI' & [Hdu' Hheld'] & Hnet & _ & Hmax).
  exists I'. split; [done|]. split; [done|]. split; [split; congruence|]. split; [|done].
  rewrite foldl_app. cbn [foldl]. rewrite <-Hch. by eapply ideal_step_chain.
Qed.

Lemma held_undo events now w (st st1 : Stage DB C) :
  index_held events w st → st_processed_mempool st = true → commit_fresh (clock_undo now) (st_db st) →
  rollback_to_point (clock_undo now) (st_last_processed st) st = Ok st1 → index_held events w st1.
Proof.
  intros (I & HI & Hdu & [Hn Hm] & Hch & Hheld) Hmem Hfresh Hroll. rewrite <-(tk_mempool _ _ _ HI) in Hmem.
  destruct (undo_mempool_tracks _ _ _ (preserved_and _ _ _ _ durable_preserved held_preserved) now w st st1 I HI (conj Hdu Hheld) Hfresh Hmem Hroll)
    as (copies & _ & _ & HI1 & [Hdu1 Hheld1] & Hnet & _ & Hmax).
  eexists. split; [exact HI1|]. split; [exact Hdu1|]. split; [split; congruence|]. split; [exact Hch|exact Hheld1].
Qed.

Lemma held_reopen events w (st : Stage DB C) sh st' w' :
  index_held events w st → reopened (st_db st) sh → stage_new config sh = Ok st' → bootstrap st' = Ok w' → index_held events w' st'.
Proof.
  intros (I & HI & Hdu & Hs & Hch & Hheld) Hopen Hnew Hboot.
  destruct (life_restarts config w st I sh) as (st1 & I' & blocks & Hnew1 & Hdb & Hre & Hst & Hs' & Hpts & _ & _ & Hnext); [done..|].
  rewrite Hnew in Hnew1. injection Hnew1 as <-. destruct (Hnext w' Hboot) as [HI' Hdu'].
  exists I'. split; [done|]. split; [done|]. split; [done|]. split; [by rewrite (rs_chain _ _ _ _ Hre)|].
  apply (held_restart w st st' I I' blocks); try done.
  - rewrite Hst. apply Hopen.
  - destruct Hdu' as [blocks' Hdu']. rewrite (du_capacity _ _ _ Hdu'). lia.
  - intros cache. by eapply new_cache_empty.
Qed.

Lemma held_kept : kept config good_block history_kept index_held.
Proof.
  split.
  - exact held_start.
  - intros events now w event st w' st'. apply held_event.
  - exact held_undo.
  - intros events w st sh st' w' Hheld Hopen _ Hnew Hboot. exact (held_reopen _ _ _ _ _ _ Hheld Hopen Hnew Hboot).
Qed.

Lemma good_life_held events w (st : Stage DB C) : good_life events w st → index_held events w st.
Proof. apply lives_kept, held_kept. Qed.
End Life.
End Reorg.
