(* ===== verification/Api.v ===== *)
(** * The description of the API

    The [utoipa::path] attributes of the handlers under src/src/serve/routes
    and the list of [APIDoc] (src/src/serve/openapi.rs): what the server says
    of its operations.  [Server] routes them; here both are compared. *)
From Stdlib Require Import Strings.Ascii Strings.String.
From S2P Require Import Prelude ByteOrder EncDec Timestamp Types MergeOperation Table Rocks.
From S2P Require Import CoreTables KvStore Commit RunesTables Bitcoin Context AddressIndexers Runes Charms Indexers Stage Instances.
From S2P Require Import Text Open Serve Routes Server ServeLaws.

(** Where a parameter is: every one in a path is a string, every one in a
    query an optional flag. *)
Inductive Place : Type := InPath | InQuery.

Record Operation : Type := MkOperation {
  op_tag : string;
  op_method : Method;
  op_path : string;
  op_params : list (string * Place);
  op_body : string;                    (* the type of the answer with status 200 *)
  op_errors : list N;
  op_handler : Handler;                (* the function that carries the attribute *)
}.

Abbreviation address_param := ("address", InPath).
Abbreviation mempool_param := ("mempool", InQuery).

Definition all_charm_utxos_doc : Operation :=
  MkOperation "Addresses" GET "/addresses/{address}/charms/utxos" [address_param; mempool_param]
    "ServeResponse<Vec<CharmUtxo>>" [400; 404; 500]%N AllCharmUtxos.

Definition all_rune_balances_doc : Operation :=
  MkOperation "Addresses" GET "/addresses/{address}/runes/balances"
    [address_param; mempool_param; ("include_info", InQuery)]
    "ServeResponse<Vec<RuneBalanceWithInfo>>" [400; 404; 500]%N AllRuneBalances.

Definition all_rune_utxos_doc : Operation :=
  MkOperation "Addresses" GET "/addresses/{address}/runes/utxos" [address_param; mempool_param]
    "ServeResponse<Vec<RuneUtxo>>" [400; 404; 500]%N AllRuneUtxos.

Definition runes_by_tx_doc : Operation :=
  MkOperation "Addresses" GET "/addresses/{address}/runes/txs/{txid}" [address_param; ("txid", InPath); mempool_param]
    "ServeResponse<Vec<RuneEdict>>" [400; 404; 500]%N RunesByTx.

Definition specific_charm_utxos_doc : Operation :=
  MkOperation "Addresses" GET "/addresses/{address}/charms/utxos/{charm}" [address_param; ("charm", InPath); mempool_param]
    "ServeResponse<Vec<CharmUtxo>>" [400; 404; 500]%N SpecificCharmUtxos.

Definition specific_rune_balance_doc : Operation :=
  MkOperation "Addresses" GET "/addresses/{address}/runes/balances/{rune}" [address_param; ("rune", InPath); mempool_param]
    "ServeResponse<String>" [400; 404; 500]%N SpecificRuneBalance.

Definition specific_rune_utxos_doc : Operation :=
  MkOperation "Addresses" GET "/addresses/{address}/runes/utxos/{rune}" [address_param; ("rune", InPath); mempool_param]
    "ServeResponse<Vec<RuneUtxo>>" [400; 404; 500]%N SpecificRuneUtxos.

Definition tx_count_by_address_doc : Operation :=
  MkOperation "Addresses" GET "/addresses/{address}/tx_count" [address_param; mempool_param]
    "ServeResponse<u64>" [400; 404; 500]%N TxCountByAddress.

Definition utxos_by_address_doc : Operation :=
  MkOperation "Addresses" GET "/addresses/{address}/utxos" [address_param; mempool_param]
    "ServeResponse<Vec<AddressUtxo>>" [400; 404; 500]%N UtxosByAddress.

Definition charm_latest_doc : Operation :=
  MkOperation "Charms (Metaprotocol)" GET "/charms/{charm}/latest" [("charm", InPath); mempool_param]
    "ServeResponse<CharmUtxo>" [400; 404; 500]%N CharmLatest.

Definition charm_value_at_utxo_doc : Operation :=
  MkOperation "Charms (Metaprotocol)" GET "/charms/{charm}/utxos/{utxo}/value"
    [("utxo", InPath); ("charm", InPath); mempool_param]
    "ServeResponse<CharmAndValue>" [400; 404; 500]%N CharmValueAtUtxo.

Definition rune_balance_at_utxo_doc : Operation :=
  MkOperation "Runes (Metaprotocol)" GET "/runes/{rune}/utxos/{utxo}/balance"
    [("utxo", InPath); ("rune", InPath); mempool_param]
    "ServeResponse<String>" [400; 404; 500]%N RuneBalanceAtUtxo.

Definition rune_info_doc : Operation :=
  MkOperation "Runes (Metaprotocol)" GET "/runes/{rune}" [("rune", InPath); mempool_param]
    "ServeResponse<RuneInfo>" [400; 404; 500]%N RuneInfoHandler.

Definition rune_info_batch_doc : Operation :=
  MkOperation "Runes (Metaprotocol)" POST "/runes/info" [mempool_param]
    "ServeResponse<HashMap<String, Option<RuneInfo>>>" [400; 404; 500]%N RuneInfoBatch.

(** [APIDoc]. *)
Definition api_doc : list Operation :=
  [all_rune_balances_doc; all_rune_utxos_doc; runes_by_tx_doc; specific_rune_balance_doc;
   specific_rune_utxos_doc; utxos_by_address_doc; tx_count_by_address_doc; rune_info_batch_doc;
   rune_info_doc; rune_balance_at_utxo_doc; charm_latest_doc; charm_value_at_utxo_doc;
   all_charm_utxos_doc; specific_charm_utxos_doc].

(** ** Patterns that meet *)
Fixpoint overlap (p q : list Segment) : bool :=
  match p, q with
  | [], [] => true
  | Lit s :: p, Lit t :: q => String.eqb s t && overlap p q
  | Param _ :: p, Lit t :: q => negb (String.eqb t "") && overlap p q
  | Lit s :: p, Param _ :: q => negb (String.eqb s "") && overlap p q
  | Param _ :: p, Param _ :: q => overlap p q
  | _, _ => false
  end.

Lemma matches_cons_inv s p path args :
  matches (s :: p) path = Some args →
  ∃ x rest args', path = x :: rest ∧ matches p rest = Some args' ∧
    match s with Lit t => x = t ∧ args = args' | Param _ => x ≠ "" ∧ args = x :: args' end.
Proof.
  destruct path as [|x rest]; [by destruct s|]. destruct s as [t|name]; cbn [matches].
  - destruct (String.eqb_spec t x) as [->|]; [|done]. intros Hm. by exists x, rest, args.
  - destruct (String.eqb_spec x "") as [|Hne]; [done|].
    destruct (matches p rest) as [args'|] eqn:Hm; [|done]. intros [= <-]. by exists x, rest, args'.
Qed.

Lemma overlap_sound p : ∀ q path a b, matches p path = Some a → matches q path = Some b → overlap p q = true.
Proof.
  induction p as [|s p IH]; intros q path a b Ha Hb.
  - destruct path; [|done]. destruct q as [|[]]; done.
  - apply matches_cons_inv in Ha as (x & rest & a' & -> & Ha & Hs).
    destruct q as [|s' q]; [done|]. apply matches_cons_inv in Hb as (x' & rest' & b' & [= <- <-] & Hb & Hs').
    specialize (IH _ _ _ _ Ha Hb). destruct s, s'; destruct Hs as [Hs _], Hs' as [Hs' _]; cbn [overlap]; rewrite IH, ?andb_true_r; subst; try done.
    + apply String.eqb_refl.
    + by apply negb_true_iff, String.eqb_neq.
    + by apply negb_true_iff, String.eqb_neq.
Qed.

Lemma matches_length p : ∀ path args, matches p path = Some args → length args = length (placeholders p).
Proof.
  induction p as [|s p IH]; intros path args Hm.
  - destruct path; [|done]. by injection Hm as <-.
  - apply matches_cons_inv in Hm as (x & rest & args' & -> & Hm & Hs). apply IH in Hm.
    destruct s; destruct Hs as [_ ->]; [done|]. simpl. by rewrite Hm.
Qed.

Lemma prior_asym p : ∀ q, prior p q = true → prior q p = true → False.
Proof.
  induction p as [|s p IH]; intros q Hp Hq; [done|]. destruct q as [|s' q]; [by destruct s|].
  destruct s, s'; try done; cbn [prior] in *; [|by eapply IH].
  apply andb_true_iff in Hp as [_ Hp]. apply andb_true_iff in Hq as [_ Hq]. by eapply IH.
Qed.

(** Of two routes that meet one goes before the other. *)
Definition unambiguous (r r' : Route) : bool :=
  String.eqb (route_path r') (route_path r)
  || negb (overlap (segments (route_path r)) (segments (route_path r')))
  || prior (segments (route_path r)) (segments (route_path r'))
  || String.eqb (route_path r) "/runes/{rune}" && String.eqb (route_path r') "/runes/info".

Lemma routes_unambiguous r r' : r ∈ app_router → r' ∈ app_router → unambiguous r r' = true.
Proof.
  intros Hr Hr'. assert (forallb (λ r, forallb (unambiguous r) app_router) app_router = true) as Hall by by vm_compute.
  rewrite forallb_forall in Hall. apply list_elem_of_In in Hr, Hr'.
  specialize (Hall r Hr). rewrite forallb_forall in Hall. by apply Hall.
Qed.

Lemma routes_nodup : NoDup ((λ r, (route_path r, route_method r)) <$> app_router).
Proof. apply (bool_decide_unpack _). by vm_compute. Qed.

(** The reference implementation keeps the law. *)
Lemma find_unique {A} (f : A → bool) (l : list A) x :
  x ∈ l → f x = true → (∀ y, y ∈ l → f y = true → y = x) → find f l = Some x.
Proof.
  intros Hx Hf Hu. destruct (find f l) as [y|] eqn:Hfind.
  - apply find_some in Hfind as [Hy Hfy]. f_equal. apply Hu; [by apply list_elem_of_In|done].
  - apply list_elem_of_In in Hx. pose proof (find_none _ _ Hfind x Hx). congruence.
Qed.

#[export] Instance simple_axum_ok : AxumOk.
Proof.
  split. intros routes r path args Hnd Hr Hm Hbest. cbn [axum_route simple_axum]. unfold best_route.
  assert (r ∈ filter (λ r, matches (segments (route_path r)) path ≠ None) routes) as Hcand.
  { apply list_elem_of_filter. by rewrite Hm. }
  rewrite (find_unique _ _ r); [by rewrite Hm|done| |].
  - rewrite bool_decide_true by done. apply forallb_forall. intros r' Hr'%list_elem_of_In.
    apply list_elem_of_filter in Hr' as [Hm' Hr']. apply orb_true_iff. destruct (Hbest r' Hr' Hm') as [->|]; [left|by right].
    apply String.eqb_refl.
  - intros y [Hmy Hy]%list_elem_of_filter [Hmeth Hby]%andb_true_iff. apply bool_decide_eq_true in Hmeth.
    rewrite forallb_forall in Hby. apply list_elem_of_In in Hcand. specialize (Hby r Hcand).
    assert (route_path y = route_path r) as Hpath.
    { destruct (Hbest y Hy Hmy) as [|Hp]; [done|]. apply orb_true_iff in Hby as [Hby|Hby]; [symmetry; by apply String.eqb_eq|].
      exfalso. by eapply prior_asym. }
    clear -Hnd Hr Hy Hmeth Hpath. induction routes as [|x routes IH]; [by apply not_elem_of_nil in Hr|].
    rewrite fmap_cons, NoDup_cons in Hnd. destruct Hnd as [Hx Hnd]. rewrite list_elem_of_fmap in Hx.
    apply elem_of_cons in Hr as [->|Hr], Hy as [->|Hy]; [done| | |by apply IH].
    + exfalso. apply Hx. exists y. by rewrite Hpath, Hmeth.
    + exfalso. apply Hx. exists r. by rewrite Hpath, Hmeth.
Qed.

(** ** The description is the router's *)

(** What is documented is routed to the function that carries the attribute,
    with the placeholders of its path as its parameters. *)
Definition described (op : Operation) (r : Route) : bool :=
  String.eqb (route_path r) (op_path op) && bool_decide (route_method r = op_method op)
  && bool_decide (route_handler r = op_handler op).

Definition path_params (op : Operation) : list string :=
  filter_map (λ x : string * Place, match x.2 with InPath => Some x.1 | InQuery => None end) (op_params op).

Lemma described_routes :
  forallb (λ op, existsb (described op) app_router &&
                 forallb (λ name, bool_decide (name ∈ path_params op)) (placeholders (segments (op_path op))) &&
                 (length (path_params op) =? length (placeholders (segments (op_path op))))%nat) api_doc = true ∧
  filter (λ r, existsb (λ op, described op r) api_doc = false) app_router =
    [get "/" Root; get "/dump" Dump; get "/tip" TipHandler].
Proof. by vm_compute. Qed.

Lemma described_route op : op ∈ api_doc → ∃ r, r ∈ app_router ∧ route_path r = op_path op ∧
  route_method r = op_method op ∧ route_handler r = op_handler op.
Proof.
  intros Hop%list_elem_of_In. destruct described_routes as [Hall _]. rewrite forallb_forall in Hall.
  specialize (Hall op Hop). rewrite !andb_true_iff in Hall. destruct Hall as [[Hex _] _].
  apply existsb_exists in Hex as (r & Hr%list_elem_of_In & Hd). unfold described in Hd.
  rewrite !andb_true_iff in Hd. destruct Hd as [[Hp Hm] Hh]. apply String.eqb_eq in Hp.
  apply bool_decide_eq_true in Hm, Hh. by exists r.
Qed.

Section ApiLaws.
Context {DB : Type} `{RocksDB DB} `{!RocksOpen DB} `{HashOrder} `{ServeLib} `{AxumOk}.
Context {Ext : Type} `{!IndexMap TransactionIndexer (list byte) Ext}.
Variable whole : Range.

(** The type a body is serialised from, as the attributes write it. *)
Definition body_type (b : Body) : string :=
  match b with
  | RootText _ | DumpText _ | TipJson _ => ""
  | UtxosBody _ => "ServeResponse<Vec<AddressUtxo>>"
  | CountBody _ => "ServeResponse<u64>"
  | RuneUtxosBody _ => "ServeResponse<Vec<RuneUtxo>>"
  | BalancesBody _ => "ServeResponse<Vec<RuneBalanceWithInfo>>"
  | AmountBody _ => "ServeResponse<String>"
  | EdictsBody _ => "ServeResponse<Vec<RuneEdict>>"
  | InfosBody _ => "ServeResponse<HashMap<String, Option<RuneInfo>>>"
  | InfoBody _ => "ServeResponse<RuneInfo>"
  | CharmUtxosBody _ => "ServeResponse<Vec<CharmUtxo>>"
  | CharmUtxoBody _ => "ServeResponse<CharmUtxo>"
  | CharmValueBody _ => "ServeResponse<CharmAndValue>"
  end.

(** What an operation may answer: the documented body or an error with a
    documented status. *)
Definition documented (op : Operation) (r : Reply) : Prop :=
  match r with
  | Answer status body => status = 200%N ∧ body_type body = op_body op
  | Failure status _ => status ∈ op_errors op
  | Dropped => False
  end.

Lemma error_documented op e : op ∈ api_doc → documented op (reply_of (Err e)).
Proof.
  intros Hop. assert (op_errors op = [400; 404; 500]%N) as Herr.
  { assert (forallb (λ op, bool_decide (op_errors op = [400; 404; 500]%N)) api_doc = true) as Hall by by vm_compute.
    rewrite forallb_forall in Hall. apply list_elem_of_In in Hop. specialize (Hall op Hop). by apply bool_decide_eq_true in Hall. }
  unfold documented. destruct e; cbn [reply_of into_response]; rewrite Herr; set_solver.
Qed.

(** A handler that panics leaves its request without an answer. *)
Definition answered_or_panics (op : Operation) (r : Res ServeError Body) : Prop :=
  match r with
  | Panic _ => reply_of r = Dropped
  | _ => documented op (reply_of r)
  end.

Lemma rmap_documented {A} op (K : A → Body) (r : Res ServeError A) :
  op ∈ api_doc → (∀ a, body_type (K a) = op_body op) → answered_or_panics op (rmap K r).
Proof. intros Hop HK. destruct r as [a|e|why]; [by split; [|apply HK]|by apply error_documented|done]. Qed.

Lemma rune_info_is_get op : op ∈ api_doc → op_path op = "/runes/{rune}" → op_method op = GET.
Proof.
  intros Hop%list_elem_of_In Hpath.
  assert (forallb (λ op, negb (String.eqb (op_path op) "/runes/{rune}") || bool_decide (op_method op = GET)) api_doc = true)
    as Hall by by vm_compute.
  rewrite forallb_forall in Hall. specialize (Hall op Hop). rewrite Hpath in Hall. by apply bool_decide_eq_true in Hall.
Qed.

Lemma info_path path args : matches (segments "/runes/info") path = Some args → path = ["runes"; "info"].
Proof.
  change (segments "/runes/info") with [Lit "runes"; Lit "info"]. intros Hm.
  apply matches_cons_inv in Hm as (x & rest & a & -> & Hm & -> & _).
  apply matches_cons_inv in Hm as (y & rest' & a' & -> & Hm & -> & _). by destruct rest'.
Qed.

Lemma handle_documented op args req (storage : StorageHandler DB) :
  op ∈ api_doc → length args = length (placeholders (segments (op_path op))) →
  ∃ r, handle (Ext:=Ext) whole (op_handler op) args req storage = Some r ∧ answered_or_panics op r.
Proof.
  intros Hop Hlen. pose proof Hop as Hin. unfold api_doc in Hin. rewrite !elem_of_cons in Hin.
  destruct_or! Hin; [..|by apply not_elem_of_nil in Hin]; subst op; vm_compute in Hlen;
    destruct args as [|a1 [|a2 [|]]]; try done; eexists; (split; [reflexivity|]); by apply rmap_documented.
Qed.

(** The data a request works on: a secondary instance is brought up to date
    where that is possible. *)
Definition refreshed (storage : StorageHandler DB) : StorageHandler DB :=
  unwrap_or storage (try_refresh_read_only_data storage).

Lemma serve_request_refreshed m path req (storage : StorageHandler DB) :
  serve_request (Ext:=Ext) whole m path req storage =
  (respond (Ext:=Ext) whole m path req (refreshed storage), refreshed storage).
Proof.
  unfold serve_request, auto_refresh, refreshed. destruct (read_only storage) eqn:Hro.
  - by destruct (try_refresh_read_only_data storage).
  - unfold try_refresh_read_only_data. by rewrite Hro.
Qed.

(** C20: A request for a documented operation reaches the handler that
    carries its description, with the values of the placeholders in the order
    the handler takes them, and works on the refreshed data.  Unless the
    handler panics, in which case nothing is answered, the answer is the
    documented body or an error of a documented status.  One path is left out:
    GET of /runes/info also has the form of a rune called "info", and belongs
    to the batch of rune infos, which is a POST. *)
Theorem documented_requests_are_served op path args req (storage : StorageHandler DB) :
  op ∈ api_doc → matches (segments (op_path op)) path = Some args →
  (op_method op, path) ≠ (GET, ["runes"; "info"]) →
  ∃ r, handle (Ext:=Ext) whole (op_handler op) args req (refreshed storage) = Some r ∧
       serve_request (Ext:=Ext) whole (op_method op) path req storage = (Some (reply_of r), refreshed storage) ∧
       answered_or_panics op r.
Proof.
  intros Hop Hm Hne. destruct (described_route op Hop) as (route & Hr & Hp & Hmeth & Hh).
  destruct (handle_documented op args req (refreshed storage) Hop (matches_length _ _ _ Hm)) as (r & Hhandle & Hdoc).
  exists r. split_and!; [done| |done]. rewrite serve_request_refreshed. f_equal. unfold respond. rewrite <-Hmeth.
  rewrite (axum_route_best _ _ _ args routes_nodup Hr); [by rewrite Hh, Hhandle|by rewrite Hp|].
  intros r' Hr' Hm'. pose proof (routes_unambiguous _ _ Hr Hr') as Hun. unfold unambiguous in Hun.
  rewrite !orb_true_iff in Hun. destruct Hun as [[[Heq|Hno]|Hpr]|Hexc].
  - left. by apply String.eqb_eq.
  - exfalso. destruct (matches (segments (route_path r')) path) as [b|] eqn:Hb; [|done].
    rewrite <-Hp in Hm. by rewrite (overlap_sound _ _ _ _ _ Hm Hb) in Hno.
  - by right.
  - exfalso. apply andb_true_iff in Hexc as [He1%String.eqb_eq He2%String.eqb_eq]. apply Hne.
    destruct (matches (segments (route_path r')) path) as [b|] eqn:Hb; [|done]. rewrite He2 in Hb.
    rewrite (info_path _ _ Hb). f_equal. apply rune_info_is_get; [done|by rewrite <-Hp].
Qed.
End ApiLaws.

(** On a server that knows one address. *)
Module ApiExamples.
Import CommitExamples ServeExamples Instances.Simple.
#[local] Existing Instance sorted_hash_order.

#[local] Instance refdb_open : RocksOpen RefDB := {|
  open_cf_descriptors := λ _ _ _, Ok [];
  open_cf_descriptors_as_secondary := λ _ _ _ _, Ok [];
  try_catch_up_with_primary := Ok;
  db_flush := Ok;
  db_compact_all := id;
  db_property := λ _ _ _, Ok None;
|}.

Definition everything : Range := ([], replicate 40 xff).
Definition plain_request : HttpRequest := MkHttpRequest false false None [].

(** Fixed text goes before a placeholder. *)
Example batch_before_rune :
  axum_route app_router POST ["runes"; "info"] = Some (RuneInfoBatch, []) ∧
  axum_route app_router GET ["runes"; "info"] = None ∧
  axum_route app_router GET ["runes"; "840000:1"] = Some (RuneInfoHandler, ["840000:1"]) ∧
  axum_route app_router GET ["charms"; "t-1"; "utxos"; "ab:0"; "value"] = Some (CharmValueAtUtxo, ["t-1"; "ab:0"]) ∧
  axum_route app_router GET ["addresses"; "addr"; "runes"] = None.
Proof. vm_compute. done. Qed.

Lemma documented_requests_are_served_witness :
  ∃ r, handle (Ext:=SimpleExt) everything UtxosByAddress ["addr"] plain_request (refreshed ex_storage) = Some r ∧
       serve_request (Ext:=SimpleExt) everything GET ["addresses"; "addr"; "utxos"] plain_request ex_storage =
         (Some (reply_of r), refreshed ex_storage) ∧
       answered_or_panics utxos_by_address_doc r.
Proof.
  apply (documented_requests_are_served everything utxos_by_address_doc ["addresses"; "addr"; "utxos"] ["addr"]);
    [apply list_elem_of_In; do 5 right; by left|reflexivity|discriminate].
Defined.
End ApiExamples.
