(* ===== verification/RouteLaws.v ===== *)
(** * What the routes about one address answer

    A route scans the entries of the address's script.  The scan gives them in
    the order of their heights; the routes are compared with the table of
    outputs they list and with each other. *)
From Stdlib Require Import Strings.Ascii Strings.String.
From S2P Require Import Prelude ByteOrder EncDec Timestamp Types MergeOperation Table Rocks.
From S2P Require Import CoreTables KvStore KvStoreLaws Commit RunesTables Bitcoin Context.
From S2P Require Import AddressIndexers Charms Text Serve Routes ServeLaws Instances UtxoBlock.

(** ** The entries of one script *)

(** A table keyed by a script, a height and an output reference. *)
Class ScriptTable {K V : Type} (T : Table K V) `{Codec K} : Type := {
  sk_prefix : list byte;
  sk_script : K → list byte;
  sk_height : K → u64;
  sk_ref : K → TxoRef;
  sk_at : table_at T sk_prefix;
  sk_encode k : encode k = encode (sk_script k) ++ encode (sk_height k) ++ encode (sk_ref k);
  sk_valid k : valid k → valid (sk_script k) ∧ fits 64 (sk_height k);
}.

Section ScriptRange.
Context {K V : Type} (T : Table K V) `{ScriptTable K V T}.

Lemma lex_prefix_between p a b key :
  lex_le (p ++ a) key → lex_lt key (p ++ b) → p `prefix_of` key.
Proof.
  revert key. induction p as [|x p IH]; intros key Hle Hlt; [apply prefix_nil|].
  destruct key as [|y key]; [by destruct Hle|].
  cbn [app] in Hle, Hlt. apply lex_le_lt_or_eq in Hle as [Hle|Heq].
  - rewrite lex_lt_cons in Hle, Hlt. destruct Hle as [?|[-> Hle]], Hlt as [?|[? Hlt]]; simplify_eq; try lia.
    apply prefix_cons. apply IH; [apply lex_le_lt_or_eq; by left|done].
  - injection Heq as -> <-. apply prefix_cons. by apply prefix_app_r.
Qed.

Lemma script_range_prefix (script : list byte) (lo hi : u64) key :
  in_range (script_range T script lo hi) key → sk_prefix ++ encode script `prefix_of` key.
Proof.
  unfold script_range. rewrite (table_encode_range _ _ sk_at). intros [Hle Hlt]. cbn [fst snd] in *.
  change (encode (script, lo)) with (encode script ++ encode lo) in Hle.
  change (encode (script, hi)) with (encode script ++ encode hi) in Hlt.
  rewrite app_assoc in Hle, Hlt. by eapply lex_prefix_between.
Qed.

(** The range holds the entries of the script below the upper height. *)
Lemma script_range_iff (script : list byte) (hi : u64) (k : K) :
  valid script → valid k → fits 64 hi →
  in_range (script_range T script 0 hi) (encode_key T k) ↔ sk_script k = script ∧ (sk_height k < hi)%N.
Proof.
  intros Hs Hk Hhi. pose proof (sk_valid k Hk) as [Hks Hkh].
  assert (∀ h : u64, sk_script k = script →
            lex_lt (encode_key T k) (sk_prefix ++ encode script ++ encode h) ↔
            lex_lt (uint_encode (sk_height k) ++ encode (sk_ref k)) (uint_encode h)) as Hcmp.
  { intros h Heq. rewrite (table_encode_key _ _ sk_at), sk_encode, Heq, !lex_lt_app. done. }
  split.
  - intros Hin. pose proof (script_range_prefix _ _ _ _ Hin) as [rest Hrest].
    rewrite (table_encode_key _ _ sk_at), sk_encode, <-app_assoc in Hrest. apply app_inv_head in Hrest.
    apply encode_app_inj in Hrest as [Heq _]; [|done|done]. split; [exact Heq|].
    unfold script_range in Hin. rewrite (table_encode_range _ _ sk_at) in Hin. destruct Hin as [_ Hlt]. cbn [snd] in Hlt.
    apply (uint_below_iff _ hi (encode (sk_ref k))); [done|done|]. by apply Hcmp.
  - intros [Heq Hlt]. unfold script_range. rewrite (table_encode_range _ _ sk_at). split; cbn [fst snd].
    + change (encode (script, 0%N : u64)) with (encode script ++ uint_encode 0).
      rewrite (table_encode_key _ _ sk_at), (sk_encode k), Heq, !lex_le_app.
      change (encode (sk_height k)) with (uint_encode (sk_height k)).
      apply lex_le_not_lt. intros Hbelow. apply (uint_below_iff _ 0) in Hbelow; [lia|done|apply fits_0].
    + apply Hcmp; [done|]. by apply uint_below_iff.
Qed.

(** Of two entries of one script the first has the lower height. *)
Lemma script_order (a b : K) :
  valid a → valid b → sk_script a = sk_script b → lex_lt (encode_key T a) (encode_key T b) →
  (sk_height a <= sk_height b)%N.
Proof.
  intros Ha Hb Heq Hlt. pose proof (sk_valid a Ha) as [_ Hha]. pose proof (sk_valid b Hb) as [_ Hhb].
  rewrite !(table_encode_key _ _ sk_at), (sk_encode a), (sk_encode b), Heq, !lex_lt_app in Hlt.
  apply N.le_ngt. intros Hab. apply lex_le_not_lt in Hlt; [done|].
  apply lex_le_lt_or_eq. left. eapply lex_lt_le_trans; [|apply (lex_le_prefix (encode (sk_height a)))].
  by apply uint_below_iff.
Qed.
End ScriptRange.

Section ScriptScan.
Context {DB : Type} `{RocksDBOk DB}.
Context {K : Type} (T : Table K unit) `{Codec K} `{!ScriptTable T}.

(** The reader sees the table of these keys. *)
Record table_view (r : Reader DB) (keys : list K) : Prop := {
  tv_low : (db_low (reader_db r) <= as_u64 (reader_timestamp r))%N;
  tv_holds : table_holds T (sk_prefix (T:=T)) ((λ k, (k, tt)) <$> keys) (db_snapshot (reader_db r) (as_u64 (reader_timestamp r)));
  tv_valid : Forall valid keys;
  tv_sorted : StronglySorted lex_lt (encode_key T <$> keys);
}.

(** The keys of the script below a height. *)
Definition entry_of (script : list byte) (hi : u64) (k : K) : Prop :=
  sk_script k = script ∧ (sk_height k < hi)%N.
#[export] Instance entry_of_dec script hi k : Decision (entry_of script hi k).
Proof. apply and_dec; [apply (list_eq_dec (A:=byte))|apply N.lt_dec]. Defined.
Definition entries_of (script : list byte) (hi : u64) (keys : list K) : list K := filter (entry_of script hi) keys.

Lemma filter_fmap_key (P : K → Prop) `{!∀ x : K * unit, Decision (P x.1), !∀ k, Decision (P k)} (keys : list K) :
  filter (λ x : K * unit, P x.1) ((λ k, (k, tt)) <$> keys) = (λ k, (k, tt)) <$> filter P keys.
Proof. induction keys as [|k keys IH]; [done|]. csimpl. rewrite !filter_cons. csimpl. rewrite (decide_ext _ (P k)) by done. case_decide; csimpl; by rewrite IH. Qed.

Lemma script_scan (r : Reader DB) (keys : list K) (script : list byte) (hi : u64) :
  table_view r keys → valid script → fits 64 hi →
  iter_kvs T r (script_range T script 0 hi) false = (λ k, Ok (k, tt)) <$> entries_of script hi keys.
Proof.
  intros [Hlow Hholds Hvalid Hsorted] Hs Hhi.
  rewrite (range_scan T _ (sk_at (T:=T)) ((λ k, (k, tt)) <$> keys)); [| done | exact Hholds | | |].
  - cbv zeta. rewrite (filter_fmap_key (λ k, in_range (script_range T script 0 hi) (encode_key T k))), <-list_fmap_compose.
    f_equal. unfold entries_of. apply filter_ext_in. rewrite Forall_forall in Hvalid.
    intros k Hk. apply script_range_iff; [done|by apply Hvalid|done].
  - apply Forall_fmap, (Forall_impl _ _ _ Hvalid). intros k Hk. by split.
  - by rewrite <-list_fmap_compose.
  - intros k Hk. apply (script_range_prefix T) in Hk. by eapply (prefix_app_l _ _ (encode script)).
Qed.

Lemma entries_sorted (r : Reader DB) (keys : list K) (script : list byte) (hi : u64) :
  table_view r keys → StronglySorted (λ a b, (sk_height a <= sk_height b)%N) (entries_of script hi keys).
Proof.
  intros [_ _ Hvalid Hsorted]. unfold entries_of. induction keys as [|k keys IH]; [constructor|].
  apply Forall_cons in Hvalid as [Hk Hvalid]. rewrite fmap_cons in Hsorted.
  apply StronglySorted_inv in Hsorted as [Hs Hall]. rewrite filter_cons. case_decide as Hd; [|auto].
  constructor; [auto|]. apply Forall_forall. intros k' [[Hd' _] Hk']%list_elem_of_filter.
  rewrite Forall_forall in Hvalid. apply script_order; [done|by apply Hvalid| |].
  - destruct Hd as [-> _]. by rewrite Hd'.
  - rewrite Forall_fmap, Forall_forall in Hall. by apply Hall.
Qed.

Lemma each_key_ok {S} (keys : list K) (init : S) (body : S → K → Res ServeError S) :
  each_key ((λ k, Ok (k, tt)) <$> keys) init body = for_each keys init body.
Proof.
  unfold each_key. revert init. induction keys as [|k keys IH]; intros init; [done|]. cbn [fmap list_fmap for_each map_err rbind fst].
  destruct (body init k); cbn [rbind]; auto.
Qed.
End ScriptScan.

(** ** The tables of the routes *)
#[export] Program Instance utxos_by_address_table : ScriptTable UtxosByAddressKV := {|
  sk_prefix := indexer_table_prefix (unique_id UtxosByAddress) x00;
  sk_script := uba_script;
  sk_height := uba_produced_height;
  sk_ref := uba_txo_ref;
|}.
Next Obligation. apply (indexer_table_at unit). Qed.
Next Obligation. intros k. cbv [encode utxos_by_address_key_encode build append builder_new]. cbn. by rewrite <-?app_assoc. Qed.
Next Obligation. intros k (Hs & Hh & _). by split. Qed.

#[export] Program Instance rune_utxos_table : ScriptTable RuneUtxosByScriptKV := {|
  sk_prefix := indexer_table_prefix (unique_id Runes) (runes_table_id RuneUtxosByScript);
  sk_script := rus_script;
  sk_height := rus_produced_height;
  sk_ref := rus_txo_ref;
|}.
Next Obligation. apply (indexer_table_at unit). Qed.
Next Obligation. intros k. cbv [encode rune_utxos_by_script_key_encode build append builder_new]. cbn. by rewrite <-?app_assoc. Qed.
Next Obligation. intros k (Hs & Hh & _). by split. Qed.

Section AddressRoutes.
Context {DB : Type} `{RocksDBOk DB} `{HashOrderOk} `{ServeLib}.
Context {Ext : Type} `{!IndexMap TransactionIndexer (list byte) Ext, !IndexMapOk TransactionIndexer (list byte) Ext}.

(** The reader sees the table of these outputs. *)
Record utxo_view (r : Reader DB) (U : gmap TxoRef (Utxo Ext)) : Prop := {
  uv_low : (db_low (reader_db r) <= as_u64 (reader_timestamp r))%N;
  uv_stored txo_ref : valid txo_ref →
    db_snapshot (reader_db r) (as_u64 (reader_timestamp r)) !! encode_key (UtxoByTxoRefKV (Ext:=Ext)) txo_ref = encode <$> U !! txo_ref;
  uv_valid txo_ref u : U !! txo_ref = Some u → valid u;
}.

Lemma expected_utxo_eq r U txo_ref :
  utxo_view r U → valid txo_ref →
  expected_utxo r txo_ref =
  match U !! txo_ref with Some u => Ok u | None => Err (UnexpectedMissingData (encode txo_ref)) end.
Proof.
  intros [Hlow Hst Hv] Hr. unfold expected_utxo, get_expected. rewrite reader_get_eq by exact Hlow.
  rewrite Hst by done. destruct (U !! txo_ref) as [u|] eqn:Hu; [|done]. apply Hv in Hu.
  cbn [fmap option_fmap option_map]. unfold decode_value. by rewrite decode_or_encode.
Qed.

Lemma entries_valid {K} (T : Table K unit) `{Codec K} `{!ScriptTable T} (r : Reader DB) keys script hi :
  table_view T r keys → Forall valid (entries_of T script hi keys).
Proof.
  intros [_ _ Hv _]. rewrite Forall_forall in Hv |- *. intros k [_ Hk]%list_elem_of_filter. by apply Hv.
Qed.

(** A loop that looks up the output of each entry. *)
Lemma for_each_utxos {K A} (ref : K → TxoRef) (f : K → Utxo Ext → A) r U (keys : list K) (out : list A) :
  utxo_view r U → Forall (λ k, valid (ref k)) keys →
  let body out key := (utxo ← expected_utxo r (ref key); Ok (out ++ [f key utxo])) in
  (∀ us, Forall2 (λ k u, U !! ref k = Some u) keys us →
     for_each keys out body = Ok (out ++ zip_with f keys us)) ∧
  (∀ l k l' us, keys = l ++ k :: l' → Forall2 (λ k u, U !! ref k = Some u) l us → U !! ref k = None →
     for_each keys out body = Err (UnexpectedMissingData (encode (ref k)))).
Proof.
  intros HU Hv body.
  assert (∀ (ks : list K) us out, Forall (λ k, valid (ref k)) ks → Forall2 (λ k u, U !! ref k = Some u) ks us →
            for_each ks out body = Ok (out ++ zip_with f ks us)) as Hok.
  { clear Hv keys out. intros ks us out Hv Hus. revert out. induction Hus as [|k u ks us Hu Hus IH]; intros out.
    - by rewrite app_nil_r.
    - apply Forall_cons in Hv as [Hk Hv]. cbn [for_each zip_with]. unfold body at 1.
      rewrite (expected_utxo_eq _ _ _ HU Hk), Hu. cbn [rbind]. rewrite IH by done. by rewrite <-app_assoc. }
  split.
  - intros us Hus. by apply Hok.
  - intros l k l' us -> Hus Hk. apply Forall_app in Hv as [Hl [Hkv _]%Forall_cons].
    rewrite for_each_app, (Hok l us) by done. cbn [rbind for_each]. unfold body at 1.
    by rewrite (expected_utxo_eq _ _ _ HU Hkv), Hk.
Qed.

Definition address_utxo (key : UtxosByAddressKey) (utxo : Utxo Ext) : AddressUtxo :=
  MkAddressUtxo (show_hash (tx_hash (uba_txo_ref key))) (txo_index (uba_txo_ref key))
    (uba_produced_height key) (show_N (satoshis utxo)).

Lemma utxos_by_address_reply (sh : StorageHandler DB) (mempool : bool) (address : string)
    (script_pk : list byte) (r : Reader DB) (info : ServeInfo) (keys : list UtxosByAddressKey) U :
  start_reader mempool sh = Ok (r, info) → parse_address address = Some script_pk → valid script_pk →
  table_view UtxosByAddressKV r keys → utxo_view r U →
  let listed := entries_of UtxosByAddressKV script_pk u64_MAX keys in
  StronglySorted (λ a b, (uba_produced_height a <= uba_produced_height b)%N) listed ∧
  (∀ us, Forall2 (λ k u, U !! uba_txo_ref k = Some u) listed us →
     addresses_utxos_by_address (Ext:=Ext) sh mempool address = Ok (MkResponse (zip_with address_utxo listed us) info)) ∧
  (∀ l k l' us, listed = l ++ k :: l' → Forall2 (λ k u, U !! uba_txo_ref k = Some u) l us →
     U !! uba_txo_ref k = None →
     addresses_utxos_by_address (Ext:=Ext) sh mempool address = Err (UnexpectedMissingData (encode (uba_txo_ref k)))).
Proof.
  intros Hstart Haddr Hs Hkeys HU listed.
  pose proof (entries_valid _ _ _ script_pk u64_MAX Hkeys) as Hv.
  assert (Forall (λ k, valid (uba_txo_ref k)) listed) as Hrefs by (apply (Forall_impl _ _ _ Hv); by intros k (_ & _ & ?)).
  destruct (for_each_utxos uba_txo_ref address_utxo r U listed [] HU Hrefs) as [Hall Hmiss].
  assert (addresses_utxos_by_address (Ext:=Ext) sh mempool address =
    (utxos ← for_each listed [] (λ out key, utxo ← expected_utxo r (uba_txo_ref key); Ok (out ++ [address_utxo key utxo]));
     Ok (MkResponse utxos info))) as Heq.
  { unfold addresses_utxos_by_address, address_script. rewrite Hstart. cbn [rbind]. rewrite Haddr. cbn [ok_or rbind].
    change (saturating_add 64 u64_MAX 1) with u64_MAX.
    rewrite (script_scan _ _ _ _ _ Hkeys Hs) by (vm_compute; reflexivity). by rewrite each_key_ok. }
  split_and!.
  - apply (entries_sorted _ _ _ _ _ Hkeys).
  - intros us Hus. by rewrite Heq, (Hall us Hus).
  - intros l k l' us Hl Hus Hk. by rewrite Heq, (Hmiss l k l' us Hl Hus Hk).
Qed.

(** C18: The outputs of an address: the answer lists one record for each entry
    the table has for the script, with the amount of the stored output, in
    the order of their heights; when the output of an entry is not stored the
    answer is the error that names the first such output. *)
Theorem utxos_by_address_answers (sh : StorageHandler DB) (mempool : bool) (address : string)
    (script_pk : list byte) (r : Reader DB) (info : ServeInfo) (keys : list UtxosByAddressKey) U :
  start_reader mempool sh = Ok (r, info) → parse_address address = Some script_pk → valid script_pk →
  table_view UtxosByAddressKV r keys → utxo_view r U →
  let listed := entries_of UtxosByAddressKV script_pk u64_MAX keys in
  StronglySorted (λ a b, (uba_produced_height a <= uba_produced_height b)%N) listed ∧
  (∀ us, Forall2 (λ k u, U !! uba_txo_ref k = Some u) listed us →
     addresses_utxos_by_address (Ext:=Ext) sh mempool address = Ok (MkResponse (zip_with address_utxo listed us) info)) ∧
  (∀ l k l' us, listed = l ++ k :: l' → Forall2 (λ k u, U !! uba_txo_ref k = Some u) l us →
     U !! uba_txo_ref k = None →
     addresses_utxos_by_address (Ext:=Ext) sh mempool address = Err (UnexpectedMissingData (encode (uba_txo_ref k)))).
Proof. exact (utxos_by_address_reply sh mempool address script_pk r info keys U). Qed.

(** ** Runes *)

(** What an output of the script holds: the entry, the output and its runes. *)
Definition rune_output (r : Reader DB) (kv : Res Error (RuneUtxosByScriptKey * unit)) :
    Res ServeError (RuneUtxosByScriptKey * Utxo Ext * UtxoRunes) :=
  kv ← map_err Symphony kv;
  utxo ← expected_utxo r (rus_txo_ref kv.1);
  utxo_runes ← utxo_rune_list utxo;
  Ok (kv.1, utxo, utxo_runes).

Definition held (r : Reader DB) (script_pk : list byte) :
    Res ServeError (list (RuneUtxosByScriptKey * Utxo Ext * UtxoRunes)) :=
  collect (iter_kvs RuneUtxosByScriptKV r (script_range RuneUtxosByScriptKV script_pk 0 u64_MAX) false) (rune_output r).

Definition show_output (x : RuneUtxosByScriptKey * Utxo Ext * UtxoRunes) : RuneUtxo := rune_utxo x.1.1 x.1.2 x.2.

Lemma held_loop {S} (r : Reader DB) (script_pk : list byte) (s : S)
    (f : S → RuneUtxosByScriptKey * Utxo Ext * UtxoRunes → S) :
  each_key (iter_kvs RuneUtxosByScriptKV r (script_range RuneUtxosByScriptKV script_pk 0 u64_MAX) false) s
    (λ s key, utxo ← expected_utxo r (rus_txo_ref key); utxo_runes ← utxo_rune_list utxo; Ok (f s (key, utxo, utxo_runes))) =
  (outputs ← held r script_pk; Ok (foldl f s outputs)).
Proof.
  unfold held. rewrite <-for_each_collect. unfold each_key. apply for_each_ext. intros s' kv. unfold rune_output.
  destruct (map_err Symphony kv) as [[key []]| |]; cbn [rbind fst]; [|done..].
  destruct (expected_utxo r _) as [utxo| |]; cbn [rbind]; [|done..].
  by destruct (utxo_rune_list utxo).
Qed.

(** The listings with and without a choice of rune. *)
Lemma all_rune_loop (r : Reader DB) (script_pk : list byte) :
  each_key (iter_kvs RuneUtxosByScriptKV r (script_range RuneUtxosByScriptKV script_pk 0 u64_MAX) false) []
    (λ utxos key, utxo ← expected_utxo (Ext:=Ext) r (rus_txo_ref key); utxo_runes ← utxo_rune_list utxo;
       Ok (utxos ++ [rune_utxo key utxo utxo_runes])) =
  (outputs ← held r script_pk; Ok (show_output <$> outputs)).
Proof.
  etransitivity; [exact (held_loop r script_pk [] (λ out x, out ++ [show_output x]))|].
  destruct (held r script_pk) as [outputs| |]; cbn [rbind]; [|done..]. by rewrite foldl_push_all.
Qed.

Lemma specific_rune_loop (r : Reader DB) (script_pk : list byte) (id : RuneId) :
  each_key (iter_kvs RuneUtxosByScriptKV r (script_range RuneUtxosByScriptKV script_pk 0 u64_MAX) false) []
    (λ utxos key, utxo ← expected_utxo (Ext:=Ext) r (rus_txo_ref key); utxo_runes ← utxo_rune_list utxo;
       if decide (id ∈ utxo_runes.*1) then Ok (utxos ++ [rune_utxo key utxo utxo_runes]) else Ok utxos) =
  (outputs ← held r script_pk; Ok (show_output <$> filter (λ x, id ∈ x.2.*1) outputs)).
Proof.
  etransitivity; [|etransitivity; [exact (held_loop r script_pk []
    (λ out x, if decide (id ∈ x.2.*1) then out ++ [show_output x] else out))|]].
  - apply for_each_ext. intros s kv. destruct (map_err Symphony kv) as [[key []]| |]; cbn [rbind fst]; [|done..].
    destruct (expected_utxo r _) as [utxo| |]; cbn [rbind]; [|done..].
    destruct (utxo_rune_list utxo) as [runes| |]; cbn [rbind snd]; [|done..]. by case_decide.
  - destruct (held r script_pk) as [outputs| |]; cbn [rbind]; [|done..]. by rewrite foldl_push.
Qed.

(** C19: The outputs of an address that hold one rune are the outputs of the
    address that hold runes, in the same order, less those without the rune;
    when the listing of all fails, the listing of one fails the same way. *)
Theorem specific_rune_utxos_select (sh : StorageHandler DB) (mempool : bool) (address rune : string)
    (script_pk : list byte) (r : Reader DB) (info : ServeInfo) (id : RuneId) :
  start_reader mempool sh = Ok (r, info) → parse_address address = Some script_pk → resolve_rune r rune = Ok id →
  addresses_all_rune_utxos (Ext:=Ext) sh mempool address =
    (outputs ← held r script_pk; Ok (MkResponse (show_output <$> outputs) info)) ∧
  addresses_specific_rune_utxos (Ext:=Ext) sh mempool address rune =
    (outputs ← held r script_pk; Ok (MkResponse (show_output <$> filter (λ x, id ∈ x.2.*1) outputs) info)).
Proof.
  intros Hstart Haddr Hid. unfold addresses_all_rune_utxos, addresses_specific_rune_utxos, address_script.
  rewrite Hstart. cbn [rbind]. rewrite Haddr. cbn [ok_or rbind]. rewrite Hid. cbn [rbind].
  change (saturating_add 64 u64_MAX 1) with u64_MAX. rewrite all_rune_loop, specific_rune_loop.
  by destruct (held r script_pk).
Qed.

(** ** Balances *)

(** The quantity of a rune in a list of amounts. *)
Definition quantity_total (id : RuneId) (l : UtxoRunes) : N :=
  foldr (λ x n, if decide (x.1 = id) then (x.2 + n)%N else n) 0%N l.

Lemma quantity_total_cons id x l :
  quantity_total id (x :: l) = if decide (x.1 = id) then (x.2 + quantity_total id l)%N else quantity_total id l.
Proof. done. Qed.

Lemma quantity_total_app id l1 l2 : quantity_total id (l1 ++ l2) = (quantity_total id l1 + quantity_total id l2)%N.
Proof. induction l1 as [|x l1 IH]; [done|]. cbn [app]. rewrite !quantity_total_cons, IH. case_decide; [apply N.add_assoc|done]. Qed.

Lemma quantity_total_other id l : id ∉ l.*1 → quantity_total id l = 0%N.
Proof.
  induction l as [|x l IH]; [done|]. rewrite fmap_cons. intros [Hne Hl]%not_elem_of_cons.
  rewrite quantity_total_cons, decide_False by done. by apply IH.
Qed.

(** With one amount for each rune it is the first amount found. *)
Lemma quantity_of_total id l : NoDup l.*1 → default 0%N (quantity_of id l) = quantity_total id l.
Proof.
  unfold quantity_of. induction l as [|x l IH]; [done|]. rewrite fmap_cons. intros [Hx Hl]%NoDup_cons.
  rewrite quantity_total_cons. cbn [find]. destruct (decide (x.1 = id)) as [<-|Hne].
  - rewrite bool_decide_true by done. rewrite quantity_total_other by done. symmetry. apply N.add_0_r.
  - rewrite bool_decide_false by done. by apply IH.
Qed.

(** The sum as the routes keep it. *)
Definition wrapped_total (id : RuneId) (l : UtxoRunes) : u128 := (quantity_total id l mod 2 ^ 128)%N.

Lemma balances_lookup (l : UtxoRunes) id :
  foldl add_quantity ∅ l !! id = if decide (id ∈ l.*1) then Some (wrapped_total id l) else None.
Proof.
  induction l as [|x l IH] using rev_ind.
  { rewrite decide_False by apply not_elem_of_nil. apply lookup_empty. }
  rewrite foldl_snoc, fmap_app. unfold wrapped_total in *. rewrite quantity_total_app, quantity_total_cons. unfold add_quantity at 1. cbn [quantity_total foldr fmap list_fmap].
  destruct (decide (x.1 = id)) as [<-|Hne].
  - rewrite lookup_insert_eq, decide_True by (apply elem_of_app; right; by left). rewrite IH. f_equal. unfold wrapping_add.
    case_decide as Hd; cbn [default from_option].
    + rewrite N.add_0_r. apply N.Div0.add_mod_idemp_l.
    + by rewrite (quantity_total_other _ _ Hd), N.add_0_r.
  - rewrite lookup_insert_ne, IH, N.add_0_r by done. apply decide_ext.
    rewrite elem_of_app, list_elem_of_singleton. naive_solver.
Qed.

(** All that the outputs hold. *)
Definition holdings (outputs : list (RuneUtxosByScriptKey * Utxo Ext * UtxoRunes)) : UtxoRunes := outputs ≫= snd.

Lemma all_balances_held (r : Reader DB) (script_pk : list byte) :
  all_balances (Ext:=Ext) r script_pk = (outputs ← held r script_pk; Ok (foldl add_quantity ∅ (holdings outputs))).
Proof.
  unfold all_balances. etransitivity; [exact (held_loop r script_pk ∅ (λ b x, foldl add_quantity b x.2))|].
  destruct (held r script_pk) as [outputs| |]; cbn [rbind]; [|done..]. f_equal. unfold holdings.
  generalize (∅ : gmap RuneId u128). induction outputs as [|o outputs IH]; intros b; [done|].
  cbn [foldl mbind list_bind]. by rewrite IH, foldl_app.
Qed.

Lemma add_first id (n : N) (l : UtxoRunes) :
  NoDup l.*1 →
  (match quantity_of id l with
   | Some q => wrapping_add 128 (n mod 2 ^ 128)%N q
   | None => (n mod 2 ^ 128)%N
   end : u128) = ((n + quantity_total id l) mod 2 ^ 128)%N.
Proof.
  intros Hl. rewrite <-(quantity_of_total _ _ Hl). destruct (quantity_of id l); cbn [default from_option].
  - apply N.Div0.add_mod_idemp_l.
  - by rewrite N.add_0_r.
Qed.

Lemma specific_balance_held (r : Reader DB) (script_pk : list byte) id outputs :
  held r script_pk = Ok outputs → Forall (λ o, NoDup o.2.*1) outputs →
  specific_balance (Ext:=Ext) r script_pk id = Ok (wrapped_total id (holdings outputs)).
Proof.
  intros Hheld Hnd. unfold specific_balance. set (add := λ (balance : u128) (x : RuneUtxosByScriptKey * Utxo Ext * UtxoRunes),
    match quantity_of id x.2 with Some q => wrapping_add 128 balance q | None => balance end : u128).
  etransitivity; [exact (held_loop r script_pk (0%N : u128) add)|]. rewrite Hheld. cbn [rbind]. f_equal. unfold holdings.
  clear Hheld. induction outputs as [|o outputs IH] using rev_ind; [done|].
  apply Forall_app in Hnd as [Hnd [Ho _]%Forall_cons]. specialize (IH Hnd).
  rewrite foldl_snoc, bind_app. cbn [mbind list_bind]. rewrite app_nil_r, IH. unfold add, wrapped_total.
  rewrite quantity_total_app. by apply add_first.
Qed.

#[export] Instance rune_id_le_total : Total rune_id_le.
Proof. intros a b. unfold rune_id_le. lia. Qed.
#[export] Instance rune_id_le_trans : Transitive rune_id_le.
Proof. intros a b c. unfold rune_id_le. lia. Qed.

Lemma sorted_balances_spec (balances : gmap RuneId u128) :
  StronglySorted rune_id_le (sorted_balances balances) ∧ NoDup (sorted_balances balances).*1 ∧
  ∀ id q, (id, q) ∈ sorted_balances balances ↔ balances !! id = Some q.
Proof.
  assert (sorted_balances balances ≡ₚ map_to_list balances) as Hperm.
  { unfold sorted_balances. by rewrite merge_sort_Permutation, hm_iter_perm. }
  split_and!.
  - apply (StronglySorted_merge_sort rune_id_le).
  - rewrite Hperm. apply NoDup_fst_map_to_list.
  - intros id q. by rewrite Hperm, elem_of_map_to_list.
Qed.

Definition show_balance (x : RuneId * u128) : RuneBalanceWithInfo :=
  MkRuneBalanceWithInfo (show_rune_id x.1) (show_N x.2) None.

(** C17: The balances of an address: one for each rune its listed outputs hold,
    in the order of the rune ids, each the sum of what the outputs hold of the
    rune modulo 2^128; the balance of a single rune is the same sum, 0 for a
    rune that is not held. *)
Theorem rune_balances_sum (sh : StorageHandler DB) (mempool : bool) (address : string)
    (script_pk : list byte) (r : Reader DB) (info : ServeInfo)
    (outputs : list (RuneUtxosByScriptKey * Utxo Ext * UtxoRunes)) :
  start_reader mempool sh = Ok (r, info) → parse_address address = Some script_pk →
  held r script_pk = Ok outputs → Forall (λ o, NoDup o.2.*1) outputs →
  (∃ balances, addresses_all_rune_balances (Ext:=Ext) sh mempool false address =
      Ok (MkResponse (show_balance <$> balances) info) ∧
    StronglySorted rune_id_le balances ∧ NoDup balances.*1 ∧
    ∀ id q, (id, q) ∈ balances ↔ id ∈ (holdings outputs).*1 ∧ q = wrapped_total id (holdings outputs)) ∧
  ∀ rune id, resolve_rune r rune = Ok id →
    addresses_specific_rune_balance (Ext:=Ext) sh mempool address rune =
    Ok (MkResponse (show_N (wrapped_total id (holdings outputs))) info).
Proof.
  intros Hstart Haddr Hheld Hnd.
  set (balances := foldl add_quantity ∅ (holdings outputs)).
  destruct (sorted_balances_spec balances) as (Hs & Hnds & Hin). split.
  - exists (sorted_balances balances). split_and!; [|done|done|].
    + unfold addresses_all_rune_balances, address_script. rewrite Hstart. cbn [rbind]. rewrite Haddr. cbn [ok_or rbind].
      rewrite all_balances_held, Hheld. cbn [rbind]. fold balances.
      assert (∀ (l : list (RuneId * u128)) out, for_each l out (λ out x, rune_info ← balance_info r false x.1;
                Ok (out ++ [MkRuneBalanceWithInfo (show_rune_id x.1) (show_N x.2) rune_info])) =
              Ok (out ++ (show_balance <$> l)) :> Res ServeError _) as Hloop.
      { induction l as [|x l IH]; intros out; [by rewrite app_nil_r|]. cbn [for_each balance_info rbind].
        by rewrite IH, <-app_assoc. }
      by rewrite Hloop.
    + intros id q. rewrite Hin. unfold balances. rewrite balances_lookup. case_decide; naive_solver.
  - intros rune id Hid. unfold addresses_specific_rune_balance, address_script. rewrite Hstart. cbn [rbind].
    rewrite Haddr. cbn [ok_or rbind]. rewrite Hid. cbn [rbind]. by rewrite (specific_balance_held _ _ _ outputs).
Qed.
End AddressRoutes.

(** ** Views of a concrete store *)
Section Views.
Context {K V : Type} `{Codec K, Codec V}.

(** The definition of [table_holds], entry by entry. *)
Lemma table_holds_check (T : Table K V) (prefix : list byte) (records : list (K * V)) (s : Snapshot) :
  bool_decide (map_Forall (λ (k : RawKey) (v : RawValue), prefix `prefix_of` k →
    Exists (λ r : K * V, k = encode_key T r.1 ∧ v = encode r.2) records) s) = true →
  forallb (λ r : K * V, bool_decide (prefix `prefix_of` encode_key T r.1) &&
                        bool_decide (s !! encode_key T r.1 = Some (encode r.2))) records = true →
  table_holds T prefix records s.
Proof.
  intros Hs%bool_decide_eq_true Hr k v. rewrite forallb_forall in Hr. split.
  - intros [Hp Hk]. specialize (Hs k v Hk Hp). apply Exists_exists in Hs as (r & Hin & -> & ->). by exists r.
  - intros (r & Hin & -> & ->). apply list_elem_of_In in Hin. specialize (Hr r Hin).
    apply andb_prop in Hr as [Hp%bool_decide_eq_true He%bool_decide_eq_true]. by split.
Qed.
End Views.

Lemma utxo_view_of {DB : Type} `{RocksDBOk DB} {Ext : Type} `{!IndexMap TransactionIndexer (list byte) Ext}
    `{!IndexMapOk TransactionIndexer (list byte) Ext} (r : Reader DB) (records : list (TxoRef * Utxo Ext)) prefix :
  (db_low (reader_db r) <= as_u64 (reader_timestamp r))%N → table_at (UtxoByTxoRefKV (Ext:=Ext)) prefix →
  table_holds UtxoByTxoRefKV prefix records (db_snapshot (reader_db r) (as_u64 (reader_timestamp r))) →
  NoDup records.*1 → Forall (λ x, valid x.1 ∧ valid x.2) records →
  utxo_view r (list_to_map records).
Proof.
  intros Hlow HT Hholds Hnd Hv. rewrite Forall_forall in Hv. split; [done| |].
  - intros txo_ref Hr. destruct (list_to_map records !! txo_ref) as [u|] eqn:Hu; cbn [fmap option_fmap option_map].
    + apply elem_of_list_to_map in Hu; [|done]. apply (Hholds (encode_key _ _) (encode u)). by exists (txo_ref, u).
    + destruct (_ !! encode_key _ txo_ref) as [v|] eqn:Hk; [|done]. apply not_elem_of_list_to_map in Hu.
      destruct (proj1 (Hholds (encode_key (UtxoByTxoRefKV (Ext:=Ext)) txo_ref) v)) as (x & Hx & Heq & _).
      { split; [|exact Hk]. rewrite (table_encode_key _ _ HT). by apply prefix_app_r. }
      apply (encode_key_inj _ _ HT) in Heq as ->; [|done|by apply Hv]. destruct Hu. apply list_elem_of_fmap. by exists x.
  - intros txo_ref u Hu. apply elem_of_list_to_map in Hu; [|done]. by apply (Hv _ Hu).
Qed.

(** ** Examples *)
Module RouteExamples.
Import Instances.Simple CommitExamples ServeExamples.

Definition ref (i : N) : TxoRef := MkTxoRef (replicate 32 xa0) i.
Definition out1 : Utxo SimpleExt := MkUtxo 546%N [x51] 1%N (im_insert Runes (encode ([(MkRuneId 1 1, 5%N)] : UtxoRunes)) im_new).
Definition out2 : Utxo SimpleExt :=
  MkUtxo 330%N [x51] 2%N
    (im_insert Runes (encode ([(MkRuneId 1 1, 7%N); (MkRuneId 1 0, 9%N)] : UtxoRunes)) im_new).
Definition ex_outs : list (TxoRef * Utxo SimpleExt) := [(ref 0, out1); (ref 1, out2)].
Definition ex_keys : list UtxosByAddressKey :=
  [MkUtxosByAddressKey [x51] 1%N (ref 0); MkUtxosByAddressKey [x51] 2%N (ref 1); MkUtxosByAddressKey [x52] 1%N (ref 3)].
Definition ex_rune_keys : list RuneUtxosByScriptKey :=
  [MkRuneUtxosByScriptKey [x51] 1%N (ref 0); MkRuneUtxosByScriptKey [x51] 2%N (ref 1)].

(** The tip, the outputs of two scripts, and two outputs with runes. *)
Definition ex_data : Snapshot :=
  list_to_map ((encode_key TimestampsKV Confirmed, encode ex_confirmed) ::
    ((λ k, (encode_key UtxosByAddressKV k, encode tt)) <$> ex_keys) ++
    ((λ k, (encode_key RuneUtxosByScriptKV k, encode tt)) <$> ex_rune_keys) ++
    ((λ x : TxoRef * Utxo SimpleExt, (encode_key (UtxoByTxoRefKV (Ext:=SimpleExt)) x.1, encode x.2)) <$> ex_outs)).
Definition ex_server : StorageHandler RefDB := MkStorage [(5%N, ex_data)] (Some (from_u64 5%N)) false.
Definition ex_reader : Reader RefDB := reader (from_u64 5%N) ex_server.
Definition ex_info : ServeInfo := tip_info 98%N (replicate 32 x0a).

Lemma ex_start : start_reader false ex_server = Ok (ex_reader, ex_info).
Proof.
  unfold start_reader. rewrite (get_expected_maybe _ _ _ ex_confirmed); [reflexivity|].
  apply (get_maybe_found ex_server Confirmed ex_confirmed).
  - split_and!; [vm_compute; reflexivity|vm_compute; reflexivity|split; [vm_compute; reflexivity|apply N.le_0_l]].
  - split_and!; vm_compute; reflexivity.
  - apply (bool_decide_eq_true_1 _). vm_compute. reflexivity.
Qed.

Definition ex_utxos : gmap TxoRef (Utxo SimpleExt) := list_to_map ex_outs.

Lemma ex_table_view : table_view UtxosByAddressKV ex_reader ex_keys.
Proof.
  split.
  - apply N.le_0_l.
  - apply table_holds_check; vm_compute; reflexivity.
  - unfold ex_keys. repeat (constructor; [refine (conj (valid_bytes _ _) (conj _ (conj _ _))); vm_compute; reflexivity|]). constructor.
  - repeat constructor.
Qed.

Lemma ex_utxo_view : utxo_view ex_reader ex_utxos.
Proof.
  apply (utxo_view_of _ _ [CORE_INDEXER_TAG; core_indexer_id UtxoByTxoRefTag]).
  - apply N.le_0_l.
  - apply (core_table_at (Utxo SimpleExt)).
  - apply table_holds_check; vm_compute; reflexivity.
  - apply (bool_decide_unpack _). vm_compute. reflexivity.
  - repeat (constructor; [split; [split|apply utxo_valid_of_length]; vm_compute; reflexivity|]). constructor.
Qed.

Example utxos_by_address_answers_witness :
  addresses_utxos_by_address (Ext:=SimpleExt) ex_server false "addr" =
  Ok (MkResponse [MkAddressUtxo "hash" 0%N 1%N "546"; MkAddressUtxo "hash" 1%N 2%N "330"] ex_info).
Proof.
  destruct (utxos_by_address_answers ex_server false "addr" [x51] ex_reader ex_info ex_keys ex_utxos
              ex_start eq_refl) as (_ & Hall & _).
  - apply valid_bytes. vm_compute. reflexivity.
  - apply ex_table_view.
  - apply ex_utxo_view.
  - rewrite (Hall [out1; out2]); [vm_compute; reflexivity|]. repeat constructor.
Defined.

Definition ex_outputs : list (RuneUtxosByScriptKey * Utxo SimpleExt * UtxoRunes) :=
  [(MkRuneUtxosByScriptKey [x51] 1%N (ref 0), out1, [(MkRuneId 1 1, 5%N)]);
   (MkRuneUtxosByScriptKey [x51] 2%N (ref 1), out2, [(MkRuneId 1 1, 7%N); (MkRuneId 1 0, 9%N)])].

Lemma ex_held : held ex_reader [x51] = Ok ex_outputs.
Proof. vm_compute. reflexivity. Qed.

Example specific_rune_utxos_select_witness :
  addresses_specific_rune_utxos (Ext:=SimpleExt) ex_server false "addr" "1:0" =
  Ok (MkResponse [MkRuneUtxo "hash" 1%N 2%N "330" [MkRuneAndAmount "1:1" "7"; MkRuneAndAmount "1:0" "9"]] ex_info).
Proof.
  destruct (specific_rune_utxos_select (Ext:=SimpleExt) ex_server false "addr" "1:0" [x51] ex_reader ex_info (MkRuneId 1 0)
              ex_start eq_refl eq_refl) as [_ Hone].
  rewrite Hone, ex_held. vm_compute. reflexivity.
Defined.

Example rune_balances_sum_witness :
  addresses_specific_rune_balance (Ext:=SimpleExt) ex_server false "addr" "1:1" = Ok (MkResponse "12" ex_info) ∧
  ∃ balances, addresses_all_rune_balances (Ext:=SimpleExt) ex_server false false "addr" =
      Ok (MkResponse (show_balance <$> balances) ex_info) ∧ (MkRuneId 1 0, 9%N : u128) ∈ balances.
Proof.
  destruct (rune_balances_sum ex_server false "addr" [x51] ex_reader ex_info ex_outputs ex_start eq_refl ex_held)
    as [(balances & Hall & _ & _ & Hin) Hone].
  - repeat constructor; apply (bool_decide_unpack _); vm_compute; reflexivity.
  - split; [rewrite (Hone "1:1" (MkRuneId 1 1) eq_refl); vm_compute; reflexivity|].
    exists balances. split; [exact Hall|]. apply Hin. split; [|vm_compute; reflexivity].
    apply (bool_decide_unpack _). vm_compute. reflexivity.
Defined.
End RouteExamples.
