(* ===== verification/AddressAnswers.v ===== *)
(** * From blocks to answers

    The two halves of the program put together: after the index stage has
    indexed a block, a request for the outputs of an address
    (src/src/serve/routes/addresses/utxos_by_address.rs) is answered with
    exactly the unspent outputs of the address, whatever indexers are enabled
    besides. *)
From S2P Require Import Prelude ByteOrder EncDec Timestamp Types MergeOperation Table Rocks.
From S2P Require Import CoreTables KvStore KvStoreLaws Commit RollbackBuffer Bitcoin Context.
From S2P Require Import AddressIndexers RunesTables Runes Charms Indexers Stage Instances StageLaws Chain.
From S2P Require Import UtxoSet UtxoLaws UtxoBlock BlockTotal AddressLaws AddressTable History Persist Durable.
From S2P Require Import Text Serve Routes ServeLaws RouteLaws.

(** ** The entries of a listing, in the order of their keys *)
Section Entries.
Context (V : Listing) (HV : listing_valid V).

Definition entry_of_listing (p : TxoRef * (ScriptPubKey * BlockHeight)) : UtxosByAddressKey :=
  MkUtxosByAddressKey p.2.1 p.2.2 p.1.
Definition listing_keys : list UtxosByAddressKey :=
  merge_sort (lex_le_by (encode_key UtxosByAddressKV)) (entry_of_listing <$> map_to_list V).

Lemma elem_of_listing_keys k : k ∈ listing_keys ↔ listed V k.
Proof.
  unfold listing_keys. rewrite merge_sort_Permutation, list_elem_of_fmap. split.
  - intros ([r [s h]] & -> & Hp%elem_of_map_to_list). exact Hp.
  - intros Hl. exists (uba_txo_ref k, (uba_script k, uba_produced_height k)). split; [by destruct k|].
    by apply elem_of_map_to_list.
Qed.

Lemma listed_valid k : listed V k → valid k.
Proof. intros Hl. destruct k as [s h r]. exact (HV r s h Hl). Qed.

Lemma listing_keys_valid : Forall valid listing_keys.
Proof. apply Forall_forall. intros k Hk. by apply listed_valid, elem_of_listing_keys. Qed.

Lemma listing_keys_nodup : NoDup listing_keys.
Proof.
  unfold listing_keys. rewrite merge_sort_Permutation. apply NoDup_fmap_2; [|apply NoDup_map_to_list].
  intros [r1 [s1 h1]] [r2 [s2 h2]] Heq. by injection Heq as -> -> ->.
Qed.

Lemma listing_keys_sorted : StronglySorted lex_lt (encode_key UtxosByAddressKV <$> listing_keys).
Proof.
  apply sorted_lt_by; [apply (StronglySorted_merge_sort (lex_le_by (encode_key UtxosByAddressKV)))|].
  apply NoDup_fmap_2_strong; [|apply listing_keys_nodup].
  pose proof listing_keys_valid as Hv. rewrite Forall_forall in Hv. intros k k' Hk Hk'. apply address_key_inj; by apply Hv.
Qed.
End Entries.

(** ** What a reader sees *)
Section Answers.
Context {DB : Type} `{RocksDBOk DB} `{HashOrderOk} `{Ordinals} `{!CharmsLib} `{!Machine} `{ServeLib}.
Context {Ext : Type} `{!IndexMap TransactionIndexer (list byte) Ext, !IndexMapOk TransactionIndexer (list byte) Ext}.
Context {C : Type} `{!MokaCache (Utxo Ext) C, !MokaCacheOk (Utxo Ext) C}.

Abbreviation data st := (db_latest (sh_db (st_db st))).
Abbreviation seen r := (db_snapshot (reader_db r) (as_u64 (reader_timestamp r))).

Lemma table_view_of V (r : Reader DB) :
  (db_low (reader_db r) <= as_u64 (reader_timestamp r))%N → address_table V (seen r) →
  table_view UtxosByAddressKV r (listing_keys V).
Proof.
  intros Hlow [Hv Hin Hout Honly].
  split; [exact Hlow| |by apply listing_keys_valid|by apply listing_keys_sorted]. intros raw v. split.
  - intros [Hp Hraw].
    destruct (decide (Exists (λ k, raw = encode_key UtxosByAddressKV k) (listing_keys V))) as [Hex|Hno].
    + apply Exists_exists in Hex as (k & Hk & ->). exists (k, tt). split; [apply list_elem_of_fmap; by exists k|]. split; [done|].
      apply elem_of_listing_keys in Hk. rewrite (Hin k (listed_valid V Hv k Hk) Hk) in Hraw. by injection Hraw.
    + exfalso. rewrite (Honly raw) in Hraw; [done|exact Hp|]. intros k Hk ->.
      destruct (decide (V !! uba_txo_ref k = Some (uba_script k, uba_produced_height k))) as [Hl|Hl].
      * apply Hno, Exists_exists. exists k. split; [|done]. by apply elem_of_listing_keys.
      * by rewrite (Hout k Hk Hl) in Hraw.
  - intros ([k []] & Hk & -> & ->). apply list_elem_of_fmap in Hk as (k' & [= <-] & Hk).
    apply elem_of_listing_keys in Hk. split; [apply indexer_table_key|]. apply Hin; [by apply (listed_valid V)|done].
Qed.

#[local] Instance txo_ref_valid_dec (r : TxoRef) : Decision (valid r).
Proof. apply and_dec; [apply Nat.eq_dec|apply N.lt_dec]. Defined.

(** The stored outputs of a set. *)
Definition stored_utxos (U : UtxoSet) (s : Snapshot) : gmap TxoRef (Utxo Ext) :=
  map_imap (λ r _, if decide (valid r) then s !! utxo_raw (Ext:=Ext) r ≫= λ b, ok (decode_all b : Res DecodingError (Utxo Ext)) else None) U.

Lemma stored_utxos_lookup U s r :
  utxo_set_stored (Ext:=Ext) U s → valid r →
  match U !! r with
  | Some u => ∃ x, stored_utxos U s !! r = Some x ∧ base x = u ∧ stored s r x
  | None => stored_utxos U s !! r = None ∧ s !! utxo_raw (Ext:=Ext) r = None
  end.
Proof.
  intros HU Hr. specialize (HU r Hr). unfold stored_utxos. rewrite map_lookup_imap. destruct (U !! r) as [u|]; [|done].
  destruct HU as (x & [Hx Hv] & Hb). exists x. cbn [mbind option_bind]. rewrite decide_True by done. rewrite Hx.
  cbn [mbind option_bind]. by rewrite decode_all_encode.
Qed.

Lemma utxo_view_of_set U (r : Reader DB) :
  (db_low (reader_db r) <= as_u64 (reader_timestamp r))%N → utxo_set_stored (Ext:=Ext) U (seen r) →
  utxo_view r (stored_utxos U (seen r)).
Proof.
  intros Hlow HU. split; [exact Hlow| |].
  - intros o Ho. pose proof (stored_utxos_lookup U _ o HU Ho) as Hl. destruct (U !! o) as [u|].
    + destruct Hl as (x & -> & _ & [Hs _]). exact Hs.
    + destruct Hl as [-> Hs]. exact Hs.
  - intros o x Hx. unfold stored_utxos in Hx. rewrite map_lookup_imap in Hx. destruct (U !! o) as [u|] eqn:Hu; [|done].
    cbn [mbind option_bind] in Hx. case_decide as Ho; [|done]. pose proof (stored_utxos_lookup U _ o HU Ho) as Hl.
    rewrite Hu in Hl. destruct Hl as (y & _ & _ & [Hs Hv]). rewrite Hs in Hx. cbn [mbind option_bind] in Hx.
    rewrite decode_all_encode in Hx by done. by injection Hx as <-.
Qed.

(** ** The answer *)

Definition pays (script_pk : list byte) (p : TxoRef * Utxo unit) : Prop := script p.2 = script_pk.
#[local] Instance pays_dec script_pk p : Decision (pays script_pk p) := list_eq_dec (A:=byte) _ _.

(** The unspent outputs of a script. *)
Definition unspent_of (script_pk : list byte) (U : UtxoSet) : list (TxoRef * Utxo unit) :=
  filter (pays script_pk) (map_to_list U).

Definition answered (p : TxoRef * Utxo unit) : AddressUtxo :=
  MkAddressUtxo (show_hash (tx_hash p.1)) (txo_index p.1) (height p.2) (show_N (satoshis p.2)).

(** The entries of a script that can be spent are its unspent outputs. *)
Definition entry_of_output (p : TxoRef * Utxo unit) : UtxosByAddressKey := entry_of_listing (p.1, place p.2).

Lemma script_entries V U script_pk :
  listing_valid V → agrees V U → is_op_return script_pk = false → map_Forall (λ _ u, (height u < u64_MAX)%N) U →
  ∃ outs, entries_of UtxosByAddressKV script_pk u64_MAX (listing_keys V) = entry_of_output <$> outs ∧
    outs ≡ₚ unspent_of script_pk U.
Proof.
  intros Hv Hag Hop Hmax.
  assert (entries_of UtxosByAddressKV script_pk u64_MAX (listing_keys V) ≡ₚ entry_of_output <$> unspent_of script_pk U) as Hp.
  { apply NoDup_Permutation.
    - apply NoDup_filter, listing_keys_nodup.
    - apply NoDup_fmap_2_strong; [|apply NoDup_filter, NoDup_map_to_list].
      intros [r1 u1] [r2 u2] Hu1%list_elem_of_filter Hu2%list_elem_of_filter Heq. injection Heq as _ _ <-.
      destruct Hu1 as [_ Hu1%elem_of_map_to_list], Hu2 as [_ Hu2%elem_of_map_to_list]. rewrite Hu1 in Hu2. by injection Hu2 as <-.
    - intros k. rewrite list_elem_of_fmap. unfold entries_of, unspent_of. rewrite list_elem_of_filter, elem_of_listing_keys.
      setoid_rewrite list_elem_of_filter. split.
      + intros [[Hs _] Hk]. cbn in Hs. pose proof (Hag (uba_txo_ref k)) as Hu. unfold listed in Hk. rewrite Hk, Hs, Hop in Hu.
        destruct (U !! uba_txo_ref k) as [u|] eqn:Huk; [|done]. injection Hu as Hus Huh.
        exists (uba_txo_ref k, u). split; [by destruct k; cbn in *; subst|]. split; [exact Hus|by apply elem_of_map_to_list].
      + intros ([r u] & -> & [Hs Hu%elem_of_map_to_list]). destruct (agrees_listed _ _ _ _ Hag Hu) as [Hl _].
        split; [split; [exact Hs|exact (Hmax r u Hu)]|exact Hl]. }
  apply Permutation_map_inv in Hp as (outs & Heq & Hp). exists outs. by split.
Qed.

(** The stored values of outputs of the set. *)
Lemma stored_outputs U s (outs : list (TxoRef * Utxo unit)) :
  utxo_set_stored (Ext:=Ext) U s → Forall (λ p, valid p.1 ∧ U !! p.1 = Some p.2) outs →
  ∃ us, Forall2 (λ k u, stored_utxos U s !! uba_txo_ref k = Some u) (entry_of_output <$> outs) us ∧
    zip_with address_utxo (entry_of_output <$> outs) us = answered <$> outs.
Proof.
  intros HU. induction 1 as [|[r u] outs [Hr Hu] _ (us & Hus & Heq)]; [by exists []|].
  pose proof (stored_utxos_lookup U s r HU Hr) as Hl. cbn [fst snd] in Hu. rewrite Hu in Hl.
  destruct Hl as (x & Hx & Hb & _). exists (x :: us). split; [by constructor|]. csimpl. rewrite Heq. f_equal. by rewrite <-Hb.
Qed.

(** A request for the outputs of an address. *)
Lemma address_reply V U (sh : StorageHandler DB) mempool address script_pk (r : Reader DB) info :
  start_reader mempool sh = Ok (r, info) → (db_low (reader_db r) <= as_u64 (reader_timestamp r))%N →
  address_table V (seen r) → utxo_set_stored (Ext:=Ext) U (seen r) → agrees V U →
  parse_address address = Some script_pk → valid script_pk → is_op_return script_pk = false →
  map_Forall (λ _ u, (height u < u64_MAX)%N) U →
  ∃ outs, outs ≡ₚ unspent_of script_pk U ∧ StronglySorted N.le ((λ p, height p.2) <$> outs) ∧
    addresses_utxos_by_address (Ext:=Ext) sh mempool address = Ok (MkResponse (answered <$> outs) info).
Proof.
  intros Hstart Hlow HV HU Hag Haddr Hs Hop Hmax. pose proof (at_valid _ _ HV) as Hv.
  destruct (script_entries V U script_pk Hv Hag Hop Hmax) as (outs & Heq & Hp). exists outs.
  destruct (utxos_by_address_reply sh mempool address script_pk r info _ _ Hstart Haddr Hs
              (table_view_of V r Hlow HV) (utxo_view_of_set U r Hlow HU)) as (Hsorted & Hall & _).
  rewrite Heq in Hsorted, Hall. split; [exact Hp|].
  assert (Forall (λ p, valid p.1 ∧ U !! p.1 = Some p.2) outs) as Hin.
  { apply Forall_forall. intros [q u] Hq. rewrite Hp in Hq. apply list_elem_of_filter in Hq as [_ Hq%elem_of_map_to_list].
    split; [|exact Hq]. destruct (agrees_listed _ _ _ _ Hag Hq) as [Hl _]. exact (proj2 (proj2 (Hv _ _ _ Hl))). }
  destruct (stored_outputs U (seen r) outs HU Hin) as (us & Hus & Hzip). split.
  - clear -Hsorted. induction outs as [|p outs IH]; [constructor|]. csimpl in *. apply StronglySorted_inv in Hsorted as [Hsorted Hall].
    constructor; [by apply IH|]. pose proof (proj1 (Forall_fmap entry_of_output _ outs) Hall) as Hout. apply Forall_fmap. exact Hout.
  - by rewrite <-Hzip, (Hall us Hus).
Qed.

(** C12: From the chain to the answer: when the index stage, whatever indexers
    it runs besides the one of addresses, has indexed a valid block on top of
    a store that holds a set of unspent outputs, the store holds the set after
    the block, and every request for the outputs of an address is answered
    with exactly the unspent outputs that pay it, each once, in the order of
    their heights, at the tip of the block.  The store must not name a mempool
    snapshot on a tip of the same hash: requests for the mempool would be given
    that one. *)
Theorem block_is_answered now w point txs (st st' : Stage DB C) V U
    (U' := apply_block (point_height point) txs U) :
  address_indexed (Ext:=Ext) V U st → address_worker w.(w_indexers) → point_ok point → valid_block (point_height point) U txs →
  listable_block V txs → commit_fresh (clock_commit now) (st_db st) →
  (∀ task cache, block_task (Ext:=Ext) now w point txs st = Ok (task, cache) → keys_fit task ∧ values_fit task) →
  no_mempool_at (point_hash point) (data st) → map_Forall (λ _ u, (height u < u64_MAX)%N) U' →
  index_block (Ext:=Ext) now w point txs st = Ok st' →
  address_indexed (Ext:=Ext) (list_block (point_height point) txs V) U' st' ∧
  ∀ mempool address script_pk, parse_address address = Some script_pk → valid script_pk → is_op_return script_pk = false →
    ∃ outs, outs ≡ₚ unspent_of script_pk U' ∧ StronglySorted N.le ((λ p, height p.2) <$> outs) ∧
      addresses_utxos_by_address (Ext:=Ext) (st_db st') mempool address =
        Ok (MkResponse (answered <$> outs) (tip_info (point_height point) (point_hash point))).
Proof.
  intros HI Hw Hp Hv Hlist Hfresh Hfit Hmem Hmax Hidx.
  assert (address_indexed (Ext:=Ext) (list_block (point_height point) txs V) U' st') as HI' by (by eapply index_block_indexed).
  split; [exact HI'|]. intros mempool address script_pk Haddr Hs Hop.
  destruct (index_block_commit now w point txs st st') as (task & cache & _ & _ & Hm & _ & Hres & _);
    [apply HI|intros task cache Ht; by apply (Hfit task cache)|done..|].
  destruct (commit_served _ _ _ _ _ _ Hres Hp Hm Hmem) as (r & Hstart & _ & Hlow & Hsnap).
  destruct HI' as [_ HU' _ Htab Hag]. eapply address_reply; rewrite ?Hsnap; [apply Hstart|exact Hlow|done..].
Qed.
End Answers.

(** ** An address that spends its output and mines the next block *)
Module AnswerExamples.
Import Simple SimpleBitcoin StageExamples UtxoExamples AddressExamples ServeExamples.

Definition ex_data : Snapshot :=
  <[encode_key UtxosByAddressKV listed0 := encode tt]> {[utxo_raw (Ext:=SimpleExt) r0 := encode u0]}.
Definition ex_answer_stage : SimpleStage :=
  MkStage (MkStorage [(5%N, ex_data)] (Some (from_u64 5%N)) false)
    [] Regtest (MkRollbackBuffer [e1] 18%N true) 16%N p1 false (Some (MkUtxoCache {[r0 := u0]} 0%N 0%N)) None.
Abbreviation ex_block := (block_task (Ext:=SimpleExt) ex_now ex_worker p2 ex_txs ex_answer_stage).
Definition ex_answer_task : IndexingTask RefDB * option (UtxoCache SimpleCache) :=
  unwrap_or (begin_indexing_task true (st_db ex_answer_stage), None) ex_block.

Lemma ex_key_ne r (k : UtxosByAddressKey) : utxo_raw (Ext:=SimpleExt) r ≠ encode_key UtxosByAddressKV k.
Proof. intros Heq. apply (f_equal head) in Heq. discriminate Heq. Qed.

Lemma ex_data_utxo r : valid r → ex_data !! utxo_raw (Ext:=SimpleExt) r = if decide (r0 = r) then Some (encode u0) else None.
Proof.
  intros Hr. unfold ex_data. rewrite lookup_insert_ne.
  - case_decide as Heq; [subst r; apply lookup_singleton_eq|]. apply lookup_singleton_ne. intros Hraw. apply Heq.
    eapply utxo_raw_inj; [apply ex_r0_valid|exact Hr|exact Hraw].
  - intros Heq. by destruct (ex_key_ne r listed0).
Qed.

Lemma ex_answer_indexed : address_indexed (Ext:=SimpleExt) ex_listing ex_utxos ex_answer_stage.
Proof.
  split.
  - split; [split_and!; [vm_compute; reflexivity|vm_compute; reflexivity|split; [vm_compute; reflexivity|apply N.le_0_l]]|].
    intros k v Hk Hv. revert k v Hv Hk. apply (bool_decide_unpack (map_Forall (λ (k : RawKey) (v : RawValue),
      counter_key k → is_Some (ok (decode_all v : Res DecodingError u128))) (db_latest (sh_db (st_db ex_answer_stage))))).
    vm_compute. reflexivity.
  - intros r Hr. change (db_latest _) with ex_data. rewrite ex_data_utxo by done. unfold ex_utxos. case_decide as Heq.
    + subst r. rewrite lookup_singleton_eq. exists u0. split; [|done]. split; [apply (ex_data_utxo r0 Hr)|exact ex_u0_valid].
    + by rewrite lookup_singleton_ne.
  - intros c r x Hc Hg. injection Hc as <-. unfold utxo_cache_get in Hg. cbn in Hg.
    apply lookup_singleton_Some in Hg as [<- <-]. split; [apply ex_r0_valid|]. intros _. split; [|exact ex_u0_valid].
    apply (ex_data_utxo r0 ex_r0_valid).
  - split.
    + apply ex_lists.
    + intros k Hk Hl.
      assert (k = listed0) as ->; [|apply lookup_insert_eq].
      unfold listed, ex_listing in Hl. apply lookup_singleton_Some in Hl as [Hr Heq]. destruct k. cbn in *. subst. by injection Heq as <- <-.
    + intros k Hk Hl. change (db_latest _) with ex_data. unfold ex_data. rewrite lookup_insert_ne.
      * apply lookup_singleton_ne, ex_key_ne.
      * intros Heq. apply Hl. rewrite <-(address_key_inj _ _ listed0_valid Hk Heq). apply (lookup_singleton_eq r0 ([x51], 1%N : u64)).
    + intros raw Hp Hraw. change (db_latest _) with ex_data. unfold ex_data. rewrite lookup_insert_ne.
      * apply lookup_singleton_ne. intros <-. destruct Hp as [l Hp]. apply (f_equal head) in Hp. discriminate Hp.
      * intros <-. by apply (Hraw _ listed0_valid).
  - intros r. unfold ex_listing, ex_utxos. destruct (decide (r0 = r)) as [<-|Hne].
    + rewrite !lookup_singleton_eq. reflexivity.
    + by rewrite !lookup_singleton_ne.
Qed.

Lemma ex_answer_fits : keys_fit ex_answer_task.1 ∧ values_fit ex_answer_task.1.
Proof.
  split.
  - apply (bool_decide_unpack (set_Forall (λ k : RawKey, fits 64 (N.of_nat (length k)))
             (dom (write_buffer ex_answer_task.1)))). vm_compute. reflexivity.
  - intros k v Hv. revert v Hv. enough (∀ a, write_buffer ex_answer_task.1 !! k = Some a → set_fits a) as Hall
      by (intros v Hv; exact (Hall _ Hv)).
    revert k. apply (bool_decide_unpack (map_Forall (λ (_ : RawKey) (a : StorageAction), set_fits a)
             (write_buffer ex_answer_task.1))). vm_compute. reflexivity.
Qed.

Lemma ex_listable : listable_block ex_listing ex_txs.
Proof.
  split.
  - apply (bool_decide_unpack _). vm_compute. reflexivity.
  - repeat constructor.
  - intros r [p Hr]. unfold ex_listing in Hr. apply lookup_singleton_Some in Hr as [<- _]. apply (bool_decide_unpack _). vm_compute. reflexivity.
Qed.

Lemma ex_heights : map_Forall (λ _ u, (height u < u64_MAX)%N) (apply_block (point_height p2) ex_txs ex_utxos).
Proof.
  assert (Forall (λ p : TxoRef * Utxo unit, (height p.2 <? u64_MAX)%N = true) (map_to_list (apply_block (point_height p2) ex_txs ex_utxos))) as Hall
    by (apply (bool_decide_unpack _); vm_compute; reflexivity).
  intros r u Hu. rewrite Forall_forall in Hall. apply N.ltb_lt, (Hall (r, u)). by apply elem_of_map_to_list.
Qed.

Example block_is_answered_witness :
  ∃ st', index_block (Ext:=SimpleExt) ex_now ex_worker p2 ex_txs ex_answer_stage = Ok st' ∧
    addresses_utxos_by_address (Ext:=SimpleExt) (st_db st') false "addr" =
    Ok (MkResponse [MkAddressUtxo "hash" 0%N 2%N "5000"] (tip_info 2%N (replicate 32 x02))).
Proof.
  set (st' := unwrap_or ex_answer_stage (index_block (Ext:=SimpleExt) ex_now ex_worker p2 ex_txs ex_answer_stage)).
  assert (index_block (Ext:=SimpleExt) ex_now ex_worker p2 ex_txs ex_answer_stage = Ok st') as Hidx
    by (apply is_ok_unwrap; vm_compute; reflexivity).
  exists st'. split; [exact Hidx|].
  destruct (block_is_answered ex_now ex_worker p2 ex_txs ex_answer_stage st' ex_listing ex_utxos) as [_ Hall].
  - apply ex_answer_indexed.
  - exists [ITxCountByAddress MkTxCountByAddressIndexer], MkUtxosByAddressIndexer, []. split; [reflexivity|].
    split; repeat constructor; discriminate.
  - split; vm_compute; reflexivity.
  - apply ex_block_valid.
  - apply ex_listable.
  - apply refdb_fresh. vm_compute. reflexivity.
  - intros task cache Ht. replace task with ex_answer_task.1; [apply ex_answer_fits|]. unfold ex_answer_task. by rewrite Ht.
  - unfold no_mempool_at. replace (_ !! _) with (None : option RawValue) by (vm_compute; reflexivity). done.
  - apply ex_heights.
  - exact Hidx.
  - destruct (Hall false "addr"%string [x51] eq_refl) as (outs & Hp & _ & Heq).
    + split; [vm_compute; reflexivity|by repeat constructor].
    + reflexivity.
    + rewrite Heq.
      assert (unspent_of [x51] (apply_block (point_height p2) ex_txs ex_utxos) =
        [(output_ref coinbase2 0, MkUtxo 5000%N [x51] 2%N tt)]) as Hun by (vm_compute; reflexivity).
      rewrite Hun in Hp. apply Permutation_singleton_r in Hp. rewrite Hp. vm_compute. reflexivity.
Defined.
End AnswerExamples.
