(* ===== verification/ReorgAnswers.v ===== *)
(** * From the chain to the answers

    The whole of the index and of a request put together: whatever blocks,
    rollbacks, mempool snapshots and restarts have come, a request for the
    outputs of an address is answered with exactly the unspent outputs of the
    chain as of the last indexed block, which after a rollback is the undone
    one until another block is indexed. *)
From S2P Require Import Prelude Float ByteOrder EncDec Timestamp Types MergeOperation Table Rocks.
From S2P Require Import CoreTables KvStore KvStoreLaws Commit RollbackBuffer Bitcoin Context.
From S2P Require Import AddressIndexers RunesTables Runes Charms Indexers Stage Instances StageLaws Chain.
From S2P Require Import UtxoSet UtxoLaws UtxoBlock BlockTotal AddressLaws AddressTable CacheFlow ChainUtxos.
From S2P Require Import History Persist Durable Restart Text Serve Routes ServeLaws Served Reorg RouteLaws AddressAnswers.

(** ** The chain that is served *)
Section ServedChain.
Context `{Bitcoin}.

(** An event that has a block indexed, on a chain. *)
Definition indexes (chain : list BlockHash) (event : ChainEvent) : bool :=
  match event with
  | RollForward point _ _ _ => (N.of_nat (length chain) <? point_height point)%N
  | _ => false
  end.

(** The chain, and the one of the last block that was indexed. *)
Definition serve_event (c : list BlockHash * list BlockHash) (event : ChainEvent) : list BlockHash * list BlockHash :=
  let chain := follow_event c.1 event in (chain, if indexes c.1 event then chain else c.2).
Definition served_chain (events : list ChainEvent) : list BlockHash := (foldl serve_event ([], []) events).2.

Lemma serve_events_chain events : (foldl serve_event ([], []) events).1 = foldl follow_event [] events.
Proof. induction events as [|event events IH] using rev_ind; [done|]. rewrite !foldl_app. cbn [foldl]. by rewrite <-IH. Qed.

Lemma served_chain_snoc events event :
  served_chain (events ++ [event]) =
  let chain := foldl follow_event [] events in
  if indexes chain event then follow_event chain event else served_chain events.
Proof. unfold served_chain. rewrite foldl_app. cbn [foldl serve_event snd]. by rewrite serve_events_chain. Qed.
End ServedChain.

Section ReorgAnswers.
Context {DB : Type} `{RocksDBOk DB} `{HashOrderOk} `{Ordinals} `{!CharmsLib} `{!Machine} `{ServeLib}.
Context {Ext : Type} `{!IndexMap TransactionIndexer (list byte) Ext, !IndexMapOk TransactionIndexer (list byte) Ext}.
Context {C : Type} `{!MokaCache (Utxo Ext) C, !MokaCacheOk (Utxo Ext) C}.
Context (content : BlockHash → BlockTxs) (config : Config).
Context (Hgenesis : length (genesis_hash (cfg_network config)) = 32).
Context (Hfits : fits 64 (default DEFAULT_MAX_ROLLBACK (cfg_max_rollback config) + 2)).

Abbreviation data st := (db_latest (sh_db (st_db st))).
Abbreviation life := (lives (Ext:=Ext) (C:=C) (DB:=DB) config (good_block content) history_kept).
Abbreviation tip_of chain := (History.chain_tip (genesis_hash (cfg_network config)) chain).
Abbreviation chain_after events := (foldl follow_event [] events).

(** What the store serves of a chain. *)
Definition chain_served (sh : StorageHandler DB) (chain : list BlockHash) : Prop :=
  (N.of_nat (length chain) < u64_MAX)%N ∧ ∃ s, serves sh (tip_of chain) s ∧ utxo_set_stored (Ext:=Ext) (chain_utxos content chain) s ∧
    address_table (chain_listing content chain) s ∧ agrees (chain_listing content chain) (chain_utxos content chain).

Lemma chain_served_same sh sh' chain :
  (∀ p s, serves sh p s → serves sh' p s) → chain_served sh chain → chain_served sh' chain.
Proof. intros Hall (Hlen & s & Hs & Hrest). split; [exact Hlen|]. exists s. split; [by apply Hall|exact Hrest]. Qed.

(** What the index holds of its chain is served when the tip is. *)
Lemma held_served w (st : Stage DB C) I :
  tracks w st I → chain_held content st I → id_mempool I = false → st_network st = cfg_network config →
  serves (st_db st) (id_tip I) (data st) → chain_served (st_db st) (id_chain I).
Proof.
  intros HI [(s & Hs & Hholds) _ _] Hm Hnet Hserves. unfold without_mempool in Hs. rewrite Hm in Hs. symmetry in Hs.
  apply (holds_same _ _ _ _ _ Hs) in Hholds. destruct (tk_chain _ _ _ HI) as (_ & _ & Htip). rewrite Hnet in Htip.
  split; [rewrite <-(chain_at_height _ _ _ _ (tk_chain _ _ _ HI)); apply HI|].
  exists (data st). rewrite <-Htip. split; [exact Hserves|]. destruct Hholds. by split_and!.
Qed.

(** A store that serves a chain answers with its unspent outputs. *)
Lemma served_answer sh chain :
  storage_ok sh → chain_served sh chain → confirmed_readable sh →
  ∀ address script_pk, parse_address address = Some script_pk → valid script_pk → is_op_return script_pk = false →
  ∃ outs, outs ≡ₚ unspent_of script_pk (chain_utxos content chain) ∧
    StronglySorted N.le ((λ p, height p.2) <$> outs) ∧
    addresses_utxos_by_address (Ext:=Ext) sh false address =
      Ok (MkResponse (answered <$> outs) (tip_info (point_height (tip_of chain)) (point_hash (tip_of chain)))).
Proof.
  intros Hok (Hlen & s & Hserves & HU & HV & Hag) Hread address script_pk Haddr Hs Hop.
  destruct (serves_start _ _ _ Hok Hserves Hread) as (r & Hstart & Hdb & Hlow & Hsnap).
  eapply address_reply; rewrite ?Hsnap; [exact Hstart|exact Hlow|exact HV|exact HU|exact Hag|exact Haddr|exact Hs|exact Hop|].
  intros o u Hu. apply chain_utxos_created in Hu as [_ Hle]. lia.
Qed.

(** ** Every event *)
Lemma forward_served now w point header txs tip (st st' : Stage DB C) w' I served :
  tracks w st I → durable st I → chain_held content st I → st_network st = cfg_network config →
  event_ok now w (RollForward point header txs tip) st → roll_forward now w point header txs tip st = Ok (w', st') →
  (∃ I', tracks w' st' I' ∧ chain_held content st' I' ∧ id_chain I' = follow_event (id_chain I) (RollForward point header txs tip)) →
  (served = [] ∨ chain_served (st_db st) served) →
  let event := RollForward point header txs tip in
  let served' := if indexes (id_chain I) event then follow_event (id_chain I) event else served in
  served' = [] ∨ chain_served (st_db st') served'.
Proof.
  intros HI Hdu Hheld Hnet (Hfresh & Hl & Hh & Hst1) Hroll (I' & HI' & Hheld' & Hch') Hserved event served'.
  destruct (forward_settle_tracks _ _ _ preserved_nothing _ _ _ _ _ _ _ _ _ _ HI Logic.I Hfresh Hroll)
    as (st1 & copies & Hun & _ & (HI1 & _ & Hsetup) & Hroll1).
  destruct (Hst1 st1 Hun) as [Hfresh1 Hkeys1].
  pose proof (chain_at_height _ _ _ _ (tk_chain _ _ _ HI)) as Hlen. unfold served'.
  assert (indexes (id_chain I) event = (point_height (id_tip I) <? point_height point)%N) as -> by (cbn; by rewrite <-Hlen).
  destruct (forward_tracks now w point header txs tip st1 st' w' _ HI1 eq_refl Hl Hh Hfresh1 Hkeys1 Hroll1)
    as [Hsetup1 [(Hle & -> & ->)|(Hht & _ & Hidx & Hwi & _ & copies' & _ & HI2)]]; cbn [id_chain id_tip id_copies] in *.
  - apply N.ltb_ge in Hle as ->. destruct Hserved as [|Hs]; [by left|right]. eapply chain_served_same; [|exact Hs].
    intros p s. by eapply undone_serves.
  - replace (point_height (id_tip I) <? point_height point)%N with true by (symmetry; apply N.ltb_lt; lia). right.
    assert (serves (st_db st') point (data st')) as Hserves.
    { eapply (index_block_serves now w'); [apply HI1|exact Hfresh1|split; [unfold fits, u64_MAX in *; lia|exact Hl]| |exact Hidx].
      intros task cache. specialize (Hkeys1 (w_mutable w') task cache). rewrite <-Hwi in Hkeys1. by destruct w'. }
    fold event in Hch'. rewrite <-Hch'. apply (held_served w' st' I' HI' Hheld').
    + by rewrite (tk_mempool _ _ _ HI'), <-(tk_mempool _ _ _ HI2).
    + destruct Hsetup as (Hn & _), Hsetup1 as (Hn1 & _). congruence.
    + by rewrite (tk_tip _ _ _ HI'), <-(tk_tip _ _ _ HI2).
Qed.

Lemma mempool_served now w info blocks (st st' : Stage DB C) I p s :
  tracks w st I → durable st I → event_ok now w (MempoolBlocks info blocks) st →
  mempool_blocks now w info blocks st = Ok st' → serves (st_db st) p s → serves (st_db st') p s.
Proof.
  intros HI Hdu (Hfresh & Hst1) Hmb Hserves. unfold mempool_blocks in Hmb. cbv zeta in Hmb.
  apply res_bind_ok in Hmb as (newer & Hsince & Hmb). apply or_panic_ok in Hsince.
  apply res_bind_ok in Hmb as (st1 & Hundo & Hmb).
  destruct (mempool_settle_tracks _ _ _ preserved_nothing now w st st1 I newer HI Logic.I Hfresh Hsince Hundo)
    as (Hun & copies & _ & _ & HI1 & _). destruct (Hst1 st1 Hun) as [Hfresh1 Hkeys1].
  pose proof (undone_serves _ _ _ _ _ _ _ HI Hdu Hfresh Hun Hserves) as Hserves1. case_decide; [by injection Hmb as <-|].
  by eapply index_mempool_serves.
Qed.

(** *** The life of the index *)
Definition held_and_served (events : list ChainEvent) (w : Worker) (st : Stage DB C) : Prop :=
  index_held content config events w st ∧ (served_chain events = [] ∨ chain_served (st_db st) (served_chain events)).

Lemma event_served events now w event (st : Stage DB C) w' st' :
  held_and_served events w st → event_ok now w event st → execute now w event st = Ok (w', st') → small_after st' →
  event_good (good_block content) now w event st (chain_after events) →
  served_chain (events ++ [event]) = [] ∨ chain_served (st_db st') (served_chain (events ++ [event])).
Proof.
  intros [Hheld Hserved] Hev Hx Hsmall Hgood. pose proof (held_event _ _ _ _ _ _ _ _ _ Hheld Hev Hx Hsmall Hgood) as (I' & HI' & _ & _ & Hch' & Hheld').
  destruct Hheld as (I & HI & Hdu & [Hnet _] & Hch & Hheld).
  rewrite foldl_app in Hch'. cbn [foldl] in Hch'. rewrite <-Hch in Hch'. rewrite served_chain_snoc. cbv zeta. rewrite <-Hch.
  destruct event as [point header txs tip|point|info blocks]; cbn [execute] in Hx; cbn [indexes].
  - eapply forward_served; try done. by exists I'.
  - apply res_bind_ok in Hx as (st1 & Hroll & Hx). injection Hx as <- <-. destruct Hserved as [|Hs]; [by left|right].
    eapply chain_served_same; [|exact Hs]. intros p s. destruct Hdu as [bs Hdu], Hev as [Hfresh _].
    eapply rollback_serves; [apply HI|exact Hfresh|exact (du_entries _ _ _ Hdu)|exact Hroll].
  - apply res_bind_ok in Hx as (st1 & Hmb & Hx). injection Hx as <- <-. destruct Hserved as [|Hs]; [by left|right].
    eapply chain_served_same; [|exact Hs]. intros p s. by eapply mempool_served.
Qed.

Lemma held_and_served_kept : kept config (good_block content) history_kept held_and_served.
Proof.
  split.
  - intros sh st w Hsh Hempty Hnew Hboot. split; [by eapply held_start|by left].
  - intros events now w event st w' st' HR Hev Hx Hsmall Hgood. split; [|by eapply event_served].
    destruct HR as [Hheld _]. by eapply held_event.
  - intros events now w st st1 [Hheld Hserved] Hm Hfresh Hroll. split; [by eapply held_undo|].
    destruct Hserved as [|Hs]; [by left|right]. eapply chain_served_same; [|exact Hs]. intros p s.
    destruct Hheld as (I & HI & [bs Hdu] & _). eapply rollback_serves; [apply HI|exact Hfresh|exact (du_entries _ _ _ Hdu)|exact Hroll].
  - intros events w st sh st' w' [Hheld Hserved] Hopen Hkept Hnew Hboot. split; [by eapply held_reopen|].
    destruct Hserved as [|Hs]; [by left|right]. destruct Hheld as (I & HI & Hdu & Hst & _).
    destruct (life_restarts config w st I sh) as (st1 & I' & bs & Hnew1 & _ & _ & Hdb & _); [done..|].
    rewrite Hnew in Hnew1. injection Hnew1 as <-. rewrite Hdb. eapply chain_served_same; [|exact Hs].
    intros p s. eapply history_kept_serves; [apply Hopen|exact Hkept].
Qed.

Lemma good_life_served events w (st : Stage DB C) : life events w st → held_and_served events w st.
Proof. apply lives_kept, held_and_served_kept. Qed.

(** C1: From the node to the answer: the index starts on an empty store and is
    given blocks, rollbacks and mempool snapshots; the process stops now and
    then and goes on from one of its commits.  A request for the outputs of an
    address is answered with exactly the unspent outputs that pay it in the
    chain as of the last block that was indexed, each once, in the order of
    their heights, at the tip of that chain.  Every indexed block has to be the
    next one of its chain.  Neither a mempool snapshot nor a rollback changes
    an answer: after a rollback it is still the one for the undone block, until
    another block is indexed.  Where commits were lost, the history at the
    timestamp of that block has to be there still ([confirmed_readable]). *)
Theorem chain_is_answered events w (st : Stage DB C) :
  life events w st → let chain := served_chain events in chain ≠ [] → confirmed_readable (st_db st) →
  ∀ address script_pk, parse_address address = Some script_pk → valid script_pk → is_op_return script_pk = false →
  ∃ outs, outs ≡ₚ unspent_of script_pk (chain_utxos content chain) ∧
    StronglySorted N.le ((λ p, height p.2) <$> outs) ∧
    addresses_utxos_by_address (Ext:=Ext) (st_db st) false address =
      Ok (MkResponse (answered <$> outs) (tip_info (point_height (tip_of chain)) (point_hash (tip_of chain)))).
Proof.
  intros Hlife chain Hne Hread. destruct (good_life_served _ _ _ Hlife) as [(I & HI & _) [|Hserved]]; [done|].
  apply served_answer; [apply HI|exact Hserved|exact Hread].
Qed.
End ReorgAnswers.

(** ** A block that is replaced *)
Module ReorgExamples.
Import Simple SimpleBitcoin StageExamples UtxoExamples ChainExamples RestartExamples ServeExamples.

#[local] Instance instruction_eq_dec : EqDecision Instruction.
Proof. solve_decision. Defined.
#[local] Instance out_point_eq_dec : EqDecision OutPoint.
Proof. solve_decision. Defined.
#[local] Instance simple_in_eq_dec : EqDecision SimpleTxIn.
Proof. solve_decision. Defined.
#[local] Instance simple_out_eq_dec : EqDecision SimpleTxOut.
Proof. solve_decision. Defined.
#[local] Instance simple_tx_eq_dec : EqDecision SimpleTx.
Proof. solve_decision. Defined.
#[local] Instance simple_tx_with_id_eq_dec : EqDecision (@TransactionWithId simple_bitcoin).
Proof. intros [i t] [i' t']. refine (cast_if_and (decide (i = i')) (decide (t = t'))); abstract congruence. Defined.

Section Checks.
Context (content : BlockHash → @BlockTxs simple_bitcoin).

Definition size_check (t : @TransactionWithId simple_bitcoin) : bool :=
  (N.of_nat (length (st_output (tx t))) <? 2 ^ 32)%N &&
  forallb (λ o, (N.of_nat (length (so_script o)) <? 2 ^ 64)%N) (st_output (tx t)).
Definition next_check (chain : list BlockHash) (h : BlockHash) : bool :=
  let next_height : BlockHeight := (N.of_nat (length chain) + 1)%N in
  (bool_decide (Forall tx_wf (content h)) && bool_decide (NoDup (tx_id <$> content h)) &&
   bool_decide (set_Forall (λ r, tx_hash r ∉ tx_id <$> content h) (dom (chain_utxos content chain))) &&
   bool_decide (block_spends next_height (chain_utxos content chain) (content h))) &&
  forallb size_check (content h) && forallb (λ t, negb (is_coinbase (tx t))) (tail (content h)) &&
  bool_decide (Forall (λ id, id ∉ chain_txids content chain) (tx_id <$> content h)).
Definition values_check (r : Res WorkerError (IndexingTask RefDB * option (UtxoCache SimpleCache))) : bool :=
  match r with
  | Ok (task, _) => bool_decide (map_Forall (λ (_ : RawKey) (a : StorageAction), set_fits a) (write_buffer task))
  | _ => true
  end.
Definition worker_check (indexers : list AnyIndexer) : bool :=
  match indexers with [ITxCountByAddress _; IUtxosByAddress _] => true | _ => false end.
Definition block_check (now : Clock) (chain : list BlockHash) (st : SimpleStage) (indexers : list AnyIndexer) (point : Point)
    (txs : @BlockTxs simple_bitcoin) : bool :=
  bool_decide (txs = content (point_hash point)) && next_check chain (point_hash point) && worker_check indexers &&
  forallb (λ m, values_check (block_task now (MkWorker indexers m) point txs st)) [false; true].
Definition good_check (now : Clock) (w : Worker) (event : ChainEvent) (st : SimpleStage) (chain : list BlockHash) : bool :=
  match event with
  | RollForward point _ txs _ => forallb (λ st1, block_check now chain st1 (w_indexers w) point txs) (undone_list now st)
  | _ => true
  end.

Lemma size_check_ok t : size_check t = true → tx_listable t.
Proof.
  intros [Hn%N.ltb_lt Ho]%andb_prop. split; [exact Hn|]. apply Forall_forall. intros o Hin%list_elem_of_In.
  rewrite forallb_forall in Ho. specialize (Ho o Hin). apply N.ltb_lt in Ho. split; [exact Ho|by apply Forall_true].
Qed.

Lemma next_check_ok chain h : next_check chain h = true → next_block content chain h.
Proof.
  unfold next_check. cbv zeta. intros [[[Hv Hs]%andb_prop Hc]%andb_prop Hf%bool_decide_eq_true_1]%andb_prop. split.
  - by apply valid_block_decide.
  - apply Forall_forall. intros t Ht%list_elem_of_In. rewrite forallb_forall in Hs. by apply size_check_ok, Hs.
  - apply Forall_forall. intros t Ht%list_elem_of_In. rewrite forallb_forall in Hc. by apply negb_true_iff, Hc.
  - intros id Hid. rewrite Forall_forall in Hf. by apply Hf.
Qed.

Lemma values_check_ok r task cache : values_check r = true → r = Ok (task, cache) → values_fit task.
Proof.
  intros Hc ->. apply bool_decide_eq_true_1 in Hc. intros k v Hv. exact (Hc k _ Hv).
Qed.

Lemma block_check_ok now chain st indexers point txs :
  block_check now chain st indexers point txs = true → good_block content now chain st indexers point txs.
Proof.
  unfold block_check. intros [[[Hc%bool_decide_eq_true_1 Hn]%andb_prop Hw]%andb_prop Hv]%andb_prop. split; [exact Hc|by apply next_check_ok| |].
  - destruct indexers as [|[] [|[] [|]]]; try discriminate Hw. eexists [_], _, []. split; [reflexivity|].
    split; repeat constructor; discriminate.
  - intros m task cache. rewrite forallb_forall in Hv. apply values_check_ok, Hv. destruct m; [right; by left|by left].
Qed.

Lemma good_check_ok now w event st chain :
  good_check now w event st chain = true → event_good (good_block content) now w event st chain.
Proof.
  destruct event as [point header txs tip|point|info blocks]; [|done..]. cbn [good_check event_good]. intros Hall st1 Hst1%undone_listed.
  rewrite forallb_forall in Hall. by apply block_check_ok, Hall.
Qed.

(** A run that is checked at every step. *)
Fixpoint good_acts_check (config : Config) (chain : list BlockHash) (s : Worker * SimpleStage) (acts : list Act) : bool :=
  match acts with
  | [] => true
  | a :: acts =>
      act_check config s a &&
      match a with AEvent now event => good_check now s.1 event s.2 chain | AReopen => true end &&
      good_acts_check config (foldl follow_event chain (act_events [a])) (act_run config s a) acts
  end.

Abbreviation good_life config := (lives (Ext:=SimpleExt) (C:=SimpleCache) (DB:=RefDB) config (good_block content) history_kept).

Lemma act_good_life config events (s : Worker * SimpleStage) a :
  good_life config events s.1 s.2 → reopened (st_db s.2) (reopen (st_db s.2)) → act_check config s a = true →
  match a with AEvent now event => good_check now s.1 event s.2 (foldl follow_event [] events) | AReopen => true end = true →
  good_life config (events ++ act_events [a]) (act_run config s a).1 (act_run config s a).2.
Proof.
  intros Hlife Hopen Hc Hg. destruct a as [now event|]; cbn [act_events mbind list_bind app] in *.
  - apply andb_prop in Hc as [[Hev Hok]%andb_prop Hsmall].
    eapply (lives_event config (good_block content) history_kept events now s.1 event s.2); [done|by apply event_check_ok| |by apply small_check_ok|by apply good_check_ok].
    rewrite <-surjective_pairing. by apply is_ok_unwrap.
  - rewrite app_nil_r. apply start_run in Hc as [Hn Hb]. eapply lives_restart; [done|done| |done|done].
    split; [apply N.le_refl|]. split; [reflexivity|done].
Qed.

Lemma good_acts_life config events (s : Worker * SimpleStage) acts :
  good_life config events s.1 s.2 → good_acts_check config (foldl follow_event [] events) s acts = true →
  length (genesis_hash (cfg_network config)) = 32 → fits 64 (default DEFAULT_MAX_ROLLBACK (cfg_max_rollback config) + 2) →
  good_life config (events ++ act_events acts) (foldl (act_run config) s acts).1 (foldl (act_run config) s acts).2.
Proof.
  intros Hlife Hc Hg Hf. revert events s Hlife Hc. induction acts as [|a acts IH]; intros events s Hlife Hc.
  { unfold act_events. by rewrite app_nil_r. }
  cbn [good_acts_check] in Hc. apply andb_prop in Hc as [[Ha Hga]%andb_prop Hc].
  assert (reopened (st_db s.2) (reopen (st_db s.2))) as Hopen.
  { destruct (good_life_held content config Hg Hf _ _ _ Hlife) as (I & HI & _).
    destruct (tk_ok _ _ _ HI) as [(Hfits & Hlow & _) _]. by split_and!. }
  pose proof (act_good_life _ _ _ _ Hlife Hopen Ha Hga) as Hlife1. rewrite <-foldl_app in Hc.
  pose proof (IH _ _ Hlife1 Hc) as Hlife2. rewrite <-app_assoc in Hlife2.
  replace (act_events (a :: acts)) with (act_events [a] ++ act_events acts); [exact Hlife2|].
  unfold act_events. cbn [mbind list_bind]. by rewrite app_nil_r.
Qed.
End Checks.

(** Block 1 pays the address; block 2 spends that output.  A mempool snapshot
    comes, the process is restarted, and block 2 is undone and replaced by one
    that pays the address again and leaves the output alone; then that block
    is undone, too. *)
Definition coinbase (id : byte) (value : u64) (script : list byte) : @TransactionWithId simple_bitcoin :=
  MkTxWithId (replicate 32 id) (MkSimpleTx [MkSimpleIn null_outpoint None] [MkSimpleOut value script]).
Definition spending : @TransactionWithId simple_bitcoin :=
  MkTxWithId (replicate 32 xa1)
    (MkSimpleTx [MkSimpleIn (MkOutPoint (replicate 32 xc1) 0%N) None] [MkSimpleOut 5000%N [x53]]).
Definition ex_content (h : BlockHash) : @BlockTxs simple_bitcoin :=
  match h with
  | x01 :: _ => [coinbase xc1 5000%N [x51]]
  | x02 :: _ => [coinbase xc2 5000%N [x52]; spending]
  | x12 :: _ => [coinbase xd2 3000%N [x51]]
  | _ => []
  end.
Definition p2' : Point := MkPoint 2%N (replicate 32 x12).
Definition forward (p : Point) (prev : BlockHash) : ChainEvent :=
  RollForward p (header_after prev) (ex_content (point_hash p)) p.
Definition reorg_acts : list Act :=
  [AEvent (at_second 100) (forward p1 (replicate 32 x00)); AEvent (at_second 101) (forward p2 (point_hash p1));
   AEvent (at_second 102) (snapshot_on p2); AReopen; AEvent (at_second 103) (RollBack p1);
   AEvent (at_second 104) (forward p2' (point_hash p1)); AEvent (at_second 105) (RollBack p1)].
Definition ex_reorg : Worker * SimpleStage := foldl (act_run (ex_config 2)) (ex_born (ex_config 2)) reorg_acts.

Abbreviation reorg_life := (lives (Ext:=SimpleExt) (C:=SimpleCache) (DB:=RefDB) (ex_config 2) (good_block ex_content) history_kept).

Lemma reorg_run_life acts :
  good_acts_check ex_content (ex_config 2) [] (ex_born (ex_config 2)) acts = true →
  reorg_life (act_events acts) (foldl (act_run (ex_config 2)) (ex_born (ex_config 2)) acts).1
    (foldl (act_run (ex_config 2)) (ex_born (ex_config 2)) acts).2.
Proof.
  intros Hc. apply (good_acts_life ex_content (ex_config 2) [] (ex_born (ex_config 2)) acts); [|exact Hc|exact ex_genesis|exact ex_fits].
  assert (start_ok (ex_config 2) ex_empty no_worker = true) as [Hn Hb]%start_run by (vm_compute; reflexivity).
  eapply (lives_start _ (good_block ex_content) history_kept ex_empty); [|reflexivity|exact Hn|exact Hb].
  split_and!; [vm_compute; reflexivity|vm_compute; reflexivity|exact I].
Qed.

Lemma ex_reorg_life : reorg_life (act_events reorg_acts) ex_reorg.1 ex_reorg.2.
Proof. apply reorg_run_life. vm_compute. reflexivity. Qed.

Lemma ex_served : served_chain (act_events reorg_acts) = [point_hash p1; point_hash p2'].
Proof. vm_compute. reflexivity. Qed.

(** On the reference store all history is kept. *)
Lemma refdb_readable (sh : StorageHandler RefDB) : confirmed_readable sh.
Proof. intros c _ _. apply N.le_0_l. Qed.

Definition paid1 : TxoRef * Utxo unit := (output_ref (coinbase xc1 5000%N [x51]) 0, MkUtxo 5000%N [x51] 1%N tt).
Definition paid2 : TxoRef * Utxo unit := (output_ref (coinbase xd2 3000%N [x51]) 0, MkUtxo 3000%N [x51] 2%N tt).

Example chain_is_answered_witness :
  addresses_utxos_by_address (Ext:=SimpleExt) (st_db ex_reorg.2) false "addr" =
  Ok (MkResponse (answered <$> [paid1; paid2]) (tip_info 2%N (point_hash p2'))).
Proof.
  destruct (chain_is_answered ex_content (ex_config 2) ex_genesis ex_fits _ _ _ ex_reorg_life ltac:(rewrite ex_served; discriminate) (refdb_readable _)
              "addr"%string [x51] eq_refl ltac:(split; [vm_compute; reflexivity|by repeat constructor]) eq_refl)
    as (outs & Hp & Hsorted & Heq).
  rewrite ex_served in Hp, Heq.
  assert (unspent_of [x51] (chain_utxos ex_content [point_hash p1; point_hash p2']) = [paid2; paid1]) as Hun
    by (vm_compute; reflexivity).
  rewrite Hun in Hp. symmetry in Hp. apply Permutation_length_2_inv in Hp as [->| ->]; [|exact Heq].
  apply StronglySorted_inv in Hsorted as [_ Hle]. apply Forall_cons in Hle as [Hle _]. by destruct Hle.
Defined.
End ReorgExamples.
