(* ===== verification/NextBlock.v ===== *)
(** * The next block is indexed

    [ReorgAnswers] says what is answered as long as no event fails.  Here a
    block event does not fail: whatever came before it, a block that is the
    next one of the chain is indexed by the indexers of addresses, and its
    outputs are served. *)
From S2P Require Import Prelude Float ByteOrder EncDec Timestamp Types MergeOperation Table Rocks.
From S2P Require Import CoreTables KvStore KvStoreLaws Commit RollbackBuffer Bitcoin Context.
From S2P Require Import AddressIndexers RunesTables Runes Charms Indexers Stage Instances StageLaws Chain.
From S2P Require Import UtxoSet UtxoLaws UtxoBlock BlockTotal AddressLaws AddressTable CacheFlow ChainUtxos.
From S2P Require Import History Persist Durable Restart Text Serve Routes ServeLaws Served Reorg RouteLaws AddressAnswers ReorgAnswers.

Section NextBlock.
Context {DB : Type} `{RocksDBOk DB} `{HashOrderOk} `{Ordinals} `{!CharmsLib} `{!Machine} `{ServeLib}.
Context {Ext : Type} `{!IndexMap TransactionIndexer (list byte) Ext, !IndexMapOk TransactionIndexer (list byte) Ext}.
Context {C : Type} `{!MokaCache (Utxo Ext) C, !MokaCacheOk (Utxo Ext) C}.
Context (content : BlockHash → BlockTxs) (config : Config).
Context (Hgenesis : length (genesis_hash (cfg_network config)) = 32).
Context (Hfits : fits 64 (default DEFAULT_MAX_ROLLBACK (cfg_max_rollback config) + 2)).

Abbreviation data st := (db_latest (sh_db (st_db st))).
Abbreviation points st := (rb_points (st_rollback_buffer st)).
Abbreviation life := (lives (Ext:=Ext) (C:=C) (DB:=DB) config (good_block content) history_kept).
Abbreviation chain_after events := (foldl follow_event [] events).

(** ** Values stay small *)
Lemma length_varuint_loop bend : length (varuint_encode_loop bend) ≤ S (length bend).
Proof.
  induction bend as [|b rest IH]; cbn [varuint_encode_loop length]; [done|]. case_decide; [by apply le_S|cbn [length]; lia].
Qed.

Lemma uint_encode_small x : fits 64 (N.of_nat (length (uint_encode x))).
Proof.
  pose proof (length_varuint_loop (be_bytes 16 x)) as Hl. rewrite length_be_bytes in Hl.
  change (length (uint_encode x) ≤ 17) in Hl. unfold fits. change (2 ^ 64)%N with 18446744073709551616%N. lia.
Qed.

Lemma effect_small wb s s' :
  (∀ k v, wb !! k = Some (Set_ v) → fits 64 (N.of_nat (length v))) → (∀ k, user_key k → effect wb s k = Some (s' !! k)) →
  values_small s → values_small s'.
Proof.
  intros Hwb Heff Hs k v Hk Hv. specialize (Heff k Hk). rewrite Hv in Heff. unfold effect in Heff.
  destruct (wb !! k) as [[val| |op]|] eqn:Ha; cbn [action_value] in Heff.
  - injection Heff as <-. by eapply Hwb.
  - discriminate Heff.
  - unfold merge_operator in Heff. destruct (match s !! k with Some b => _ | None => _ end) as [n|]; [|discriminate Heff].
    destruct (merge_operands n [encode op]) as [m|]; [|discriminate Heff]. injection Heff as <-. apply uint_encode_small.
  - injection Heff as Heff. by eapply Hs.
Qed.

(** ** The mempool snapshot is undone *)

(** The block below the mempool snapshot can be gone back to. *)
Definition can_settle (st : Stage DB C) : Prop :=
  st_processed_mempool st = true → ∃ newer, points_since (st_last_processed st) (st_rollback_buffer st) = Ok newer.

Definition sound (st : Stage DB C) (I : Ideal) : Prop := durable st I ∧ chain_held content st I.
Lemma sound_preserved : preserved sound small_after (good_block content).
Proof. apply preserved_and; [exact durable_preserved|apply held_preserved]. Qed.

Lemma settles now w (st : Stage DB C) I :
  tracks w st I → sound st I → commit_fresh (clock_undo now) (st_db st) → can_settle st →
  ∃ st1 copies, undone now st st1 ∧ tracks w st1 (MkIdeal (id_chain I) (id_tip I) false copies) ∧
    sound st1 (MkIdeal (id_chain I) (id_tip I) false copies) ∧
    ∀ point header txs tip, roll_forward now w point header txs tip st = roll_forward now w point header txs tip st1.
Proof.
  intros HI Hsound Hfresh Hcan. destruct (id_mempool I) eqn:Hm.
  - pose proof Hm as Hm0. rewrite (tk_mempool _ _ _ HI) in Hm0. destruct (Hcan Hm0) as [newer Hsince].
    assert (∃ n, position (st_last_processed st) (st_rollback_buffer st) = Some n) as [n Hpos].
    { unfold points_since in Hsince. destruct (position _ _); [by eexists|done]. }
    apply position_inv in Hpos as (pre & e & older & Hpts & He & _ & Hn).
    destruct (rollback_to_point_ok (clock_undo now) (st_last_processed st) st pre e older (so_storage _ (tk_ok _ _ _ HI)) Hfresh Hpts He Hn)
      as (st1 & Hroll & _ & _ & _ & _ & Hm1).
    destruct (undo_mempool_tracks _ _ _ sound_preserved now w st st1 I HI Hsound Hfresh Hm Hroll) as (copies & _ & _ & HI1 & Hsound1 & _).
    exists st1, copies. split; [by right|]. split; [exact HI1|]. split; [exact Hsound1|].
    intros. by apply roll_forward_undone.
  - destruct (settled_same _ _ _ HI Hm) as [_ Heq]. exists st, (id_copies I). rewrite Heq. split; [by left|]. by split_and!.
Qed.

(** ** The next block *)
Lemma next_block_small now w point txs (st st' : Stage DB C) :
  stage_ok st → values_small (data st) → point_ok point → commit_fresh (clock_commit now) (st_db st) →
  (∀ task cache, block_task now w point txs st = Ok (task, cache) → keys_fit task ∧ values_fit task) →
  index_block now w point txs st = Ok st' → small_after st'.
Proof.
  intros Hok Hsmall Hp Hfresh Hfit Hidx.
  destruct (index_block_commit now w point txs st st') as (task & cache & Htask & _ & _ & _ & Hres & _);
    [exact Hok|intros task cache Ht; by apply (Hfit task cache)|exact Hp|exact Hfresh|exact Hidx|].
  eapply (effect_small (write_buffer task)); [by apply (Hfit task cache)| |exact Hsmall].
  exact (br_data _ _ _ _ _ _ _ (cr_batch _ _ _ _ _ _ _ Hres)).
Qed.

(** The worker takes the block, and is left with small values and a timestamp
    that can be read at. *)
Lemma next_block_forward now w point header txs tip (st : Stage DB C) I :
  tracks w st I → sound st I → can_settle st → Forall address_indexer (w_indexers w) →
  event_ok now w (RollForward point header txs tip) st →
  event_good (good_block content) now w (RollForward point header txs tip) st (id_chain I) →
  point_height point = (N.of_nat (length (id_chain I)) + 1)%N → prev_blockhash header = point_hash (id_tip I) →
  ∃ w' st', roll_forward now w point header txs tip st = Ok (w', st') ∧ small_after st' ∧ confirmed_readable (st_db st').
Proof.
  intros HI Hsound Hcan Hind (Hfresh & Hl & Hmax & Hev) Hgood Hh Hprev.
  destruct (settles now w st I HI Hsound Hfresh Hcan) as (st1 & copies & Hun & HI1 & [[blocks Hdu1] Hheld1] & Hroll).
  destruct (Hev st1 Hun) as [Hfresh1 Hk]. destruct (Hgood st1 Hun) as [Hcontent Hnext _ Hv]. subst txs.
  pose proof (tk_tip _ _ _ HI1) as Htip. cbn [id_tip] in Htip. destruct (tk_chain _ _ _ HI1) as (Hcok & Hst & _). cbn [id_chain] in Hcok, Hst.
  pose proof (chain_at_height _ _ _ _ (tk_chain _ _ _ HI1)) as Hlen. cbn [id_chain id_tip] in Hlen.
  destruct (ch_data _ _ _ Hheld1) as (s & Hs & Hholds). unfold without_mempool in Hs. cbn [id_mempool id_chain] in Hs, Hholds.
  symmetry in Hs. apply (holds_same _ _ _ _ _ Hs) in Hholds as [HU Hc _ _]. destruct Hnext as [Hvalid _ _ _]. rewrite <-Hh in Hvalid.
  assert (point_ok point) as Hp by (split; [unfold fits, u64_MAX in *; lia|exact Hl]).
  set (w' := MkWorker (w_indexers w) (w_mutable w || (point_height tip - st_max_rollbacks st1 <? point_height point)%N)).
  assert (∀ task cache, block_task now w' point (content (point_hash point)) st1 = Ok (task, cache) → keys_fit task ∧ values_fit task) as Hfit.
  { intros task cache Ht. split; [by eapply Hk|by eapply Hv]. }
  destruct (block_task_total (now:=now) w' point (content (point_hash point)) st1 (chain_utxos content (id_chain I))) as (task & cache & Htask);
    [exact Hind|apply HI1|apply Hp|exact HU|exact Hc|exact Hvalid|].
  destruct (roll_forward_extends_chain now w point header (content (point_hash point)) tip st1 (id_chain I) task cache)
    as (st' & Hr & _);
    [apply HI1|by rewrite <-(tk_mempool _ _ _ HI1)|exact Hst| |by rewrite <-Htip|exact Hh|by rewrite <-Htip|exact Htask|by apply (Hfit task cache)|exact Hfresh1|].
  { destruct Hcok as [Hall _]. split; [apply Forall_app_2; [exact Hall|by apply Forall_singleton]|].
    rewrite length_app. cbn [length]. unfold fits, u64_MAX in *. lia. }
  exists w', st'. rewrite Hroll. split; [exact Hr|].
  destruct (forward_tracks now w point header (content (point_hash point)) tip st1 st' w' _ HI1 eq_refl Hl Hmax Hfresh1 Hk Hr)
    as [_ [(Hle & _)|(_ & _ & Hidx & _)]]; [cbn [id_tip] in Hle; lia|].
  split.
  - eapply (next_block_small now w' point); [apply HI1|exact (du_small _ _ _ Hdu1)|exact Hp|exact Hfresh1|exact Hfit|exact Hidx].
  - eapply (index_block_serves now w' point); [apply HI1|exact Hfresh1|exact Hp| |exact Hidx]. intros task' cache' Ht. by apply (Hfit task' cache').
Qed.

(** C2: The next block is always indexed, and then served: whatever blocks,
    rollbacks, mempool snapshots and restarts came before, when the chain
    grows by a valid block the worker of the address indexers does not fail on
    it, and from then on every request for the outputs of an address is
    answered with exactly the unspent outputs of the chain with that block.
    When a mempool snapshot is indexed, the block below it has to be in the
    rollback buffer. *)
Theorem next_block_is_answered events w (st : Stage DB C) now point header txs tip :
  let chain := chain_after events in let event := RollForward point header txs tip in
  life events w st → can_settle st → Forall address_indexer (w_indexers w) →
  event_ok now w event st → event_good (good_block content) now w event st chain →
  point_height point = (N.of_nat (length chain) + 1)%N →
  prev_blockhash header = point_hash (History.chain_tip (genesis_hash (cfg_network config)) chain) →
  ∃ w' st', execute now w event st = Ok (w', st') ∧ life (events ++ [event]) w' st' ∧
    ∀ address script_pk, parse_address address = Some script_pk → valid script_pk → is_op_return script_pk = false →
    ∃ outs, outs ≡ₚ unspent_of script_pk (chain_utxos content (chain ++ [point_hash point])) ∧
      StronglySorted N.le ((λ p, height p.2) <$> outs) ∧
      addresses_utxos_by_address (Ext:=Ext) (st_db st') false address =
        Ok (MkResponse (answered <$> outs) (tip_info (point_height point) (point_hash point))).
Proof.
  intros chain event Hlife Hcan Hind Hev Hgood Hh Hprev.
  destruct (good_life_held content config Hgenesis Hfits _ _ _ Hlife) as (I & HI & Hdu & [Hnet _] & Hch & Hheld).
  fold chain in Hch. rewrite <-Hch in Hh, Hgood. destruct (tk_chain _ _ _ HI) as (_ & _ & Htip). rewrite Hnet, Hch in Htip.
  destruct (next_block_forward now w point header txs tip st I) as (w' & st' & Hx & Hsmall & Hread);
    [exact HI|by split|exact Hcan|exact Hind|exact Hev|exact Hgood|exact Hh|by rewrite Htip|].
  rewrite Hch in Hh, Hgood. exists w', st'. split; [exact Hx|].
  assert (life (events ++ [event]) w' st') as Hlife' by (by eapply lives_event). split; [exact Hlife'|].
  assert (served_chain (events ++ [event]) = chain ++ [point_hash point]) as Hserved.
  { rewrite served_chain_snoc. fold chain. cbv zeta. unfold event. cbn [indexes follow_event]. rewrite Hh.
    by replace (N.of_nat (length chain) <? N.of_nat (length chain) + 1)%N with true by (symmetry; apply N.ltb_lt; lia). }
  destruct (good_life_served content config Hgenesis Hfits _ _ _ Hlife') as [(I' & HI' & _) [Hnil|Hcs]]; rewrite Hserved in *; [by destruct chain|].
  pose proof (served_answer _ _ Hgenesis _ _ (so_storage _ (tk_ok _ _ _ HI')) Hcs Hread) as Hans.
  rewrite chain_tip_snoc in Hans. cbn [point_height point_hash] in Hans. rewrite <-Hh in Hans. exact Hans.
Qed.
End NextBlock.

(** ** The spending block comes back *)
Module NextExamples.
Import Simple SimpleBitcoin StageExamples ChainExamples RestartExamples ServeExamples ReorgExamples.

(** The end of the reorganisation, and a mempool snapshot on block 1. *)
Definition back_acts : list Act := reorg_acts ++ [AEvent (at_second 106) (snapshot_on p1)].
Definition ex_back : Worker * SimpleStage := foldl (act_run (ex_config 2)) (ex_born (ex_config 2)) back_acts.
Definition ex_again : ChainEvent := forward p2 (point_hash p1).

Lemma ex_back_life :
  lives (Ext:=SimpleExt) (C:=SimpleCache) (DB:=RefDB) (ex_config 2) (good_block ex_content) history_kept (act_events back_acts) ex_back.1 ex_back.2.
Proof. apply (reorg_run_life back_acts). vm_compute. reflexivity. Qed.

Example next_block_is_answered_witness :
  st_processed_mempool ex_back.2 = true ∧
  ∃ w' st', execute (at_second 107) ex_back.1 ex_again ex_back.2 = Ok (w', st') ∧
    addresses_utxos_by_address (Ext:=SimpleExt) (st_db st') false "addr" = Ok (MkResponse [] (tip_info 2%N (point_hash p2))).
Proof.
  split; [vm_compute; reflexivity|].
  destruct (next_block_is_answered ex_content (ex_config 2) ex_genesis ex_fits (act_events back_acts) ex_back.1 ex_back.2
              (at_second 107) p2 (header_after (point_hash p1)) (ex_content (point_hash p2)) p2 ex_back_life)
    as (w' & st' & Hx & _ & Hans).
  - intros _. exists (unwrap_or [] (points_since (st_last_processed ex_back.2) (st_rollback_buffer ex_back.2))).
    apply is_ok_unwrap. vm_compute. reflexivity.
  - replace (w_indexers ex_back.1) with (w_indexers ex_worker) by (vm_compute; reflexivity). by repeat constructor.
  - apply event_check_ok. vm_compute. reflexivity.
  - apply good_check_ok. vm_compute. reflexivity.
  - vm_compute. reflexivity.
  - vm_compute. reflexivity.
  - exists w', st'. split; [exact Hx|].
    destruct (Hans "addr"%string [x51] eq_refl ltac:(split; [vm_compute; reflexivity|by repeat constructor]) eq_refl)
      as (outs & Hp & _ & Heq).
    assert (unspent_of [x51] (chain_utxos ex_content (foldl follow_event [] (act_events back_acts) ++ [point_hash p2])) = []) as Hun
      by (vm_compute; reflexivity).
    rewrite Hun in Hp. symmetry in Hp. apply Permutation_nil in Hp as ->. exact Heq.
Defined.
End NextExamples.
