(* ===== verification/Process.v ===== *)
(** * The process

    src/src/main.rs and src/src/shutdown.rs: the commands, the configuration
    they share, and how the tasks of the run mode stop each other.  The tasks
    take turns in any order; a turn is one step of [step], and a schedule is a
    list of turns. *)
From Stdlib Require Import Strings.String.
From S2P Require Import Prelude Float Sysinfo ByteOrder EncDec Timestamp Types MergeOperation Table Rocks.
From S2P Require Import CoreTables KvStore RollbackBuffer Bitcoin Context AddressIndexers.
From S2P Require Import RunesTables Runes Charms Indexers Stage Instances StageLaws.
From S2P Require Import Chain History Peer PeerLaws Pull PullLaws PullChain Pipeline Text Open.

(** ** The configuration *)
Record ServerConfig : Type := MkServerConfig { server_address : option string }.
Record SymphonyConfig : Type := MkSymphonyConfig {
  db_path : option string;
  sync_config : Config;
  server : option ServerConfig;
  storage : option StorageConfig;
}.

(** The sources of the configuration, a later one before an earlier one. *)
Inductive ConfigSource : Type :=
| FileWithName (name : string) (required : bool)
| EnvironmentWithPrefix (prefix separator : string).

(** [ConfigBuilder::build], then [try_deserialize]. *)
Class ConfigCrate : Type := {
  build_config : list ConfigSource → Res string SymphonyConfig;
}.

(** A path that is not UTF-8 is no text and adds no source. *)
Definition config_sources (config_path : option (list byte)) : list ConfigSource :=
  [FileWithName "symphony.toml" false] ++
  match config_path ≫= from_utf8 with
  | Some explicit => [FileWithName explicit true]
  | None => []
  end ++
  [EnvironmentWithPrefix "SYMPHONY" "_"].

Definition config_new `{ConfigCrate} (config_path : option (list byte)) : Res string SymphonyConfig :=
  build_config (config_sources config_path).

Definition config_memory_budget (config : SymphonyConfig) : option u64 :=
  match rocksdb_memory_budget_bytes <$> storage config with
  | Some budget => budget
  | None => rocksdb_memory_budget_bytes (MkStorageConfig None)
  end.

Definition DEFAULT_SERVE_ADDRESS : string := "0.0.0.0:8080".
Definition path_of (config : SymphonyConfig) : string := default "./tmp/symphony" (db_path config).
Definition serve_address (config : SymphonyConfig) : string :=
  default DEFAULT_SERVE_ADDRESS (server config ≫= server_address).

(** ** Shutdown

    The channel of the shutdown signals: whether one is queued, and how many
    handlers that could send one are left. *)
Record ShutdownManager : Type := MkShutdown { sm_queued : bool; sm_handlers : nat }.

(** On Unix one handler for Ctrl+C and one for SIGTERM. *)
Definition shutdown_new : ShutdownManager := MkShutdown false 2.

(** [rx.recv()] is done when there is a signal or no sender is left. *)
Definition shutdown_ready (sm : ShutdownManager) : bool := sm_queued sm || (sm_handlers sm =? 0)%nat.

Definition signal (sm : ShutdownManager) : ShutdownManager :=
  match sm_handlers sm with
  | O => sm
  | S _ => MkShutdown true (sm_handlers sm)
  end.
(** A handler that could not be installed. *)
Definition handler_lost (sm : ShutdownManager) : ShutdownManager :=
  MkShutdown (sm_queued sm) (pred (sm_handlers sm)).

Inductive Outcome (T : Type) : Type :=
| ProcessExit                          (* process::exit(0) *)
| Finished (result : T).
Arguments ProcessExit {T}.
Arguments Finished {T} result.

(** [select!] takes either branch when both are ready; [None]: it waits. *)
Definition run_until_shutdown {T} (signal_first : bool) (sm : ShutdownManager) (future : option T) : option (Outcome T) :=
  match future with
  | None => if shutdown_ready sm then Some ProcessExit else None
  | Some result => Some (if shutdown_ready sm && signal_first then ProcessExit else Finished result)
  end.

Section Process.
Context {DB : Type} `{RocksDBOk DB} `{!RocksOpen DB} `{HashOrderOk} `{BitcoinNode} `{!Ordinals} `{!CharmsLib} `{!Machine}.
Context `{Gasket} `{ConfigCrate}.
Context {Ext : Type} `{!IndexMap TransactionIndexer (list byte) Ext}.
Context {C : Type} `{!MokaCache (Utxo Ext) C}.

(** ** The run mode *)

(** The sync side: before its start signal, with the pull stage working,
    between two workers after a restart, done and before its teardown; and
    its ends. *)
Inductive SyncSide : Type :=
| SyncWaiting
| PullWorking (st : PullStage (DB:=DB)) (w : PullWorker)
| PullRestarting (st : PullStage (DB:=DB))
| PullDraining (st : PullStage (DB:=DB))
| PullTornDown                         (* the end was announced *)
| SyncFailed.                          (* it panicked, or never started *)

Inductive ServeSide : Type := ServeWaiting | Serving | ServeEnded | ServeAborted.

(** [serve_ended] is a message the pull stage has not received yet,
    [sync_ended] one that main has not. *)
Record Process : Type := MkProcess {
  pr_shutdown : ShutdownManager;
  pr_sync : SyncSide;
  pr_serve : ServeSide;
  serve_ended : bool;
  sync_ended : bool;
  pr_exit : option (Outcome unit);
}.

Definition run_process : Process := MkProcess shutdown_new SyncWaiting ServeWaiting false false None.

Definition with_sync (sync : SyncSide) (p : Process) : Process :=
  MkProcess (pr_shutdown p) sync (pr_serve p) (serve_ended p) (sync_ended p) (pr_exit p).
Definition with_shutdown (sm : ShutdownManager) (p : Process) : Process :=
  MkProcess sm (pr_sync p) (pr_serve p) (serve_ended p) (sync_ended p) (pr_exit p).

(** The sender of [sync_ended] lives in the sync side. *)
Definition sync_side_gone (sync : SyncSide) : bool :=
  match sync with PullTornDown | SyncFailed => true | _ => false end.

(** The task that starts the pipeline. *)
Definition sync_starts (config : Config) (db : StorageHandler DB) (w : PullWorker) (p : Process) : Process :=
  match pr_sync p with
  | SyncWaiting =>
      match pipeline (Ext:=Ext) (C:=C) config db true with
      | Ok daemon => with_sync (PullWorking (dm_pull daemon) w) p
      | _ => with_sync SyncFailed p
      end
  | _ => p
  end.

Definition hears (told : bool) (world : World) : World :=
  MkWorld told (wo_chain_tips world) (wo_template world) (wo_now world).

(** A turn of gasket with the pull stage: the next unit, or the teardown.
    What was heard is consumed by the turn that hears it. *)
Definition pull_turn (world : World) (p : Process) : Process :=
  match pr_sync p with
  | PullWorking st w =>
      match pull_schedule (hears (serve_ended p) world) st w with
      | Ok (PullDone, _) =>
          MkProcess (pr_shutdown p) (PullDraining st) (pr_serve p) false (sync_ended p) (pr_exit p)
      | Ok (PullIdle, w) => with_sync (PullWorking st w) p
      | Ok (PullUnit units, w) =>
          match pull_execute units st with
          | Ok st => with_sync (PullWorking st w) p
          | _ => with_sync SyncFailed p
          end
      | Err WorkerRestart => with_sync (PullRestarting st) p
      | _ => with_sync SyncFailed p
      end
  | PullDraining st =>
      match teardown (match pr_exit p with None => true | Some _ => false end) st with
      | Ok announced =>
          MkProcess (pr_shutdown p) PullTornDown (pr_serve p) (serve_ended p) announced (pr_exit p)
      | _ => with_sync SyncFailed p
      end
  | _ => p
  end.

(** The teardown says that the sync side has ended even when it has not. *)
Definition pull_restarted (torn_down : bool) (w : PullWorker) (p : Process) : Process :=
  match pr_sync p with
  | PullRestarting st =>
      let announced := match (if torn_down then teardown true st else Ok false) with Ok b => b | _ => false end in
      MkProcess (pr_shutdown p) (PullWorking st w) (pr_serve p) (serve_ended p) (sync_ended p || announced) (pr_exit p)
  | _ => p
  end.

Definition serve_starts (p : Process) : Process :=
  match pr_serve p with
  | ServeWaiting => MkProcess (pr_shutdown p) (pr_sync p) Serving (serve_ended p) (sync_ended p) (pr_exit p)
  | _ => p
  end.

(** [serve::run] is over, with whatever result: the sync side is told, if it
    still listens. *)
Definition serve_returns (p : Process) : Process :=
  match pr_serve p with
  | Serving =>
      MkProcess (pr_shutdown p) (pr_sync p) ServeEnded (negb (sync_side_gone (pr_sync p))) (sync_ended p) (pr_exit p)
  | _ => p
  end.

(** The future main waits for: a message, or no sender left. *)
Definition sync_end_future (p : Process) : option unit :=
  if sync_ended p || sync_side_gone (pr_sync p) then Some tt else None.

Definition main_turn (signal_first : bool) (p : Process) : Process :=
  match run_until_shutdown signal_first (pr_shutdown p) (sync_end_future p) with
  | Some ProcessExit =>
      MkProcess (pr_shutdown p) (pr_sync p) (pr_serve p) (serve_ended p) (sync_ended p) (Some ProcessExit)
  | Some (Finished _) =>
      let serve := match pr_serve p with ServeEnded => ServeEnded | _ => ServeAborted end in
      MkProcess (pr_shutdown p) (pr_sync p) serve (serve_ended p) (sync_ended p) (Some (Finished tt))
  | None => p
  end.

(** ** Turns *)
Inductive Turn : Type :=
| Signal | HandlerLost
| SyncStarts (config : Config) (db : StorageHandler DB) (w : PullWorker)
| PullTurn (world : World)
| PullRestarted (torn_down : bool) (w : PullWorker)
    (* gasket bootstraps a new worker, and may tear the old one down first *)
| PullLost                              (* or gives the stage up *)
| ServeStarts | ServeReturns
| MainTurn (signal_first : bool).

Definition step (t : Turn) (p : Process) : Process :=
  match pr_exit p with
  | Some _ => p
  | None =>
      match t with
      | Signal => with_shutdown (signal (pr_shutdown p)) p
      | HandlerLost => with_shutdown (handler_lost (pr_shutdown p)) p
      | SyncStarts config db w => sync_starts config db w p
      | PullTurn world => pull_turn world p
      | PullRestarted torn_down w => pull_restarted torn_down w p
      | PullLost => match pr_sync p with PullRestarting _ => with_sync SyncFailed p | _ => p end
      | ServeStarts => serve_starts p
      | ServeReturns => serve_returns p
      | MainTurn signal_first => main_turn signal_first p
      end
  end.

Definition run_turns (turns : list Turn) (p : Process) : Process := foldl (λ p t, step t p) p turns.

(** ** [main]

    What a command has set up when it starts to wait; whatever fails before is
    unwrapped. *)
Inductive Command : Type := SyncCommand | ServeCommand | RunCommand | DocsCommand.

Inductive Started : Type :=
| StartedSync (daemon : Daemon (DB:=DB) (C:=C))
| StartedServe (db : StorageHandler DB) (address : string)
| StartedRun (config : Config) (db : StorageHandler DB) (address : string) (process : Process)
| StartedDocs.

Definition unwrap {E A} (r : Res E A) : Res Error A :=
  match r with Ok a => Ok a | _ => Panic "unwrap" end.

Definition main_start (command : Command) (config_path : option (list byte)) : Res Error Started :=
  config ← unwrap (config_new config_path);
  let path := path_of config in
  let address := serve_address config in
  let budget := config_memory_budget config in
  match command with
  | SyncCommand =>
      db ← open system path false budget;
      daemon ← unwrap (pipeline (Ext:=Ext) (C:=C) (sync_config config) db false);
      Ok (StartedSync daemon)
  | ServeCommand =>
      db ← open system path true budget;
      Ok (StartedServe db address)
  | RunCommand =>
      db ← open system path false budget;
      Ok (StartedRun (sync_config config) db address run_process)
  | DocsCommand => Ok StartedDocs
  end.
End Process.

(** ** How the run mode stops *)
Section ProcessLaws.
Context {DB : Type} `{RocksDBOk DB} `{HashOrderOk} `{BitcoinNode} `{!Ordinals} `{!CharmsLib} `{!Machine} `{Gasket}.
Context {Ext : Type} `{!IndexMap TransactionIndexer (list byte) Ext}.
Context {C : Type} `{!MokaCache (Utxo Ext) C}.

Abbreviation process := (Process (DB:=DB)).
Abbreviation turn := (Turn (DB:=DB)).
Abbreviation after turns p := (run_turns (Ext:=Ext) (C:=C) turns p).
Abbreviation next t p := (step (Ext:=Ext) (C:=C) t p).

(** The stage ends its schedule when it was told to, at once and only then. *)
Lemma schedule_told world st (w : PullWorker) :
  shutdown_signals st = true → pull_schedule (hears true world) st w = Ok (PullDone, w).
Proof. intros Hst. unfold pull_schedule. by rewrite Hst. Qed.

Lemma schedule_untold world st (w w' : PullWorker) :
  pull_schedule (hears false world) st w ≠ Ok (PullDone, w').
Proof.
  unfold pull_schedule. cbn [wo_shutdown hears]. rewrite andb_false_r.
  intros ([syncing w1] & _ & Hs)%res_bind_ok. destruct syncing; [done|].
  apply res_bind_ok in Hs as ([units w2] & _ & Hs). apply res_bind_ok in Hs as ([units' w3] & _ & Hs).
  by destruct (units ++ units').
Qed.

Lemma execute_keeps_signals units : ∀ (st st' : PullStage (DB:=DB)),
  pull_execute units st = Ok st' → shutdown_signals st' = shutdown_signals st.
Proof.
  intros st st'. unfold pull_execute.
  apply (for_each_inv (λ s, shutdown_signals s = shutdown_signals st)); [|done].
  intros u s s' _ Hs Hbody. rewrite <-Hs.
  destruct u; unfold process_action, pull_send in Hbody; destruct (downstream s); simpl in Hbody; by simplify_eq.
Qed.

(** What holds whatever the turns were. *)
Record sound (turns : list turn) (p : process) : Prop := {
  sd_stage st : pr_sync p = PullRestarting st ∨ pr_sync p = PullDraining st ∨ (∃ w, pr_sync p = PullWorking st w) →
    shutdown_signals st = true;
  sd_told : serve_ended p = true → pr_serve p = ServeEnded;
  sd_draining st : pr_sync p = PullDraining st → pr_serve p = ServeEnded;
  sd_torn_down : pr_sync p = PullTornDown → pr_serve p = ServeEnded;
  sd_announced : sync_ended p = true → pr_sync p = PullTornDown ∨ ∃ w, PullRestarted true w ∈ turns;
  sd_served : pr_serve p = ServeEnded → ServeReturns ∈ turns;
  sd_finished : pr_exit p = Some (Finished tt) → sync_end_future p = Some tt;
  sd_signalled : shutdown_ready (pr_shutdown p) = true → Signal ∈ turns ∨ HandlerLost ∈ turns;
  sd_killed : pr_exit p = Some ProcessExit → shutdown_ready (pr_shutdown p) = true;
}.

Lemma sound_start : sound [] run_process.
Proof. split; try done. intros st [?|[?|[? ?]]]; done. Qed.

Lemma sound_weaken turns t p : sound turns p → sound (turns ++ [t]) p.
Proof.
  intros [Hst Htold Hdr Htd Han Hse Hfin Hsig Hk]. split; try done.
  - intros [?|[w ?]]%Han; [by left|]. right. exists w. set_solver.
  - intros ?%Hse. set_solver.
  - intros [?|?]%Hsig; set_solver.
Qed.

(** A turn that leaves the server, main and the signals alone. *)
Lemma sound_sync turns p (sync : SyncSide (DB:=DB)) told ended :
  sound turns p →
  (∀ st, sync = PullRestarting st ∨ sync = PullDraining st ∨ (∃ w, sync = PullWorking st w) → shutdown_signals st = true) →
  (told = true → serve_ended p = true) →
  (∀ st, sync = PullDraining st → pr_serve p = ServeEnded) →
  (sync = PullTornDown → pr_serve p = ServeEnded) →
  (ended = true → sync = PullTornDown ∨ ∃ w, PullRestarted true w ∈ turns) →
  pr_exit p = None →
  sound turns (MkProcess (pr_shutdown p) sync (pr_serve p) told ended (pr_exit p)).
Proof.
  intros [Hst Htold Hdr Htd Han Hse Hfin Hsig Hk] H1' H2' H3' H4' H5' H6'. rewrite H6'.
  split; cbn [pr_sync pr_serve serve_ended sync_ended pr_exit pr_shutdown]; try done. intros ?. by apply Htold, H2'.
Qed.

Ltac stage_of := intros ? [|[|[? ?]]]; simplify_eq.
Ltac stage_only Hre := apply sound_sync; try done; [stage_of|intros ?; apply Hre].

Lemma sound_pull_turn turns p world :
  sound turns p → pr_exit p = None → sound turns (pull_turn world p).
Proof.
  intros Hp Hexit. pose proof Hp as [Hst Htold Hdr Htd Han Hse Hfin Hsig Hk]. unfold pull_turn.
  destruct (pr_sync p) as [|st w|st|st| |] eqn:Hsync; try done.
  - assert (shutdown_signals st = true) as Hs by (apply Hst; eauto).
    assert (sync_ended p = true → ∀ sync : SyncSide (DB:=DB), sync = PullTornDown ∨ ∃ w, PullRestarted true w ∈ turns) as Hre.
    { intros [?|?]%Han; [done|]. by right. }
    destruct (pull_schedule _ _ _) as [[[| |units] w']|[]|] eqn:Hsch.
    + destruct (serve_ended p) eqn:Htell; [|by apply schedule_untold in Hsch].
      apply sound_sync; try done; [by stage_of|by intros ? _; apply Htold|by intros ?; apply Hre].
    + by stage_only Hre.
    + destruct (pull_execute units st) as [st'| |] eqn:Hex; [|by stage_only Hre..].
      apply execute_keeps_signals in Hex. rewrite Hs in Hex. by stage_only Hre.
    + by stage_only Hre.
    + by stage_only Hre.
    + by stage_only Hre.
    + by stage_only Hre.
  - assert (shutdown_signals st = true) as Hs by (apply Hst; eauto). unfold teardown. rewrite Hs, Hexit.
    rewrite <-Hexit. apply sound_sync; try done; [by stage_of| |by left]. intros _. by eapply Hdr.
Qed.

Lemma pipeline_signals config db (daemon : Daemon (DB:=DB) (C:=C)) told :
  pipeline (Ext:=Ext) config db told = Ok daemon → shutdown_signals (dm_pull daemon) = told.
Proof. unfold pipeline. intros (index & _ & [= <-])%res_bind_ok. done. Qed.

Ltac sound_split :=
  split; cbn [pr_sync pr_serve serve_ended sync_ended pr_exit pr_shutdown with_shutdown]; try done; try congruence.

Lemma sound_step turns p t : sound turns p → sound (turns ++ [t]) (next t p).
Proof.
  intros Hp0. unfold step. destruct (pr_exit p) as [e|] eqn:Hexit; [by apply sound_weaken|].
  pose proof (sound_weaken _ t _ Hp0) as Hp. pose proof Hp as [Hst Htold Hdr Htd Han Hse Hfin Hsig Hk].
  destruct t as [| |config db w|world|torn w| | | |first].
  - sound_split. intros _. left. set_solver.
  - sound_split. intros _. right. set_solver.
  - unfold sync_starts. destruct (pr_sync p) eqn:Hsync; try done.
    assert (sync_ended p = true → ∀ sync : SyncSide (DB:=DB), sync = PullTornDown ∨ ∃ w', PullRestarted true w' ∈ turns ++ [SyncStarts config db w]) as Hre.
    { intros [?|?]%Han; [done|]. by right. }
    destruct (pipeline _ _ _) as [daemon| |] eqn:Hpipe; [|by stage_only Hre..].
    apply pipeline_signals in Hpipe. by stage_only Hre.
  - by apply sound_pull_turn.
  - unfold pull_restarted. destruct (pr_sync p) as [|st w'|st|st| |] eqn:Hsync; try done.
    assert (shutdown_signals st = true) as Hs by (apply Hst; eauto).
    apply sound_sync; try done; [by stage_of|]. destruct torn; unfold teardown; rewrite ?Hs, ?orb_false_r.
    + intros _. right. exists w. set_solver.
    + intros [?|?]%Han; [done|by right].
  - destruct (pr_sync p) as [|st w|st|st| |] eqn:Hsync; try done.
    apply sound_sync; try done; [by stage_of|]. intros [?|?]%Han; [done|by right].
  - unfold serve_starts. destruct (pr_serve p) eqn:Hserve; try done.
    sound_split.
    + intros Ht. by specialize (Htold Ht).
    + intros st Hs. by specialize (Hdr st Hs).
    + intros Hs. by specialize (Htd Hs).
  - unfold serve_returns. destruct (pr_serve p) eqn:Hserve; try done.
    sound_split. intros _. set_solver.
  - unfold main_turn, run_until_shutdown. destruct (sync_end_future p) as [[]|] eqn:Hfut.
    + destruct (shutdown_ready (pr_shutdown p) && first) eqn:Hready.
      * apply andb_true_iff in Hready as [Hready _]. sound_split.
      * sound_split.
        -- intros Ht. by rewrite (Htold Ht).
        -- intros st Hs. by rewrite (Hdr st Hs).
        -- intros Hs. by rewrite (Htd Hs).
        -- intros Hs. destruct (pr_serve p); try done. by apply Hse.
    + destruct (shutdown_ready (pr_shutdown p)) eqn:Hready; [|done]. sound_split. intros _. by apply Hsig.
Qed.

Lemma run_turns_app t1 t2 (p : process) : after (t1 ++ t2) p = after t2 (after t1 p).
Proof. apply foldl_app. Qed.

Lemma run_turns_cons t turns (p : process) : after (t :: turns) p = after turns (next t p).
Proof. done. Qed.

Lemma sound_run turns : sound turns (after turns run_process).
Proof.
  induction turns as [|t turns IH] using rev_ind; [apply sound_start|].
  rewrite run_turns_app. by apply sound_step.
Qed.

(** C24: However the tasks of the run mode take turns, the process only ends
    the normal way after the server has ended by itself and the pull stage,
    told so, has been torn down; or because the sync side failed; or because
    gasket tore a worker down to restart it, which main takes for the end.  It
    is only killed when a signal came or a handler of signals was lost. *)
Theorem run_stops_for_a_reason turns :
  let p := after turns (run_process (DB:=DB)) in
  (pr_exit p = Some (Finished tt) →
    pr_sync p = PullTornDown ∧ pr_serve p = ServeEnded ∧ ServeReturns ∈ turns ∨
    pr_sync p = SyncFailed ∨ ∃ w, PullRestarted true w ∈ turns) ∧
  (pr_exit p = Some ProcessExit → Signal ∈ turns ∨ HandlerLost ∈ turns).
Proof.
  intros p. destruct (sound_run turns : sound turns p) as [_ Htold Hdr Htd Han Hse Hfin Hsig Hk].
  split; [|by intros ?%Hk%Hsig]. intros Hexit%Hfin. unfold sync_end_future in Hexit.
  destruct (sync_ended p) eqn:He.
  - destruct (Han eq_refl) as [Ht|?]; [|by right; right]. left. split_and!; [done|by apply Htd|by apply Hse, Htd].
  - destruct (pr_sync p) eqn:Hs; try done; [|by right; left]. left. split_and!; [done|by apply Htd|by apply Hse, Htd].
Qed.
(** How far the process is from its end, once the server has ended: the pull
    stage has not heard of it; has, and is to be torn down; is gone. *)
Definition stopping (k : nat) (p : process) : Prop :=
  match k with
  | 0 => pr_exit p ≠ None
  | 1 => sync_side_gone (pr_sync p) = true
  | 2 => ∃ st, pr_sync p = PullDraining st ∧ shutdown_signals st = true
  | _ => serve_ended p = true ∧ pr_serve p = ServeEnded ∧
         ∃ st w, pr_sync p = PullWorking st w ∧ shutdown_signals st = true
  end.
Definition within (k : nat) (p : process) : Prop := ∃ j, j ≤ k ∧ j ≤ 3 ∧ stopping j p.

Lemma within_exit k p : pr_exit p ≠ None → within k p.
Proof. intros He. exists 0. split_and!; [lia|lia|done]. Qed.

Lemma main_turn_cases first (p : process) : pr_exit p = None →
  pr_exit (main_turn first p) ≠ None ∨ sync_end_future p = None ∧ main_turn first p = p.
Proof.
  intros Hexit. unfold main_turn, run_until_shutdown. destruct (sync_end_future p) as [[]|].
  - left. by destruct (shutdown_ready (pr_shutdown p) && first).
  - destruct (shutdown_ready (pr_shutdown p)); [by left|by right].
Qed.

(** The turns that bring it nearer. *)
Definition advances (k : nat) (t : turn) : bool :=
  match k, t with
  | 0, _ => false
  | 1, MainTurn _ => true
  | 1, _ => false
  | _, PullTurn _ => true
  | _, _ => false
  end.

Lemma stopping_step k p t : k ≤ 3 → stopping k p → within (if advances k t then k - 1 else k) (next t p).
Proof.
  intros Hk Hs. unfold step. destruct (pr_exit p) as [e|] eqn:Hexit; [apply within_exit; congruence|].
  assert (∀ q : process, stopping k q → within k q) as Hstay by (intros q Hq; by exists k).
  destruct k as [|[|[|[|]]]]; [done| | | |lia].
  - cbn [stopping] in Hs. destruct t as [| |config db w|world|torn w| | | |first]; cbn [advances].
    9:{ destruct (main_turn_cases first p Hexit) as [He|[He _]]; [by apply within_exit|].
        unfold sync_end_future in He. by rewrite Hs, orb_true_r in He. }
    all: apply Hstay; cbn [stopping]; revert Hs;
      unfold sync_starts, pull_turn, pull_restarted, serve_starts, serve_returns;
      destruct (pr_sync p) eqn:Hsync; try done; destruct (pr_serve p); cbn [pr_sync with_shutdown]; by rewrite ?Hsync.
  - destruct Hs as (st & Hsync & Hs).
    destruct t as [| |config db w|world|torn w| | | |first]; cbn [advances]; try (apply Hstay; by exists st).
    + unfold sync_starts. rewrite Hsync. apply Hstay. by exists st.
    + unfold pull_turn. rewrite Hsync. unfold teardown. rewrite Hs, Hexit. exists 1. split_and!; [lia|lia|done].
    + unfold pull_restarted. rewrite Hsync. apply Hstay. by exists st.
    + rewrite Hsync. apply Hstay. by exists st.
    + apply Hstay. exists st. unfold serve_starts. by destruct (pr_serve p).
    + apply Hstay. exists st. unfold serve_returns. by destruct (pr_serve p).
    + destruct (main_turn_cases first p Hexit) as [He|[_ ->]]; [by apply within_exit|]. apply Hstay. by exists st.
  - pose proof Hs as (Htold & Hserve & st & w0 & Hsync & Hsig).
    destruct t as [| |config db w|world|torn w| | | |first]; cbn [advances]; try (by apply Hstay).
    + unfold sync_starts. rewrite Hsync. by apply Hstay.
    + unfold pull_turn. rewrite Hsync, Htold, schedule_told by done. exists 2. split_and!; [lia|lia|]. by exists st.
    + unfold pull_restarted. rewrite Hsync. by apply Hstay.
    + rewrite Hsync. by apply Hstay.
    + unfold serve_starts. rewrite Hserve. by apply Hstay.
    + unfold serve_returns. rewrite Hserve. by apply Hstay.
    + destruct (main_turn_cases first p Hexit) as [He|[_ ->]]; [by apply within_exit|]. by apply Hstay.
Qed.

Lemma within_mono j k p : j ≤ k → within j p → within k p.
Proof. intros Hjk (i & Hi & Hi3 & Hs). exists i. split_and!; [lia|done|done]. Qed.

Lemma within_step k p t : within k p → within k (next t p).
Proof.
  intros (j & Hj & Hj3 & Hs). eapply within_mono; [|by apply (stopping_step j)].
  destruct (advances j t); lia.
Qed.

Lemma within_run k turns : ∀ p, within k p → within k (after turns p).
Proof.
  induction turns as [|t turns IH]; intros p Hp; [done|]. apply (IH (next t p)). by apply within_step.
Qed.

Lemma within_advance k p t : advances k t = true → within k p → within (k - 1) (next t p).
Proof.
  intros Hadv (j & Hj & Hj3 & Hs). destruct (decide (j = k)) as [->|Hne].
  - pose proof (stopping_step k p t Hj3 Hs) as Hw. by rewrite Hadv in Hw.
  - eapply within_mono; [|by apply (stopping_step j)]. destruct (advances j t); lia.
Qed.
(** C23: When the server of the run mode ends, for whatever reason, while the
    pull stage works, the process ends as soon as the pull stage has had two
    more turns and main one after them, whatever the other tasks, the node and
    the signals do in between. *)
Theorem ended_server_stops_process before a b c d (w1 w2 : World) first :
  let p := after before (run_process (DB:=DB)) in
  pr_exit p = None → pr_serve p = Serving → (∃ st w, pr_sync p = PullWorking st w) →
  pr_exit (after (ServeReturns :: a ++ PullTurn w1 :: b ++ PullTurn w2 :: c ++ MainTurn first :: d) p) ≠ None.
Proof.
  intros p Hexit Hserve (st & w & Hsync).
  assert (shutdown_signals st = true) as Hsig by (apply (sd_stage _ _ (sound_run before)); eauto).
  assert (within 3 (next ServeReturns p)) as Hw.
  { exists 3. split_and!; [lia|lia|]. unfold step. rewrite Hexit. unfold serve_returns. rewrite Hserve.
    cbn [stopping serve_ended pr_serve pr_sync]. split_and!; [by rewrite Hsync|done|by exists st, w]. }
  apply (within_run _ a) in Hw. apply (within_advance 3 _ (PullTurn w1) eq_refl) in Hw.
  apply (within_run _ b) in Hw. apply (within_advance 2 _ (PullTurn w2) eq_refl) in Hw.
  apply (within_run _ c) in Hw. apply (within_advance 1 _ (MainTurn first) eq_refl) in Hw.
  apply (within_run _ d) in Hw. destruct Hw as (j & Hj & _ & Hs).
  assert (j = 0) as -> by (simpl in Hj; lia). repeat (rewrite run_turns_app || rewrite run_turns_cons). exact Hs.
Qed.
End ProcessLaws.

Module ProcessExamples.
Import Simple SimpleBitcoin SimpleNode StageExamples ChainExamples PeerExamples PullExamples.
#[local] Existing Instances simple_node simple_node_ok.
#[local] Instance simple_gasket : Gasket := {|
  RetryPolicy := N * N * N * N;
  retry_policy := λ retries unit factor max, (retries, unit, factor, max);
|}.

Definition ex_config : Config :=
  MkConfig (MkNodeConfig "localhost:8333" "" "" "") Regtest false None (Some 2%N) None None None [] None None.
Definition ex_empty : StorageHandler RefDB := MkStorage [] None false.

Abbreviation ex_after turns := (run_turns (Ext:=SimpleExt) (C:=SimpleCache) turns run_process).
Definition ex_started : list (Turn (DB:=RefDB)) :=
  [SyncStarts ex_config ex_empty ex_pull_worker; ServeStarts; PullTurn ex_world].

(** The address is taken: the server returns, the sync side is told. *)
Definition ex_stopping : list (Turn (DB:=RefDB)) :=
  [PullTurn ex_world; MainTurn false; PullTurn ex_world; MainTurn false].

Example stops_normally :
  let p := ex_after (ex_started ++ ServeReturns :: ex_stopping) in
  pr_exit p = Some (Finished tt) ∧ pr_sync p = PullTornDown ∧ pr_serve p = ServeEnded.
Proof. vm_compute. done. Qed.

(** A signal ends the process at once: the pull stage still works. *)
Example killed_while_working :
  let p := ex_after (ex_started ++ [Signal; MainTurn true]) in
  pr_exit p = Some ProcessExit ∧ pr_serve p = Serving ∧
  match pr_sync p with PullWorking _ _ => True | _ => False end.
Proof. vm_compute. done. Qed.

(** A pipeline that cannot start, too, is a normal end of the process. *)
Example failed_start_stops_normally (db : StorageHandler RefDB) :
  is_ok (pipeline (Ext:=SimpleExt) (C:=SimpleCache) ex_config db true) = false →
  pr_exit (ex_after [SyncStarts ex_config db ex_pull_worker; ServeStarts; MainTurn false]) = Some (Finished tt).
Proof.
  intros Hp. unfold run_turns. cbn [foldl step run_process pr_exit]. unfold sync_starts. cbn [pr_sync].
  by destruct (pipeline _ _ _).
Qed.

Lemma run_stops_for_a_reason_witness :
  let p := ex_after (ex_started ++ ServeReturns :: ex_stopping) in
  pr_exit p = Some (Finished tt) ∧
  (pr_sync p = PullTornDown ∧ pr_serve p = ServeEnded ∧ ServeReturns ∈ ex_started ++ ServeReturns :: ex_stopping ∨
   pr_sync p = SyncFailed ∨ ∃ w, PullRestarted true w ∈ ex_started ++ ServeReturns :: ex_stopping).
Proof.
  split; [vm_compute; reflexivity|].
  apply (proj1 (run_stops_for_a_reason (ex_started ++ ServeReturns :: ex_stopping))). vm_compute. reflexivity.
Defined.

Lemma ended_server_stops_process_witness :
  pr_exit (ex_after (ex_started ++ ServeReturns :: [Signal] ++ PullTurn ex_world :: [] ++ PullTurn ex_world :: [] ++ MainTurn false :: [])) ≠ None.
Proof.
  rewrite run_turns_app.
  apply (ended_server_stops_process ex_started [Signal] [] [] [] ex_world ex_world false).
  - vm_compute. reflexivity.
  - vm_compute. reflexivity.
  - eexists _, _. vm_compute. reflexivity.
Defined.
End ProcessExamples.
