(* ===== verification/Service.v ===== *)
(** * The service

    The whole of the sync side in motion: a process starts on the store the
    last one left (src/src/sync/pipeline.rs), the pull stage bootstraps and
    takes turns against the node, what it sends waits in the queue, and the
    index stage takes the events from there at its own pace; processes end and
    start again at any moment with an empty queue, on what is left of the
    commits.  The pull stage is given turns only while no rollback of stored
    blocks waits in the queue; [Race] has what happens otherwise. *)
From S2P Require Import Prelude Float ByteOrder EncDec Timestamp Types MergeOperation Table Rocks.
From S2P Require Import CoreTables KvStore KvStoreLaws Commit RollbackBuffer Bitcoin Context AddressIndexers.
From S2P Require Import RunesTables Runes Charms Indexers Stage Instances StageLaws Chain History Persist Durable Restart.
From S2P Require Import Peer PeerLaws Pull PullLaws PullChain Pipeline.

Section Service.
Context {DB : Type} `{RocksDBOk DB} `{HashOrderOk} `{BitcoinNode} `{!Ordinals} `{!CharmsLib} `{!Machine}.
Context {Ext : Type} `{!IndexMap TransactionIndexer (list byte) Ext}.
Context {C : Type} `{!MokaCache (Utxo Ext) C}.
Variable config : Config.

Abbreviation data st := (db_latest (sh_db (st_db st))).
Abbreviation genesis := (genesis_hash (cfg_network config)).

(** The handlers of the two stages are clones on one database; only the index
    stage commits. *)
Definition sharing (index : Stage DB C) : StorageHandler DB := MkStorage (sh_db (st_db index)) None false.

(** The pull stage of this configuration, on the database as it is now. *)
Definition pull_on (told : bool) (index : Stage DB C) : PullStage (DB:=DB) :=
  pull_stage_new config (sharing index) told.

(** The moving parts. *)
Record Live : Type := MkLive {
  lv_worker : Worker;
  lv_index : Stage DB C;
  lv_pull : PullWorker;
  lv_queue : list ChainEvent;
}.

(** The chain after the events that were worked through, and the one after
    those in the queue as well. *)
Definition stored_chain (events : list ChainEvent) : list BlockHash := foldl follow_event [] events.
Definition announced_chain (events : list ChainEvent) (l : Live) : list BlockHash :=
  foldl follow_event (stored_chain events) (lv_queue l).

(** [events] is what the index stage has worked through since the store was
    empty. *)
Inductive service : list ChainEvent → Live → Prop :=
| service_starts events w index told world session wp :
    life config events w index →
    pull_bootstrap world (Ok session) (pull_on told index) = Ok wp →
    service events (MkLive w index wp [])
| service_pulls events l told world s wp' :
    service events l → node_linked (lv_pull l) →
    (* no rollback of stored blocks waits in the queue *)
    stored_chain events `prefix_of` announced_chain events l →
    fits 64 (N.of_nat (length (announced_chain events l)) + 1 + block_page_size (pull_on told (lv_index l)))%N →
    pull_schedule world (pull_on told (lv_index l)) (lv_pull l) = Ok (s, wp') →
    service events (MkLive (lv_worker l) (lv_index l) wp' (lv_queue l ++ units_of s))
| service_indexes events w index wp event queue now w' index' :
    service events (MkLive w index wp (event :: queue)) →
    event_ok now w event index → execute now w event index = Ok (w', index') → small_after index' →
    service (events ++ [event]) (MkLive w' index' wp queue).

Context (Hgenesis : length (genesis_hash (cfg_network config)) = 32).
Context (Hfits : fits 64 (default DEFAULT_MAX_ROLLBACK (cfg_max_rollback config) + 2)).
Context (Hpage : (0 < default DEFAULT_BLOCK_PAGE_SIZE (cfg_block_page_size config))%N).

(** The index side of a service is a life. *)
Lemma service_life events l : service events l → life config events (lv_worker l) (lv_index l).
Proof.
  induction 1 as [| |events w index wp event queue now w' index' _ IH Hev Hx Hsmall]; [done|done|].
  by eapply life_event.
Qed.

Lemma service_tracks events l : service events l →
  ∃ I, tracks (lv_worker l) (lv_index l) I ∧ id_chain I = stored_chain events ∧ st_network (lv_index l) = cfg_network config.
Proof.
  intros Hs%service_life. destruct (life_tracks config Hgenesis Hfits _ _ _ Hs) as (I & HI & _ & [Hn _] & Hch).
  by exists I.
Qed.

Lemma tracks_holds w (index : Stage DB C) I told :
  tracks w index I → holds_chain (id_chain I) (pull_on told index).
Proof.
  intros HI. destruct (tk_chain _ _ _ HI) as (Hok & Hst & _).
  destruct (tk_ok _ _ _ HI) as [(Hf & Hlow & _) _]. split; [by split_and!|done|exact Hst].
Qed.

Lemma bootstrap_follows world session (st : PullStage (DB:=DB)) blocks w :
  holds_chain blocks st → pull_bootstrap world (Ok session) st = Ok w → follows (stage_genesis st :: blocks) w.
Proof.
  intros Hh Hb. destruct (stored_intersects_chain 64 blocks st Hh) as (l & Hl & _ & _ & Hd & He); [lia|apply Hh|].
  pose proof (holds_chain_on blocks st (stage_genesis st :: blocks) Hh (reflexivity _)) as Hst.
  unfold pull_bootstrap in Hb. cbn [or_retry map_err rbind] in Hb. rewrite Hl in Hb. cbn [or_panic map_err rbind] in Hb.
  apply res_bind_ok in Hb as (tip & _ & [= <-]). split; [exact (proj2 Hst _ Hl)|]. cbn [cursor].
  destruct (decide (blocks = [])) as [->|Hnb]; [rewrite He by done; by eexists|].
  destruct (Hd Hnb) as (tail & -> & _). eexists. split; [done|]. simpl. lia.
Qed.

(** The queue leads from the stored chain to the announced one, on which the
    cursor lies. *)
Record coupled (events : list ChainEvent) (l : Live) : Prop := {
  cp_queue : follow_all (genesis :: stored_chain events) (lv_queue l) = Some (genesis :: announced_chain events l);
  cp_cursor : follows (genesis :: announced_chain events l) (lv_pull l);
}.

Lemma coupled_pulls events l told world s wp' :
  service events l → coupled events l → node_linked (lv_pull l) →
  stored_chain events `prefix_of` announced_chain events l →
  fits 64 (N.of_nat (length (announced_chain events l)) + 1 + block_page_size (pull_on told (lv_index l)))%N →
  pull_schedule world (pull_on told (lv_index l)) (lv_pull l) = Ok (s, wp') →
  coupled events (MkLive (lv_worker l) (lv_index l) wp' (lv_queue l ++ units_of s)).
Proof.
  intros Hserve [Hq Hcur] Hnode Hpre Hlen Hs. destruct (service_tracks _ _ Hserve) as (I & HI & Hch & Hnet).
  assert (turn_ok (genesis :: announced_chain events l) (pull_on told (lv_index l)) (lv_pull l)) as Hturn.
  { split; [exact Hpage| |done|].
    - apply (holds_chain_on (stored_chain events)); [rewrite <-Hch; by eapply tracks_holds|].
      by apply prefix_cons.
    - cbn [length]. by replace (N.of_nat (S (length (announced_chain events l)))) with
        (N.of_nat (length (announced_chain events l)) + 1)%N by lia. }
  destruct (schedule_follows world _ _ _ _ s Hturn Hcur Hs) as (chain' & Hall & Hfol).
  pose proof (announced_events _ _ _ _ Hall) as ->.
  assert (announced_chain events (MkLive (lv_worker l) (lv_index l) wp' (lv_queue l ++ units_of s)) =
          foldl follow_event (announced_chain events l) (units_of s)) as Heq by (unfold announced_chain; cbn [lv_queue]; by rewrite foldl_app).
  split; cbn [lv_queue lv_pull]; rewrite Heq; [|done]. rewrite follow_all_app, Hq. exact Hall.
Qed.

Lemma coupled_indexes events w index wp event queue w' index' :
  coupled events (MkLive w index wp (event :: queue)) →
  coupled (events ++ [event]) (MkLive w' index' wp queue).
Proof.
  intros [Hq Hcur]. cbn [lv_queue lv_pull] in *.
  assert (stored_chain (events ++ [event]) = follow_event (stored_chain events) event) as Hst by (unfold stored_chain; by rewrite foldl_app).
  assert (announced_chain (events ++ [event]) (MkLive w' index' wp queue) =
          announced_chain events (MkLive w index wp (event :: queue))) as Han.
  { unfold announced_chain. cbn [lv_queue]. by rewrite Hst. }
  split; cbn [lv_queue lv_pull]; rewrite Han; [|done]. rewrite Hst. cbn [follow_all] in Hq.
  destruct (follow (genesis :: stored_chain events) event) as [c|] eqn:Hc; [|done]. cbn [mbind option_bind] in Hq.
  assert (follow_all (genesis :: stored_chain events) [event] = Some c) as Hone by (cbn [follow_all]; by rewrite Hc).
  apply announced_events in Hone. cbn [foldl] in Hone. by rewrite <-Hone.
Qed.

Lemma service_coupled events l : service events l → coupled events l.
Proof.
  induction 1 as [events w index told world session wp Hlife Hboot|events l told world s wp' Hserve IH Hn Hpre Hlen Hs
                 |events w index wp event queue now w' index' _ IH _ _ _].
  - destruct (life_tracks config Hgenesis Hfits _ _ _ Hlife) as (I & HI & _ & _ & Hch).
    split; cbn [lv_queue lv_pull]; [done|]. unfold announced_chain, stored_chain. cbn [lv_queue foldl]. rewrite <-Hch.
    eapply (bootstrap_follows world session (pull_on told index)); [by eapply tracks_holds|done].
  - by apply (coupled_pulls events l told world s wp').
  - by eapply coupled_indexes.
Qed.

(** C5: From an empty store on, through every bootstrap, every turn of the
    pull stage, every event worked through in the meantime and every restart
    of the process, the service follows the node: the store holds exactly the
    chain that the events worked through describe and the processed tip is its
    last block; the events in the queue lead from there to the chain that was
    announced; and the next request to the node starts from the tip of that.
    The pull stage reads the store while it takes a turn; a turn is taken here
    while no rollback of stored blocks waits in the queue. *)
Theorem service_follows_node events l :
  service events l →
  let stored := stored_chain events in
  let announced := announced_chain events l in
  stage_ok (lv_index l) ∧ chain_ok stored ∧ chain_stored stored (data (lv_index l)) ∧
  st_last_processed (lv_index l) = chain_tip genesis stored ∧
  follow_all (genesis :: stored) (lv_queue l) = Some (genesis :: announced) ∧
  Forall (on_chain (genesis :: announced)) (cursor (lv_pull l)) ∧
  head (cursor (lv_pull l)) = Some (chain_tip genesis announced).
Proof.
  intros Hs stored announced. destruct (service_coupled _ _ Hs) as [Hq Hcur].
  destruct (service_tracks _ _ Hs) as (I & HI & Hch & Hnet).
  destruct (tk_chain _ _ _ HI) as (Hcok & Hst & Htip). rewrite Hch, Hnet in *. rewrite (tk_tip _ _ _ HI) in Htip.
  split_and!; [apply HI|done|done|done|done|apply Hcur|by apply follows_tip].
Qed.
End Service.

(** ** Closed example: two blocks announced, one of them worked through *)
Module ServiceExamples.
Import Simple SimpleBitcoin SimpleNode StageExamples ChainExamples PeerExamples HistoryExamples PullExamples RestartExamples.
#[local] Existing Instances simple_node simple_node_ok.

Definition sv_config : Config :=
  MkConfig (MkNodeConfig "node:18444" "http://node:18443" "user" "pass") Regtest false (Some (F64 false 0 0)) (Some 2%N)
    None None None [FTxCountByAddress; FUtxosByAddress] (Some 2%N) (Some true).
Definition sv_born : Worker * SimpleStage := start sv_config ex_empty no_worker.

(** A node with two blocks above the genesis block. *)
Definition sv_session : Peer :=
  MkPeer true [[header_after (ex_hash x00)]; [header_after (ex_hash x00); header_after (ex_hash x01)]]
    [ex_hash x00; ex_hash x01] [].
Definition sv_world : World := MkWorld false (Ok [MkPoint 2 (ex_hash x02)]) (Err "") (Some 7%N).

Definition sv_pull : PullWorker :=
  unwrap_or ex_pull_worker (pull_bootstrap sv_world (Ok sv_session) (pull_on sv_config true sv_born.2)).
Definition sv_turn : PullSchedule * PullWorker :=
  unwrap_or (PullIdle, sv_pull) (pull_schedule sv_world (pull_on sv_config true sv_born.2) sv_pull).
Definition sv_first : ChainEvent := default (RollBack p1) (head (units_of sv_turn.1)).
Definition sv_queue : list ChainEvent := tail (units_of sv_turn.1).
Definition sv_next : Worker * SimpleStage :=
  unwrap_or sv_born (execute (at_second 100) sv_born.1 sv_first sv_born.2).

Abbreviation sv_live := (MkLive sv_next.1 sv_next.2 sv_turn.2 sv_queue).

Lemma sv_runs : service sv_config [sv_first] sv_live.
Proof.
  change [sv_first] with ([] ++ [sv_first]).
  apply (service_indexes sv_config [] sv_born.1 sv_born.2 sv_turn.2 sv_first sv_queue (at_second 100)).
  - replace (sv_first :: sv_queue) with ([] ++ units_of sv_turn.1) by (vm_compute; reflexivity).
    apply (service_pulls sv_config [] (MkLive sv_born.1 sv_born.2 sv_pull []) true sv_world sv_turn.1 sv_turn.2).
    + apply (service_starts sv_config [] sv_born.1 sv_born.2 true sv_world sv_session).
      * assert (start_ok sv_config ex_empty no_worker = true) as [Hn Hb]%start_run by (vm_compute; reflexivity).
        apply (lives_start sv_config _ _ ex_empty); [|reflexivity|exact Hn|exact Hb].
        split_and!; [vm_compute; reflexivity|vm_compute; reflexivity|exact I].
      * apply is_ok_unwrap. vm_compute. reflexivity.
    + unfold node_linked. repeat (apply Forall_cons; split; [vm_compute; repeat split; reflexivity|]). by apply Forall_nil.
    + by exists [].
    + vm_compute. reflexivity.
    + rewrite <-surjective_pairing. apply is_ok_unwrap. vm_compute. reflexivity.
  - apply event_check_ok. vm_compute. reflexivity.
  - rewrite <-surjective_pairing. apply is_ok_unwrap. vm_compute. reflexivity.
  - apply small_check_ok. vm_compute. reflexivity.
Qed.

Lemma service_follows_node_witness :
  length sv_queue = 1 ∧
  let stored := stored_chain [sv_first] in
  let announced := announced_chain [sv_first] sv_live in
  stage_ok sv_next.2 ∧ chain_ok stored ∧ chain_stored stored (db_latest (sh_db (st_db sv_next.2))) ∧
  st_last_processed sv_next.2 = chain_tip (genesis_hash Regtest) stored ∧
  follow_all (genesis_hash Regtest :: stored) sv_queue = Some (genesis_hash Regtest :: announced) ∧
  Forall (on_chain (genesis_hash Regtest :: announced)) (cursor sv_turn.2) ∧
  head (cursor sv_turn.2) = Some (chain_tip (genesis_hash Regtest) announced).
Proof.
  split; [vm_compute; reflexivity|].
  refine (service_follows_node sv_config _ _ _ [sv_first] sv_live sv_runs); [reflexivity|vm_compute; reflexivity|vm_compute; reflexivity].
Defined.
End ServiceExamples.
