(* ===== verification/Race.v ===== *)
(** * A race between the two stages

    The pull stage takes part of its next locator from the store
    (src/src/sync/stages/pull/stage.rs, [fetch_chain_actions]) without waiting
    for the events it has sent.  [Service] therefore has it take a turn only
    while no rollback of stored blocks waits in the queue.  Here is why: a
    block in the locator that is no longer announced, and that the node answers
    from, stops the index stage.  The example is such a run, against a node
    that answers every request as it should: it leaves a branch and comes back
    to it while the index stage is behind. *)
From S2P Require Import Prelude Float ByteOrder EncDec Timestamp Types MergeOperation Table Rocks.
From S2P Require Import CoreTables KvStore KvStoreLaws Commit RollbackBuffer Bitcoin Context AddressIndexers.
From S2P Require Import RunesTables Runes Charms Indexers Stage Instances StageLaws Chain History Persist Durable Restart.
From S2P Require Import Peer PeerLaws Pull PullLaws PullChain Pipeline Service.

(** ** A block of the locator that is not announced any more *)
Section Abandoned.
Context {DB : Type} `{RocksDBOk DB} `{HashOrderOk} `{BitcoinNode} `{!Ordinals} `{!CharmsLib} `{!Machine}.
Context {Ext : Type} `{!IndexMap TransactionIndexer (list byte) Ext}.
Context {C : Type} `{!MokaCache (Utxo Ext) C}.

Lemma chain_tip_on_chain genesis (chain : list BlockHash) n :
  n <= length chain → on_chain (genesis :: chain) (chain_tip genesis (take n chain)).
Proof.
  intros Hn. unfold on_chain. rewrite chain_tip_height, Nat2N.id, length_take, Nat.min_l by done. unfold chain_tip.
  rewrite last_lookup, length_take, Nat.min_l by done. destruct n as [|n]; [done|].
  cbn [Nat.pred]. rewrite lookup_take_lt by lia. destruct (chain !! n) eqn:Hl; [exact Hl|].
  apply lookup_ge_None in Hl. lia.
Qed.

(** The points the worker can go back to are on its chain. *)
Lemma rollback_off_chain now w (index : Stage DB C) (I : Ideal) p :
  tracks w index I → (point_height p < u64_MAX)%N → ¬ on_chain (genesis_hash (st_network index) :: id_chain I) p →
  execute now w (RollBack p) index = Err WorkerPanic.
Proof.
  intros HI Hp Hoff. unfold execute. rewrite rollback_unknown_panics; [done|].
  pose proof (restores_points _ _ _ (tk_restores _ _ _ HI)) as Hpts. apply Forall_forall. intros e He Heq.
  apply (list_elem_of_fmap_2 pk_point) in He. rewrite Hpts, Heq in He. apply list_elem_of_fmap in He as (c & Hc & Hin).
  pose proof (tk_copies _ _ _ HI) as Hcop. rewrite Forall_forall in Hcop. destruct (Hcop c Hin) as [_ Hat].
  rewrite <-Hc in Hat. destruct Hat as (Hlen & _ & _ & Htip); [lia|]. apply Hoff. rewrite Htip. apply chain_tip_on_chain. lia.
Qed.

(** C14: An abandoned block in the locator stops the index stage.  When the cursor
    names a block that is not on the announced chain, below the height of its
    tip, and the node answers with headers above that block and delivers the
    blocks of one page, then the fetch does not fail: it sends, before
    anything else, a rollback to that block, which does not apply to the
    announced chain; and an index stage that has worked through everything
    that was announced before panics on it, whatever is in its buffer. *)
Theorem abandoned_block_stops_index (st : PullStage (DB:=DB)) (w : PullWorker) (chain : list BlockHash)
    (first : Header) (headers : list Header) (batches : list (list Header)) (raws rest : list RawBlock)
    (blocks : list Block) (options : list Point) (tip : Point) (h : u64) :
  let page := take (N.to_nat (block_page_size st)) (first :: headers) in
  let abandoned := MkPoint h (prev_blockhash first) in
  request_open (peer_session w) = true → headers_recv (peer_session w) = (first :: headers) :: batches →
  blocks_recv (peer_session w) = raws ++ rest → Forall3 answers (header_hash <$> page) raws blocks →
  stored_intersects st = Ok options → head (cursor w) = Some tip →
  cursor_map (cursor w) !! prev_blockhash first = Some h → (h < point_height tip < u64_MAX)%N →
  ¬ on_chain chain abandoned →
  ∃ events w', fetch_chain_actions st w = Ok (RollBack abandoned :: events, w') ∧
    follow_all chain (RollBack abandoned :: events) = None ∧
    ∀ now wi (index : Stage DB C) (I : Ideal),
      tracks wi index I → chain = genesis_hash (st_network index) :: id_chain I →
      execute now wi (RollBack abandoned) index = Err WorkerPanic.
Proof.
  intros page abandoned Hopen Hhr Hbr Hans Hopt Htip Hh Hlt Hoff.
  destruct (fetch_answered st w first headers batches raws rest blocks options h)
    as (events & peer & cursor' & tip' & Hfetch & _ & _ & Hfe & _); [done..|].
  apply forward_blocks_inv in Hfe as (evs & -> & _). unfold rollback_unit in Hfetch. rewrite Htip in Hfetch.
  rewrite decide_True in Hfetch by lia. eexists evs, _. split; [exact Hfetch|]. split.
  - cbn [follow_all follow]. by rewrite decide_False.
  - intros now wi index I HI ->. by eapply rollback_off_chain; [|cbn; lia|].
Qed.
End Abandoned.

Module Race.
Import Simple SimpleBitcoin SimpleNode StageExamples ChainExamples PeerExamples HistoryExamples PullExamples RestartExamples.
Import ServiceExamples.
#[local] Existing Instances simple_node simple_node_ok.

(** Pages of ten blocks, otherwise as in the example of [Service]. *)
Definition race_config : Config :=
  MkConfig (MkNodeConfig "node:18444" "http://node:18443" "user" "pass") Regtest false (Some (F64 false 0 0)) (Some 10%N)
    None None None [FTxCountByAddress; FUtxosByAddress] (Some 10%N) (Some true).

(** ** The node

    Its active chain above the genesis block. It looks for the first hash of
    the locator that is on that chain and answers with the headers above. *)
Abbreviation Chain := (list (Header (Bitcoin := simple_bitcoin))).

Fixpoint after_hash (h : BlockHash) (active : Chain) : option Chain :=
  match active with
  | [] => None
  | header :: active => if decide (next_hash header = h) then Some active else after_hash h active
  end.

Fixpoint answer (active : Chain) (locator : list BlockHash) : Chain :=
  match locator with
  | [] => active
  | h :: locator => default (answer active locator) (after_hash h active)
  end.

(** ** Two branches above the block at height 1 *)
Definition header (prev : byte) (nonce : list byte) : Header (Bitcoin := simple_bitcoin) := ex_hash prev ++ nonce.
Definition branch_a : Chain := [header x00 []; header x01 []].
Definition branch_b : Chain := [header x00 []; header x01 [x10]; header x12 []].
Definition branch_b_longer : Chain := branch_b ++ [header x13 []].
Definition branch_a_longer : Chain := branch_a ++ [header x02 []; header x03 []].

(** What the node sends in the session: the answer to the request that asks
    whether it is syncing, one answer for each turn below, and the blocks. *)
Definition race_answers : list Chain := [branch_a; branch_a; drop 1 branch_b; drop 3 branch_b_longer; drop 2 branch_a_longer].
Definition race_session : Peer := MkPeer true race_answers (concat (tail race_answers)) [].

(** One turn of the pull stage on the store of [index]. *)
Definition turn (index : SimpleStage) (w : PullWorker) : PullSchedule * PullWorker :=
  unwrap_or (PullIdle, w) (pull_schedule sv_world (pull_on race_config true index) w).

(** The index stage has worked through the first branch ... *)
Definition born : Worker * SimpleStage := start race_config ex_empty no_worker.
Definition boot : PullWorker := unwrap_or ex_pull_worker (pull_bootstrap sv_world (Ok race_session) (pull_on race_config true born.2)).
Definition turn_a := turn born.2 boot.
Definition block_1 : ChainEvent := default (RollBack p1) (units_of turn_a.1 !! 0).
Definition block_2 : ChainEvent := default (RollBack p1) (units_of turn_a.1 !! 1).
Definition run_event (s : Worker * SimpleStage) (n : nat) (event : ChainEvent) : Worker * SimpleStage :=
  unwrap_or s (execute (at_second (100 + N.of_nat n)) s.1 event s.2).
Definition indexed_1 := run_event born 0 block_1.
Definition indexed_2 := run_event indexed_1 1 block_2.
(** ... and is busy during three more turns. *)
Definition turn_b := turn indexed_2.2 turn_a.2.
Definition turn_b' := turn indexed_2.2 turn_b.2.
Definition turn_a' := turn indexed_2.2 turn_b'.2.

Definition race_queue : list ChainEvent := units_of turn_b.1 ++ units_of turn_b'.1.
Definition last_good : Worker * SimpleStage := foldl (λ s e, run_event s 2 e) indexed_2 race_queue.
Abbreviation returned := (MkPoint 2 (ex_hash x02)).
Abbreviation locator w := (point_hash <$> cursor w).

(** *** The parts of the run *)
Lemma turn_service (events : list ChainEvent) (l : Live (DB:=RefDB) (C:=SimpleCache)) (s : PullSchedule) (w' : PullWorker) :
  service (Ext:=SimpleExt) race_config events l → node_linked (lv_pull l) →
  stored_chain events `prefix_of` announced_chain events l →
  (N.of_nat (length (announced_chain events l)) + 11 <? 2 ^ 64)%N = true →
  pull_schedule sv_world (pull_on race_config true (lv_index l)) (lv_pull l) = Ok (s, w') →
  service (Ext:=SimpleExt) race_config events (MkLive (lv_worker l) (lv_index l) w' (lv_queue l ++ units_of s)).
Proof.
  intros Hs Hn Hp Hf Hr. apply (service_pulls race_config events l true sv_world s w'); [done..| |exact Hr].
  apply N.ltb_lt in Hf. unfold fits. cbn [pull_on pull_stage_new block_page_size]. change (default _ _) with 10%N. by rewrite <-N.add_assoc.
Qed.
Ltac solve_node := unfold node_linked; repeat (apply Forall_cons; split; [vm_compute; repeat split; reflexivity|]); by apply Forall_nil.
Ltac solve_run := unfold turn, run_event; rewrite <-surjective_pairing; apply is_ok_unwrap; vm_compute; reflexivity.

Lemma race_announces : service race_config [] (MkLive born.1 born.2 turn_a.2 [block_1; block_2]).
Proof.
  replace [block_1; block_2] with ([] ++ units_of turn_a.1) by (vm_compute; reflexivity).
  apply (turn_service [] (MkLive born.1 born.2 boot []) turn_a.1 turn_a.2).
  - apply (service_starts race_config [] born.1 born.2 true sv_world race_session).
    + assert (start_ok race_config ex_empty no_worker = true) as [Hn Hb]%start_run by (vm_compute; reflexivity).
      apply (lives_start race_config _ _ ex_empty); [|reflexivity|exact Hn|exact Hb].
      split_and!; [vm_compute; reflexivity|vm_compute; reflexivity|exact I].
    + apply is_ok_unwrap. vm_compute. reflexivity.
  - solve_node.
  - by exists [].
  - vm_compute. reflexivity.
  - solve_run.
Qed.

Lemma race_indexes : service race_config [block_1; block_2] (MkLive indexed_2.1 indexed_2.2 turn_a.2 []).
Proof.
  change [block_1; block_2] with ([block_1] ++ [block_2]).
  apply (service_indexes race_config [block_1] indexed_1.1 indexed_1.2 turn_a.2 block_2 [] (at_second 101)).
  - change [block_1] with ([] ++ [block_1]).
    apply (service_indexes race_config [] born.1 born.2 turn_a.2 block_1 [block_2] (at_second 100)); [apply race_announces|..].
    + apply event_check_ok. vm_compute. reflexivity.
    + solve_run.
    + apply small_check_ok. vm_compute. reflexivity.
  - apply event_check_ok. vm_compute. reflexivity.
  - solve_run.
  - apply small_check_ok. vm_compute. reflexivity.
Qed.

Lemma race_runs : service race_config [block_1; block_2] (MkLive indexed_2.1 indexed_2.2 turn_b.2 (units_of turn_b.1)).
Proof.
  change (units_of turn_b.1) with ([] ++ units_of turn_b.1).
  apply (turn_service [block_1; block_2] (MkLive indexed_2.1 indexed_2.2 turn_a.2 []) turn_b.1 turn_b.2).
  - apply race_indexes.
  - solve_node.
  - by exists [].
  - vm_compute. reflexivity.
  - solve_run.
Qed.

(** The pull stage must not take a turn while a rollback of stored blocks
    waits. Both blocks of a branch are stored when the node turns to another
    branch, which the pull stage announces in two turns while the index stage
    is busy; its locator then offers the block at height 2 of the store, which
    is no longer announced. When the node returns to the first branch it
    answers from that block, and the rollback that is sent does not apply to
    the announced chain: the index stage works through everything before it
    and panics. *)
Example returning_branch_panics :
  (* a service, and a node that answers as it should *)
  service race_config [block_1; block_2] (MkLive indexed_2.1 indexed_2.2 turn_b.2 (units_of turn_b.1)) ∧
  race_answers = [answer branch_a [ex_hash x00]; answer branch_a (locator boot); answer branch_b (locator turn_a.2);
    answer branch_b_longer (locator turn_b.2); answer branch_a_longer (locator turn_b'.2)] ∧
  (* the stored block that is not announced any more is offered, and answered *)
  stored_chain [block_1; block_2] = [ex_hash x01; ex_hash x02] ∧
  foldl follow_event (stored_chain [block_1; block_2]) race_queue = [ex_hash x01; ex_hash x12; ex_hash x13; ex_hash x14] ∧
  cursor turn_b'.2 !! 1 = Some returned ∧
  head (units_of turn_a'.1) = Some (RollBack returned) ∧
  follow_all [ex_hash x00; ex_hash x01; ex_hash x02] (race_queue ++ units_of turn_a'.1) = None ∧
  (* the index stage *)
  st_last_processed last_good.2 = MkPoint 4 (ex_hash x14) ∧
  execute ex_now last_good.1 (RollBack returned) last_good.2 = Err WorkerPanic.
Proof. split_and!; [apply race_runs|vm_compute; reflexivity..]. Qed.

(** The fourth turn is the one of the theorem. *)
Definition race_options : list Point := unwrap_or [] (stored_intersects (pull_on race_config true indexed_2.2)).
Definition returned_block (header : Header (Bitcoin := simple_bitcoin)) : Block := unwrap_or (ex_block header) (block_decode header).

Example abandoned_block_stops_index_witness :
  ∃ events w', fetch_chain_actions (pull_on race_config true indexed_2.2) turn_b'.2 = Ok (RollBack returned :: events, w') ∧
    follow_all [ex_hash x00; ex_hash x01; ex_hash x12; ex_hash x13; ex_hash x14] (RollBack returned :: events) = None.
Proof.
  destruct (abandoned_block_stops_index (Ext:=SimpleExt) (C:=SimpleCache) (pull_on race_config true indexed_2.2) turn_b'.2
    [ex_hash x00; ex_hash x01; ex_hash x12; ex_hash x13; ex_hash x14] (header x02 []) [header x03 []] []
    [header x02 []; header x03 []] [] [returned_block (header x02 []); returned_block (header x03 [])] race_options
    (MkPoint 4 (ex_hash x14)) 2%N) as (events & w' & Hf & Ha & _).
  - vm_compute. reflexivity.
  - vm_compute. reflexivity.
  - vm_compute. reflexivity.
  - repeat (constructor; [split; vm_compute; reflexivity|]). constructor.
  - apply is_ok_unwrap. vm_compute. reflexivity.
  - vm_compute. reflexivity.
  - vm_compute. reflexivity.
  - split; vm_compute; reflexivity.
  - apply (bool_decide_eq_false_1 _). vm_compute. reflexivity.
  - exists events, w'. split; [exact Hf|exact Ha].
Defined.
End Race.
